(** * Shallow embedding of the drawio-mcp layout engine

    Source: [src/drawio_mcp/layout_engine.py], [src/drawio_mcp/models.py],
    [src/drawio_mcp/layout.py].

    Python floats are modelled by exact rationals [Q]; every concrete input
    used below is made of small integers and halves, on which the float
    computation of the source is exact.  Python's [round] (round half to
    even) is written out in [py_round].  Lists are Python lists; a Python
    dict whose iteration order matters is an association list kept in
    insertion order. *)

From Stdlib Require Import QArith Qround Qabs ZArith List String Bool Lia.
From Stdlib Require Import Lqa Permutation DecimalString DecimalZ DecimalPos.
Import ListNotations.

Open Scope Q_scope.

(** ** Numeric helpers *)

Definition Qltb (a b : Q) : bool := negb (Qle_bool b a).

(** Python's [min(a, b)] / [max(a, b)] on two numbers. *)
Definition pymin (a b : Q) : Q := if Qltb b a then b else a.
Definition pymax (a b : Q) : Q := if Qltb a b then b else a.

(** Python's [round(q)]: nearest integer, ties to the even one. *)
Definition py_round (q : Q) : Z :=
  let f := Qfloor q in
  let r := q - inject_Z f in
  if Qltb r (1#2) then f
  else if Qltb (1#2) r then (f + 1)%Z
  else if Z.even f then f else (f + 1)%Z.

(** [models.snap_to_grid]: [round(value / grid_size) * grid_size].  For
    [grid_size = 0] Python raises [ZeroDivisionError]; this total function
    gives 0 there ([Qdiv] by 0 is 0), a value Python never produces.  A
    call that snaps to a zero grid is therefore outside the model.  Where
    Python returns, no snap to a zero grid happened, and the model gives
    the same result; so a statement about the result of a call holds of
    Python's result whenever there is one, and the statements below that
    conclude that a call returns, adds cells or moves them assume a nonzero
    grid. *)
Definition snap_to_grid (value : Q) (grid_size : Z) : Q :=
  inject_Z (py_round (value / inject_Z grid_size)) * inject_Z grid_size.

(** A value is a multiple of the grid. *)
Definition on_grid (grid_size : Z) (v : Q) : Prop :=
  exists k : Z, v == inject_Z k * inject_Z grid_size.

(** ** [models.CellBounds] *)

Module Bounds.
Record t := mk { x : Q; y : Q; width : Q; height : Q }.
Definition right (b : t) : Q := x b + width b.
Definition bottom (b : t) : Q := y b + height b.
Definition cx (b : t) : Q := x b + width b / 2.
Definition cy (b : t) : Q := y b + height b / 2.

(** [CellBounds.intersects(other, margin)]. *)
Definition intersects (s o : t) (margin : Q) : bool :=
  negb (Qle_bool (right s + margin) (x o)
        || Qle_bool (right o + margin) (x s)
        || Qle_bool (bottom s + margin) (y o)
        || Qle_bool (bottom o + margin) (y s)).
End Bounds.

(** ** The layered layout's internal node [_Node] *)

Module LNode.
Record t := mk {
  id : string; label : string; width : Q; height : Q;
  rank : Z; order : Q; x : Q; y : Q; is_virtual : bool }.
Definition set_x (n : t) (v : Q) : t :=
  mk (id n) (label n) (width n) (height n) (rank n) (order n) v (y n) (is_virtual n).
Definition set_y (n : t) (v : Q) : t :=
  mk (id n) (label n) (width n) (height n) (rank n) (order n) (x n) v (is_virtual n).
End LNode.

(** Python list item assignment [l[i] = v] for an index in range. *)
Fixpoint set_nth {A} (i : nat) (l : list A) (v : A) : list A :=
  match l, i with
  | [], _ => []
  | _ :: l', O => v :: l'
  | a :: l', S i' => a :: set_nth i' l' v
  end.

(** The unordered pairs [(i, j)], [i < j < n], in the order of the two
    nested [for] loops of the source. *)
Definition index_pairs (n : nat) : list (nat * nat) :=
  flat_map (fun i => map (fun j => (i, j)) (seq (S i) (n - S i))) (seq 0 n).

(** ** Overlap removal of the layered layout ([_remove_overlaps]) *)

Section RemoveOverlaps.

(** [_compute_overlap(a, b, padding)]. *)
Definition compute_overlap (a b : LNode.t) (padding : Q) : Q * Q :=
  let a_right := LNode.x a + LNode.width a + padding in
  let b_right := LNode.x b + LNode.width b + padding in
  let a_bottom := LNode.y a + LNode.height a + padding in
  let b_bottom := LNode.y b + LNode.height b + padding in
  (pymin a_right b_right - pymax (LNode.x a) (LNode.x b),
   pymin a_bottom b_bottom - pymax (LNode.y a) (LNode.y b)).

(** The two nodes' padded boxes intersect: both overlaps are positive. *)
Definition padded_overlap (a b : LNode.t) (padding : Q) : bool :=
  let '(ox, oy) := compute_overlap a b padding in Qltb 0 ox && Qltb 0 oy.

(** The body of the inner loop for one pair: [None] when the pair does not
    overlap, otherwise the two pushed nodes. *)
Definition push_pair (a b : LNode.t) (padding : Q) : option (LNode.t * LNode.t) :=
  let '(overlap_x, overlap_y) := compute_overlap a b padding in
  if Qltb 0 overlap_x && Qltb 0 overlap_y then
    if Qltb overlap_x overlap_y then
      let push := overlap_x / 2 + 1 in
      if Qltb (LNode.x a) (LNode.x b)
      then Some (LNode.set_x a (LNode.x a - push), LNode.set_x b (LNode.x b + push))
      else Some (LNode.set_x a (LNode.x a + push), LNode.set_x b (LNode.x b - push))
    else
      let push := overlap_y / 2 + 1 in
      if Qltb (LNode.y a) (LNode.y b)
      then Some (LNode.set_y a (LNode.y a - push), LNode.set_y b (LNode.y b + push))
      else Some (LNode.set_y a (LNode.y a + push), LNode.set_y b (LNode.y b - push))
  else None.

Definition dummy_node : LNode.t := LNode.mk EmptyString EmptyString 0 0 0 0 0 0 false.

(** One step of the scan, on pair [(i, j)]: state is the node list and the
    [moved] flag. *)
Definition scan_step (padding : Q) (st : list LNode.t * bool) (ij : nat * nat)
  : list LNode.t * bool :=
  let '(ns, moved) := st in
  let '(i, j) := ij in
  match push_pair (nth i ns dummy_node) (nth j ns dummy_node) padding with
  | Some (a', b') => (set_nth j (set_nth i ns a') b', true)
  | None => (ns, moved)
  end.

(** One full scan of all unordered pairs. *)
Definition overlap_scan (padding : Q) (ns : list LNode.t) : list LNode.t * bool :=
  fold_left (scan_step padding) (index_pairs (List.length ns)) (ns, false).

(** The [for iteration in range(max_overlap_iterations)] loop.  The flag is
    [true] when the loop left through [break] (a scan moved nothing). *)
Fixpoint overlap_loop (iters : nat) (padding : Q) (ns : list LNode.t)
  : list LNode.t * bool :=
  match iters with
  | O => (ns, false)
  | S k =>
      let '(ns', moved) := overlap_scan padding ns in
      if moved then overlap_loop k padding ns' else (ns', true)
  end.

Definition snap_node (grid : Z) (n : LNode.t) : LNode.t :=
  LNode.set_y (LNode.set_x n (snap_to_grid (LNode.x n) grid))
              (snap_to_grid (LNode.y n) grid).

(** [_remove_overlaps(nodes, cfg)] with [cfg.max_overlap_iterations],
    [cfg.overlap_padding] and [cfg.grid_size]. *)
Definition remove_overlaps (max_iter : nat) (padding : Q) (grid : Z)
    (ns : list LNode.t) : list LNode.t :=
  map (snap_node grid) (fst (overlap_loop max_iter padding ns)).

End RemoveOverlaps.

(** ** The diagram document model ([models.Point], [Geometry], [MxCell],
    [Diagram]), restricted to the fields the layout engine reads or writes. *)

Module Point.
Record t := mk { x : Q; y : Q }.
End Point.

Module Geometry.
Record t := mk {
  x : Q; y : Q; width : Q; height : Q; relative : bool;
  points : list Point.t }.
Definition set_x (g : t) (v : Q) : t :=
  mk v (y g) (width g) (height g) (relative g) (points g).
Definition set_y (g : t) (v : Q) : t :=
  mk (x g) v (width g) (height g) (relative g) (points g).
Definition set_points (g : t) (ps : list Point.t) : t :=
  mk (x g) (y g) (width g) (height g) (relative g) ps.
(** [Geometry(relative=True)]. *)
Definition relative_default : t := mk 0 0 120 60 true [].
End Geometry.

Module MxCell.
Record t := mk {
  id : string; value : string; parent : string;
  vertex : bool; edge : bool;
  source : option string; target : option string;
  geometry : option Geometry.t }.
Definition set_geometry (c : t) (g : option Geometry.t) : t :=
  mk (id c) (value c) (parent c) (vertex c) (edge c) (source c) (target c) g.
End MxCell.

Record Diagram := mkDiagram { cells : list MxCell.t; grid_size : Z }.

Definition set_cells (d : Diagram) (cs : list MxCell.t) : Diagram :=
  mkDiagram cs (grid_size d).

(** Python truthiness of an [Optional[str]]. *)
Definition truthy (s : option string) : bool :=
  match s with Some s' => negb (String.eqb s' EmptyString) | None => false end.

(** Association lists with the semantics of a Python dict: assignment to an
    existing key keeps its position. *)
Fixpoint assoc {V} (k : string) (m : list (string * V)) : option V :=
  match m with
  | [] => None
  | (k', v) :: m' => if String.eqb k k' then Some v else assoc k m'
  end.

Fixpoint dict_set {V} (k : string) (v : V) (m : list (string * V)) : list (string * V) :=
  match m with
  | [] => [(k, v)]
  | (k', v') :: m' =>
      if String.eqb k k' then (k', v) :: m' else (k', v') :: dict_set k v m'
  end.

(** ** [layout.get_all_vertex_bounds] *)

Section VertexBounds.

Definition RawEntry : Type := (Q * Q * Q * Q * string)%type.

(** First pass: [raw[cell.id] = (x, y, width, height, cell.parent or "1")]
    for every vertex with a non-relative geometry. *)
Definition raw_entries (cs : list MxCell.t) : list (string * RawEntry) :=
  fold_left
    (fun raw (c : MxCell.t) =>
       match MxCell.geometry c with
       | Some g =>
           if MxCell.vertex c && negb (Geometry.relative g) then
             let par := if String.eqb (MxCell.parent c) EmptyString
                        then "1"%string else MxCell.parent c in
             dict_set (MxCell.id c)
               (Geometry.x g, Geometry.y g, Geometry.width g, Geometry.height g, par) raw
           else raw
       | None => raw
       end) cs [].

Definition is_root_parent (p : string) : bool :=
  String.eqb p "0" || String.eqb p "1" || String.eqb p EmptyString.

(** The recursive parent-chain walk [abs_pos].  A cyclic parent chain makes
    the Python recursion fail ([RecursionError]); here the walk is given one
    call per raw entry plus one, which an acyclic chain never exceeds, and
    [None] stands for the failure. *)
Fixpoint abs_pos (fuel : nat) (raw : list (string * RawEntry)) (cell_id : string)
  : option (Q * Q) :=
  match fuel with
  | O => None
  | S f =>
      match assoc cell_id raw with
      | None => Some (0, 0)
      | Some (x, y, _, _, par) =>
          if is_root_parent par then Some (x, y)
          else match abs_pos f raw par with
               | Some (px, py) => Some (px + x, py + y)
               | None => None
               end
      end
  end.

Fixpoint bounds_of_raw (raw_all raw : list (string * RawEntry))
  : option (list (string * Bounds.t)) :=
  match raw with
  | [] => Some []
  | (cid, (_, _, w, h, _)) :: rest =>
      match abs_pos (S (List.length raw_all)) raw_all cid, bounds_of_raw raw_all rest with
      | Some (ax, ay), Some bs => Some ((cid, Bounds.mk ax ay w h) :: bs)
      | _, _ => None
      end
  end.

Definition get_all_vertex_bounds (d : Diagram) : option (list (string * Bounds.t)) :=
  let raw := raw_entries (cells d) in bounds_of_raw raw raw.

End VertexBounds.

(** ** Standalone overlap resolution ([layout_engine.resolve_overlaps]) *)

Section ResolveOverlaps.

Definition dummy_bounds : Bounds.t := Bounds.mk 0 0 0 0.

(** The "Find the cells" loop: the last cell whose id is [a_id], and the
    last one whose id is [b_id] (checked in the [elif]). *)
Definition find_cells (cs : list MxCell.t) (a_id b_id : string) : option nat * option nat :=
  snd (fold_left
         (fun (st : nat * (option nat * option nat)) (c : MxCell.t) =>
            let '(i, (ia, ib)) := st in
            (S i, if String.eqb (MxCell.id c) a_id then (Some i, ib)
                  else if String.eqb (MxCell.id c) b_id then (ia, Some i)
                  else (ia, ib)))
         cs (O, (None, None))).

(** Assignment through [cell.geometry] of the cell at index [i]. *)
Definition update_geometry (cs : list MxCell.t) (i : nat) (f : Geometry.t -> Geometry.t)
  : list MxCell.t :=
  match nth_error cs i with
  | Some c =>
      match MxCell.geometry c with
      | Some g => set_nth i cs (MxCell.set_geometry c (Some (f g)))
      | None => cs
      end
  | None => cs
  end.

Definition move_x (grid : Z) (delta : Q) (g : Geometry.t) : Geometry.t :=
  Geometry.set_x g (snap_to_grid (Geometry.x g + delta) grid).
Definition move_y (grid : Z) (delta : Q) (g : Geometry.t) : Geometry.t :=
  Geometry.set_y g (snap_to_grid (Geometry.y g + delta) grid).

(** The body of the inner loop for the pair [(ids[i], ids[j])].  The state
    is the cell list, [any_overlap] and [moved_count]. *)
Definition resolve_step (grid : Z) (margin : Q) (bounds : list (string * Bounds.t))
    (st : list MxCell.t * bool * Z) (ij : nat * nat) : list MxCell.t * bool * Z :=
  let '(cs, any_overlap, moved_count) := st in
  let '(i, j) := ij in
  let '(a_id, a_bounds) := nth i bounds (EmptyString, dummy_bounds) in
  let '(b_id, b_bounds) := nth j bounds (EmptyString, dummy_bounds) in
  if negb (Bounds.intersects a_bounds b_bounds margin) then st else
  match find_cells cs a_id b_id with
  | (Some ia, Some ib) =>
      match nth_error cs ia, nth_error cs ib with
      | Some a_cell, Some b_cell =>
          match MxCell.geometry a_cell, MxCell.geometry b_cell with
          | Some _, Some _ =>
              let dx := Bounds.cx b_bounds - Bounds.cx a_bounds in
              let dy := Bounds.cy b_bounds - Bounds.cy a_bounds in
              let overlap_x :=
                (Bounds.width a_bounds / 2 + Bounds.width b_bounds / 2 + margin) - Qabs dx in
              let overlap_y :=
                (Bounds.height a_bounds / 2 + Bounds.height b_bounds / 2 + margin) - Qabs dy in
              if Qltb 0 overlap_x && Qltb 0 overlap_y then
                if Qltb overlap_x overlap_y then
                  let push := overlap_x / 2 + 1 in
                  if Qle_bool 0 dx then
                    (update_geometry (update_geometry cs ia (move_x grid (- push)))
                                     ib (move_x grid push), true, (moved_count + 1)%Z)
                  else
                    (update_geometry (update_geometry cs ia (move_x grid push))
                                     ib (move_x grid (- push)), true, (moved_count + 1)%Z)
                else
                  let push := overlap_y / 2 + 1 in
                  if Qle_bool 0 dy then
                    (update_geometry (update_geometry cs ia (move_y grid (- push)))
                                     ib (move_y grid push), true, (moved_count + 1)%Z)
                  else
                    (update_geometry (update_geometry cs ia (move_y grid push))
                                     ib (move_y grid (- push)), true, (moved_count + 1)%Z)
              else (cs, true, moved_count)
          | _, _ => (cs, true, moved_count)
          end
      | _, _ => (cs, true, moved_count)
      end
  | _ => (cs, true, moved_count)
  end.

Definition resolve_scan (grid : Z) (margin : Q) (bounds : list (string * Bounds.t))
    (cs : list MxCell.t) (moved : Z) : list MxCell.t * bool * Z :=
  fold_left (resolve_step grid margin bounds)
            (index_pairs (List.length bounds)) (cs, false, moved).

(** The [for iteration in range(max_iterations)] loop; the flag is [true]
    when the loop left through [break] ([any_overlap] stayed false).
    [None]: [get_all_vertex_bounds] failed. *)
Fixpoint resolve_loop (iters : nat) (margin : Q) (d : Diagram) (moved : Z)
  : option (Diagram * Z * bool) :=
  match iters with
  | O => Some (d, moved, false)
  | S k =>
      match get_all_vertex_bounds d with
      | None => None
      | Some bounds =>
          let '(cs', any_overlap, moved') :=
            resolve_scan (grid_size d) margin bounds (cells d) moved in
          if any_overlap then resolve_loop k margin (set_cells d cs') moved'
          else Some (set_cells d cs', moved', true)
      end
  end.

(** [resolve_overlaps(diagram, margin, max_iterations)]: the new diagram and
    the returned [moved_count]. *)
Definition resolve_overlaps (d : Diagram) (margin : Q) (max_iterations : nat)
  : option (Diagram * Z) :=
  match resolve_loop max_iterations margin d 0 with
  | Some (d', n, _) => Some (d', n)
  | None => None
  end.

End ResolveOverlaps.

(** ** Obstacle-aware orthogonal routing ([_route_orthogonal_astar] and
    its helpers) *)

Section Router.

(** [sorted(s)] of a Python [set] of floats built by adding the values of
    [l] in order: duplicates (by [==]) are dropped. *)
Fixpoint insert_sorted (v : Q) (l : list Q) : list Q :=
  match l with
  | [] => [v]
  | w :: l' =>
      if Qeq_bool v w then l
      else if Qltb v w then v :: l
      else w :: insert_sorted v l'
  end.

Definition sorted_set (l : list Q) : list Q :=
  fold_left (fun acc v => insert_sorted v acc) l [].

(** [_line_intersects_rect]: the Liang-Barsky test, [None] standing for the
    early [return False]. *)
Definition lb_step (st : option (Q * Q)) (pq : Q * Q) : option (Q * Q) :=
  match st with
  | None => None
  | Some (t0, t1) =>
      let '(edge_p, edge_q) := pq in
      if Qltb (Qabs edge_p) (1 # 1000000000) then
        if Qltb edge_q 0 then None else Some (t0, t1)
      else
        let t := edge_q / edge_p in
        if Qltb edge_p 0 then Some (pymax t0 t, t1) else Some (t0, pymin t1 t)
  end.

Definition line_intersects_rect (x1 y1 x2 y2 : Q) (rect : Bounds.t) : bool :=
  let dx := x2 - x1 in
  let dy := y2 - y1 in
  match fold_left lb_step
          [(- dx, x1 - Bounds.x rect); (dx, Bounds.right rect - x1);
           (- dy, y1 - Bounds.y rect); (dy, Bounds.bottom rect - y1)]
          (Some (0, 1)) with
  | None => false
  | Some (t0, t1) => Qle_bool t0 t1
  end.

(** [_seg_hits_rect]. *)
Definition seg_hits_rect (x1 y1 x2 y2 : Q) (rect : Bounds.t) : bool :=
  if Qltb (Qabs (x1 - x2)) (1 # 2) then
    Qle_bool (Bounds.x rect) x1 && Qle_bool x1 (Bounds.right rect)
    && Qle_bool (Bounds.y rect) (pymax y1 y2) && Qle_bool (pymin y1 y2) (Bounds.bottom rect)
  else if Qltb (Qabs (y1 - y2)) (1 # 2) then
    Qle_bool (Bounds.y rect) y1 && Qle_bool y1 (Bounds.bottom rect)
    && Qle_bool (Bounds.x rect) (pymax x1 x2) && Qle_bool (pymin x1 x2) (Bounds.right rect)
  else line_intersects_rect x1 y1 x2 y2 rect.

(** [_any_obstacle_on_segment]: obstacles expanded by the full margin. *)
Definition any_obstacle_on_segment (x1 y1 x2 y2 : Q) (obstacles : list Bounds.t)
    (margin : Q) : bool :=
  existsb (fun obs =>
             line_intersects_rect x1 y1 x2 y2
               (Bounds.mk (Bounds.x obs - margin) (Bounds.y obs - margin)
                          (Bounds.width obs + 2 * margin) (Bounds.height obs + 2 * margin)))
          obstacles.

(** The obstacle box expanded by half the margin, as built in
    [_segment_blocked]. *)
Definition half_expanded (margin : Q) (obs : Bounds.t) : Bounds.t :=
  Bounds.mk (Bounds.x obs - margin / 2) (Bounds.y obs - margin / 2)
            (Bounds.width obs + margin) (Bounds.height obs + margin).

(** The local function [_blocked]. *)
Definition blocked (obstacles : list Bounds.t) (margin : Q) (px py : Q) : bool :=
  existsb (fun obs =>
             Qltb (Bounds.x obs - margin / 2) px && Qltb px (Bounds.right obs + margin / 2)
             && Qltb (Bounds.y obs - margin / 2) py && Qltb py (Bounds.bottom obs + margin / 2))
          obstacles.

(** The local function [_segment_blocked]. *)
Definition segment_blocked (obstacles : list Bounds.t) (margin : Q) (x1 y1 x2 y2 : Q) : bool :=
  existsb (fun obs => seg_hits_rect x1 y1 x2 y2 (half_expanded margin obs)) obstacles.

(** Step 1: the candidate coordinates, in the order the source adds them. *)
Definition candidate_xs (src tgt : Bounds.t) (obstacles : list Bounds.t) (margin : Q)
    (grid_snap : Z) : list Q :=
  sorted_set
    ([Bounds.cx src; Bounds.cx tgt]
     ++ flat_map (fun obs => [snap_to_grid (Bounds.x obs - margin) grid_snap;
                              snap_to_grid (Bounds.right obs + margin) grid_snap]) obstacles
     ++ [snap_to_grid (Bounds.right src + margin) grid_snap;
         snap_to_grid (Bounds.x src - margin) grid_snap;
         snap_to_grid (Bounds.right tgt + margin) grid_snap;
         snap_to_grid (Bounds.x tgt - margin) grid_snap]).

Definition candidate_ys (src tgt : Bounds.t) (obstacles : list Bounds.t) (margin : Q)
    (grid_snap : Z) : list Q :=
  sorted_set
    ([Bounds.cy src; Bounds.cy tgt]
     ++ flat_map (fun obs => [snap_to_grid (Bounds.y obs - margin) grid_snap;
                              snap_to_grid (Bounds.bottom obs + margin) grid_snap]) obstacles
     ++ [snap_to_grid (Bounds.bottom src + margin) grid_snap;
         snap_to_grid (Bounds.y src - margin) grid_snap;
         snap_to_grid (Bounds.bottom tgt + margin) grid_snap;
         snap_to_grid (Bounds.y tgt - margin) grid_snap]).

Definition GNode : Type := (nat * nat)%type.

Definition gnode_eqb (a b : GNode) : bool :=
  Nat.eqb (fst a) (fst b) && Nat.eqb (snd a) (snd b).

(** The local function [_closest_node]: scan in [xi]-major order, keep the
    first strictly closer unblocked node; [best or (0, 0)].  One round of
    its loop: *)
Definition closest_step (xs ys : list Q) (obstacles : list Bounds.t) (margin : Q)
    (px py : Q) (st : option GNode * option Q) (xy : GNode) : option GNode * option Q :=
  let '(best, best_dist) := st in
  let gx := nth (fst xy) xs 0 in
  let gy := nth (snd xy) ys 0 in
  if blocked obstacles margin gx gy then st
  else
    let d := Qabs (gx - px) + Qabs (gy - py) in
    match best_dist with
    | Some bd => if Qltb d bd then (Some xy, Some d) else st
    | None => (Some xy, Some d)
    end.

Definition closest_node (xs ys : list Q) (obstacles : list Bounds.t) (margin : Q)
    (px py : Q) : GNode :=
  let '(best, _) :=
    fold_left (closest_step xs ys obstacles margin px py)
      (flat_map (fun xi => map (fun yi => (xi, yi)) (seq 0 (List.length ys)))
                (seq 0 (List.length xs)))
      (None, None) in
  match best with Some b => b | None => (O, O) end.

End Router.

(** ** The A* search of [_route_orthogonal_astar] *)

Section AStar.

(** Dicts keyed by grid nodes, in insertion order. *)
Fixpoint node_get {V} (k : GNode) (m : list (GNode * V)) : option V :=
  match m with
  | [] => None
  | (k', v) :: m' => if gnode_eqb k k' then Some v else node_get k m'
  end.

Fixpoint node_set {V} (k : GNode) (v : V) (m : list (GNode * V)) : list (GNode * V) :=
  match m with
  | [] => [(k, v)]
  | (k', v') :: m' =>
      if gnode_eqb k k' then (k', v) :: m' else (k', v') :: node_set k v m'
  end.

(** [came_from.get(n)], where a missing key and a stored [None] both give
    [None]. *)
Definition parent_of (came_from : list (GNode * option GNode)) (n : GNode) : option GNode :=
  match node_get n came_from with Some p => p | None => None end.

(** Heap entries [(f, (xi, yi))] and Python's tuple order on them. *)
Definition Entry : Type := (Q * GNode)%type.

Definition entry_lt (a b : Entry) : bool :=
  let '(fa, (xa, ya)) := a in
  let '(fb, (xb, yb)) := b in
  Qltb fa fb
  || (Qeq_bool fa fb && (Nat.ltb xa xb || (Nat.eqb xa xb && Nat.ltb ya yb))).

Fixpoint min_index (h : list Entry) (i : nat) (best : Entry) (bi : nat) : nat :=
  match h with
  | [] => bi
  | e :: h' => if entry_lt e best then min_index h' (S i) e i else min_index h' (S i) best bi
  end.

Fixpoint remove_nth {A} (i : nat) (l : list A) : list A :=
  match l, i with
  | [], _ => []
  | _ :: l', O => l'
  | a :: l', S i' => a :: remove_nth i' l'
  end.

(** [heapq.heappop]: a smallest entry leaves the heap. *)
Definition heap_pop (h : list Entry) : option (Entry * list Entry) :=
  match h with
  | [] => None
  | e :: h' => let bi := min_index h' 1 e 0 in Some (nth bi h e, remove_nth bi h)
  end.

Record SearchState := mkSearch {
  open_set : list Entry;
  came_from : list (GNode * option GNode);
  g_score : list (GNode * Q) }.

Variables (xs ys : list Q) (obstacles : list Bounds.t) (margin : Q) (goal : GNode).

Definition coord (n : GNode) : Q * Q := (nth (fst n) xs 0, nth (snd n) ys 0).

(** [_h]. *)
Definition heuristic (n : GNode) : Q :=
  Qabs (nth (fst n) xs 0 - nth (fst goal) xs 0) + Qabs (nth (snd n) ys 0 - nth (snd goal) ys 0).

(** The body of [for dxi, dyi in [...]] for the node [current]. *)
Definition relax (current : GNode) (st : SearchState) (dir : Z * Z) : SearchState :=
  let '(xi, yi) := current in
  let '(dxi, dyi) := dir in
  let nxi := (Z.of_nat xi + dxi)%Z in
  let nyi := (Z.of_nat yi + dyi)%Z in
  if (nxi <? 0)%Z || (Z.of_nat (List.length xs) <=? nxi)%Z
     || (nyi <? 0)%Z || (Z.of_nat (List.length ys) <=? nyi)%Z then st
  else
    let neighbor : GNode := (Z.to_nat nxi, Z.to_nat nyi) in
    let '(cx_val, cy_val) := coord current in
    let '(nx_val, ny_val) := coord neighbor in
    if segment_blocked obstacles margin cx_val cy_val nx_val ny_val then st
    else
      let dist0 := Qabs (nx_val - cx_val) + Qabs (ny_val - cy_val) in
      let dist :=
        match parent_of (came_from st) current with
        | Some (px, py) =>
            if Z.eqb (Z.of_nat xi - Z.of_nat px) dxi && Z.eqb (Z.of_nat yi - Z.of_nat py) dyi
            then dist0 else dist0 + 5
        | None => dist0
        end in
      let tent_g := match node_get current (g_score st) with
                    | Some g => g | None => 0 end + dist in
      let better := match node_get neighbor (g_score st) with
                    | Some g => Qltb tent_g g | None => true end in
      if better then
        mkSearch ((tent_g + heuristic neighbor, neighbor) :: open_set st)
                 (node_set neighbor (Some current) (came_from st))
                 (node_set neighbor tent_g (g_score st))
      else st.

Definition directions : list (Z * Z) := [(1, 0); (-1, 0); (0, 1); (0, -1)]%Z.

(** The [while open_set] loop.  [Some (found, came_from)]; [None] when the
    fuel runs out before the Python loop would stop. *)
Fixpoint search (fuel : nat) (st : SearchState)
  : option (bool * list (GNode * option GNode)) :=
  match fuel with
  | O => None
  | S f =>
      match heap_pop (open_set st) with
      | None => Some (false, came_from st)
      | Some ((_, current), rest) =>
          if gnode_eqb current goal then Some (true, came_from st)
          else search f (fold_left (relax current)
                                   directions
                                   (mkSearch rest (came_from st) (g_score st)))
      end
  end.

(** Step 4: follow [came_from] back from the goal; [None] when the chain
    does not end (the Python loop would not stop). *)
Fixpoint reconstruct (fuel : nat) (cf : list (GNode * option GNode)) (n : GNode)
  : option (list GNode) :=
  match fuel with
  | O => None
  | S f =>
      match parent_of cf n with
      | None => Some [n]
      | Some p => match reconstruct f cf p with
                  | Some l => Some (n :: l)
                  | None => None
                  end
      end
  end.

End AStar.

(** ** Path simplification, fallback and the router entry points *)

Section Route.

(** The slice [l[1:-1]]. *)
Definition inner {A} (l : list A) : list A := firstn (List.length l - 2) (tl l).

(** The bend test of [_simplify_path] at [c], between [p] and [n]. *)
Definition is_bend (p c n : Q * Q) : bool :=
  let '(px, py) := p in
  let '(cx, cy) := c in
  let '(nx, ny) := n in
  let dx1 := cx - px in
  let dy1 := cy - py in
  let dx2 := nx - cx in
  let dy2 := ny - cy in
  (Qltb (1 # 2) (Qabs dx1) && Qltb (1 # 2) (Qabs dy2))
  || (Qltb (1 # 2) (Qabs dy1) && Qltb (1 # 2) (Qabs dx2)).

(** [_simplify_path]. *)
Definition simplify_path (path : list (Q * Q)) : list (Q * Q) :=
  if Nat.leb (List.length path) 2 then
    if Nat.eqb (List.length path) 2 then inner path else []
  else
    let d := (0, 0) in
    let result :=
      [nth 0 path d]
      ++ flat_map (fun i => if is_bend (nth (i - 1) path d) (nth i path d) (nth (i + 1) path d)
                            then [nth i path d] else [])
                  (seq 1 (List.length path - 2))
      ++ [last path d] in
    if Nat.leb 2 (List.length result) then inner result else [].

(** Python's [min(l)] / [max(l)] on a non-empty list. *)
Definition list_min (a : Q) (l : list Q) : Q := fold_left pymin l a.
Definition list_max (a : Q) (l : list Q) : Q := fold_left pymax l a.

(** [_fallback_route]. *)
Definition fallback_route (src tgt : Bounds.t) (obstacles : list Bounds.t) (margin : Q)
    (grid_snap : Z) : list Point.t :=
  let all_tops := map Bounds.y obstacles in
  let all_bottoms := map Bounds.bottom obstacles in
  let route_above := match all_tops with
                     | [] => Bounds.cy src
                     | t :: ts => list_min t ts - margin * 2
                     end in
  let route_below := match all_bottoms with
                     | [] => Bounds.cy src
                     | b :: bs => list_max b bs + margin * 2
                     end in
  let mid_y := (Bounds.cy src + Bounds.cy tgt) / 2 in
  let route_y := if Qltb (Qabs (route_above - mid_y)) (Qabs (route_below - mid_y))
                 then route_above else route_below in
  [Point.mk (snap_to_grid (Bounds.cx src) grid_snap) (snap_to_grid route_y grid_snap);
   Point.mk (snap_to_grid (Bounds.cx tgt) grid_snap) (snap_to_grid route_y grid_snap)].

(** The number of loop rounds given to the A* search. *)
Definition search_fuel (xs ys : list Q) : nat :=
  let n := (List.length xs * List.length ys)%nat in (4 * n * n + 1)%nat.

(** [_route_orthogonal_astar]; [None] only when the search or the path
    reconstruction runs out of rounds. *)
Definition route_orthogonal_astar (src tgt : Bounds.t) (obstacles : list Bounds.t)
    (margin : Q) (grid_snap : Z) : option (list Point.t) :=
  let sx := Bounds.cx src in
  let sy := Bounds.cy src in
  let tx := Bounds.cx tgt in
  let ty := Bounds.cy tgt in
  if negb (any_obstacle_on_segment sx sy tx ty obstacles margin) then Some [] else
  let xs := candidate_xs src tgt obstacles margin grid_snap in
  let ys := candidate_ys src tgt obstacles margin grid_snap in
  let start := closest_node xs ys obstacles margin sx sy in
  let goal := closest_node xs ys obstacles margin tx ty in
  if gnode_eqb start goal then Some [] else
  match search xs ys obstacles margin goal (search_fuel xs ys)
               (mkSearch [(0, start)] [(start, None)] [(start, 0)]) with
  | None => None
  | Some (false, _) => Some (fallback_route src tgt obstacles margin grid_snap)
  | Some (true, cf) =>
      match reconstruct (S (List.length cf)) cf goal with
      | None => None
      | Some nodes =>
          let path := rev (map (coord xs ys) nodes) in
          Some (map (fun w => Point.mk (snap_to_grid (fst w) grid_snap)
                                       (snap_to_grid (snd w) grid_snap))
                    (simplify_path path))
      end
  end.

(** The bounds of every vertex other than the edge's source and target. *)
Definition obstacles_for (bounds : list (string * Bounds.t)) (s t : string) : list Bounds.t :=
  map snd (filter (fun kb => negb (String.eqb (fst kb) s) && negb (String.eqb (fst kb) t))
                  bounds).

(** The body of the loop of [route_edges_around_obstacles] for one cell:
    the new cell and whether it was counted. *)
Definition route_cell (bounds : list (string * Bounds.t)) (margin : Q) (grid : Z)
    (c : MxCell.t) : option (MxCell.t * bool) :=
  if negb (MxCell.edge c) || negb (truthy (MxCell.source c))
     || negb (truthy (MxCell.target c)) then Some (c, false) else
  match MxCell.source c, MxCell.target c with
  | Some s, Some t =>
      match assoc s bounds, assoc t bounds with
      | Some src_b, Some tgt_b =>
          match route_orthogonal_astar src_b tgt_b (obstacles_for bounds s t) margin grid with
          | Some waypoints =>
              let g := match MxCell.geometry c with
                       | Some g => g | None => Geometry.relative_default end in
              Some (MxCell.set_geometry c (Some (Geometry.set_points g waypoints)), true)
          | None => None
          end
      | _, _ => Some (c, false)
      end
  | _, _ => Some (c, false)
  end.

Fixpoint route_cells (bounds : list (string * Bounds.t)) (margin : Q) (grid : Z)
    (cs : list MxCell.t) : option (list MxCell.t * Z) :=
  match cs with
  | [] => Some ([], 0%Z)
  | c :: cs' =>
      match route_cell bounds margin grid c, route_cells bounds margin grid cs' with
      | Some (c', counted), Some (cs'', n) =>
          Some (c' :: cs'', if counted then (n + 1)%Z else n)
      | _, _ => None
      end
  end.

(** [route_edges_around_obstacles(diagram, margin)]: the new diagram and
    the returned count.  [None]: [get_all_vertex_bounds] failed or a search
    ran out of rounds. *)
Definition route_edges_around_obstacles (d : Diagram) (margin : Q) : option (Diagram * Z) :=
  match get_all_vertex_bounds d with
  | None => None
  | Some [] => Some (d, 0%Z)
  | Some bounds =>
      match route_cells bounds margin (grid_size d) (cells d) with
      | Some (cs, n) => Some (set_cells d cs, n)
      | None => None
      end
  end.

End Route.

(** ** Edge path optimization ([optimize_edge_paths] and its phases) *)

Section Optimize.

(** [==] on two lists of [(x, y)] tuples of floats. *)
Definition pt_eqb (a b : Q * Q) : bool :=
  Qeq_bool (fst a) (fst b) && Qeq_bool (snd a) (snd b).

Fixpoint pts_eqb (l m : list (Q * Q)) : bool :=
  match l, m with
  | [], [] => true
  | a :: l', b :: m' => pt_eqb a b && pts_eqb l' m'
  | _, _ => false
  end.

(** [_opt_remove_collinear]. *)
Definition opt_remove_collinear (path : list (Q * Q)) : list (Q * Q) :=
  if Nat.leb (List.length path) 2 then path else
  let d := (0, 0) in
  [nth 0 path d]
  ++ flat_map (fun i =>
                 let '(px, py) := nth (i - 1) path d in
                 let '(cx, cy) := nth i path d in
                 let '(nx, ny) := nth (i + 1) path d in
                 let same_x := Qltb (Qabs (px - cx)) 1 && Qltb (Qabs (cx - nx)) 1 in
                 let same_y := Qltb (Qabs (py - cy)) 1 && Qltb (Qabs (cy - ny)) 1 in
                 if negb same_x && negb same_y then [(cx, cy)] else [])
              (seq 1 (List.length path - 2))
  ++ [last path d].

(** One round of the loop of [_opt_straighten]; [result[-1]] is the last
    point appended. *)
Definition straighten_step (threshold : Q) (result : list (Q * Q)) (c : Q * Q)
  : list (Q * Q) :=
  let '(px, py) := last result (0, 0) in
  let '(cx, cy) := c in
  let c' :=
    if Qltb (Qabs (cx - px)) threshold && Qle_bool threshold (Qabs (cy - py)) then (px, cy)
    else if Qltb (Qabs (cy - py)) threshold && Qle_bool threshold (Qabs (cx - px))
    then (cx, py)
    else (cx, cy) in
  result ++ [c'].

(** [_opt_straighten]. *)
Definition opt_straighten (path : list (Q * Q)) (threshold : Q) : list (Q * Q) :=
  match path with
  | [] | [_] => path
  | p0 :: rest => fold_left (straighten_step threshold) rest [p0]
  end.

(** The inner [while i < len(path) - 1] loop of [_opt_shorten]:
    [Some (path, changed)]; [None] when the rounds run out. *)
Fixpoint shorten_inner (fuel : nat) (obstacles : list Bounds.t) (margin : Q)
    (path : list (Q * Q)) (i : nat) (changed : bool) : option (list (Q * Q) * bool) :=
  match fuel with
  | O => None
  | S f =>
      if Nat.ltb i (List.length path - 1) then
        let '(px, py) := nth (i - 1) path (0, 0) in
        let '(nx, ny) := nth (i + 1) path (0, 0) in
        if negb (any_obstacle_on_segment px py nx ny obstacles margin)
        then shorten_inner f obstacles margin (firstn i path ++ skipn (i + 1) path) i true
        else shorten_inner f obstacles margin path (S i) changed
      else Some (path, changed)
  end.

(** The outer [while changed] loop of [_opt_shorten]. *)
Fixpoint shorten_outer (fuel : nat) (obstacles : list Bounds.t) (margin : Q)
    (path : list (Q * Q)) : option (list (Q * Q)) :=
  match fuel with
  | O => None
  | S f =>
      match shorten_inner (2 * List.length path + 1) obstacles margin path 1 false with
      | Some (path', true) => shorten_outer f obstacles margin path'
      | Some (path', false) => Some path'
      | None => None
      end
  end.

(** [_opt_shorten]. *)
Definition opt_shorten (path : list (Q * Q)) (obstacles : list Bounds.t) (margin : Q)
  : option (list (Q * Q)) :=
  if Nat.leb (List.length path) 3 then Some path
  else shorten_outer (List.length path + 1) obstacles margin path.

(** The [-1e9] / [1e9] sentinels of [_opt_center_channels]. *)
Definition far : Q := 1000000000.

(** The obstacle loop for a vertical segment: [(left_bound, right_bound)]. *)
Definition channel_lr (obstacles : list Bounds.t) (margin seg_x seg_min_y seg_max_y : Q)
  : Q * Q :=
  fold_left
    (fun (lr : Q * Q) (obs : Bounds.t) =>
       let '(left_bound, right_bound) := lr in
       if Qltb (Bounds.bottom obs + margin) seg_min_y || Qltb seg_max_y (Bounds.y obs - margin)
       then lr
       else if Qle_bool (Bounds.right obs + margin) seg_x
       then (pymax left_bound (Bounds.right obs + margin), right_bound)
       else if Qle_bool seg_x (Bounds.x obs - margin)
       then (left_bound, pymin right_bound (Bounds.x obs - margin))
       else lr)
    obstacles (- far, far).

(** The obstacle loop for a horizontal segment: [(top_bound, bottom_bound)]. *)
Definition channel_tb (obstacles : list Bounds.t) (margin seg_y seg_min_x seg_max_x : Q)
  : Q * Q :=
  fold_left
    (fun (tb : Q * Q) (obs : Bounds.t) =>
       let '(top_bound, bottom_bound) := tb in
       if Qltb (Bounds.right obs + margin) seg_min_x || Qltb seg_max_x (Bounds.x obs - margin)
       then tb
       else if Qle_bool (Bounds.bottom obs + margin) seg_y
       then (pymax top_bound (Bounds.bottom obs + margin), bottom_bound)
       else if Qle_bool seg_y (Bounds.y obs - margin)
       then (top_bound, pymin bottom_bound (Bounds.y obs - margin))
       else tb)
    obstacles (- far, far).

(** One round [i] of the loop of [_opt_center_channels] on the list
    [result] it updates in place.  [0.4] is taken as [2/5]. *)
Definition center_step (obstacles : list Bounds.t) (margin : Q)
    (result : list (Q * Q)) (i : nat) : list (Q * Q) :=
  let '(ax, ay) := nth i result (0, 0) in
  let '(bx, by_) := nth (i + 1) result (0, 0) in
  if Qltb (Qabs (ax - bx)) 1 then
    let seg_x := ax in
    let '(left_bound, right_bound) :=
      channel_lr obstacles margin seg_x (pymin ay by_) (pymax ay by_) in
    if Qltb (- far) left_bound && Qltb right_bound far then
      let channel_center := (left_bound + right_bound) / 2 in
      let channel_width := right_bound - left_bound in
      if Qle_bool (margin * 2) channel_width
         && Qltb (Qabs (channel_center - seg_x)) (channel_width * (2 # 5))
      then set_nth (i + 1) (set_nth i result (channel_center, ay)) (channel_center, by_)
      else result
    else result
  else if Qltb (Qabs (ay - by_)) 1 then
    let seg_y := ay in
    let '(top_bound, bottom_bound) :=
      channel_tb obstacles margin seg_y (pymin ax bx) (pymax ax bx) in
    if Qltb (- far) top_bound && Qltb bottom_bound far then
      let channel_center := (top_bound + bottom_bound) / 2 in
      let channel_height := bottom_bound - top_bound in
      if Qle_bool (margin * 2) channel_height
         && Qltb (Qabs (channel_center - seg_y)) (channel_height * (2 # 5))
      then set_nth (i + 1) (set_nth i result (ax, channel_center)) (bx, channel_center)
      else result
    else result
  else result.

(** [_opt_center_channels]. *)
Definition opt_center_channels (path : list (Q * Q)) (obstacles : list Bounds.t)
    (margin : Q) : list (Q * Q) :=
  if Nat.ltb (List.length path) 2 then path
  else fold_left (center_step obstacles margin) (seq 0 (List.length path - 1)) path.

(** [cell.geometry.points if cell.geometry else []]. *)
Definition cell_points (c : MxCell.t) : list Point.t :=
  match MxCell.geometry c with Some g => Geometry.points g | None => [] end.

Definition pt_of (p : Point.t) : Q * Q := (Point.x p, Point.y p).

(** The condition that puts a cell in [edge_cells]. *)
Definition is_edge_cell (c : MxCell.t) : bool :=
  MxCell.edge c && truthy (MxCell.source c) && truthy (MxCell.target c).

(** The body of the loop of phases 1-4 for one cell of [edge_cells]: the
    new cell and whether it counts as modified.  [None]: [_opt_shorten] ran
    out of rounds. *)
Definition optimize_cell (bounds : list (string * Bounds.t)) (margin threshold : Q)
    (grid : Z) (c : MxCell.t) : option (MxCell.t * bool) :=
  match MxCell.source c, MxCell.target c with
  | Some s, Some t =>
      match assoc s bounds, assoc t bounds with
      | Some src_b, Some tgt_b =>
          match cell_points c with
          | [] => Some (c, false)
          | pts =>
              let obstacles := obstacles_for bounds s t in
              let original_coords := map pt_of pts in
              let full_path := [(Bounds.cx src_b, Bounds.cy src_b)] ++ original_coords
                               ++ [(Bounds.cx tgt_b, Bounds.cy tgt_b)] in
              let full_path := opt_remove_collinear full_path in
              let full_path := opt_straighten full_path threshold in
              match opt_shorten full_path obstacles margin with
              | None => None
              | Some full_path =>
                  let full_path := opt_center_channels full_path obstacles margin in
                  let new_waypoints :=
                    map (fun w => (snap_to_grid (fst w) grid, snap_to_grid (snd w) grid))
                        (inner full_path) in
                  if negb (pts_eqb new_waypoints original_coords) then
                    let g := match MxCell.geometry c with
                             | Some g => g | None => Geometry.relative_default end in
                    Some (MxCell.set_geometry c
                            (Some (Geometry.set_points g
                                     (map (fun w => Point.mk (fst w) (snd w)) new_waypoints))),
                          true)
                  else Some (c, false)
              end
          end
      | _, _ => Some (c, false)
      end
  | _, _ => Some (c, false)
  end.

(** Phases 1-4 over the cells of the diagram, in order. *)
Fixpoint optimize_cells (bounds : list (string * Bounds.t)) (margin threshold : Q)
    (grid : Z) (cs : list MxCell.t) : option (list MxCell.t * Z) :=
  match cs with
  | [] => Some ([], 0%Z)
  | c :: cs' =>
      match (if is_edge_cell c then optimize_cell bounds margin threshold grid c
             else Some (c, false)),
            optimize_cells bounds margin threshold grid cs' with
      | Some (c', m), Some (cs'', n) => Some (c' :: cs'', if m then (n + 1)%Z else n)
      | _, _ => None
      end
  end.

End Optimize.

(** ** Phase 5 of the optimizer ([_opt_separate_parallel_edges]) *)

Section Separate.

(** The local dataclass [_Segment]; [horizontal] is [orientation == "H"]. *)
Record Segment := mkSeg {
  edge_idx : nat; point_idx : nat; horizontal : bool;
  fixed_coord : Q; range_start : Q; range_end : Q }.

Definition dummy_seg : Segment := mkSeg 0 0 false 0 0 0.

(** The segments of the full path of edge [ei]. *)
Definition edge_segments (ei : nat) (full : list (Q * Q)) : list Segment :=
  flat_map (fun si =>
              let '(ax, ay) := nth si full (0, 0) in
              let '(bx, by_) := nth (si + 1) full (0, 0) in
              if Qltb (Qabs (ay - by_)) 1 then [mkSeg ei si true ay (pymin ax bx) (pymax ax bx)]
              else if Qltb (Qabs (ax - bx)) 1
              then [mkSeg ei si false ax (pymin ay by_) (pymax ay by_)]
              else [])
           (seq 0 (List.length full - 1)).

(** The segments of one edge of [edge_cells]: none when it has no points
    or when an end has no bounds. *)
Definition cell_segments (bounds : list (string * Bounds.t)) (ei : nat) (c : MxCell.t)
  : list Segment :=
  match cell_points c with
  | [] => []
  | pts =>
      match MxCell.source c, MxCell.target c with
      | Some s, Some t =>
          match assoc s bounds, assoc t bounds with
          | Some src_b, Some tgt_b =>
              edge_segments ei ([(Bounds.cx src_b, Bounds.cy src_b)] ++ map pt_of pts
                                ++ [(Bounds.cx tgt_b, Bounds.cy tgt_b)])
          | _, _ => []
          end
      | _, _ => []
      end
  end.

(** The loop that builds [segments], over [enumerate(edge_cells)]. *)
Definition collect_segments (bounds : list (string * Bounds.t)) (ecs : list MxCell.t)
  : list Segment :=
  flat_map (fun eic => cell_segments bounds (fst eic) (snd eic))
           (combine (seq 0 (List.length ecs)) ecs).

Definition mem (j : nat) (s : list nat) : bool := existsb (Nat.eqb j) s.

(** The tests of the inner loop that put segment [sj] in the cluster of [si]. *)
Definition seg_matches (spacing : Q) (si sj : Segment) : bool :=
  Bool.eqb (horizontal si) (horizontal sj)
  && negb (Nat.eqb (edge_idx si) (edge_idx sj))
  && negb (Qltb (spacing * 2) (Qabs (fixed_coord si - fixed_coord sj)))
  && negb (Qltb (range_end si) (range_start sj) || Qltb (range_end sj) (range_start si)).

(** The inner loop over [j]: the cluster of [i] and the [processed] set. *)
Definition cluster_of (spacing : Q) (segs : list Segment) (i : nat) (processed : list nat)
  : list nat * list nat :=
  fold_left
    (fun (st : list nat * list nat) (j : nat) =>
       let '(cluster, processed) := st in
       if mem j processed then st
       else if seg_matches spacing (nth i segs dummy_seg) (nth j segs dummy_seg)
       then (cluster ++ [j], j :: processed)
       else st)
    (seq (S i) (List.length segs - S i)) ([i], processed).

(** Point assignment [pts[w] = ...] guarded by [0 <= w < len(pts)]: the new
    list and whether it was made. *)
Definition set_point (horiz : bool) (new_coord : Q) (pts : list Point.t) (w : Z)
  : list Point.t * bool :=
  if (0 <=? w)%Z && (w <? Z.of_nat (List.length pts))%Z then
    let p := nth (Z.to_nat w) pts (Point.mk 0 0) in
    (set_nth (Z.to_nat w) pts
       (if horiz then Point.mk (Point.x p) new_coord else Point.mk new_coord (Point.y p)),
     true)
  else (pts, false).

(** One round of [for idx, seg in enumerate(cluster_segs)]; the state is
    the list [edge_cells], whose points are updated in place, and
    [modified]. *)
Definition spread_one (grid : Z) (spacing start_offset : Q)
    (st : list MxCell.t * Z) (idx_seg : nat * Segment) : list MxCell.t * Z :=
  let '(ecs, modified) := st in
  let '(idx, seg) := idx_seg in
  let new_coord := snap_to_grid (start_offset + inject_Z (Z.of_nat idx) * spacing) grid in
  if Qltb (Qabs (new_coord - fixed_coord seg)) 1 then st else
  match nth_error ecs (edge_idx seg) with
  | None => st
  | Some cell =>
      match MxCell.geometry cell with
      | None => st
      | Some g =>
          match Geometry.points g with
          | [] => st
          | pts =>
              let wp_start := (Z.of_nat (point_idx seg) - 1)%Z in
              let wp_end := Z.of_nat (point_idx seg) in
              let '(pts1, ch1) := set_point (horizontal seg) new_coord pts wp_start in
              let '(pts2, ch2) := set_point (horizontal seg) new_coord pts1 wp_end in
              if ch1 || ch2 then
                (set_nth (edge_idx seg) ecs
                   (MxCell.set_geometry cell (Some (Geometry.set_points g pts2))),
                 (modified + 1)%Z)
              else st
          end
      end
  end.

(** One round [i] of the outer loop over the segments. *)
Definition separate_step (grid : Z) (spacing : Q) (segs : list Segment)
    (st : list MxCell.t * Z * list nat) (i : nat) : list MxCell.t * Z * list nat :=
  let '(ecs, modified, processed) := st in
  if mem i processed then st else
  let '(cluster, processed) := cluster_of spacing segs i processed in
  if Nat.ltb (List.length cluster) 2 then (ecs, modified, processed) else
  let processed := cluster ++ processed in
  let cluster_segs := map (fun k => nth k segs dummy_seg) cluster in
  let n := List.length cluster_segs in
  let avg_coord := fold_left Qplus (map fixed_coord cluster_segs) 0 / inject_Z (Z.of_nat n) in
  let total_span := inject_Z (Z.of_nat n - 1) * spacing in
  let start_offset := avg_coord - total_span / 2 in
  let '(ecs, modified) :=
    fold_left (spread_one grid spacing start_offset)
              (combine (seq 0 n) cluster_segs) (ecs, modified) in
  (ecs, modified, processed).

(** [_opt_separate_parallel_edges(edge_cells, bounds, spacing, grid)]: the
    updated edge cells and the returned count. *)
Definition separate_parallel_edges (ecs : list MxCell.t) (bounds : list (string * Bounds.t))
    (spacing : Q) (grid : Z) : list MxCell.t * Z :=
  if Nat.ltb (List.length ecs) 2 then (ecs, 0%Z) else
  let segs := collect_segments bounds ecs in
  let '(ecs, modified, _) :=
    fold_left (separate_step grid spacing segs) (seq 0 (List.length segs)) (ecs, 0%Z, []) in
  (ecs, modified).

End Separate.

(** The cells of [edge_cells] are the diagram's own cell objects: put the
    updated ones back in their places. *)
Fixpoint write_back (cs ecs : list MxCell.t) : list MxCell.t :=
  match cs with
  | [] => []
  | c :: cs' =>
      if is_edge_cell c then
        match ecs with
        | e :: ecs' => e :: write_back cs' ecs'
        | [] => c :: write_back cs' []
        end
      else c :: write_back cs' ecs
  end.

(** [optimize_edge_paths(diagram, margin, straighten_threshold,
    nudge_spacing)]: the new diagram and the returned count.  [None]:
    [get_all_vertex_bounds] failed or [_opt_shorten] ran out of rounds. *)
Definition optimize_edge_paths (d : Diagram) (margin straighten_threshold nudge_spacing : Q)
  : option (Diagram * Z) :=
  match get_all_vertex_bounds d with
  | None => None
  | Some [] => Some (d, 0%Z)
  | Some bounds =>
      let grid := if Z.eqb (grid_size d) 0 then 10%Z else grid_size d in
      match optimize_cells bounds margin straighten_threshold grid (cells d) with
      | None => None
      | Some (cs, modified) =>
          let '(ecs, m5) :=
            separate_parallel_edges (filter is_edge_cell cs) bounds nudge_spacing grid in
          Some (set_cells d (write_back cs ecs), (modified + m5)%Z)
      end
  end.

(** A grid node whose indices are in range. *)
Definition in_grid (xs ys : list Q) (n : GNode) : bool :=
  Nat.ltb (fst n) (List.length xs) && Nat.ltb (snd n) (List.length ys).

(** A single move of the grid search: between nodes of the grid, to a
    4-neighbour, along a segment that [_segment_blocked] lets through. *)
Definition move_ok (xs ys : list Q) (obstacles : list Bounds.t) (margin : Q)
    (a b : GNode) : bool :=
  in_grid xs ys a && in_grid xs ys b &&
  existsb (fun d => Z.eqb (Z.of_nat (fst b) - Z.of_nat (fst a)) (fst d)
                    && Z.eqb (Z.of_nat (snd b) - Z.of_nat (snd a)) (snd d)) directions
  && negb (segment_blocked obstacles margin (fst (coord xs ys a)) (snd (coord xs ys a))
                                            (fst (coord xs ys b)) (snd (coord xs ys b))).

(** Every parent link of [came_from] records a legal move. *)
Definition links_ok (xs ys : list Q) (obstacles : list Bounds.t) (margin : Q)
    (cf : list (GNode * option GNode)) : Prop :=
  forall n p, node_get n cf = Some (Some p) -> move_ok xs ys obstacles margin p n = true.

(** Adjacent lines of a sorted candidate list are more than 0.5 apart,
    the tolerance of the bend test of [_simplify_path]. *)
Fixpoint lines_apart (l : list Q) : bool :=
  match l with
  | a :: ((b :: _) as t) => Qltb (1 # 2) (Qabs (b - a)) && lines_apart t
  | _ => true
  end.

(** Every two consecutive elements of a list are related by [R]. *)
Fixpoint chain {A} (R : A -> A -> Prop) (l : list A) : Prop :=
  match l with
  | a :: ((b :: _) as t) => R a b /\ chain R t
  | _ => True
  end.

(** A step that keeps one coordinate and moves the other by more than 0.5. *)
Definition axis_step (p c : Q * Q) : Prop :=
  (fst p = fst c /\ 1 # 2 < Qabs (snd c - snd p))
  \/ (snd p = snd c /\ 1 # 2 < Qabs (fst c - fst p)).

(** The points kept by the loop of [_simplify_path], walking the path from
    the point [p] and its successor [c]. *)
Fixpoint kept (p c : Q * Q) (rest : list (Q * Q)) : list (Q * Q) :=
  match rest with
  | [] => []
  | n :: rest' => (if is_bend p c n then [c] else []) ++ kept c n rest'
  end.

(** An edge cell whose source and target are set, one of which has no
    entry in the vertex bounds. *)
Definition ends_unbounded (bounds : list (string * Bounds.t)) (c : MxCell.t) : bool :=
  match MxCell.source c, MxCell.target c with
  | Some s, Some t =>
      match assoc s bounds, assoc t bounds with
      | Some _, Some _ => false
      | _, _ => true
      end
  | _, _ => false
  end.

(** * Concrete inputs *)

(** ** Cycle removal and rank assignment of [layout_sugiyama] *)

(** Outcome of a computation that can raise or run out of fuel. *)
Inductive Outcome (A : Type) := Done (a : A) | Raises | OutOfFuel.
Arguments Done {A} a.
Arguments Raises {A}.
Arguments OutOfFuel {A}.

Section Sugiyama.

(** A [dict[str, list[str]]] (a [defaultdict(list)]), in insertion order. *)
Definition Adj : Type := list (string * list string).

(** [adj.get(u, [])]. *)
Definition adj_get (adj : Adj) (u : string) : list string :=
  match assoc u adj with Some l => l | None => [] end.

(** [adj[s].append(t)] on a [defaultdict(list)]. *)
Definition adj_append (adj : Adj) (s t : string) : Adj :=
  dict_set s (adj_get adj s ++ [t]) adj.

(** The loop over [edges] of [layout_sugiyama]: [all_labels] (a Python
    set; its iteration order is the hash order, taken here as the order of
    first appearance), [adj] and [reverse_adj]. *)
Definition collect_graph (edges : list (string * string * string))
  : list string * Adj * Adj :=
  fold_left
    (fun st (e : string * string * string) =>
       let '(labels, adj, radj) := st in
       let '(src, tgt, _) := e in
       let labels1 := if existsb (String.eqb src) labels then labels else labels ++ [src] in
       let labels2 := if existsb (String.eqb tgt) labels1 then labels1 else labels1 ++ [tgt] in
       (labels2, adj_append adj src tgt, adj_append radj tgt src))
    edges ([], [], []).

Inductive Color := WHITE | GRAY | BLACK.

Definition color_eqb (a b : Color) : bool :=
  match a, b with
  | WHITE, WHITE | GRAY, GRAY | BLACK, BLACK => true
  | _, _ => false
  end.

(** [back_edges.add((u, v))] on a set of pairs. *)
Definition pair_add (s : list (string * string)) (p : string * string) : list (string * string) :=
  if existsb (fun q => String.eqb (fst q) (fst p) && String.eqb (snd q) (snd p)) s
  then s else s ++ [p].

(** The [while stack] loop of [_find_back_edges]; the top of the stack is
    the head of the list.  [None]: out of fuel. *)
Fixpoint dfs_loop (fuel : nat) (adj : Adj) (color : list (string * Color))
    (stack : list (string * nat)) (back : list (string * string))
  : option (list (string * Color) * list (string * string)) :=
  match fuel with
  | O => None
  | S fuel' =>
      match stack with
      | [] => Some (color, back)
      | (u, idx) :: rest =>
          let neighbors := adj_get adj u in
          if Nat.ltb idx (List.length neighbors) then
            let stack' := (u, S idx) :: rest in
            let v := nth idx neighbors EmptyString in
            match assoc v color with
            | None => dfs_loop fuel' adj color stack' back
            | Some GRAY => dfs_loop fuel' adj color stack' (pair_add back (u, v))
            | Some WHITE => dfs_loop fuel' adj (dict_set v GRAY color) ((v, O) :: stack') back
            | Some BLACK => dfs_loop fuel' adj color stack' back
            end
          else dfs_loop fuel' adj (dict_set u BLACK color) rest back
      end
  end.

(** [_find_back_edges(all_nodes, adj)], [all_nodes] in iteration order. *)
Definition find_back_edges (fuel : nat) (all_nodes : list string) (adj : Adj)
  : option (list (string * string)) :=
  let color0 := map (fun n => (n, WHITE)) all_nodes in
  match fold_left
    (fun (st : option (list (string * Color) * list (string * string))) start =>
       match st with
       | None => None
       | Some (color, back) =>
           match assoc start color with
           | Some WHITE => dfs_loop fuel adj (dict_set start GRAY color) [(start, O)] back
           | _ => Some (color, back)
           end
       end) all_nodes (Some (color0, [])) with
  | Some (_, back) => Some back
  | None => None
  end.

Definition is_back (back : list (string * string)) (s t : string) : bool :=
  existsb (fun q => String.eqb (fst q) s && String.eqb (snd q) t) back.

(** The "Step 1" loops of [layout_sugiyama]: [effective_adj] and
    [effective_rev], back-edges reversed. *)
Definition effective_graph (adj : Adj) (back : list (string * string)) : Adj * Adj :=
  fold_left
    (fun st (e : string * list string) =>
       let '(src, tgts) := e in
       fold_left
         (fun st' tgt =>
            let '(eadj, erev) := st' in
            if is_back back src tgt
            then (adj_append eadj tgt src, adj_append erev src tgt)
            else (adj_append eadj src tgt, adj_append erev tgt src))
         tgts st)
    adj ([], []).

(** [ranks[n]]; [n] is always ranked where it is read. *)
Definition rank_of (ranks : list (string * Z)) (n : string) : Z :=
  match assoc n ranks with Some r => r | None => 0%Z end.

(** The body of [for child in adj.get(node, [])]. *)
Definition rank_child (node : string) (st : list (string * Z) * list string) (child : string)
  : list (string * Z) * list string :=
  let '(ranks, queue) := st in
  let new_rank := (rank_of ranks node + 1)%Z in
  match assoc child ranks with
  | Some r => if Z.ltb r new_rank then (dict_set child new_rank ranks, queue ++ [child])
              else (ranks, queue)
  | None => (dict_set child new_rank ranks, queue ++ [child])
  end.

(** The [while queue] loop of [_assign_ranks_longest_path];
    [popleft] takes the head.  [None]: out of fuel. *)
Fixpoint bfs_loop (fuel : nat) (adj : Adj) (ranks : list (string * Z)) (queue : list string)
  : option (list (string * Z)) :=
  match fuel with
  | O => None
  | S fuel' =>
      match queue with
      | [] => Some ranks
      | node :: queue' =>
          let '(ranks', queue'') := fold_left (rank_child node) (adj_get adj node) (ranks, queue') in
          bfs_loop fuel' adj ranks' queue''
      end
  end.


(** [_assign_ranks_longest_path(all_nodes, adj, rev_adj)].  With no node,
    [next(iter(all_nodes))] raises [StopIteration]. *)
Definition assign_ranks_longest_path (fuel : nat) (all_nodes : list string) (adj rev_adj : Adj)
  : Outcome (list (string * Z)) :=
  let sources0 := filter (fun n => match adj_get rev_adj n with [] => true | _ => false end)
                         all_nodes in
  match (match sources0 with
         | [] => match all_nodes with [] => None | n :: _ => Some [n] end
         | _ => Some sources0
         end) with
  | None => Raises
  | Some sources =>
      let ranks0 := fold_left (fun r s => dict_set s 0%Z r) sources [] in
      match bfs_loop fuel adj ranks0 sources with
      | None => OutOfFuel
      | Some ranks =>
          Done (fold_left (fun r n => match assoc n r with
                                      | Some _ => r
                                      | None => dict_set n 0%Z r end) all_nodes ranks)
      end
  end.

(** Steps 1 and 2 of [layout_sugiyama]: the back-edges, the effective
    graph and the ranks. *)
Definition sugiyama_ranks (fuel : nat) (edges : list (string * string * string))
  : Outcome (list (string * string) * Adj * list (string * Z)) :=
  let '(labels, adj, _) := collect_graph edges in
  match find_back_edges fuel labels adj with
  | None => OutOfFuel
  | Some back =>
      let '(eadj, erev) := effective_graph adj back in
      match assign_ranks_longest_path fuel labels eadj erev with
      | Done ranks => Done (back, eadj, ranks)
      | Raises => Raises
      | OutOfFuel => OutOfFuel
      end
  end.

End Sugiyama.

(** ** Coordinate assignment of [layout_sugiyama] ([_assign_coordinates]) *)

(** The fields of [LayoutEngineConfig] that [_assign_coordinates] reads. *)
Record LayoutEngineConfig := mkConfig {
  rank_spacing : Q; node_spacing : Q; default_width : Q; default_height : Q;
  start_x : Q; start_y : Q }.

(** The defaults of [LayoutEngineConfig]. *)
Definition default_config : LayoutEngineConfig := mkConfig 100 60 120 60 50 80.

(** The layout directions accepted by [validate_direction]. *)
Inductive Direction := TB | BT | LR | RL.

Definition is_vertical (direction : Direction) : bool :=
  match direction with TB | BT => true | LR | RL => false end.

Section AssignCoordinates.

(** [nodes[n]]; every label of [by_rank] is a key of [nodes]. *)
Definition node_of (nodes : list (string * LNode.t)) (n : string) : LNode.t :=
  match assoc n nodes with Some v => v | None => dummy_node end.

Definition real_nodes (nodes : list (string * LNode.t)) (rank_nodes : list string) : list string :=
  filter (fun n => negb (LNode.is_virtual (node_of nodes n))) rank_nodes.

(** Python's [sum] of a list of numbers. *)
Definition sumQ (l : list Q) : Q := fold_left Qplus l 0.

(** [max(values, default=d)]. *)
Definition max_default (values : list Q) (d : Q) : Q :=
  match values with
  | [] => d
  | v :: vs => fold_left pymax vs v
  end.

(** [sorted] on distinct integer keys. *)
Fixpoint insert_Z (k : Z) (l : list Z) : list Z :=
  match l with
  | [] => [k]
  | k' :: l' => if Z.leb k k' then k :: l else k' :: insert_Z k l'
  end.
Definition sort_Z (l : list Z) : list Z := fold_right insert_Z [] l.

Fixpoint zassoc {V} (k : Z) (m : list (Z * V)) : option V :=
  match m with
  | [] => None
  | (k', v) :: m' => if Z.eqb k k' then Some v else zassoc k m'
  end.

Definition zget (m : list (Z * Q)) (k : Z) : Q :=
  match zassoc k m with Some v => v | None => 0 end.

(** [sorted(by_rank.items())]. *)
Definition sorted_items (by_rank : list (Z * list string)) : list (Z * list string) :=
  map (fun r => (r, match zassoc r by_rank with Some l => l | None => [] end))
      (sort_Z (map fst by_rank)).

Variable cfg : LayoutEngineConfig.

(** The total width of the real nodes of a rank, spacing included. *)
Definition rank_total_w (nodes : list (string * LNode.t)) (rn : list string) : Q :=
  sumQ (map (fun n => LNode.width (node_of nodes n)) rn)
  + inject_Z (Z.of_nat (List.length rn) - 1) * node_spacing cfg.

(** The first loop: [max_rank_width]. *)
Definition max_rank_width (by_rank : list (Z * list string)) (nodes : list (string * LNode.t)) : Q :=
  fold_left (fun m (e : Z * list string) =>
               let rn := real_nodes nodes (snd e) in
               match rn with
               | [] => m
               | _ => pymax m (rank_total_w nodes rn)
               end) by_rank 0.

(** [rank_offsets]: ranks in increasing order for TB and LR, decreasing
    for BT and RL, each at the running sum of the previous ranks' largest
    height (TB, BT) or width (LR, RL) plus [rank_spacing]. *)
Definition rank_offsets (by_rank : list (Z * list string)) (nodes : list (string * LNode.t))
    (direction : Direction) : list (Z * Q) :=
  let extent r :=
    let rn := real_nodes nodes (match zassoc r by_rank with Some l => l | None => [] end) in
    if is_vertical direction
    then max_default (map (fun n => LNode.height (node_of nodes n)) rn) (default_height cfg)
    else max_default (map (fun n => LNode.width (node_of nodes n)) rn) (default_width cfg) in
  let keys := sort_Z (map fst by_rank) in
  let ordered := match direction with TB | LR => keys | BT | RL => rev keys end in
  fst (fold_left (fun (st : list (Z * Q) * Q) r =>
                    let '(offs, cumulative) := st in
                    (offs ++ [(r, cumulative)], cumulative + extent r + rank_spacing cfg))
                 ordered ([], if is_vertical direction then start_y cfg else start_x cfg)).

(** The [for label in rank_nodes] loop of the TB/BT branch. *)
Definition place_tb (rank_y_pos : Q) (st : list (string * LNode.t) * Q) (label : string)
  : list (string * LNode.t) * Q :=
  let '(nodes, x_cursor) := st in
  let node := node_of nodes label in
  let node' := LNode.set_x (LNode.set_y node rank_y_pos) x_cursor in
  if LNode.is_virtual node then (dict_set label node' nodes, x_cursor)
  else (dict_set label node' nodes, x_cursor + LNode.width node + node_spacing cfg).

(** The [for label in rank_nodes] loop of the LR/RL branch. *)
Definition place_lr (rank_x_pos : Q) (st : list (string * LNode.t) * Q) (label : string)
  : list (string * LNode.t) * Q :=
  let '(nodes, y_cursor) := st in
  let node := node_of nodes label in
  let node' := LNode.set_y (LNode.set_x node rank_x_pos) y_cursor in
  if LNode.is_virtual node then (dict_set label node' nodes, y_cursor)
  else (dict_set label node' nodes, y_cursor + LNode.height node + node_spacing cfg).

(** [_assign_coordinates(by_rank, nodes, cfg, direction, max_rank)]: the
    [nodes] dict after the call. *)
Definition assign_coordinates (by_rank : list (Z * list string))
    (nodes : list (string * LNode.t)) (direction : Direction) : list (string * LNode.t) :=
  let mrw := max_rank_width by_rank nodes in
  let offs := rank_offsets by_rank nodes direction in
  fold_left
    (fun nodes (e : Z * list string) =>
       let '(rank, rank_nodes) := e in
       let rn := real_nodes nodes rank_nodes in
       if is_vertical direction then
         let total_w := sumQ (map (fun n => LNode.width (node_of nodes n)) rn)
                        + (match rn with
                           | [] => 0
                           | _ => inject_Z (Z.of_nat (List.length rn) - 1) * node_spacing cfg
                           end) in
         let offset := (mrw - total_w) / 2 in
         fst (fold_left (place_tb (zget offs rank)) rank_nodes (nodes, start_x cfg + offset))
       else
         (* [total_h] is computed here in the source and never used. *)
         fst (fold_left (place_lr (zget offs rank)) rank_nodes (nodes, start_y cfg)))
    (sorted_items by_rank) nodes.

End AssignCoordinates.

(** ** Orthogonal waypoints of [layout.py] ([compute_orthogonal_waypoints]) *)

Section LayoutWaypoints.

(** [_segment_intersects_rect(x1, y1, x2, y2, rect)]. *)
Definition segment_intersects_rect (x1 y1 x2 y2 : Q) (rect : Bounds.t) : bool :=
  if Qltb (Qabs (x1 - x2)) (1 # 10) then
    let min_y := pymin y1 y2 in
    let max_y := pymax y1 y2 in
    Qle_bool (Bounds.x rect) x1 && Qle_bool x1 (Bounds.right rect)
    && Qle_bool (Bounds.y rect) max_y && Qle_bool min_y (Bounds.bottom rect)
  else if Qltb (Qabs (y1 - y2)) (1 # 10) then
    let min_x := pymin x1 x2 in
    let max_x := pymax x1 x2 in
    Qle_bool (Bounds.y rect) y1 && Qle_bool y1 (Bounds.bottom rect)
    && Qle_bool (Bounds.x rect) max_x && Qle_bool min_x (Bounds.right rect)
  else false.

(** [_count_obstacle_crossings(x1, y1, x2, y2, obstacles, margin)]. *)
Definition count_obstacle_crossings (x1 y1 x2 y2 : Q) (obstacles : list Bounds.t) (margin : Q)
  : nat :=
  List.length
    (filter (fun obs =>
               segment_intersects_rect x1 y1 x2 y2
                 (Bounds.mk (Bounds.x obs - margin) (Bounds.y obs - margin)
                            (Bounds.width obs + 2 * margin) (Bounds.height obs + 2 * margin)))
            obstacles).

(** [_route_around_obstacles(src, tgt, obstacles, margin)]. *)
Definition route_around_obstacles (src tgt : Bounds.t) (obstacles : list Bounds.t) (margin : Q)
  : list Point.t :=
  let dx := Bounds.cx tgt - Bounds.cx src in
  let dy := Bounds.cy tgt - Bounds.cy src in
  let route_y_above := match map Bounds.y obstacles with
                       | [] => Bounds.cy src
                       | t :: ts => list_min t ts - margin
                       end in
  let route_y_below := match map Bounds.bottom obstacles with
                       | [] => Bounds.cy src
                       | b :: bs => list_max b bs + margin
                       end in
  let mid_y := (Bounds.cy src + Bounds.cy tgt) / 2 in
  let route_y := if Qltb (Qabs (route_y_above - mid_y)) (Qabs (route_y_below - mid_y))
                 then route_y_above else route_y_below in
  if Qltb (Qabs dy) (Qabs dx) then
    [Point.mk (Bounds.cx src) route_y; Point.mk (Bounds.cx tgt) route_y]
  else
    let route_x_left := match map Bounds.x obstacles with
                        | [] => Bounds.cx src
                        | l :: ls => list_min l ls - margin
                        end in
    let route_x_right := match map Bounds.right obstacles with
                         | [] => Bounds.cx src
                         | r :: rs => list_max r rs + margin
                         end in
    let mid_x := (Bounds.cx src + Bounds.cx tgt) / 2 in
    let route_x := if Qltb (Qabs (route_x_left - mid_x)) (Qabs (route_x_right - mid_x))
                   then route_x_left else route_x_right in
    [Point.mk route_x (Bounds.cy src); Point.mk route_x (Bounds.cy tgt)].

(** [compute_orthogonal_waypoints(src, tgt, obstacles, margin)]. *)
Definition compute_orthogonal_waypoints (src tgt : Bounds.t) (obstacles : list Bounds.t)
    (margin : Q) : list Point.t :=
  let sx := Bounds.cx src in
  let sy := Bounds.cy src in
  let tx := Bounds.cx tgt in
  let ty := Bounds.cy tgt in
  let dx := tx - sx in
  let dy := ty - sy in
  if Qltb (Qabs dy) (Bounds.height src / 2 + margin) then [] else
  if Qltb (Qabs dx) (Bounds.width src / 2 + margin) then [] else
  let mid_x := sx + dx / 2 in
  let mid_y := sy + dy / 2 in
  let waypoint_a := [Point.mk mid_x sy; Point.mk mid_x ty] in
  let crossings_a := (count_obstacle_crossings sx sy mid_x sy obstacles margin
                      + count_obstacle_crossings mid_x sy mid_x ty obstacles margin)%nat in
  let waypoint_b := [Point.mk sx mid_y; Point.mk tx mid_y] in
  let crossings_b := (count_obstacle_crossings sx sy sx mid_y obstacles margin
                      + count_obstacle_crossings sx mid_y tx mid_y obstacles margin)%nat in
  let waypoints := if Nat.leb crossings_a crossings_b then waypoint_a else waypoint_b in
  if Nat.ltb 0 (Nat.min crossings_a crossings_b)
  then route_around_obstacles src tgt obstacles margin
  else waypoints.

End LayoutWaypoints.

(** ** Grouping by proximity ([_group_by_proximity], [_group_into_rows]) *)
Section Proximity.

Variable attr : Bounds.t -> Q.

(** The loop over [sorted_ids]; [bounds[cid]] fails ([None]) for an id
    that is not a key. *)
Fixpoint proximity_loop (bounds : list (string * Bounds.t)) (threshold : Q)
    (ids : list string) (groups : list (list string)) (current : list string) (last : Q)
  : option (list (list string) * list string) :=
  match ids with
  | [] => Some (groups, current)
  | cid :: rest =>
      match assoc cid bounds with
      | None => None
      | Some b =>
          let val := attr b in
          if (match current with [] => true | _ => false end)
             || Qle_bool (Qabs (val - last)) threshold
          then proximity_loop bounds threshold rest groups (current ++ [cid]) val
          else proximity_loop bounds threshold rest (groups ++ [current]) [cid] val
      end
  end.

Definition close_groups (r : option (list (list string) * list string))
  : option (list (list string)) :=
  match r with
  | Some (groups, []) => Some groups
  | Some (groups, current) => Some (groups ++ [current])
  | None => None
  end.

End Proximity.

(** [_group_by_proximity(sorted_ids, bounds, attr, threshold)]; [attr] is
    the accessor of [cx] or [cy]. *)
Definition group_by_proximity (sorted_ids : list string) (bounds : list (string * Bounds.t))
    (attr : Bounds.t -> Q) (threshold : Q) : option (list (list string)) :=
  close_groups (proximity_loop attr bounds threshold sorted_ids [] [] (- 1000000000)).

(** [_group_into_rows(sorted_ids, bounds, threshold)]: the same loop on
    [bounds[cid].y].  Its initial [last_y = -inf] is only read when the
    current row is non-empty, that is never before it is overwritten; the
    model starts from 0. *)
Definition group_into_rows (sorted_ids : list string) (bounds : list (string * Bounds.t))
    (threshold : Q) : option (list (list string)) :=
  close_groups (proximity_loop Bounds.y bounds threshold sorted_ids [] [] 0).

(** The loop [for size in sizes: result.append(current); current += size + gap]. *)
Fixpoint place_items (current gap : Q) (sizes : list Q) : list Q :=
  match sizes with
  | [] => []
  | size :: rest => current :: place_items (current + (size + gap)) gap rest
  end.

Definition distribute_evenly (positions sizes : list Q) (start end_ : Q) : list Q :=
  let n := List.length positions in
  if Nat.leb n 1 then positions else
  let total_item_size := sumQ sizes in
  let available_space := (end_ - start) - total_item_size in
  let gap := if Nat.ltb 1 n then available_space / inject_Z (Z.of_nat n - 1) else 0 in
  let gap := pymax gap 10 in
  place_items start gap sizes.

(** ** Connection ports ([layout.choose_best_ports], [_determine_side],
    [_side_to_base_port], [_distribute_ports_on_side],
    [distribute_ports_for_batch]) *)
Definition choose_best_ports (src_bounds tgt_bounds : Bounds.t) (direction : string)
  : (Q * Q) * (Q * Q) :=
  let dx := Bounds.cx tgt_bounds - Bounds.cx src_bounds in
  let dy := Bounds.cy tgt_bounds - Bounds.cy src_bounds in
  let direction :=
    if String.eqb direction "auto" then
      if Qltb (Qabs dy * (15 # 10)) (Qabs dx) then "horizontal"%string
      else if Qltb (Qabs dx * (15 # 10)) (Qabs dy) then "vertical"%string
      else if Qle_bool (Qabs dx) (Qabs dy) then "vertical"%string else "horizontal"%string
    else direction in
  if String.eqb direction "horizontal" then
    if Qle_bool 0 dx then ((1, 1 # 2), (0, 1 # 2)) else ((0, 1 # 2), (1, 1 # 2))
  else
    if Qle_bool 0 dy then ((1 # 2, 1), (1 # 2, 0)) else ((1 # 2, 0), (1 # 2, 1)).

Definition determine_side (src_bounds tgt_bounds : Bounds.t) : string * string :=
  let dx := Bounds.cx tgt_bounds - Bounds.cx src_bounds in
  let dy := Bounds.cy tgt_bounds - Bounds.cy src_bounds in
  if Qltb (Qabs dy * (12 # 10)) (Qabs dx) then
    if Qle_bool 0 dx then ("right", "left")%string else ("left", "right")%string
  else if Qltb (Qabs dx * (12 # 10)) (Qabs dy) then
    if Qle_bool 0 dy then ("bottom", "top")%string else ("top", "bottom")%string
  else
    if Qle_bool 0 dy then ("bottom", "top")%string else ("top", "bottom")%string.

(** The dict literal indexed by [side]; [None] is the [KeyError]. *)
Definition side_to_base_port (side : string) : option (Q * Q) :=
  if String.eqb side "top" then Some (1 # 2, 0)
  else if String.eqb side "bottom" then Some (1 # 2, 1)
  else if String.eqb side "left" then Some (0, 1 # 2)
  else if String.eqb side "right" then Some (1, 1 # 2)
  else None.

Definition distribute_ports_on_side (side : string) (count index : Z) : option (Q * Q) :=
  if Z.leb count 1 then side_to_base_port side else
  let margin := 15 # 100 in
  let t := margin + (1 - 2 * margin) * inject_Z index / inject_Z (count - 1) in
  if String.eqb side "top" then Some (t, 0)
  else if String.eqb side "bottom" then Some (t, 1)
  else if String.eqb side "left" then Some (0, t)
  else if String.eqb side "right" then Some (1, t)
  else Some (1 # 2, 1 # 2).

Definition side_key : Type := (string * string)%type.

Definition side_key_eqb (a b : side_key) : bool :=
  String.eqb (fst a) (fst b) && String.eqb (snd a) (snd b).

(** A [defaultdict(list)] keyed by [(node_id, side)], in insertion order. *)
Fixpoint group_get (k : side_key) (m : list (side_key * list nat)) : list nat :=
  match m with
  | [] => []
  | (k', v) :: m' => if side_key_eqb k k' then v else group_get k m'
  end.

Fixpoint group_append (k : side_key) (i : nat) (m : list (side_key * list nat))
  : list (side_key * list nat) :=
  match m with
  | [] => [(k, [i])]
  | (k', v) :: m' =>
      if side_key_eqb k k' then (k', v ++ [i]) :: m' else (k', v) :: group_append k i m'
  end.

(** [list.sort(key=...)], which is stable: an element goes after the
    elements already placed whose key is not greater. *)
Fixpoint insert_by (key : nat -> Q) (x : nat) (l : list nat) : list nat :=
  match l with
  | [] => [x]
  | y :: l' => if Qltb (key x) (key y) then x :: l else y :: insert_by key x l'
  end.

Definition sort_by (key : nat -> Q) (l : list nat) : list nat :=
  fold_left (fun acc x => insert_by key x acc) l [].

(** [list.index(x)]; [None] is the [ValueError]. *)
Fixpoint list_index (x : nat) (l : list nat) : option nat :=
  match l with
  | [] => None
  | y :: l' => if Nat.eqb x y then Some O
               else match list_index x l' with Some k => Some (S k) | None => None end
  end.

Section Batch.

Variable connections : list (string * string).
Variable bounds : list (string * Bounds.t).

(** Step 1: the sides of each connection. *)
Definition edge_sides : list (string * string) :=
  map (fun '(src_id, tgt_id) =>
         match assoc src_id bounds, assoc tgt_id bounds with
         | Some src_b, Some tgt_b => determine_side src_b tgt_b
         | _, _ => ("right", "left")%string
         end) connections.

(** Step 2: the exit and entry groups. *)
Definition build_groups : list (side_key * list nat) * list (side_key * list nat) :=
  fold_left
    (fun '(eg, ng) '(i, ((src_id, tgt_id), (exit_side, entry_side))) =>
       (group_append (src_id, exit_side) i eg, group_append (tgt_id, entry_side) i ng))
    (combine (seq 0 (List.length connections)) (combine connections edge_sides)) ([], []).

(** The sort keys of step 3: the position of the other end along the side. *)
Definition sort_key (far_end : string * string -> string) (side : string) (idx : nat) : Q :=
  match assoc (far_end (nth idx connections (EmptyString, EmptyString))) bounds with
  | None => 0
  | Some b =>
      if String.eqb side "top" || String.eqb side "bottom" then Bounds.cx b else Bounds.cy b
  end.

Definition sort_groups (far_end : string * string -> string) (m : list (side_key * list nat))
  : list (side_key * list nat) :=
  map (fun '(k, indices) =>
         (k, if Nat.ltb 1 (List.length indices)
             then sort_by (sort_key far_end (snd k)) indices else indices)) m.

(** Step 4: the port of each connection; [None] when a lookup raises. *)
Definition port_of (groups : list (side_key * list nat)) (node side : string) (i : nat)
  : option (Q * Q) :=
  let siblings := group_get (node, side) groups in
  match list_index i siblings with
  | Some idx =>
      distribute_ports_on_side side (Z.of_nat (List.length siblings)) (Z.of_nat idx)
  | None => None
  end.

Definition distribute_ports_for_batch : option (list ((Q * Q) * (Q * Q))) :=
  match connections with
  | [] => Some []
  | _ =>
      let '(eg, ng) := build_groups in
      let exit_groups := sort_groups snd eg in
      let entry_groups := sort_groups fst ng in
      fold_right
        (fun i acc =>
           let '(src_id, tgt_id) := nth i connections (EmptyString, EmptyString) in
           let '(exit_side, entry_side) := nth i edge_sides (EmptyString, EmptyString) in
           match port_of exit_groups src_id exit_side i,
                 port_of entry_groups tgt_id entry_side i, acc with
           | Some ep, Some np, Some rest => Some ((ep, np) :: rest)
           | _, _, _ => None
           end)
        (Some []) (seq 0 (List.length connections))
  end.

End Batch.

(** The point of parameter [t] on a side of the unit square. *)
Definition on_side (side : string) (p : Q * Q) (t : Q) : Prop :=
  (side = "top"%string /\ p = (t, 0)) \/ (side = "bottom"%string /\ p = (t, 1)) \/
  (side = "left"%string /\ p = (0, t)) \/ (side = "right"%string /\ p = (1, t)).

Definition known_side (side : string) : Prop :=
  In side ["top"; "bottom"; "left"; "right"]%string.

Definition Row : Type := (nat * ((string * string) * (string * string)))%type.

Definition row_exit (r : Row) : side_key := (fst (fst (snd r)), fst (snd (snd r))).

Definition row_entry (r : Row) : side_key := (snd (fst (snd r)), snd (snd (snd r))).

Definition port_eq (p q : Q * Q) : Prop := fst p == fst q /\ snd p == snd q.

Definition batch_rows (connections : list (string * string)) (bounds : list (string * Bounds.t))
  : list Row :=
  combine (seq 0 (List.length connections)) (combine connections (edge_sides connections bounds)).

(** [layout_engine.find_overlapping_cells]: the pairs [(ids[i], ids[j])],
    [i < j], of vertex bounds that intersect with [margin]. *)
Definition overlap_pairs (bounds : list (string * Bounds.t)) (margin : Q) : list (string * string) :=
  flat_map
    (fun '(i, j) =>
       let '(a_id, a) := nth i bounds (EmptyString, dummy_bounds) in
       let '(b_id, b) := nth j bounds (EmptyString, dummy_bounds) in
       if Bounds.intersects a b margin then [(a_id, b_id)] else [])
    (index_pairs (List.length bounds)).

Definition find_overlapping_cells (d : Diagram) (margin : Q) : option (list (string * string)) :=
  match get_all_vertex_bounds d with
  | Some bounds => Some (overlap_pairs bounds margin)
  | None => None
  end.

(** ** Building diagrams ([Diagram.next_id], [add_vertex], [add_edge],
    [layout.layout_horizontal], [layout_vertical], [layout_grid],
    [connect_chain]) *)

(** [str(n)] of a Python int. *)
Definition str_of_Z (n : Z) : string := NilZero.string_of_int (Z.to_int n).

(** A diagram with its [_next_id] counter. *)
Definition Builder : Type := (Diagram * Z)%type.

(** [Diagram()]: the structural cells ["0"] and ["1"], the counter at 2. *)
Definition new_diagram : Builder :=
  (mkDiagram [MxCell.mk "0" EmptyString EmptyString false false None None None;
              MxCell.mk "1" EmptyString "0" false false None None None]%string 10, 2%Z).

Definition next_id (st : Builder) : string * Builder :=
  let '(d, n) := st in (str_of_Z n, (d, (n + 1)%Z)).

(** [cell_id or self.next_id()]: an empty [cell_id] is falsy. *)
Definition take_id (st : Builder) (cell_id : option string) : string * Builder :=
  match cell_id with
  | Some s => if String.eqb s EmptyString then next_id st else (s, st)
  | None => next_id st
  end.

Definition append_cell (st : Builder) (c : MxCell.t) : Builder :=
  let '(d, n) := st in (set_cells d (cells d ++ [c]), n).

(** [add_vertex]; the style is not part of the cell model. *)
Definition add_vertex (st : Builder) (value : string) (x y width height : Q)
    (parent : string) (cell_id : option string) : string * Builder :=
  let '(cid, st') := take_id st cell_id in
  (cid, append_cell st'
          (MxCell.mk cid value parent true false None None
             (Some (Geometry.mk x y width height false [])))).

(** [add_edge]: [Geometry(relative=True)], whose points are the waypoints
    when there are any. *)
Definition add_edge (st : Builder) (source target value parent : string)
    (cell_id : option string) (waypoints : option (list Point.t)) : string * Builder :=
  let '(cid, st') := take_id st cell_id in
  let geom := match waypoints with
              | Some ((_ :: _) as ps) => Geometry.set_points Geometry.relative_default ps
              | _ => Geometry.relative_default
              end in
  (cid, append_cell st'
          (MxCell.mk cid value parent false true (Some source) (Some target) (Some geom))).

Module LayoutConfig.
Record t := mk {
  start_x : Q; start_y : Q; h_spacing : Q; v_spacing : Q;
  default_width : Q; default_height : Q; grid_size : Z }.
Definition default : t := mk 50 50 60 60 120 60 10.
End LayoutConfig.

Definition cfg_of (config : option LayoutConfig.t) : LayoutConfig.t :=
  match config with Some c => c | None => LayoutConfig.default end.

(** The loop [for i, label in enumerate(labels): ... ids.append(cid)], with
    the position of the [i]-th vertex given by [pos]. *)
Definition place_vertices (pos : nat -> Q * Q) (cfg : LayoutConfig.t)
    (labels : list string) (st : Builder) : list string * Builder :=
  fold_left
    (fun '(ids, st) '(i, label) =>
       let '(x, y) := pos i in
       let '(cid, st') := add_vertex st label x y (LayoutConfig.default_width cfg)
                            (LayoutConfig.default_height cfg) "1" None in
       (ids ++ [cid], st'))
    (combine (seq 0 (List.length labels)) labels) ([], st).

Definition layout_horizontal (st : Builder) (labels : list string)
    (config : option LayoutConfig.t) (y : option Q) : list string * Builder :=
  let cfg := cfg_of config in
  let row_y := snap_to_grid (match y with Some v => v | None => LayoutConfig.start_y cfg end)
                            (LayoutConfig.grid_size cfg) in
  place_vertices
    (fun i => (snap_to_grid (LayoutConfig.start_x cfg +
                 inject_Z (Z.of_nat i) * (LayoutConfig.default_width cfg + LayoutConfig.h_spacing cfg))
                 (LayoutConfig.grid_size cfg), row_y))
    cfg labels st.

Definition layout_vertical (st : Builder) (labels : list string)
    (config : option LayoutConfig.t) (x : option Q) : list string * Builder :=
  let cfg := cfg_of config in
  let col_x := snap_to_grid (match x with Some v => v | None => LayoutConfig.start_x cfg end)
                            (LayoutConfig.grid_size cfg) in
  place_vertices
    (fun i => (col_x, snap_to_grid (LayoutConfig.start_y cfg +
                 inject_Z (Z.of_nat i) * (LayoutConfig.default_height cfg + LayoutConfig.v_spacing cfg))
                 (LayoutConfig.grid_size cfg)))
    cfg labels st.

(** [i % columns] and [i // columns] raise [ZeroDivisionError] for
    [columns == 0] at the first label ([None]). *)
Definition layout_grid (st : Builder) (labels : list string) (columns : Z)
    (config : option LayoutConfig.t) : option (list string * Builder) :=
  let cfg := cfg_of config in
  match labels with
  | [] => Some ([], st)
  | _ =>
      if Z.eqb columns 0 then None else
      Some (place_vertices
        (fun i =>
           let col := Z.modulo (Z.of_nat i) columns in
           let row := Z.div (Z.of_nat i) columns in
           (snap_to_grid (LayoutConfig.start_x cfg +
              inject_Z col * (LayoutConfig.default_width cfg + LayoutConfig.h_spacing cfg))
              (LayoutConfig.grid_size cfg),
            snap_to_grid (LayoutConfig.start_y cfg +
              inject_Z row * (LayoutConfig.default_height cfg + LayoutConfig.v_spacing cfg))
              (LayoutConfig.grid_size cfg)))
        cfg labels st)
  end.

(** [labels[i] if labels and i < len(labels) else ""]. *)
Definition chain_label (labels : option (list string)) (i : nat) : string :=
  match labels with
  | Some ((_ :: _) as l) => if Nat.ltb i (List.length l) then nth i l EmptyString else EmptyString
  | _ => EmptyString
  end.

Definition connect_chain (st : Builder) (ids : list string) (labels : option (list string))
  : list string * Builder :=
  fold_left
    (fun '(edge_ids, st) i =>
       let '(eid, st') := add_edge st (nth i ids EmptyString) (nth (S i) ids EmptyString)
                            (chain_label labels i) "1" None None in
       (edge_ids ++ [eid], st'))
    (seq 0 (List.length ids - 1)) ([], st).

(** Every id in the diagram is distinct, and none is [str(k)] for a [k] the
    counter has not reached yet. *)
Definition fresh (st : Builder) : Prop :=
  NoDup (map MxCell.id (cells (fst st))) /\
  forall c k, In c (cells (fst st)) -> (snd st <= k)%Z -> MxCell.id c <> str_of_Z k.

Definition placed_cell (pos : nat -> Q * Q) (cfg : LayoutConfig.t) (i : nat) (label cid : string)
  : MxCell.t :=
  MxCell.mk cid label "1" true false None None
    (Some (Geometry.mk (fst (pos i)) (snd (pos i)) (LayoutConfig.default_width cfg)
             (LayoutConfig.default_height cfg) false [])).

(** The bounds [get_all_vertex_bounds] gives a top-level vertex. *)
Definition geom_bounds (g : Geometry.t) : Bounds.t :=
  Bounds.mk (Geometry.x g) (Geometry.y g) (Geometry.width g) (Geometry.height g).

(** No two vertices placed by one call overlap. *)
Definition placed_apart (st st' : Builder) (n : nat) : Prop :=
  exists new, cells (fst st') = cells (fst st) ++ new /\ List.length new = n /\
    forall i j ci cj gi gj, i <> j -> nth_error new i = Some ci -> nth_error new j = Some cj ->
      MxCell.geometry ci = Some gi -> MxCell.geometry cj = Some gj ->
      Bounds.intersects (geom_bounds gi) (geom_bounds gj) 0 = false.

Definition chain_edge (ids : list string) (labels : option (list string)) (i : nat) (eid : string)
    (g : Geometry.t) : MxCell.t :=
  MxCell.mk eid (chain_label labels i) "1" false true
    (Some (nth i ids EmptyString)) (Some (nth (S i) ids EmptyString)) (Some g).

Definition raw_step (raw : list (string * RawEntry)) (c : MxCell.t) : list (string * RawEntry) :=
  match MxCell.geometry c with
  | Some g =>
      if MxCell.vertex c && negb (Geometry.relative g) then
        let par := if String.eqb (MxCell.parent c) EmptyString
                   then "1"%string else MxCell.parent c in
        dict_set (MxCell.id c)
          (Geometry.x g, Geometry.y g, Geometry.width g, Geometry.height g, par) raw
      else raw
  | None => raw
  end.

(** ** [layout_engine.ensure_page_margins] *)

(** [cell.vertex and cell.geometry and not cell.geometry.relative] and
    [cell.parent in ("0", "1", "")]. *)
Definition is_top_level (c : MxCell.t) : bool :=
  match MxCell.geometry c with
  | Some g => MxCell.vertex c && negb (Geometry.relative g) && is_root_parent (MxCell.parent c)
  | None => false
  end.

(** [cid in top_level_ids]. *)
Definition in_top_level (cs : list MxCell.t) (cid : string) : bool :=
  existsb (fun c => is_top_level c && String.eqb (MxCell.id c) cid) cs.

(** One iteration of the moving loop: the structural cells ["0"] and ["1"]
    are skipped, a top-level vertex is shifted and snapped. *)
Definition shift_cell (grid : Z) (shift_x shift_y : Q) (c : MxCell.t) : MxCell.t * bool :=
  if String.eqb (MxCell.id c) "0" || String.eqb (MxCell.id c) "1" then (c, false) else
  match MxCell.geometry c with
  | Some g =>
      if is_top_level c then
        (MxCell.set_geometry c
           (Some (Geometry.set_y (Geometry.set_x g (snap_to_grid (Geometry.x g + shift_x) grid))
                    (snap_to_grid (Geometry.y g + shift_y) grid))), true)
      else (c, false)
  | None => (c, false)
  end.

Fixpoint shift_cells (grid : Z) (shift_x shift_y : Q) (cs : list MxCell.t) : list MxCell.t * Z :=
  match cs with
  | [] => ([], 0%Z)
  | c :: rest =>
      let '(c', moved) := shift_cell grid shift_x shift_y c in
      let '(rest', n) := shift_cells grid shift_x shift_y rest in
      (c' :: rest', if moved then (n + 1)%Z else n)
  end.

Definition ensure_page_margins (d : Diagram) (margin : Q) : option (Diagram * Z) :=
  match get_all_vertex_bounds d with
  | None => None
  | Some [] => Some (d, 0%Z)
  | Some bounds =>
      match filter (fun '(cid, _) => in_top_level (cells d) cid) bounds with
      | [] => Some (d, 0%Z)
      | (_, b0) :: tl =>
          let min_x := list_min (Bounds.x b0) (map (fun '(_, b) => Bounds.x b) tl) in
          let min_y := list_min (Bounds.y b0) (map (fun '(_, b) => Bounds.y b) tl) in
          let shift_x := pymax 0 (margin - min_x) in
          let shift_y := pymax 0 (margin - min_y) in
          if Qltb shift_x 1 && Qltb shift_y 1 then Some (d, 0%Z) else
          let '(cs', moved) := shift_cells (grid_size d) shift_x shift_y (cells d) in
          Some (set_cells d cs', moved)
      end
  end.

(** The cells the moving loop shifts. *)
Definition movable (c : MxCell.t) : bool :=
  negb (String.eqb (MxCell.id c) "0" || String.eqb (MxCell.id c) "1") && is_top_level c.

(** ** Lookups shared by the whole-diagram passes *)

(** [bounds[cid]] for an id that is a key of [bounds]; every such lookup
    below is on a key. *)
Definition bound_of (bounds : list (string * Bounds.t)) (cid : string) : Bounds.t :=
  match assoc cid bounds with Some b => b | None => dummy_bounds end.

(** [cid in m] for a dict [m]. *)
Definition has_key {V} (cid : string) (m : list (string * V)) : bool :=
  match assoc cid m with Some _ => true | None => false end.

(** The dict [cells] built by [for cell in diagram.cells: if keep(cell):
    cells[cell.id] = cell]: each id in the order of its first kept cell,
    with the index of its last kept cell, the object the dict holds. *)
Definition cell_index (keep : MxCell.t -> bool) (cs : list MxCell.t) : list (string * nat) :=
  fold_left (fun m (ic : nat * MxCell.t) =>
               let '(i, c) := ic in if keep c then dict_set (MxCell.id c) i m else m)
            (combine (seq 0 (List.length cs)) cs) [].

(** [cell = cells[cid]] followed by the test [if cell.geometry]: the index
    of the cell object the dict holds for [cid], and its geometry. *)
Definition geometry_at (idx : list (string * nat)) (cs : list MxCell.t) (cid : string)
  : option (nat * Geometry.t) :=
  match assoc cid idx with
  | Some i =>
      match nth_error cs i with
      | Some c => match MxCell.geometry c with Some g => Some (i, g) | None => None end
      | None => None
      end
  | None => None
  end.

(** [sorted(ids, key=key)], which is stable: an id goes after the ids
    already placed whose key is not greater. *)
Fixpoint insert_id (key : string -> Q) (x : string) (l : list string) : list string :=
  match l with
  | [] => [x]
  | y :: l' => if Qltb (key x) (key y) then x :: l else y :: insert_id key x l'
  end.

Definition sort_ids (key : string -> Q) (l : list string) : list string :=
  fold_left (fun acc x => insert_id key x acc) l [].

(** [min(...)] and [max(...)] of a non-empty list. *)
Definition min_of (l : list Q) : Q := list_min (hd 0 l) (tl l).
Definition max_of (l : list Q) : Q := list_max (hd 0 l) (tl l).

(** ** [layout_engine.align_rank_baselines] and [align_column_centers] *)

Section Align.

(** The two functions differ only in the attribute they read and write:
    [cy], [height] and [y] for the rows of [align_rank_baselines]; [cx],
    [width] and [x] for the columns of [align_column_centers]. *)
Variable center : Bounds.t -> Q.
Variable extent : Geometry.t -> Q.
Variable coord : Geometry.t -> Q.
Variable set_coord : Geometry.t -> Q -> Geometry.t.

(** The loop [for cid in row] of one group, with the group's average
    centre [avg]. *)
Definition align_cell (grid : Z) (avg : Q) (idx : list (string * nat))
    (st : list MxCell.t * Z) (cid : string) : list MxCell.t * Z :=
  let '(cs, adjusted) := st in
  match geometry_at idx cs cid with
  | None => st
  | Some (i, g) =>
      let target := snap_to_grid (avg - extent g / 2) grid in
      if Qltb 1 (Qabs (coord g - target))
      then (update_geometry cs i (fun g => set_coord g target), (adjusted + 1)%Z)
      else st
  end.

(** One round of [for row in rows]. *)
Definition align_group (grid : Z) (bounds : list (string * Bounds.t))
    (idx : list (string * nat)) (st : list MxCell.t * Z) (grp : list string)
  : list MxCell.t * Z :=
  if Nat.ltb (List.length grp) 2 then st else
  let avg := sumQ (map (fun cid => center (bound_of bounds cid)) grp)
             / inject_Z (Z.of_nat (List.length grp)) in
  fold_left (align_cell grid avg idx) grp st.

(** The whole function: the new diagram and the returned count.  Its
    grouping loop is the one of [_group_by_proximity] (same start value
    [-1e9], same test).  [None]: [get_all_vertex_bounds] failed. *)
Definition align_generic (d : Diagram) (threshold : Q) : option (Diagram * Z) :=
  match get_all_vertex_bounds d with
  | None => None
  | Some bounds =>
      if Nat.ltb (List.length bounds) 2 then Some (d, 0%Z) else
      let idx := cell_index (fun c => has_key (MxCell.id c) bounds
                                      && is_root_parent (MxCell.parent c)) (cells d) in
      if Nat.ltb (List.length idx) 2 then Some (d, 0%Z) else
      let sorted_ids := sort_ids (fun cid => center (bound_of bounds cid)) (map fst idx) in
      match group_by_proximity sorted_ids bounds center threshold with
      | None => None
      | Some groups =>
          let '(cs, adjusted) := fold_left (align_group (grid_size d) bounds idx) groups
                                           (cells d, 0%Z) in
          Some (set_cells d cs, adjusted)
      end
  end.

End Align.

Definition align_rank_baselines (d : Diagram) (threshold : Q) : option (Diagram * Z) :=
  align_generic Bounds.cy Geometry.height Geometry.y Geometry.set_y d threshold.

Definition align_column_centers (d : Diagram) (threshold : Q) : option (Diagram * Z) :=
  align_generic Bounds.cx Geometry.width Geometry.x Geometry.set_x d threshold.

(** ** [layout_engine.compact_diagram] *)

(** The loop [for cid in row] of the vertical pass, for a row moved by
    [shift]. *)
Definition compact_shift_cell (grid : Z) (idx : list (string * nat)) (shift : Q)
    (st : list MxCell.t * Z) (cid : string) : list MxCell.t * Z :=
  let '(cs, moved) := st in
  match geometry_at idx cs cid with
  | Some (i, _) =>
      (update_geometry cs i
         (fun g => Geometry.set_y g (snap_to_grid (Geometry.y g + shift) grid)),
       (moved + 1)%Z)
  | None => st
  end.

(** One round of the vertical pass [for row in rows]; the state is the
    cells, [moved] and [current_y]. *)
Definition compact_row (grid : Z) (bounds : list (string * Bounds.t))
    (idx : list (string * nat)) (margin : Q) (st : list MxCell.t * Z * Q) (row : list string)
  : list MxCell.t * Z * Q :=
  let '(cs, moved, current_y) := st in
  let row_top := min_of (map (fun cid => Bounds.y (bound_of bounds cid)) row) in
  let row_bottom := max_of (map (fun cid => Bounds.bottom (bound_of bounds cid)) row) in
  let row_height := row_bottom - row_top in
  let shift := current_y - row_top in
  let '(cs, moved) :=
    if Qltb 5 (Qabs shift) then fold_left (compact_shift_cell grid idx shift) row (cs, moved)
    else (cs, moved) in
  (cs, moved, current_y + row_height + margin).

(** One round of [for cid in row_sorted] of the horizontal pass; the state
    is the cells, [moved] and [current_x]. *)
Definition compact_col_step (grid : Z) (bounds : list (string * Bounds.t))
    (idx : list (string * nat)) (margin : Q) (st : list MxCell.t * Z * Q) (cid : string)
  : list MxCell.t * Z * Q :=
  let '(cs, moved, current_x) := st in
  match geometry_at idx cs cid with
  | None => st
  | Some (i, _) =>
      let b := bound_of bounds cid in
      let shift := current_x - Bounds.x b in
      let '(cs, moved) :=
        if Qltb 5 (Qabs shift)
        then (update_geometry cs i (fun g => Geometry.set_x g (snap_to_grid current_x grid)),
              (moved + 1)%Z)
        else (cs, moved) in
      (cs, moved, Bounds.x b + Bounds.width b + margin)
  end.

(** One round of [for row in rows] of the horizontal pass. *)
Definition compact_row_x (grid : Z) (bounds : list (string * Bounds.t))
    (idx : list (string * nat)) (margin : Q) (st : list MxCell.t * Z) (row : list string)
  : list MxCell.t * Z :=
  if Nat.ltb (List.length row) 2 then st else
  let row_sorted := sort_ids (fun cid => Bounds.x (bound_of bounds cid)) row in
  let current_x := Bounds.x (bound_of bounds (hd EmptyString row_sorted)) in
  let '(cs, moved, _) :=
    fold_left (compact_col_step grid bounds idx margin) row_sorted (fst st, snd st, current_x) in
  (cs, moved).

(** [compact_diagram(diagram, margin)]: the new diagram and the returned
    count.  [sorted_by_x] is computed in the source and never used.  The
    bounds are recomputed after the vertical pass, and the function ends
    with [align_rank_baselines] and [align_column_centers], both with
    threshold 20.  [None]: [get_all_vertex_bounds] failed (the empty
    [sorted_by_y], an [IndexError], cannot happen when there are two
    bounds). *)
Definition compact_diagram (d : Diagram) (margin : Q) : option (Diagram * Z) :=
  match get_all_vertex_bounds d with
  | None => None
  | Some bounds =>
      if Nat.ltb (List.length bounds) 2 then Some (d, 0%Z) else
      let idx := cell_index (fun c => has_key (MxCell.id c) bounds) (cells d) in
      let sorted_by_y := sort_ids (fun cid => Bounds.y (bound_of bounds cid)) (map fst idx) in
      match group_into_rows sorted_by_y bounds 20, sorted_by_y with
      | Some rows, first :: _ =>
          let '(cs, moved, _) :=
            fold_left (compact_row (grid_size d) bounds idx margin) rows
                      (cells d, 0%Z, Bounds.y (bound_of bounds first)) in
          match get_all_vertex_bounds (set_cells d cs) with
          | None => None
          | Some bounds2 =>
              let '(cs, moved) :=
                fold_left (compact_row_x (grid_size d) bounds2 idx margin) rows (cs, moved) in
              match align_rank_baselines (set_cells d cs) 20 with
              | None => None
              | Some (d3, a1) =>
                  match align_column_centers d3 20 with
                  | None => None
                  | Some (d4, a2) => Some (d4, (moved + a1 + a2)%Z)
                  end
              end
          end
      | _, _ => None
      end
  end.

(** ** [layout_engine.center_diagram_on_page] *)

(** The page settings [diagram.page], [page_width] and [page_height] are
    not fields of [Diagram] here; they are the arguments [page],
    [page_width] and [page_height].  The moving loop is the one of
    [ensure_page_margins] ([shift_cells]). *)
Definition center_diagram_on_page (d : Diagram) (page : bool) (page_width page_height : Z)
    (margin : Q) : option (Diagram * Z) :=
  match get_all_vertex_bounds d with
  | None => None
  | Some [] => Some (d, 0%Z)
  | Some bounds =>
      match filter (fun '(cid, _) => in_top_level (cells d) cid) bounds with
      | [] => Some (d, 0%Z)
      | (_, b0) :: tl =>
          let min_x := list_min (Bounds.x b0) (map (fun '(_, b) => Bounds.x b) tl) in
          let min_y := list_min (Bounds.y b0) (map (fun '(_, b) => Bounds.y b) tl) in
          let max_x := list_max (Bounds.right b0) (map (fun '(_, b) => Bounds.right b) tl) in
          let max_y := list_max (Bounds.bottom b0) (map (fun '(_, b) => Bounds.bottom b) tl) in
          let content_w := max_x - min_x in
          let content_h := max_y - min_y in
          let '(target_x, target_y) :=
            if page && Z.ltb 0 page_width && Z.ltb 0 page_height
            then (pymax margin ((inject_Z page_width - content_w) / 2),
                  pymax margin ((inject_Z page_height - content_h) / 2))
            else (margin, margin) in
          let shift_x := target_x - min_x in
          let shift_y := target_y - min_y in
          if Qltb (Qabs shift_x) 5 && Qltb (Qabs shift_y) 5 then Some (d, 0%Z) else
          let '(cs', moved) := shift_cells (grid_size d) shift_x shift_y (cells d) in
          Some (set_cells d cs', moved)
      end
  end.

(** ** [layout_engine.relayout_diagram] and [_relayout_grid] *)

(** [cell.vertex and cell.geometry and not cell.geometry.relative]. *)
Definition vertex_test (c : MxCell.t) : bool :=
  match MxCell.geometry c with
  | Some g => MxCell.vertex c && negb (Geometry.relative g)
  | None => false
  end.

(** The [edges_data] of [relayout_diagram]: the cells other than ["0"] and
    ["1"] that fail the vertex test and are edges with a source and a
    target, as [(cell.source, cell.target, cell.value or "")]. *)
Definition relayout_edges (cs : list MxCell.t) : list (string * string * string) :=
  flat_map (fun c =>
              if String.eqb (MxCell.id c) "0" || String.eqb (MxCell.id c) "1"
                 || vertex_test c || negb (is_edge_cell c) then []
              else [(match MxCell.source c with Some s => s | None => EmptyString end,
                     match MxCell.target c with Some t => t | None => EmptyString end,
                     MxCell.value c)]) cs.

(** The width and height of the geometry of the cell at index [k] (the
    cells of [vertices] all have one). *)
Definition size_at (cs : list MxCell.t) (k : nat) : Q * Q :=
  match nth_error cs k with
  | Some c => match MxCell.geometry c with
              | Some g => (Geometry.width g, Geometry.height g)
              | None => (0, 0)
              end
  | None => (0, 0)
  end.

(** One round of [for i, cell in enumerate(cells)] of [_relayout_grid],
    with [cols] columns; the state is the cells and [moved]. *)
Definition relayout_grid_step (cfg : LayoutEngineConfig) (grid cols : Z)
    (st : list MxCell.t * list (string * (Q * Q))) (ik : nat * (string * nat))
  : list MxCell.t * list (string * (Q * Q)) :=
  let '(cs, moved) := st in
  let '(i, (_, k)) := ik in
  match nth_error cs k with
  | Some c =>
      match MxCell.geometry c with
      | Some g =>
          let col := Z.modulo (Z.of_nat i) cols in
          let row := Z.div (Z.of_nat i) cols in
          let x := snap_to_grid (start_x cfg + inject_Z col * (Geometry.width g + node_spacing cfg))
                                grid in
          let y := snap_to_grid (start_y cfg + inject_Z row * (Geometry.height g + rank_spacing cfg))
                                grid in
          (set_nth k cs (MxCell.set_geometry c (Some (Geometry.set_y (Geometry.set_x g x) y))),
           dict_set (MxCell.id c) (x, y) moved)
      | None => st
      end
  | None => st
  end.

(** [_relayout_grid(list(vertices.values()), cfg)] with [cfg.grid_size] =
    [grid]: the cells and the returned dict.  [int(math.sqrt(n))] is
    [Z.sqrt n]. *)
Definition relayout_grid (cfg : LayoutEngineConfig) (grid : Z) (cs : list MxCell.t)
    (vs : list (string * nat)) : list MxCell.t * list (string * (Q * Q)) :=
  let cols := Z.max 1 (Z.sqrt (Z.of_nat (List.length vs))) in
  fold_left (relayout_grid_step cfg grid cols) (combine (seq 0 (List.length vs)) vs) (cs, []).

(** One round of the loop "Apply new positions and equalized sizes", from
    the final node [final cid] of each vertex. *)
Definition relayout_apply_step (grid : Z) (final : string -> LNode.t)
    (st : list MxCell.t * list (string * (Q * Q))) (ck : string * nat)
  : list MxCell.t * list (string * (Q * Q)) :=
  let '(cs, moved) := st in
  let '(cid, k) := ck in
  let node := final cid in
  let new_x := snap_to_grid (LNode.x node) grid in
  let new_y := snap_to_grid (LNode.y node) grid in
  match nth_error cs k with
  | Some c =>
      match MxCell.geometry c with
      | Some g =>
          (set_nth k cs (MxCell.set_geometry c
             (Some (Geometry.mk new_x new_y (LNode.width node) (LNode.height node)
                      (Geometry.relative g) (Geometry.points g)))),
           dict_set cid (new_x, new_y) moved)
      | None => st
      end
  | None => st
  end.

(** [relayout_diagram(diagram, direction, config)] with [cfg.grid_size] =
    [grid], [cfg.route_edges] = [route_edges] and [cfg.edge_margin] =
    [edge_margin]: the new diagram and the returned dict.  The Sugiyama
    steps between the filtering of the edges and the application of the
    positions ([_find_back_edges], the ranking, the barycenter sweeps,
    [_equalize_rank_sizes], [_assign_coordinates], [_remove_overlaps]) are
    the argument [steps]: from the initial [nodes] dict and the valid
    edges, the final node of each id.  [None]: the routing failed. *)
Definition relayout_diagram
    (steps : list (string * LNode.t) -> list (string * string * string) -> string -> LNode.t)
    (d : Diagram) (cfg : LayoutEngineConfig) (grid : Z) (route_edges : bool) (edge_margin : Q)
  : option (Diagram * list (string * (Q * Q))) :=
  let vs := cell_index movable (cells d) in
  let grid_layout := let '(cs, moved) := relayout_grid cfg grid (cells d) vs in
                     Some (set_cells d cs, moved) in
  match vs with
  | [] => Some (d, [])
  | _ =>
      match relayout_edges (cells d) with
      | [] => grid_layout
      | edges_data =>
          let nodes := map (fun '(cid, k) =>
                              let '(w, h) := size_at (cells d) k in
                              (cid, LNode.mk cid (MxCell.value (nth k (cells d)
                                   (MxCell.mk EmptyString EmptyString EmptyString false false
                                      None None None))) w h 0 0 0 0 false)) vs in
          match filter (fun '(s, t, _) => has_key s nodes && has_key t nodes) edges_data with
          | [] => grid_layout
          | valid_edges =>
              let '(cs, moved) :=
                fold_left (relayout_apply_step grid (steps nodes valid_edges)) vs (cells d, []) in
              if route_edges then
                match route_edges_around_obstacles (set_cells d cs) edge_margin with
                | Some (d', _) => Some (d', moved)
                | None => None
                end
              else Some (set_cells d cs, moved)
          end
      end
  end.

(** ** Steps 7-9 of [layout_engine.layout_sugiyama] *)

(** One round of step 7, [for label, node in nodes.items()]; the state is
    [label_to_id] and the diagram. *)
Definition sugiyama_vertex (grid : Z) (acc : list (string * string) * Builder)
    (ln : string * LNode.t) : list (string * string) * Builder :=
  let '(m, st) := acc in
  let '(label, node) := ln in
  if LNode.is_virtual node then acc else
  let '(cid, st') := add_vertex st label (snap_to_grid (LNode.x node) grid)
                       (snap_to_grid (LNode.y node) grid)
                       (LNode.width node) (LNode.height node) "1" None in
  (dict_set label cid m, st').

(** One round of step 8, [for edge in edge_list]. *)
Definition sugiyama_edge (label_to_id : list (string * string)) (st : Builder)
    (e : string * string * string) : Builder :=
  let '(s, t, lbl) := e in
  match assoc s label_to_id, assoc t label_to_id with
  | Some sid, Some tid => snd (add_edge st sid tid lbl "1" None None)
  | _, _ => st
  end.

(** [layout_sugiyama(diagram, edges, config=cfg)] with [cfg.grid_size] =
    [grid], [cfg.route_edges] = [route_edges] and [cfg.edge_margin] =
    [edge_margin]: the returned [label_to_id] and the diagram.  Steps 1-6
    are the argument [steps]: from the edges, the [nodes] dict after
    [_remove_overlaps] (virtual nodes included).  Step 7 adds a vertex for
    each real node at its snapped position, step 8 an edge for each input
    edge, step 9 routes the diagram.  Styles are not modelled.  [None]: the
    routing failed. *)
Definition layout_sugiyama
    (steps : list (string * string * string) -> list (string * LNode.t))
    (st : Builder) (edges : list (string * string * string))
    (grid : Z) (route_edges : bool) (edge_margin : Q)
  : option (list (string * string) * Builder) :=
  let '(label_to_id, st) := fold_left (sugiyama_vertex grid) (steps edges) ([], st) in
  let st := fold_left (sugiyama_edge label_to_id) edges st in
  if route_edges then
    match route_edges_around_obstacles (fst st) edge_margin with
    | Some (d', _) => Some (label_to_id, (d', snd st))
    | None => None
    end
  else Some (label_to_id, st).

(** ** The placement phase of [layout.layout_tree] *)

(** [max(...)] of a list of integers, [0] for the empty list. *)
Definition max_Z (l : list Z) : Z := fold_left Z.max l 0%Z.

(** The vertices of one level, [for i, lbl in enumerate(labels_at)]. *)
Definition tree_level (cfg : LayoutConfig.t) (direction : string) (max_lvl : Z)
    (offset : Q) (lvl : Z) (acc : list (string * string) * Builder) (il : nat * string)
  : list (string * string) * Builder :=
  let '(m, st) := acc in
  let '(i, lbl) := il in
  let dw := LayoutConfig.default_width cfg in
  let dh := LayoutConfig.default_height cfg in
  let hs := LayoutConfig.h_spacing cfg in
  let vs := LayoutConfig.v_spacing cfg in
  let '(x, y) :=
    if String.eqb direction "TB" || String.eqb direction "BT" then
      (LayoutConfig.start_x cfg + offset + inject_Z (Z.of_nat i) * (dw + hs),
       if String.eqb direction "BT"
       then LayoutConfig.start_y cfg + inject_Z (max_lvl - lvl) * (dh + vs)
       else LayoutConfig.start_y cfg + inject_Z lvl * (dh + vs))
    else
      (if String.eqb direction "RL"
       then LayoutConfig.start_x cfg + inject_Z (max_lvl - lvl) * (dw + hs)
       else LayoutConfig.start_x cfg + inject_Z lvl * (dw + hs),
       LayoutConfig.start_y cfg + offset + inject_Z (Z.of_nat i) * (dh + vs)) in
  let x := snap_to_grid x (LayoutConfig.grid_size cfg) in
  let y := snap_to_grid y (LayoutConfig.grid_size cfg) in
  let '(cid, st') := add_vertex st lbl x y dw dh "1" None in
  (dict_set lbl cid m, st').

(** One round of [for lvl, labels_at in sorted(by_level.items())]. *)
Definition tree_place (cfg : LayoutConfig.t) (direction : string) (max_lvl max_width_count : Z)
    (acc : list (string * string) * Builder) (e : Z * list string)
  : list (string * string) * Builder :=
  let '(lvl, labels_at) := e in
  let dw := LayoutConfig.default_width cfg in
  let hs := LayoutConfig.h_spacing cfg in
  let count := Z.of_nat (List.length labels_at) in
  let total_width := inject_Z count * dw + inject_Z (count - 1) * hs in
  let max_total := inject_Z max_width_count * dw + inject_Z (max_width_count - 1) * hs in
  let offset := (max_total - total_width) / 2 in
  fold_left (tree_level cfg direction max_lvl offset lvl)
            (combine (seq 0 (List.length labels_at)) labels_at) acc.

(** One round of [for parent_lbl, children in adjacency.items()]. *)
Definition tree_edge (label_to_id : list (string * string)) (st : Builder)
    (e : string * list string) : Builder :=
  let '(parent_lbl, children) := e in
  fold_left (fun (st : Builder) child_lbl =>
               match assoc parent_lbl label_to_id, assoc child_lbl label_to_id with
               | Some a, Some b => snd (add_edge st a b EmptyString "1" None None)
               | _, _ => st
               end) children st.

(** [layout_tree(diagram, adjacency, root_label, config=config,
    direction=direction)]: the returned [label_to_id] and the diagram.  The
    BFS and the two barycenter sweeps are the argument [levels]: from the
    adjacency, the [by_level] dict they leave (a non-empty dict: the root
    is at level 0).  [max_lvl] is the largest level. *)
Definition layout_tree (levels : list (string * list string) -> list (Z * list string))
    (st : Builder) (adjacency : list (string * list string))
    (config : option LayoutConfig.t) (direction : string)
  : list (string * string) * Builder :=
  let cfg := cfg_of config in
  let by_level := levels adjacency in
  let max_lvl := max_Z (map fst by_level) in
  let max_width_count := max_Z (map (fun e => Z.of_nat (List.length (snd e))) by_level) in
  let '(label_to_id, st) :=
    fold_left (tree_place cfg direction max_lvl max_width_count) (sorted_items by_level) ([], st) in
  (label_to_id, fold_left (tree_edge label_to_id) adjacency st).

Module Examples.

(** Two 15x10 layered-layout nodes, 35 apart: their padded boxes touch but
    do not overlap. *)
Definition c1_a : LNode.t := LNode.mk "a" "a" 15 10 0 0 6 0 false.
Definition c1_b : LNode.t := LNode.mk "b" "b" 15 10 0 1 41 0 false.

(** Two 10x10 nodes whose padded overlaps are equal on both axes. *)
Definition c5_a : LNode.t := LNode.mk "a" "a" 10 10 0 0 0 0 false.
Definition c5_b : LNode.t := LNode.mk "b" "b" 10 10 0 1 5 5 false.

(** A wide node whose left edge lies left of a narrow node, while its
    centre lies right of the narrow node's centre. *)
Definition c5_wide : LNode.t := LNode.mk "w" "w" 100 100 0 0 0 0 false.
Definition c5_narrow : LNode.t := LNode.mk "n" "n" 10 100 0 1 10 0 false.

(** Two overlapping 120x60 vertices of a diagram. *)
Definition vtx (cid : string) (x y : Q) : MxCell.t :=
  MxCell.mk cid EmptyString "1" true false None None
    (Some (Geometry.mk x y 120 60 false [])).
Definition d_two : Diagram := mkDiagram [vtx "2" 100 100; vtx "3" 110 110] 10.

(** The same two vertices and a third one far away. *)
Definition d_three : Diagram :=
  mkDiagram [vtx "2" 100 100; vtx "3" 110 110; vtx "4" 600 600] 10.

(** A source and a target box on one row, with an obstacle between them. *)
Definition c2_src : Bounds.t := Bounds.mk 0 80 40 40.
Definition c2_tgt : Bounds.t := Bounds.mk 400 80 40 40.
Definition c2_obs : Bounds.t := Bounds.mk 180 64 100 100.

Definition loop_diagram (r : option (Diagram * Z * bool)) : Diagram :=
  match r with Some (d, _, _) => d | None => mkDiagram [] 0 end.

(** A source and a target whose centre lines x = 104.8 and x = 105.2 lie
    0.4 apart, on both sides of a rounding boundary of a grid of 10; two
    walls with gaps on y = 104.8 and y = 105.2 and two blocks in front of
    the ends make the search jog between these lines. *)
Definition c6_src : Bounds.t := Bounds.mk (-20) (948 # 10) 40 20.
Definition c6_tgt : Bounds.t := Bounds.mk 680 (952 # 10) 40 20.
Definition c6_obs : list Bounds.t :=
  [Bounds.mk 200 (-500) 40 595; Bounds.mk 200 110 40 600;
   Bounds.mk 400 (-500) 40 600; Bounds.mk 400 115 40 600;
   Bounds.mk 60 80 40 50; Bounds.mk 500 80 40 50].

(** Two boxes S and T, a connector S -> T, and a connector from S to an
    id that no cell has. *)
Definition box (cid : string) (x y w h : Q) : MxCell.t :=
  MxCell.mk cid EmptyString "1" true false None None
    (Some (Geometry.mk x y w h false [])).
Definition edge (cid s t : string) (pts : list Point.t) : MxCell.t :=
  MxCell.mk cid EmptyString "1" false true (Some s) (Some t)
    (Some (Geometry.mk 0 0 0 0 true pts)).
Definition c9_diagram : Diagram :=
  mkDiagram [box "S"%string (-20) (-20) 40 40; box "T"%string 180 (-20) 40 40;
             edge "E" "S" "T" []; edge "F" "S" "X" [Point.mk 100 3]]%string 10.
Definition c9_bounds : list (string * Bounds.t) :=
  [("S"%string, Bounds.mk (-20) (-20) 40 40); ("T"%string, Bounds.mk 180 (-20) 40 40)].

(** Boxes S and T side by side, and a connector S -> T with one waypoint
    3 units off the line between the box centres. *)
Definition c4_diagram : Diagram :=
  mkDiagram [box "S"%string (-20) (-20) 40 40; box "T"%string 180 (-20) 40 40;
             edge "E" "S" "T" [Point.mk 100 3]]%string 10.
Definition c4_after_first : Diagram :=
  mkDiagram [box "S"%string (-20) (-20) 40 40; box "T"%string 180 (-20) 40 40;
             edge "E" "S" "T" [Point.mk 100 0]]%string 10.
Definition c4_after_second : Diagram :=
  mkDiagram [box "S"%string (-20) (-20) 40 40; box "T"%string 180 (-20) 40 40;
             edge "E" "S" "T" []]%string 10.

(** Three 120x60 nodes: A on rank 0, B and C on rank 1. *)
Definition c8_node (l : string) : LNode.t := LNode.mk l l 120 60 0 0 0 0 false.
Definition c8_nodes : list (string * LNode.t) :=
  [("A", c8_node "A"); ("B", c8_node "B"); ("C", c8_node "C")]%string.
Definition c8_by_rank : list (Z * list string) :=
  [(0%Z, ["A"]); (1%Z, ["B"; "C"])]%string.

(** A source box and a target box placed diagonally, 301 apart in x. *)
Definition c7_src : Bounds.t := Bounds.mk 0 0 100 50.
Definition c7_tgt : Bounds.t := Bounds.mk 301 200 100 50.

End Examples.

(** * Predicates used in the statements *)

(** Every point of a waypoint list lies on the grid of size [grid]. *)
Definition points_on_grid (grid : Z) (pts : list Point.t) : Prop :=
  Forall (fun p => on_grid grid (Point.x p) /\ on_grid grid (Point.y p)) pts.

(** The invariant of the segment separation phase: each edge cell is the
    original one, which no remaining segment refers to, or has its waypoints
    on the grid. *)
Definition phase5_inv (grid : Z) (ecs0 : list MxCell.t) (segs : list Segment)
    (ecs : list MxCell.t) : Prop :=
  forall m c', nth_error ecs m = Some c' ->
  (nth_error ecs0 m = Some c' /\ forall seg, In seg segs -> edge_idx seg <> m) \/
  points_on_grid grid (cell_points c').

(** Each of the [x] and [y] of a cell's geometry is unchanged or lies on
    the grid. *)
Definition snapped_rel (grid : Z) (c c' : MxCell.t) : Prop :=
  match MxCell.geometry c, MxCell.geometry c' with
  | Some g, Some g' =>
      (Geometry.x g' = Geometry.x g \/ on_grid grid (Geometry.x g')) /\
      (Geometry.y g' = Geometry.y g \/ on_grid grid (Geometry.y g'))
  | None, None => True
  | _, _ => False
  end.

(** A cell is unchanged, or is a vertex whose geometry differs only in its
    [x] and [y]. *)
Definition xy_moved (c c' : MxCell.t) : Prop :=
  c' = c \/
  (MxCell.vertex c = true /\
   exists g x' y', MxCell.geometry c = Some g /\
     c' = MxCell.set_geometry c (Some (Geometry.set_y (Geometry.set_x g x') y'))).

(** Vertex [v] belongs to a pair of the scanned bounds that intersect with
    the margin. *)
Definition in_intersecting_pair (v : string) (margin : Q)
    (bs : list (string * Bounds.t)) : bool :=
  existsb
    (fun ij : nat * nat =>
       let '(i, j) := ij in
       let '(a_id, ab) := nth i bs (EmptyString, dummy_bounds) in
       let '(b_id, bb) := nth j bs (EmptyString, dummy_bounds) in
       (String.eqb a_id v || String.eqb b_id v) && Bounds.intersects ab bb margin)
    (index_pairs (List.length bs)).

(** At no iteration of [resolve_loop] does vertex [v] belong to an
    intersecting pair. *)
Fixpoint free_throughout (v : string) (iters : nat) (margin : Q) (d : Diagram)
    (moved : Z) : bool :=
  match iters with
  | O => true
  | S k =>
      match get_all_vertex_bounds d with
      | None => true
      | Some bs =>
          negb (in_intersecting_pair v margin bs) &&
          (let '(cs', any_overlap, moved') :=
             resolve_scan (grid_size d) margin bs (cells d) moved in
           if any_overlap then free_throughout v k margin (set_cells d cs') moved'
           else true)
      end
  end.

(** The coordinate [f] of the cell's geometry before the call was [v]. *)
Definition kept_coord (f : Geometry.t -> Q) (c : MxCell.t) (v : Q) : Prop :=
  match MxCell.geometry c with Some g => f g = v | None => False end.

(** What a call may write into cell [c], giving [c']: each of [x] and [y]
    is kept or lies on the grid [gpos]; the waypoints are kept or lie on
    the grid [gpts]; a cell without a geometry keeps none. *)
Definition grid_written (gpos gpts : Z) (c c' : MxCell.t) : Prop :=
  match MxCell.geometry c' with
  | None => MxCell.geometry c = None
  | Some g' =>
      (kept_coord Geometry.x c (Geometry.x g') \/ on_grid gpos (Geometry.x g')) /\
      (kept_coord Geometry.y c (Geometry.y g') \/ on_grid gpos (Geometry.y g')) /\
      (Geometry.points g' = cell_points c \/ points_on_grid gpts (Geometry.points g'))
  end.

(** A cell added by a call: its [x] and [y] on the grid [gpos], its
    waypoints on the grid [gpts]. *)
Definition placed_on_grid (gpos gpts : Z) (c : MxCell.t) : Prop :=
  match MxCell.geometry c with
  | Some g => on_grid gpos (Geometry.x g) /\ on_grid gpos (Geometry.y g) /\
              points_on_grid gpts (Geometry.points g)
  | None => True
  end.

(** A call took diagram [d] to [d']: the grid size is kept, the cells of
    [d] are still in place with only grid coordinates written into them,
    and the cells added after them are placed on the grid. *)
Definition diagram_on_grid (gpos gpts : Z) (d d' : Diagram) : Prop :=
  grid_size d' = grid_size d /\
  exists old new, cells d' = old ++ new /\
    Forall2 (grid_written gpos gpts) (cells d) old /\
    Forall (placed_on_grid gpos gpts) new.

(** A geometry update that keeps the waypoints and writes [x] and [y] only
    on the grid. *)
Definition geom_moved (gpos : Z) (g g' : Geometry.t) : Prop :=
  (Geometry.x g' = Geometry.x g \/ on_grid gpos (Geometry.x g')) /\
  (Geometry.y g' = Geometry.y g \/ on_grid gpos (Geometry.y g')) /\
  Geometry.points g' = Geometry.points g.

(** A cell keeps its [x], its [y] and whether it has a geometry. *)
Definition same_frame (c c' : MxCell.t) : Prop :=
  match MxCell.geometry c, MxCell.geometry c' with
  | Some g, Some g' => Geometry.x g' = Geometry.x g /\ Geometry.y g' = Geometry.y g
  | None, None => True
  | _, _ => False
  end.

(** The builder [st'] is [st] with cells satisfying [P] appended. *)
Definition appends (P : MxCell.t -> Prop) (st st' : Builder) : Prop :=
  grid_size (fst st') = grid_size (fst st) /\
  exists new, cells (fst st') = cells (fst st) ++ new /\ Forall P new.

(** * Lemmas *)

(** ** Index pairs *)

Lemma index_pairs_in (n i j : nat) :
  (i < j < n)%nat -> In (i, j) (index_pairs n).
Proof.
  intros [Hij Hjn]. unfold index_pairs.
  apply in_flat_map. exists i. split.
  - apply in_seq. lia.
  - apply in_map_iff. exists j. split; [reflexivity|]. apply in_seq. lia.
Qed.

(** ** The scan of [_remove_overlaps] *)

Lemma push_pair_none (a b : LNode.t) (p : Q) :
  push_pair a b p = None -> padded_overlap a b p = false.
Proof.
  unfold push_pair, padded_overlap.
  destruct (compute_overlap a b p) as [ox oy].
  destruct (Qltb 0 ox && Qltb 0 oy); [|reflexivity].
  destruct (Qltb ox oy);
    [destruct (Qltb (LNode.x a) (LNode.x b)) | destruct (Qltb (LNode.y a) (LNode.y b))];
    discriminate.
Qed.

(** A run of scan steps that ends with [moved = false] started with
    [moved = false], changed nothing, and met no overlapping pair. *)
Lemma scan_steps_unmoved (p : Q) (l : list (nat * nat)) :
  forall ns b ns',
    fold_left (scan_step p) l (ns, b) = (ns', false) ->
    b = false /\ ns' = ns /\
    forall i j, In (i, j) l ->
      push_pair (nth i ns dummy_node) (nth j ns dummy_node) p = None.
Proof.
  induction l as [|[i j] l IH]; intros ns b ns' H.
  - simpl in H. inversion H; subst. split; [reflexivity|]. split; [reflexivity|].
    intros i j [].
  - simpl in H.
    destruct (push_pair (nth i ns dummy_node) (nth j ns dummy_node) p)
      as [[a' b']|] eqn:E.
    + apply IH in H. destruct H as [H _]. discriminate.
    + apply IH in H. destruct H as [Hb [Hns Hall]].
      split; [exact Hb|]. split; [exact Hns|].
      intros i' j' [Heq|Hin].
      * inversion Heq; subst. exact E.
      * apply Hall. exact Hin.
Qed.

Lemma overlap_scan_unmoved (p : Q) (ns ns' : list LNode.t) :
  overlap_scan p ns = (ns', false) ->
  ns' = ns /\
  forall i j, (i < j < List.length ns)%nat ->
    padded_overlap (nth i ns dummy_node) (nth j ns dummy_node) p = false.
Proof.
  unfold overlap_scan. intros H. apply scan_steps_unmoved in H.
  destruct H as [_ [Hns Hall]]. split; [exact Hns|].
  intros i j Hij. apply push_pair_none, Hall, index_pairs_in, Hij.
Qed.

(** When the loop leaves through [break], the nodes it returns are those
    the last (unmoved) scan looked at. *)
Lemma overlap_loop_break (k : nat) (p : Q) :
  forall ns ns',
    overlap_loop k p ns = (ns', true) -> overlap_scan p ns' = (ns', false).
Proof.
  induction k as [|k IH]; intros ns ns' H; simpl in H.
  - discriminate.
  - destruct (overlap_scan p ns) as [ns1 moved] eqn:E.
    destruct moved.
    + exact (IH _ _ H).
    + inversion H; subst.
      pose proof (overlap_scan_unmoved p ns ns' E) as [Hs _]. subst. exact E.
Qed.

(** ** The scan of [resolve_overlaps] *)

Ltac split_matches H :=
  repeat (first
    [ discriminate
    | match type of H with
      | context [if ?c then _ else _] => destruct c
      | context [match ?x with _ => _ end] => destruct x
      end ]).

Lemma resolve_step_unmoved (grid : Z) (margin : Q) (bs : list (string * Bounds.t))
    (cs : list MxCell.t) (b : bool) (mv : Z) (i j : nat) cs' mv' :
  resolve_step grid margin bs (cs, b, mv) (i, j) = (cs', false, mv') ->
  b = false /\ cs' = cs /\
  Bounds.intersects (snd (nth i bs (EmptyString, dummy_bounds)))
                    (snd (nth j bs (EmptyString, dummy_bounds))) margin = false.
Proof.
  unfold resolve_step.
  destruct (nth i bs (EmptyString, dummy_bounds)) as [a_id ab].
  destruct (nth j bs (EmptyString, dummy_bounds)) as [b_id bb]. simpl.
  destruct (Bounds.intersects ab bb margin) eqn:E; simpl; intros H.
  - split_matches H.
  - inversion H; subst. auto.
Qed.

Lemma resolve_steps_unmoved (grid : Z) (margin : Q) (bs : list (string * Bounds.t))
    (l : list (nat * nat)) :
  forall cs b mv cs' mv',
    fold_left (resolve_step grid margin bs) l (cs, b, mv) = (cs', false, mv') ->
    b = false /\ cs' = cs /\
    forall i j, In (i, j) l ->
      Bounds.intersects (snd (nth i bs (EmptyString, dummy_bounds)))
                        (snd (nth j bs (EmptyString, dummy_bounds))) margin = false.
Proof.
  induction l as [|[i j] l IH]; intros cs b mv cs' mv' H.
  - simpl in H. inversion H; subst. repeat split. intros i j [].
  - cbn [fold_left] in H.
    destruct (resolve_step grid margin bs (cs, b, mv) (i, j)) as [[cs1 b1] mv1] eqn:E.
    apply IH in H. destruct H as [Hb1 [Hcs Hall]]. subst b1 cs'.
    apply resolve_step_unmoved in E. destruct E as [Hb [Hcs Hij]].
    split; [exact Hb|]. split; [exact Hcs|].
    intros i' j' [Heq|Hin].
    + inversion Heq; subst. exact Hij.
    + apply Hall. exact Hin.
Qed.

Lemma set_cells_same (d : Diagram) : set_cells d (cells d) = d.
Proof. destruct d; reflexivity. Qed.

(** After [break], the diagram returned is the one the last scan measured,
    and no two of its vertex bounds intersect with the margin. *)
Lemma resolve_loop_break (k : nat) (margin : Q) :
  forall d moved d' moved',
    resolve_loop k margin d moved = Some (d', moved', true) ->
    exists bs, get_all_vertex_bounds d' = Some bs /\
      forall i j, (i < j < List.length bs)%nat ->
        Bounds.intersects (snd (nth i bs (EmptyString, dummy_bounds)))
                          (snd (nth j bs (EmptyString, dummy_bounds))) margin = false.
Proof.
  induction k as [|k IH]; intros d moved d' moved' H; simpl in H.
  - discriminate.
  - destruct (get_all_vertex_bounds d) as [bs|] eqn:Eb; [|discriminate].
    destruct (resolve_scan (grid_size d) margin bs (cells d) moved)
      as [[cs1 any] mv1] eqn:Es.
    destruct any.
    + exact (IH _ _ _ _ H).
    + inversion H; subst. unfold resolve_scan in Es.
      apply resolve_steps_unmoved in Es. destruct Es as [_ [Hcs Hall]].
      subst cs1. rewrite set_cells_same.
      exists bs. split; [exact Eb|].
      intros i j Hij. apply Hall, index_pairs_in, Hij.
Qed.

(** ** Push of one overlapping pair *)

Lemma push_pair_some (a b : LNode.t) (p : Q) :
  padded_overlap a b p = true ->
  let '(ox, oy) := compute_overlap a b p in
  push_pair a b p =
    Some (if Qltb ox oy then
            if Qltb (LNode.x a) (LNode.x b)
            then (LNode.set_x a (LNode.x a - (ox / 2 + 1)),
                  LNode.set_x b (LNode.x b + (ox / 2 + 1)))
            else (LNode.set_x a (LNode.x a + (ox / 2 + 1)),
                  LNode.set_x b (LNode.x b - (ox / 2 + 1)))
          else
            if Qltb (LNode.y a) (LNode.y b)
            then (LNode.set_y a (LNode.y a - (oy / 2 + 1)),
                  LNode.set_y b (LNode.y b + (oy / 2 + 1)))
            else (LNode.set_y a (LNode.y a + (oy / 2 + 1)),
                  LNode.set_y b (LNode.y b - (oy / 2 + 1)))).
Proof.
  unfold padded_overlap, push_pair.
  destruct (compute_overlap a b p) as [ox oy]. intros H. rewrite H.
  destruct (Qltb ox oy);
    [destruct (Qltb (LNode.x a) (LNode.x b)) | destruct (Qltb (LNode.y a) (LNode.y b))];
    reflexivity.
Qed.

(** ** List updates *)

Lemma nth_error_set_nth_neq {A} (l : list A) (i k : nat) (v : A) :
  k <> i -> nth_error (set_nth i l v) k = nth_error l k.
Proof.
  revert i k. induction l as [|a l IH]; intros i k Hne; [destruct i; reflexivity|].
  destruct i, k; simpl; try reflexivity; [lia|]. apply IH. lia.
Qed.

Lemma Forall2_refl {A} (R : A -> A -> Prop) (l : list A) :
  (forall a, R a a) -> Forall2 R l l.
Proof. intros H. induction l; constructor; auto. Qed.

Lemma Forall2_set_nth {A} (R : A -> A -> Prop) (l : list A) (i : nat) (v : A) :
  (forall a, R a a) -> (forall a, nth_error l i = Some a -> R a v) ->
  Forall2 R l (set_nth i l v).
Proof.
  intros Hrefl. revert i. induction l as [|a l IH]; intros i H; simpl.
  - destruct i; constructor.
  - destruct i; constructor.
    + apply H. reflexivity.
    + apply Forall2_refl, Hrefl.
    + apply Hrefl.
    + apply IH. exact H.
Qed.

Lemma Forall2_trans {A} (R : A -> A -> Prop) :
  (forall a b c, R a b -> R b c -> R a c) ->
  forall l1 l2 l3, Forall2 R l1 l2 -> Forall2 R l2 l3 -> Forall2 R l1 l3.
Proof.
  intros Ht l1 l2 l3 H12. revert l3.
  induction H12; intros l3 H23; inversion H23; subst; constructor; eauto.
Qed.

Lemma Forall2_nth_error {A} (R : A -> A -> Prop) l l' n a :
  Forall2 R l l' -> nth_error l n = Some a ->
  exists b, nth_error l' n = Some b /\ R a b.
Proof.
  intros H. revert n. induction H; intros n Hn; destruct n; simpl in *;
    try discriminate.
  - inversion Hn; subst. eauto.
  - auto.
Qed.

Lemma Forall2_nth_error_rev {A} (R : A -> A -> Prop) l l' n b :
  Forall2 R l l' -> nth_error l' n = Some b ->
  exists a, nth_error l n = Some a /\ R a b.
Proof.
  intros H. revert n. induction H; intros n Hn; destruct n; simpl in *;
    try discriminate.
  - inversion Hn; subst. eauto.
  - auto.
Qed.

(** ** Cells moved by [resolve_overlaps] *)

Lemma xy_moved_refl (c : MxCell.t) : xy_moved c c.
Proof. left. reflexivity. Qed.

Lemma xy_moved_trans (c1 c2 c3 : MxCell.t) :
  xy_moved c1 c2 -> xy_moved c2 c3 -> xy_moved c1 c3.
Proof.
  intros [->|[Hv [g [x1 [y1 [Hg ->]]]]]] H23; [exact H23|].
  destruct H23 as [->|[_ [g2 [x2 [y2 [Hg2 ->]]]]]].
  - right. eauto 7.
  - right. split; [exact Hv|]. exists g, x2, y2. split; [exact Hg|].
    destruct c1; simpl in *. inversion Hg2; subst. destruct g; reflexivity.
Qed.

Lemma xy_moved_id (c c' : MxCell.t) :
  xy_moved c c' -> MxCell.id c' = MxCell.id c /\ MxCell.vertex c' = MxCell.vertex c.
Proof. intros [->|[_ [g [x' [y' [_ ->]]]]]]; destruct c; auto. Qed.

Lemma Forall2_xy_moved_ids (cs cs' : list MxCell.t) :
  Forall2 xy_moved cs cs' -> map MxCell.id cs' = map MxCell.id cs.
Proof.
  induction 1; simpl; [reflexivity|].
  rewrite IHForall2, (proj1 (xy_moved_id _ _ H)). reflexivity.
Qed.

Lemma update_geometry_xy_moved (cs : list MxCell.t) (i : nat) (f : Geometry.t -> Geometry.t) :
  (forall c, nth_error cs i = Some c -> MxCell.vertex c = true) ->
  (forall g, exists x' y', f g = Geometry.set_y (Geometry.set_x g x') y') ->
  Forall2 xy_moved cs (update_geometry cs i f).
Proof.
  intros Hv Hf. unfold update_geometry.
  destruct (nth_error cs i) as [c|] eqn:Ec.
  - destruct (MxCell.geometry c) as [g|] eqn:Eg.
    + apply Forall2_set_nth; [exact xy_moved_refl|].
      intros a Ea. rewrite Ec in Ea. inversion Ea; subst a.
      right. split; [apply Hv; reflexivity|].
      destruct (Hf g) as [x' [y' Hxy]]. exists g, x', y'. rewrite Hxy. auto.
    + apply Forall2_refl, xy_moved_refl.
  - apply Forall2_refl, xy_moved_refl.
Qed.

Lemma nth_error_extend {A} (pre suf : list A) (k : nat) (c : A) :
  nth_error pre k = Some c -> nth_error (pre ++ suf) k = Some c.
Proof.
  intros H. rewrite nth_error_app1; [exact H|].
  apply nth_error_Some. rewrite H. discriminate.
Qed.

Lemma find_cells_fold (a_id b_id : string) (cs : list MxCell.t) :
  forall pre oa ob n' oa' ob',
    fold_left
      (fun (st : nat * (option nat * option nat)) (c : MxCell.t) =>
         let '(i, (ia, ib)) := st in
         (S i, if String.eqb (MxCell.id c) a_id then (Some i, ib)
               else if String.eqb (MxCell.id c) b_id then (ia, Some i)
               else (ia, ib)))
      cs (List.length pre, (oa, ob)) = (n', (oa', ob')) ->
    (forall k, oa = Some k -> exists c, nth_error pre k = Some c /\ MxCell.id c = a_id) ->
    (forall k, ob = Some k -> exists c, nth_error pre k = Some c /\ MxCell.id c = b_id) ->
    (forall k, oa' = Some k -> exists c, nth_error (pre ++ cs) k = Some c /\ MxCell.id c = a_id) /\
    (forall k, ob' = Some k -> exists c, nth_error (pre ++ cs) k = Some c /\ MxCell.id c = b_id).
Proof.
  induction cs as [|c cs IH]; intros pre oa ob n' oa' ob' H Ha Hb.
  - simpl in H. inversion H; subst. rewrite app_nil_r. auto.
  - cbn [fold_left] in H. cbn beta iota in H.
    replace (S (List.length pre)) with (List.length (pre ++ [c])) in H
      by (rewrite length_app; simpl; lia).
    replace (pre ++ c :: cs) with ((pre ++ [c]) ++ cs)
      by (rewrite <- app_assoc; reflexivity).
    assert (Hlast : nth_error (pre ++ [c]) (List.length pre) = Some c)
      by (rewrite nth_error_app2, Nat.sub_diag; reflexivity).
    destruct (String.eqb_spec (MxCell.id c) a_id) as [Ea|Ea];
      [|destruct (String.eqb_spec (MxCell.id c) b_id) as [Eb|Eb]];
      (eapply IH; [exact H| |]);
      intros k Hk;
      first
        [ inversion Hk; subst k; exists c; auto
        | destruct (Ha k Hk) as [c' [Hc' Hid]]; exists c'; auto using nth_error_extend
        | destruct (Hb k Hk) as [c' [Hc' Hid]]; exists c'; auto using nth_error_extend ].
Qed.

Lemma find_cells_spec (cs : list MxCell.t) (a_id b_id : string) oa ob :
  find_cells cs a_id b_id = (oa, ob) ->
  (forall k, oa = Some k -> exists c, nth_error cs k = Some c /\ MxCell.id c = a_id) /\
  (forall k, ob = Some k -> exists c, nth_error cs k = Some c /\ MxCell.id c = b_id).
Proof.
  unfold find_cells. intros H.
  destruct (fold_left _ cs (O, (None, None))) as [n' [oa' ob']] eqn:E.
  simpl in H. inversion H; subst oa' ob'.
  apply (find_cells_fold a_id b_id cs [] None None n' oa ob E);
    intros k Hk; discriminate.
Qed.

Lemma update_geometry_nth_error_neq (cs : list MxCell.t) (i k : nat) f :
  k <> i -> nth_error (update_geometry cs i f) k = nth_error cs k.
Proof.
  intros Hne. unfold update_geometry.
  destruct (nth_error cs i); [|reflexivity].
  destruct (MxCell.geometry t); [|reflexivity].
  apply nth_error_set_nth_neq, Hne.
Qed.

Lemma move_x_xy (grid : Z) (delta : Q) (g : Geometry.t) :
  exists x' y', move_x grid delta g = Geometry.set_y (Geometry.set_x g x') y'.
Proof. exists (snap_to_grid (Geometry.x g + delta) grid), (Geometry.y g). destruct g; reflexivity. Qed.

Lemma move_y_xy (grid : Z) (delta : Q) (g : Geometry.t) :
  exists x' y', move_y grid delta g = Geometry.set_y (Geometry.set_x g x') y'.
Proof. exists (Geometry.x g), (snap_to_grid (Geometry.y g + delta) grid). destruct g; reflexivity. Qed.

Lemma update_pair_xy_moved (cs : list MxCell.t) (ia ib : nat) (fa fb : Geometry.t -> Geometry.t) :
  (forall c, nth_error cs ia = Some c -> MxCell.vertex c = true) ->
  (forall c, nth_error cs ib = Some c -> MxCell.vertex c = true) ->
  (forall g, exists x' y', fa g = Geometry.set_y (Geometry.set_x g x') y') ->
  (forall g, exists x' y', fb g = Geometry.set_y (Geometry.set_x g x') y') ->
  Forall2 xy_moved cs (update_geometry (update_geometry cs ia fa) ib fb).
Proof.
  intros Ha Hb Hfa Hfb.
  assert (H1 : Forall2 xy_moved cs (update_geometry cs ia fa))
    by (apply update_geometry_xy_moved; assumption).
  eapply Forall2_trans; [exact xy_moved_trans | exact H1 |].
  apply update_geometry_xy_moved; [|exact Hfb].
  intros c Hc. destruct (Forall2_nth_error_rev _ _ _ _ _ H1 Hc) as [c0 [Hc0 Hm]].
  rewrite (proj2 (xy_moved_id _ _ Hm)). apply Hb, Hc0.
Qed.

Lemma nth_key_in (bs : list (string * Bounds.t)) (i : nat) k b :
  (i < List.length bs)%nat -> nth i bs (EmptyString, dummy_bounds) = (k, b) ->
  In k (map fst bs).
Proof.
  intros Hi Hn. apply in_map_iff. exists (k, b). split; [reflexivity|].
  rewrite <- Hn. apply nth_In, Hi.
Qed.

(** Every cell of [cs] whose id is a key of [bs] is a vertex. *)
Lemma resolve_step_xy_moved (grid : Z) (margin : Q) (bs : list (string * Bounds.t))
    (cs : list MxCell.t) (b : bool) (mv : Z) (i j : nat) cs' b' mv' :
  (i < List.length bs)%nat -> (j < List.length bs)%nat ->
  (forall n c, nth_error cs n = Some c -> In (MxCell.id c) (map fst bs) ->
               MxCell.vertex c = true) ->
  resolve_step grid margin bs (cs, b, mv) (i, j) = (cs', b', mv') ->
  Forall2 xy_moved cs cs'.
Proof.
  intros Hi Hj Hv. unfold resolve_step.
  destruct (nth i bs (EmptyString, dummy_bounds)) as [a_id ab] eqn:Ei.
  destruct (nth j bs (EmptyString, dummy_bounds)) as [b_id bb] eqn:Ej.
  pose proof (nth_key_in bs i a_id ab Hi Ei) as Ka.
  pose proof (nth_key_in bs j b_id bb Hj Ej) as Kb.
  cbn beta iota zeta.
  destruct (Bounds.intersects ab bb margin); cbn beta iota;
    [|intros H; inversion H; subst; apply Forall2_refl, xy_moved_refl].
  destruct (find_cells cs a_id b_id) as [oa ob] eqn:Ef.
  destruct (find_cells_spec cs a_id b_id oa ob Ef) as [Fa Fb].
  destruct oa as [ia|]; [|intros H; inversion H; subst; apply Forall2_refl, xy_moved_refl].
  destruct ob as [ib|]; [|intros H; inversion H; subst; apply Forall2_refl, xy_moved_refl].
  destruct (Fa ia eq_refl) as [ca0 [Hca0 Ida]].
  destruct (Fb ib eq_refl) as [cb0 [Hcb0 Idb]].
  assert (Va : forall c, nth_error cs ia = Some c -> MxCell.vertex c = true)
    by (intros c Hc; apply (Hv ia c Hc); rewrite Hc in Hca0;
        inversion Hca0; subst; exact Ka).
  assert (Vb : forall c, nth_error cs ib = Some c -> MxCell.vertex c = true)
    by (intros c Hc; apply (Hv ib c Hc); rewrite Hc in Hcb0;
        inversion Hcb0; subst; exact Kb).
  rewrite Hca0, Hcb0.
  destruct (MxCell.geometry ca0); [|intros H; inversion H; subst; apply Forall2_refl, xy_moved_refl].
  destruct (MxCell.geometry cb0); [|intros H; inversion H; subst; apply Forall2_refl, xy_moved_refl].
  intros H.
  repeat match type of H with context [if ?c then _ else _] => destruct c end;
    inversion H; subst;
    first [ apply Forall2_refl, xy_moved_refl
          | apply update_pair_xy_moved; auto using move_x_xy, move_y_xy ].
Qed.

Lemma resolve_step_keeps (grid : Z) (margin : Q) (bs : list (string * Bounds.t))
    (cs : list MxCell.t) (b : bool) (mv : Z) (i j : nat) cs' b' mv'
    (v : string) (k : nat) (c : MxCell.t) :
  nth_error cs k = Some c -> MxCell.id c = v ->
  (let '(a_id, ab) := nth i bs (EmptyString, dummy_bounds) in
   let '(b_id, bb) := nth j bs (EmptyString, dummy_bounds) in
   (String.eqb a_id v || String.eqb b_id v) && Bounds.intersects ab bb margin) = false ->
  resolve_step grid margin bs (cs, b, mv) (i, j) = (cs', b', mv') ->
  nth_error cs' k = Some c.
Proof.
  intros Hk Hid. unfold resolve_step.
  destruct (nth i bs (EmptyString, dummy_bounds)) as [a_id ab].
  destruct (nth j bs (EmptyString, dummy_bounds)) as [b_id bb].
  cbn beta iota zeta. intros Hfree.
  destruct (Bounds.intersects ab bb margin); cbn beta iota;
    [|intros H; inversion H; subst; exact Hk].
  rewrite andb_true_r in Hfree. apply orb_false_elim in Hfree.
  destruct Hfree as [Na Nb].
  destruct (find_cells cs a_id b_id) as [oa ob] eqn:Ef.
  destruct (find_cells_spec cs a_id b_id oa ob Ef) as [Fa Fb].
  destruct oa as [ia|]; [|intros H; inversion H; subst; exact Hk].
  destruct ob as [ib|]; [|intros H; inversion H; subst; exact Hk].
  destruct (Fa ia eq_refl) as [ca0 [Hca0 Ida]].
  destruct (Fb ib eq_refl) as [cb0 [Hcb0 Idb]].
  assert (Ka : k <> ia).
  { intros ->. rewrite Hk in Hca0. inversion Hca0; subst.
    rewrite String.eqb_refl in Na. discriminate. }
  assert (Kb : k <> ib).
  { intros ->. rewrite Hk in Hcb0. inversion Hcb0; subst.
    rewrite String.eqb_refl in Nb. discriminate. }
  rewrite Hca0, Hcb0.
  destruct (MxCell.geometry ca0); [|intros H; inversion H; subst; exact Hk].
  destruct (MxCell.geometry cb0); [|intros H; inversion H; subst; exact Hk].
  intros H.
  repeat match type of H with context [if ?c then _ else _] => destruct c end;
    inversion H; subst;
    first [ exact Hk
          | rewrite !update_geometry_nth_error_neq by assumption; exact Hk ].
Qed.

(** A full scan keeps every vertex's cell at its index, and moves every
    cell only in the [x] and [y] of a vertex geometry. *)
Lemma resolve_scan_frame (grid : Z) (margin : Q) (bs : list (string * Bounds.t))
    (l : list (nat * nat)) :
  (forall i j, In (i, j) l -> (i < List.length bs)%nat /\ (j < List.length bs)%nat) ->
  forall cs b mv cs' b' mv',
    (forall n c, nth_error cs n = Some c -> In (MxCell.id c) (map fst bs) ->
                 MxCell.vertex c = true) ->
    fold_left (resolve_step grid margin bs) l (cs, b, mv) = (cs', b', mv') ->
    Forall2 xy_moved cs cs'.
Proof.
  intros Hl. induction l as [|[i j] l IH]; intros cs b mv cs' b' mv' Hv H.
  - simpl in H. inversion H; subst. apply Forall2_refl, xy_moved_refl.
  - cbn [fold_left] in H.
    destruct (resolve_step grid margin bs (cs, b, mv) (i, j)) as [[cs1 b1] mv1] eqn:E.
    destruct (Hl i j (or_introl eq_refl)) as [Hi Hj].
    assert (H1 : Forall2 xy_moved cs cs1)
      by (eapply resolve_step_xy_moved; [exact Hi | exact Hj | exact Hv | exact E]).
    eapply Forall2_trans; [exact xy_moved_trans | exact H1 |].
    eapply IH; [intros i' j' Hin; apply Hl; right; exact Hin | | exact H].
    intros n c Hc Hin. destruct (Forall2_nth_error_rev _ _ _ _ _ H1 Hc) as [c0 [Hc0 Hm]].
    destruct (xy_moved_id _ _ Hm) as [Hid Hvx]. rewrite Hvx.
    apply (Hv n c0 Hc0). rewrite <- Hid. exact Hin.
Qed.

Lemma resolve_scan_keeps (grid : Z) (margin : Q) (bs : list (string * Bounds.t))
    (v : string) (l : list (nat * nat)) :
  (forall ij, In ij l ->
     (let '(i, j) := ij in
      let '(a_id, ab) := nth i bs (EmptyString, dummy_bounds) in
      let '(b_id, bb) := nth j bs (EmptyString, dummy_bounds) in
      (String.eqb a_id v || String.eqb b_id v) && Bounds.intersects ab bb margin) = false) ->
  forall cs b mv cs' b' mv' k c,
    nth_error cs k = Some c -> MxCell.id c = v ->
    fold_left (resolve_step grid margin bs) l (cs, b, mv) = (cs', b', mv') ->
    nth_error cs' k = Some c.
Proof.
  intros Hl. induction l as [|[i j] l IH]; intros cs b mv cs' b' mv' k c Hk Hid H.
  - simpl in H. inversion H; subst. exact Hk.
  - cbn [fold_left] in H.
    destruct (resolve_step grid margin bs (cs, b, mv) (i, j)) as [[cs1 b1] mv1] eqn:E.
    eapply IH; [intros ij Hin; apply Hl; right; exact Hin | | exact Hid | exact H].
    eapply resolve_step_keeps; [exact Hk | exact Hid | | exact E].
    exact (Hl (i, j) (or_introl eq_refl)).
Qed.

Lemma index_pairs_bound (n i j : nat) :
  In (i, j) (index_pairs n) -> (i < n)%nat /\ (j < n)%nat.
Proof.
  unfold index_pairs. intros H. apply in_flat_map in H.
  destruct H as [i' [Hi' Hin]]. apply in_seq in Hi'.
  apply in_map_iff in Hin. destruct Hin as [j' [Heq Hj']].
  inversion Heq; subst. apply in_seq in Hj'. lia.
Qed.

(** ** Keys of the vertex bounds *)

Lemma dict_set_keys {V} (k0 : string) (v : V) (m : list (string * V)) k e :
  In (k, e) (dict_set k0 v m) -> k = k0 \/ exists e', In (k, e') m.
Proof.
  induction m as [|[k1 v1] m IH]; simpl.
  - intros [H|[]]. inversion H. auto.
  - destruct (String.eqb_spec k0 k1) as [->|Hne]; simpl.
    + intros [H|H].
      * inversion H; subst. right. eexists. left. reflexivity.
      * right. exists e. right. exact H.
    + intros [H|H].
      * inversion H; subst. right. eexists. left. reflexivity.
      * destruct (IH H) as [Hk|[e' He']]; [left; exact Hk|].
        right. exists e'. right. exact He'.
Qed.

Lemma raw_entries_keys (cs : list MxCell.t) k e :
  In (k, e) (raw_entries cs) ->
  exists c, In c cs /\ MxCell.id c = k /\ MxCell.vertex c = true.
Proof.
  unfold raw_entries.
  assert (Hgen : forall pre acc,
    (forall k e, In (k, e) acc ->
       exists c, In c pre /\ MxCell.id c = k /\ MxCell.vertex c = true) ->
    forall k e, In (k, e) (fold_left
      (fun raw (c : MxCell.t) =>
         match MxCell.geometry c with
         | Some g =>
             if MxCell.vertex c && negb (Geometry.relative g) then
               let par := if String.eqb (MxCell.parent c) EmptyString
                          then "1"%string else MxCell.parent c in
               dict_set (MxCell.id c)
                 (Geometry.x g, Geometry.y g, Geometry.width g, Geometry.height g, par) raw
             else raw
         | None => raw
         end) cs acc) ->
    exists c, In c (pre ++ cs) /\ MxCell.id c = k /\ MxCell.vertex c = true).
  { clear k e. induction cs as [|c cs IH]; intros pre acc Hacc k e H.
    - simpl in H. rewrite app_nil_r. exact (Hacc k e H).
    - cbn [fold_left] in H.
      replace (pre ++ c :: cs) with ((pre ++ [c]) ++ cs)
        by (rewrite <- app_assoc; reflexivity).
      eapply IH; [|exact H].
      intros k' e' H'.
      assert (Hw : forall k'' e'', In (k'', e'') acc ->
                exists c', In c' (pre ++ [c]) /\ MxCell.id c' = k'' /\ MxCell.vertex c' = true).
      { intros k'' e'' H''. destruct (Hacc k'' e'' H'') as [c' [Hin Hc']].
        exists c'. split; [apply in_or_app; left; exact Hin | exact Hc']. }
      destruct (MxCell.geometry c) as [g|]; [|exact (Hw k' e' H')].
      destruct (MxCell.vertex c) eqn:Ev; simpl in H'; [|exact (Hw k' e' H')].
      destruct (Geometry.relative g); simpl in H'; [exact (Hw k' e' H')|].
      destruct (dict_set_keys _ _ _ _ _ H') as [->|[e'' He'']].
      + exists c. split; [apply in_or_app; right; left; reflexivity|]. auto.
      + exact (Hw k' e'' He''). }
  intros H. destruct (Hgen [] []) with (k := k) (e := e) as [c Hc];
    [intros k1 e1 []|exact H|]. exists c. exact Hc.
Qed.

Lemma bounds_of_raw_keys (raw_all raw : list (string * RawEntry)) :
  forall bs k b, bounds_of_raw raw_all raw = Some bs -> In (k, b) bs ->
  exists e, In (k, e) raw.
Proof.
  induction raw as [|[cid [[[[x y] w] h] par]] rest IH]; intros bs k b H Hin;
    cbn [bounds_of_raw] in H.
  - inversion H; subst. destruct Hin.
  - destruct (abs_pos (S (List.length raw_all)) raw_all cid) as [[ax ay]|];
      destruct (bounds_of_raw raw_all rest) as [bs'|] eqn:E; try discriminate.
    inversion H; subst. destruct Hin as [Heq|Hin].
    + inversion Heq; subst. eexists. left. reflexivity.
    + destruct (IH bs' k b eq_refl Hin) as [e He]. exists e. right. exact He.
Qed.

(** With unique cell ids, every cell whose id has vertex bounds is a
    vertex. *)
Lemma bounds_key_vertex (d : Diagram) (bs : list (string * Bounds.t)) :
  NoDup (map MxCell.id (cells d)) ->
  get_all_vertex_bounds d = Some bs ->
  forall n c, nth_error (cells d) n = Some c -> In (MxCell.id c) (map fst bs) ->
  MxCell.vertex c = true.
Proof.
  intros Hnd Hb n c Hc Hin.
  apply in_map_iff in Hin. destruct Hin as [[k b] [Hk Hin]]. simpl in Hk. subst k.
  destruct (bounds_of_raw_keys _ _ _ _ _ Hb Hin) as [e He].
  destruct (raw_entries_keys _ _ _ He) as [c0 [Hc0 [Hid0 Hv0]]].
  destruct (In_nth_error _ _ Hc0) as [n0 Hn0].
  assert (n = n0) as <-.
  { apply (proj1 (NoDup_nth_error _) Hnd).
    - rewrite length_map. apply nth_error_Some. rewrite Hc. discriminate.
    - rewrite !nth_error_map, Hc, Hn0. simpl. rewrite Hid0. reflexivity. }
  rewrite Hc in Hn0. inversion Hn0; subst. exact Hv0.
Qed.

(** ** The loop of [resolve_overlaps] *)

Lemma resolve_loop_frame (k : nat) (margin : Q) :
  forall d moved d' moved' fl,
    NoDup (map MxCell.id (cells d)) ->
    resolve_loop k margin d moved = Some (d', moved', fl) ->
    grid_size d' = grid_size d /\ Forall2 xy_moved (cells d) (cells d').
Proof.
  induction k as [|k IH]; intros d moved d' moved' fl Hnd H; simpl in H.
  - inversion H; subst. split; [reflexivity|]. apply Forall2_refl, xy_moved_refl.
  - destruct (get_all_vertex_bounds d) as [bs|] eqn:Eb; [|discriminate].
    destruct (resolve_scan (grid_size d) margin bs (cells d) moved)
      as [[cs1 any] mv1] eqn:Es.
    assert (H1 : Forall2 xy_moved (cells d) cs1).
    { unfold resolve_scan in Es. eapply resolve_scan_frame; [| |exact Es].
      - intros i j Hin. exact (index_pairs_bound _ _ _ Hin).
      - exact (bounds_key_vertex d bs Hnd Eb). }
    destruct any.
    + assert (Hnd1 : NoDup (map MxCell.id (cells (set_cells d cs1)))).
      { simpl. rewrite (Forall2_xy_moved_ids _ _ H1). exact Hnd. }
      destruct (IH _ _ _ _ _ Hnd1 H) as [Hg H2]. split; [exact Hg|].
      eapply Forall2_trans; [exact xy_moved_trans | exact H1 | exact H2].
    + inversion H; subst. split; [reflexivity | exact H1].
Qed.

Lemma resolve_loop_keeps (k : nat) (margin : Q) (v : string) :
  forall d moved d' moved' fl,
    free_throughout v k margin d moved = true ->
    resolve_loop k margin d moved = Some (d', moved', fl) ->
    forall n c, nth_error (cells d) n = Some c -> MxCell.id c = v ->
    nth_error (cells d') n = Some c.
Proof.
  induction k as [|k IH]; intros d moved d' moved' fl Hfree H n c Hc Hid; simpl in H, Hfree.
  - inversion H; subst. exact Hc.
  - destruct (get_all_vertex_bounds d) as [bs|] eqn:Eb; [|discriminate].
    destruct (resolve_scan (grid_size d) margin bs (cells d) moved)
      as [[cs1 any] mv1] eqn:Es.
    apply andb_prop in Hfree. destruct Hfree as [Hnot Hrest].
    assert (H1 : nth_error cs1 n = Some c).
    { unfold resolve_scan in Es.
      eapply resolve_scan_keeps; [| exact Hc | exact Hid | exact Es].
      intros ij Hin. unfold in_intersecting_pair in Hnot.
      match goal with |- ?e = false => destruct e eqn:Ef; [|reflexivity] end.
      exfalso. rewrite negb_true_iff in Hnot.
      assert (Hex : existsb
        (fun ij : nat * nat =>
           let '(i, j) := ij in
           let '(a_id, ab) := nth i bs (EmptyString, dummy_bounds) in
           let '(b_id, bb) := nth j bs (EmptyString, dummy_bounds) in
           (String.eqb a_id v || String.eqb b_id v) && Bounds.intersects ab bb margin)
        (index_pairs (List.length bs)) = true)
        by (apply existsb_exists; exists ij; split; [exact Hin | exact Ef]).
      rewrite Hex in Hnot. discriminate. }
    destruct any.
    + exact (IH _ _ _ _ _ Hrest H n c H1 Hid).
    + inversion H; subst. exact H1.
Qed.

(** ** The A* search *)

Lemma gnode_eqb_eq (a b : GNode) : gnode_eqb a b = true <-> a = b.
Proof.
  destruct a as [a1 a2], b as [b1 b2]. unfold gnode_eqb. simpl.
  rewrite andb_true_iff, !Nat.eqb_eq. split; [intros [-> ->]; reflexivity|].
  intros H. inversion H. auto.
Qed.

Lemma node_get_set {V} (k k' : GNode) (v : V) (m : list (GNode * V)) :
  node_get k (node_set k' v m) = if gnode_eqb k k' then Some v else node_get k m.
Proof.
  induction m as [|[k1 v1] m IH]; simpl; [reflexivity|].
  destruct (gnode_eqb k' k1) eqn:E1; simpl.
  - apply gnode_eqb_eq in E1. subst k1. destruct (gnode_eqb k k'); reflexivity.
  - destruct (gnode_eqb k k1) eqn:E2; [|exact IH].
    apply gnode_eqb_eq in E2. subst k1.
    destruct (gnode_eqb k k') eqn:E3; [|reflexivity].
    apply gnode_eqb_eq in E3. subst k'.
    rewrite (proj2 (gnode_eqb_eq k k) eq_refl) in E1. discriminate.
Qed.

Lemma remove_nth_incl {A} (i : nat) (l : list A) : incl (remove_nth i l) l.
Proof.
  revert i. induction l as [|a l IH]; intros [|i] x Hx; simpl in Hx; try contradiction.
  - right. exact Hx.
  - destruct Hx as [Hx|Hx]; [left; exact Hx | right; exact (IH i x Hx)].
Qed.

Lemma heap_pop_in (h rest : list Entry) (e : Entry) :
  heap_pop h = Some (e, rest) -> In e h /\ incl rest h.
Proof.
  destruct h as [|e0 h']; unfold heap_pop; cbv beta iota zeta; [discriminate|].
  intros H. injection H as <- <-.
  split; [|apply remove_nth_incl].
  destruct (nth_in_or_default (min_index h' 1 e0 0) (e0 :: h') e0) as [Hi|Hd]; [exact Hi|].
  left. symmetry. exact Hd.
Qed.

Section SearchInvariant.

Variables (xs ys : list Q) (obstacles : list Bounds.t) (margin : Q) (goal : GNode).

Lemma relax_came_from (current : GNode) (st : SearchState) (dir : Z * Z) :
  In dir directions -> in_grid xs ys current = true ->
  came_from (relax xs ys obstacles margin goal current st dir) = came_from st \/
  exists nb, move_ok xs ys obstacles margin current nb = true /\
    came_from (relax xs ys obstacles margin goal current st dir)
    = node_set nb (Some current) (came_from st).
Proof.
  destruct current as [xi yi], dir as [dxi dyi]. intros Hdir Hin.
  unfold relax, coord. cbn beta iota zeta.
  destruct ((Z.of_nat xi + dxi <? 0)%Z || (Z.of_nat (List.length xs) <=? Z.of_nat xi + dxi)%Z
            || (Z.of_nat yi + dyi <? 0)%Z || (Z.of_nat (List.length ys) <=? Z.of_nat yi + dyi)%Z)
    eqn:Eb; [left; reflexivity|].
  repeat rewrite orb_false_iff in Eb. destruct Eb as [[[E1 E2] E3] E4].
  apply Z.ltb_ge in E1. apply Z.ltb_ge in E3. apply Z.leb_gt in E2. apply Z.leb_gt in E4.
  match goal with
  | |- context [if segment_blocked ?o ?m ?a ?b ?c ?d then _ else _] =>
      destruct (segment_blocked o m a b c d) eqn:Es; [left; reflexivity|]
  end.
  match goal with
  | |- context [if ?b then mkSearch _ _ _ else st] => destruct b; [|left; reflexivity]
  end.
  right. exists (Z.to_nat (Z.of_nat xi + dxi), Z.to_nat (Z.of_nat yi + dyi)).
  split; [|reflexivity].
  unfold move_ok, coord. rewrite Hin. cbn [fst snd andb] in Es |- *.
  rewrite Es, andb_true_r. apply andb_true_iff. split.
  - unfold in_grid. cbn [fst snd]. apply andb_true_iff. split; apply Nat.ltb_lt; lia.
  - rewrite !Z2Nat.id by lia.
    apply existsb_exists. exists (dxi, dyi). split; [exact Hdir|]. simpl.
    apply andb_true_iff. rewrite !Z.eqb_eq. split; lia.
Qed.

Lemma relax_links_ok (current : GNode) (st : SearchState) (dir : Z * Z) :
  In dir directions -> in_grid xs ys current = true ->
  links_ok xs ys obstacles margin (came_from st) ->
  links_ok xs ys obstacles margin (came_from (relax xs ys obstacles margin goal current st dir)).
Proof.
  intros Hdir Hcur Hinv.
  destruct (relax_came_from current st dir Hdir Hcur) as [-> | [nb [Hok ->]]]; [exact Hinv|].
  intros n p Hn. rewrite node_get_set in Hn.
  destruct (gnode_eqb n nb) eqn:E.
  - apply gnode_eqb_eq in E. subst n. inversion Hn; subst p. exact Hok.
  - exact (Hinv n p Hn).
Qed.

(** Every node in the heap is a node of the grid. *)
Definition open_in_grid (st : SearchState) : Prop :=
  Forall (fun e : Entry => in_grid xs ys (snd e) = true) (open_set st).

Lemma relax_open_in_grid (current : GNode) (st : SearchState) (dir : Z * Z) :
  open_in_grid st -> open_in_grid (relax xs ys obstacles margin goal current st dir).
Proof.
  destruct current as [xi yi], dir as [dxi dyi]. intros Hst.
  unfold relax, coord. cbn beta iota zeta.
  destruct ((Z.of_nat xi + dxi <? 0)%Z || (Z.of_nat (List.length xs) <=? Z.of_nat xi + dxi)%Z
            || (Z.of_nat yi + dyi <? 0)%Z || (Z.of_nat (List.length ys) <=? Z.of_nat yi + dyi)%Z)
    eqn:Eb; [exact Hst|].
  repeat rewrite orb_false_iff in Eb. destruct Eb as [[[E1 E2] E3] E4].
  apply Z.ltb_ge in E1. apply Z.ltb_ge in E3. apply Z.leb_gt in E2. apply Z.leb_gt in E4.
  match goal with
  | |- context [if segment_blocked ?o ?m ?a ?b ?c ?d then _ else _] =>
      destruct (segment_blocked o m a b c d); [exact Hst|]
  end.
  match goal with
  | |- context [if ?b then mkSearch _ _ _ else st] => destruct b; [|exact Hst]
  end.
  unfold open_in_grid. cbn [open_set]. constructor; [|exact Hst].
  unfold in_grid. cbn [fst snd]. apply andb_true_iff. split; apply Nat.ltb_lt; lia.
Qed.

Lemma relax_all_links_ok (current : GNode) (dirs : list (Z * Z)) :
  incl dirs directions -> in_grid xs ys current = true ->
  forall st, links_ok xs ys obstacles margin (came_from st) -> open_in_grid st ->
  let st' := fold_left (relax xs ys obstacles margin goal current) dirs st in
  links_ok xs ys obstacles margin (came_from st') /\ open_in_grid st'.
Proof.
  induction dirs as [|d dirs IH]; intros Hincl Hcur st Hst Ho; simpl; [auto|].
  apply IH; [intros x Hx; apply Hincl; right; exact Hx | exact Hcur | |].
  - apply relax_links_ok; [apply Hincl; left; reflexivity | exact Hcur | exact Hst].
  - apply relax_open_in_grid. exact Ho.
Qed.

Lemma search_links_ok (fuel : nat) :
  forall st found cf,
    links_ok xs ys obstacles margin (came_from st) -> open_in_grid st ->
    search xs ys obstacles margin goal fuel st = Some (found, cf) ->
    links_ok xs ys obstacles margin cf.
Proof.
  induction fuel as [|f IH]; intros st found cf Hst Ho H; cbn [search] in H; [discriminate|].
  destruct (heap_pop (open_set st)) as [[[fv current] rest]|] eqn:Ep;
    [|inversion H; subst; exact Hst].
  destruct (gnode_eqb current goal); [inversion H; subst; exact Hst|].
  apply heap_pop_in in Ep. destruct Ep as [Hin Hincl].
  unfold open_in_grid in Ho. rewrite Forall_forall in Ho.
  destruct (relax_all_links_ok current directions (fun x Hx => Hx) (Ho _ Hin)
              (mkSearch rest (came_from st) (g_score st)) Hst) as [Hl Ho'].
  { unfold open_in_grid. apply Forall_forall. intros e He. apply Ho, Hincl, He. }
  eapply IH; [exact Hl | exact Ho' | exact H].
Qed.

Lemma reconstruct_links (fuel : nat) (cf : list (GNode * option GNode)) :
  forall n nodes, reconstruct fuel cf n = Some nodes ->
  forall k a b, nth_error nodes k = Some b -> nth_error nodes (S k) = Some a ->
  parent_of cf b = Some a.
Proof.
  induction fuel as [|f IH]; intros n nodes H; simpl in H; [discriminate|].
  destruct (parent_of cf n) as [p|] eqn:Ep.
  - destruct (reconstruct f cf p) as [l|] eqn:El; [|discriminate].
    inversion H; subst nodes. intros k a b Hb Ha. destruct k as [|k].
    + simpl in Hb, Ha. inversion Hb; subst b.
      destruct f as [|f']; [discriminate|]. simpl in El.
      destruct (parent_of cf p); [destruct (reconstruct f' cf g); [|discriminate]|];
        inversion El; subst l; simpl in Ha; inversion Ha; subst; exact Ep.
    + exact (IH p l El k a b Hb Ha).
  - inversion H; subst nodes. intros k a b Hb Ha. destruct k; simpl in Ha;
      [discriminate | destruct k; discriminate].
Qed.

End SearchInvariant.

Lemma insert_sorted_nonempty (v : Q) (l : list Q) : insert_sorted v l <> [].
Proof.
  destruct l as [|w l]; simpl; [discriminate|].
  destruct (Qeq_bool v w); [discriminate|]. destruct (Qltb v w); discriminate.
Qed.

Lemma sorted_set_nonempty (a : Q) (l : list Q) : sorted_set (a :: l) <> [].
Proof.
  unfold sorted_set. cbn [fold_left].
  assert (Hf : forall acc, acc <> [] ->
            fold_left (fun acc v => insert_sorted v acc) l acc <> []).
  { induction l as [|v l IH]; intros acc Hacc; cbn [fold_left]; [exact Hacc|].
    apply IH, insert_sorted_nonempty. }
  apply Hf, insert_sorted_nonempty.
Qed.

Lemma candidate_xs_nonempty src tgt obstacles margin grid_snap :
  candidate_xs src tgt obstacles margin grid_snap <> [].
Proof. apply sorted_set_nonempty. Qed.

Lemma candidate_ys_nonempty src tgt obstacles margin grid_snap :
  candidate_ys src tgt obstacles margin grid_snap <> [].
Proof. apply sorted_set_nonempty. Qed.

Lemma closest_step_in_grid xs ys obstacles margin px py (l : list GNode) :
  (forall xy, In xy l -> in_grid xs ys xy = true) ->
  forall st, (forall b, fst st = Some b -> in_grid xs ys b = true) ->
  forall b, fst (fold_left (closest_step xs ys obstacles margin px py) l st) = Some b ->
  in_grid xs ys b = true.
Proof.
  induction l as [|xy l IH]; intros Hl st Hst; cbn [fold_left]; [exact Hst|].
  apply IH; [intros z Hz; apply Hl; right; exact Hz|].
  intros b. destruct st as [best bd]. unfold closest_step. cbn beta iota zeta.
  destruct (blocked _ _ _ _); [exact (Hst b)|].
  destruct bd as [bd|]; [destruct (Qltb _ bd)|]; cbn [fst];
    try (intros H; injection H as <-; apply Hl; left; reflexivity).
  exact (Hst b).
Qed.

Lemma closest_node_in_grid xs ys obstacles margin px py :
  xs <> [] -> ys <> [] -> in_grid xs ys (closest_node xs ys obstacles margin px py) = true.
Proof.
  intros Hx Hy. unfold closest_node.
  assert (Hl : forall xy, In xy (flat_map (fun xi => map (fun yi => (xi, yi))
                                                      (seq 0 (List.length ys)))
                                          (seq 0 (List.length xs))) ->
                          in_grid xs ys xy = true).
  { intros [a b] H. apply in_flat_map in H. destruct H as [xi [Hxi H]].
    apply in_map_iff in H. destruct H as [yi [Heq Hyi]]. injection Heq as <- <-.
    apply in_seq in Hxi, Hyi. unfold in_grid. cbn [fst snd].
    apply andb_true_iff. split; apply Nat.ltb_lt; lia. }
  pose proof (closest_step_in_grid xs ys obstacles margin px py _ Hl (None, None)) as Hb.
  destruct (fold_left (closest_step xs ys obstacles margin px py) _ (None, None))
    as [[b|] bd].
  - refine (Hb _ b eq_refl). intros b' H. discriminate.
  - destruct xs; [contradiction|]. destruct ys; [contradiction|]. reflexivity.
Qed.

Lemma route_astar_shape
    (src tgt : Bounds.t) (obstacles : list Bounds.t) (margin : Q) (grid_snap : Z)
    (wps : list Point.t) :
  route_orthogonal_astar src tgt obstacles margin grid_snap = Some wps ->
  wps = [] \/ wps = fallback_route src tgt obstacles margin grid_snap \/
  exists nodes : list GNode,
    let xs := candidate_xs src tgt obstacles margin grid_snap in
    let ys := candidate_ys src tgt obstacles margin grid_snap in
    wps = map (fun w => Point.mk (snap_to_grid (fst w) grid_snap)
                                 (snap_to_grid (snd w) grid_snap))
              (simplify_path (rev (map (coord xs ys) nodes))) /\
    forall k a b, nth_error nodes k = Some b -> nth_error nodes (S k) = Some a ->
      move_ok xs ys obstacles margin a b = true.
Proof.
  unfold route_orthogonal_astar. cbn zeta.
  destruct (negb (any_obstacle_on_segment _ _ _ _ obstacles margin));
    [intros H; inversion H; left; reflexivity|].
  set (xs := candidate_xs src tgt obstacles margin grid_snap).
  set (ys := candidate_ys src tgt obstacles margin grid_snap).
  set (start := closest_node xs ys obstacles margin (Bounds.cx src) (Bounds.cy src)).
  set (goal := closest_node xs ys obstacles margin (Bounds.cx tgt) (Bounds.cy tgt)).
  destruct (gnode_eqb start goal); [intros H; inversion H; left; reflexivity|].
  destruct (search xs ys obstacles margin goal (search_fuel xs ys)
              (mkSearch [(0, start)] [(start, None)] [(start, 0)]))
    as [[found cf]|] eqn:Es; [|discriminate].
  destruct found; [|intros H; inversion H; right; left; reflexivity].
  destruct (reconstruct (S (List.length cf)) cf goal) as [nodes|] eqn:Er; [|discriminate].
  intros H. inversion H. right. right. exists nodes. split; [reflexivity|].
  assert (Hl : links_ok xs ys obstacles margin cf).
  { eapply search_links_ok; [| |exact Es].
    - intros n p Hn. simpl in Hn. destruct (gnode_eqb n start); discriminate.
    - unfold open_in_grid. constructor; [|constructor]. cbn [snd].
      apply closest_node_in_grid; [apply candidate_xs_nonempty | apply candidate_ys_nonempty]. }
  intros k a b Hb Ha.
  pose proof (reconstruct_links _ _ _ _ Er k a b Hb Ha) as Hp.
  unfold parent_of in Hp. apply Hl.
  destruct (node_get b cf) as [[p|]|]; inversion Hp; reflexivity.
Qed.

Lemma Qltb_iff (a b : Q) : Qltb a b = true <-> a < b.
Proof.
  unfold Qltb. rewrite negb_true_iff. split; intros H.
  - apply Qnot_le_lt. intros H'. apply Qle_bool_iff in H'. congruence.
  - destruct (Qle_bool b a) eqn:E; [|reflexivity].
    apply Qle_bool_iff in E. exfalso. exact (Qlt_not_le _ _ H E).
Qed.

Lemma inner_snoc {A} (a b : A) (l : list A) : inner (a :: l ++ [b]) = l.
Proof.
  unfold inner. cbn [tl]. rewrite length_cons, length_app. cbn [List.length].
  replace (S (List.length l + 1) - 2)%nat with (List.length l) by lia.
  rewrite firstn_app, firstn_all, Nat.sub_diag. simpl. apply app_nil_r.
Qed.

Lemma kept_flat_map (pre : list (Q * Q)) (p c : Q * Q) (rest : list (Q * Q)) :
  let path := pre ++ p :: c :: rest in
  flat_map (fun i => if is_bend (nth (i - 1) path (0, 0)) (nth i path (0, 0))
                                 (nth (i + 1) path (0, 0))
                     then [nth i path (0, 0)] else [])
           (seq (S (List.length pre)) (List.length rest))
  = kept p c rest.
Proof.
  revert pre p c. induction rest as [|n rest IH]; intros pre p c; cbn zeta; [reflexivity|].
  cbn [List.length seq flat_map kept].
  replace (S (List.length pre) - 1)%nat with (List.length pre) by lia.
  replace (S (List.length pre) + 1)%nat with (S (S (List.length pre))) by lia.
  rewrite nth_middle.
  replace (nth (S (List.length pre)) (pre ++ p :: c :: n :: rest) (0, 0)) with c
    by (rewrite app_nth2 by lia; replace (S (List.length pre) - List.length pre)%nat with 1%nat by lia; reflexivity).
  replace (nth (S (S (List.length pre))) (pre ++ p :: c :: n :: rest) (0, 0)) with n
    by (rewrite app_nth2 by lia; replace (S (S (List.length pre)) - List.length pre)%nat with 2%nat by lia; reflexivity).
  f_equal.
  specialize (IH (pre ++ [p]) c n). cbn zeta in IH.
  rewrite <- app_assoc in IH. rewrite length_app in IH. cbn [List.length] in IH.
  rewrite Nat.add_1_r in IH. exact IH.
Qed.

Lemma simplify_path_kept (p c : Q * Q) (rest : list (Q * Q)) :
  simplify_path (p :: c :: rest) = kept p c rest.
Proof.
  destruct rest as [|n rest']; [reflexivity|].
  unfold simplify_path. cbn [List.length Nat.leb].
  cbn zeta.
  pose proof (kept_flat_map [] p c (n :: rest')) as H. cbn zeta in H.
  rewrite app_nil_l in H. cbn [List.length] in H |- *.
  replace (S (S (S (List.length rest'))) - 2)%nat with (S (List.length rest')) by lia.
  rewrite H. cbn [app].
  rewrite length_cons, length_app. cbn [List.length].
  rewrite Nat.add_1_r. apply inner_snoc.
Qed.

Lemma Qabs_sub_self_small (x : Q) : ~ (1 # 2 < Qabs (x - x)).
Proof.
  unfold Qminus. rewrite Qplus_opp_r. intros H. compute in H. discriminate.
Qed.

Lemma straight_through (p c n : Q * Q) :
  axis_step p c -> axis_step c n -> is_bend p c n = false ->
  (fst p = fst c -> fst c = fst n) /\ (snd p = snd c -> snd c = snd n).
Proof.
  destruct p as [px py], c as [cx cy], n as [nx ny].
  unfold axis_step, is_bend. cbn [fst snd]. intros Hpc Hcn Hb.
  rewrite orb_false_iff in Hb. destruct Hb as [H1 H2].
  destruct Hpc as [[E1 D1]|[E1 D1]], Hcn as [[E2 D2]|[E2 D2]]; subst.
  - split; intros E; [reflexivity|]. subst. exfalso. exact (Qabs_sub_self_small _ D1).
  - rewrite (proj2 (Qltb_iff _ _) D1), (proj2 (Qltb_iff _ _) D2) in H2. discriminate.
  - rewrite (proj2 (Qltb_iff _ _) D1), (proj2 (Qltb_iff _ _) D2) in H1. discriminate.
  - split; intros E; [|reflexivity]. subst. exfalso. exact (Qabs_sub_self_small _ D1).
Qed.

Lemma kept_chain (rest : list (Q * Q)) :
  forall p c, chain axis_step (p :: c :: rest) ->
  chain (fun q r => fst q = fst r \/ snd q = snd r) (kept p c rest) /\
  (forall q, hd_error (kept p c rest) = Some q ->
     (fst p = fst c -> fst q = fst c) /\ (snd p = snd c -> snd q = snd c)).
Proof.
  induction rest as [|n rest IH]; intros p c Hch; [split; [exact I | discriminate]|].
  cbn [chain] in Hch. destruct Hch as [Hpc Hch].
  destruct (IH c n Hch) as [Hk Hhd].
  cbn [chain] in Hch. destruct Hch as [Hcn _].
  cbn [kept]. destruct (is_bend p c n) eqn:Eb; cbn [app].
  - split.
    + destruct (kept c n rest) as [|q l]; [exact I|].
      split; [|exact Hk].
      destruct (Hhd q eq_refl) as [Hf Hs].
      destruct Hcn as [[E _]|[E _]];
        [left; rewrite E; symmetry; exact (Hf E) | right; rewrite E; symmetry; exact (Hs E)].
    + intros q Hq. injection Hq as <-. split; intros _; reflexivity.
  - split; [exact Hk|].
    intros q Hq. destruct (Hhd q Hq) as [Hf Hs].
    destruct (straight_through p c n Hpc Hcn Eb) as [S1 S2].
    split; intros E;
      [rewrite (Hf (S1 E)); symmetry; exact (S1 E) | rewrite (Hs (S2 E)); symmetry; exact (S2 E)].
Qed.

Lemma chain_nth {A} (R : A -> A -> Prop) (l : list A) :
  chain R l <-> forall k x y, nth_error l k = Some x -> nth_error l (S k) = Some y -> R x y.
Proof.
  induction l as [|a l IH];
    [split; [intros _ k x y H; destruct k; discriminate | intros; exact I]|].
  destruct l as [|b l].
  - split; [intros _ k x y _ H; destruct k; discriminate | intros; exact I].
  - cbn [chain]. split.
    + intros [Hab Hc] [|k] x y Hx Hy; [injection Hx as <-; injection Hy as <-; exact Hab|].
      exact (proj1 IH Hc k x y Hx Hy).
    + intros H. split; [apply (H 0%nat); reflexivity|].
      apply IH. intros k x y Hx Hy. exact (H (S k) x y Hx Hy).
Qed.

Lemma lines_apart_nth (l : list Q) (i : nat) :
  lines_apart l = true -> (S i < List.length l)%nat ->
  1 # 2 < Qabs (nth (S i) l 0 - nth i l 0).
Proof.
  revert i. induction l as [|a l IH]; intros i H Hi; [simpl in Hi; lia|].
  destruct l as [|b l]; [simpl in Hi; lia|].
  cbn [lines_apart] in H. apply andb_true_iff in H. destruct H as [H1 H2].
  destruct i as [|i]; [apply Qltb_iff; exact H1|].
  apply IH; [exact H2 | simpl in Hi |- *; lia].
Qed.

Lemma move_ok_axis xs ys obstacles margin (a b : GNode) :
  lines_apart xs = true -> lines_apart ys = true ->
  move_ok xs ys obstacles margin a b = true -> axis_step (coord xs ys a) (coord xs ys b).
Proof.
  destruct a as [ax ay], b as [bx by_]. intros Hx Hy H.
  unfold move_ok, in_grid in H. cbn [fst snd] in H.
  rewrite !andb_true_iff in H. destruct H as [[[[Ha1 Ha2] [Hb1 Hb2]] Hd] _].
  apply Nat.ltb_lt in Ha1, Ha2, Hb1, Hb2.
  unfold directions in Hd. cbn [existsb fst snd] in Hd.
  rewrite !orb_true_iff, !andb_true_iff, !Z.eqb_eq in Hd.
  unfold axis_step, coord. cbn [fst snd].
  destruct Hd as [[E1 E2]|[[E1 E2]|[[E1 E2]|[[E1 E2]|F]]]]; [| | | |discriminate].
  - assert (bx = S ax) by lia. assert (by_ = ay) by lia. subst.
    right. split; [reflexivity|]. apply lines_apart_nth; assumption.
  - assert (ax = S bx) by lia. assert (by_ = ay) by lia. subst.
    right. split; [reflexivity|]. rewrite Qabs_Qminus. apply lines_apart_nth; assumption.
  - assert (bx = ax) by lia. assert (by_ = S ay) by lia. subst.
    left. split; [reflexivity|]. apply lines_apart_nth; assumption.
  - assert (bx = ax) by lia. assert (ay = S by_) by lia. subst.
    left. split; [reflexivity|]. rewrite Qabs_Qminus. apply lines_apart_nth; assumption.
Qed.

Lemma path_axis_steps xs ys obstacles margin (nodes : list GNode) :
  lines_apart xs = true -> lines_apart ys = true ->
  (forall k a b, nth_error nodes k = Some b -> nth_error nodes (S k) = Some a ->
     move_ok xs ys obstacles margin a b = true) ->
  chain axis_step (rev (map (coord xs ys) nodes)).
Proof.
  intros Hx Hy Hm. apply chain_nth. intros k p q Hp Hq.
  rewrite nth_error_rev in Hp, Hq. rewrite length_map in Hp, Hq.
  destruct (Nat.ltb k (List.length nodes)) eqn:E1; [|discriminate].
  destruct (Nat.ltb (S k) (List.length nodes)) eqn:E2; [|discriminate].
  apply Nat.ltb_lt in E1, E2.
  rewrite nth_error_map in Hp, Hq.
  destruct (nth_error nodes (List.length nodes - S k)) as [a|] eqn:Ea; [|discriminate].
  destruct (nth_error nodes (List.length nodes - S (S k))) as [b|] eqn:Eb; [|discriminate].
  cbn [option_map] in Hp, Hq. injection Hp as <-. injection Hq as <-.
  apply (move_ok_axis xs ys obstacles margin); [exact Hx | exact Hy|].
  apply (Hm (List.length nodes - S (S k))%nat a b Eb).
  replace (S (List.length nodes - S (S k))) with (List.length nodes - S k)%nat by lia.
  exact Ea.
Qed.

Lemma chain_map_snap (l : list (Q * Q)) (g : Z) :
  chain (fun q r => fst q = fst r \/ snd q = snd r) l ->
  chain (fun p q => Point.x p = Point.x q \/ Point.y p = Point.y q)
        (map (fun w => Point.mk (snap_to_grid (fst w) g) (snap_to_grid (snd w) g)) l).
Proof.
  induction l as [|a l IH]; [intros; exact I|].
  destruct l as [|b l]; [intros; exact I|].
  intros [Hab Hc]. split; [|apply IH, Hc]. cbn [Point.x Point.y].
  destruct Hab as [E|E]; rewrite E; [left|right]; reflexivity.
Qed.

(** ** Edges whose ends have no bounds *)

Lemma fold_left_inv {A B} (f : A -> B -> A) (Inv : A -> Prop) (l : list B) :
  (forall a b, In b l -> Inv a -> Inv (f a b)) -> forall a, Inv a -> Inv (fold_left f l a).
Proof.
  induction l as [|b l IH]; intros Hf a Ha; [exact Ha|]. cbn [fold_left].
  apply IH; [intros a' b' Hb; apply Hf; right; exact Hb|]. apply Hf; [left; reflexivity | exact Ha].
Qed.

Lemma route_cell_unbounded bounds margin grid c :
  MxCell.edge c = true -> ends_unbounded bounds c = true ->
  route_cell bounds margin grid c = Some (c, false).
Proof.
  intros He Hu. unfold ends_unbounded in Hu. unfold route_cell.
  destruct (negb (MxCell.edge c) || negb (truthy (MxCell.source c))
            || negb (truthy (MxCell.target c))); [reflexivity|].
  destruct (MxCell.source c) as [s|]; [|reflexivity].
  destruct (MxCell.target c) as [t|]; [|reflexivity].
  destruct (assoc s bounds); [|reflexivity]. destruct (assoc t bounds); [discriminate|reflexivity].
Qed.

Lemma optimize_cell_unbounded bounds margin threshold grid c :
  ends_unbounded bounds c = true ->
  optimize_cell bounds margin threshold grid c = Some (c, false).
Proof.
  intros Hu. unfold ends_unbounded in Hu. unfold optimize_cell.
  destruct (MxCell.source c) as [s|]; [|reflexivity].
  destruct (MxCell.target c) as [t|]; [|reflexivity].
  destruct (assoc s bounds); [|reflexivity]. destruct (assoc t bounds); [discriminate|reflexivity].
Qed.

Lemma route_cells_nth bounds margin grid (cs : list MxCell.t) :
  forall cs' n, route_cells bounds margin grid cs = Some (cs', n) ->
  forall i c, nth_error cs i = Some c ->
  exists c' b, route_cell bounds margin grid c = Some (c', b) /\ nth_error cs' i = Some c'.
Proof.
  induction cs as [|c0 cs IH]; intros cs' n H i c Hi; [destruct i; discriminate|].
  cbn [route_cells] in H.
  destruct (route_cell bounds margin grid c0) as [[c0' b0]|] eqn:E0; [|discriminate].
  destruct (route_cells bounds margin grid cs) as [[cs'' n']|] eqn:E1; [|discriminate].
  injection H as <- _. destruct i as [|i].
  - injection Hi as <-. exists c0', b0. split; [exact E0 | reflexivity].
  - exact (IH cs'' n' eq_refl i c Hi).
Qed.

Lemma optimize_cells_nth bounds margin threshold grid (cs : list MxCell.t) :
  forall cs' n, optimize_cells bounds margin threshold grid cs = Some (cs', n) ->
  forall i c, nth_error cs i = Some c ->
  exists c' b, (if is_edge_cell c then optimize_cell bounds margin threshold grid c
                else Some (c, false)) = Some (c', b) /\ nth_error cs' i = Some c'.
Proof.
  induction cs as [|c0 cs IH]; intros cs' n H i c Hi; [destruct i; discriminate|].
  cbn [optimize_cells] in H.
  destruct (if is_edge_cell c0 then optimize_cell bounds margin threshold grid c0
            else Some (c0, false)) as [[c0' b0]|] eqn:E0; [|discriminate].
  destruct (optimize_cells bounds margin threshold grid cs) as [[cs'' n']|] eqn:E1;
    [|discriminate].
  injection H as <- _. destruct i as [|i].
  - injection Hi as <-. exists c0', b0. split; [exact E0 | reflexivity].
  - exact (IH cs'' n' eq_refl i c Hi).
Qed.

Lemma in_combine_seq {A} (l : list A) : forall k i x,
  In (i, x) (combine (seq k (List.length l)) l) -> nth_error l (i - k) = Some x /\ (k <= i)%nat.
Proof.
  induction l as [|a l IH]; intros k i x H; [destruct H|].
  cbn [List.length seq combine In] in H. destruct H as [H|H].
  - injection H as <- <-. rewrite Nat.sub_diag. split; [reflexivity | lia].
  - destruct (IH (S k) i x H) as [H1 H2].
    replace (i - k)%nat with (S (i - S k)) by lia. split; [exact H1 | lia].
Qed.

Lemma cell_segments_idx bounds ei c seg :
  In seg (cell_segments bounds ei c) -> edge_idx seg = ei.
Proof.
  unfold cell_segments. intros H.
  destruct (cell_points c) as [|p0 ps]; [destruct H|].
  destruct (MxCell.source c) as [s|]; [|destruct H].
  destruct (MxCell.target c) as [t|]; [|destruct H].
  destruct (assoc s bounds); [|destruct H]. destruct (assoc t bounds); [|destruct H].
  unfold edge_segments in H. apply in_flat_map in H. destruct H as [si [_ H]].
  split_matches H; simpl in H; try contradiction; destruct H as [<-|[]]; reflexivity.
Qed.

Lemma cell_segments_unbounded bounds ei c :
  ends_unbounded bounds c = true -> cell_segments bounds ei c = [].
Proof.
  unfold ends_unbounded, cell_segments. intros Hu.
  destruct (cell_points c) as [|p0 ps]; [reflexivity|].
  destruct (MxCell.source c) as [s|]; [|reflexivity].
  destruct (MxCell.target c) as [t|]; [|reflexivity].
  destruct (assoc s bounds); [|reflexivity]. destruct (assoc t bounds); [discriminate|reflexivity].
Qed.

Lemma collect_segments_avoid bounds ecs m c :
  nth_error ecs m = Some c -> ends_unbounded bounds c = true ->
  forall seg, In seg (collect_segments bounds ecs) -> edge_idx seg <> m.
Proof.
  intros Hm Hu seg Hs Heq. unfold collect_segments in Hs.
  apply in_flat_map in Hs. destruct Hs as [[ei c'] [Hin Hs]]. cbn [fst snd] in Hs.
  apply in_combine_seq in Hin. rewrite Nat.sub_0_r in Hin. destruct Hin as [Hin _].
  pose proof (cell_segments_idx _ _ _ _ Hs) as Hi. subst ei.
  rewrite Heq, Hm in Hin. injection Hin as <-.
  rewrite cell_segments_unbounded in Hs by exact Hu. destruct Hs.
Qed.

Lemma spread_one_keep grid spacing so st idx seg m :
  edge_idx seg <> m ->
  nth_error (fst (spread_one grid spacing so st (idx, seg))) m = nth_error (fst st) m.
Proof.
  intros Hne. destruct st as [ecs modified]. unfold spread_one.
  repeat match goal with
  | |- context [if ?c then _ else _] => destruct c
  | |- context [match ?x with _ => _ end] => destruct x
  end; cbn [fst]; try reflexivity.
  apply nth_error_set_nth_neq. congruence.
Qed.

Lemma spread_fold_keep grid spacing so (l : list (nat * Segment)) m :
  (forall idx seg, In (idx, seg) l -> edge_idx seg <> m) ->
  forall st, nth_error (fst (fold_left (spread_one grid spacing so) l st)) m
             = nth_error (fst st) m.
Proof.
  intros Hl st.
  apply (fold_left_inv _ (fun st' => nth_error (fst st') m = nth_error (fst st) m));
    [|reflexivity].
  intros a [idx seg] Hin Ha. rewrite spread_one_keep; [exact Ha|]. exact (Hl idx seg Hin).
Qed.

Lemma cluster_of_bound spacing segs i processed :
  (i < List.length segs)%nat ->
  forall k, In k (fst (cluster_of spacing segs i processed)) -> (k < List.length segs)%nat.
Proof.
  intros Hi. unfold cluster_of.
  apply (fold_left_inv _ (fun st => forall k, In k (fst st) -> (k < List.length segs)%nat)).
  - intros [cl pr] j Hj Ha. apply in_seq in Hj. cbn beta iota zeta.
    destruct (mem j pr); [exact Ha|].
    destruct (seg_matches _ _ _); [|exact Ha].
    intros k Hk. cbn [fst] in Hk. apply in_app_or in Hk. destruct Hk as [Hk|[<-|[]]];
      [exact (Ha k Hk) | lia].
  - intros k [<-|[]]. exact Hi.
Qed.

Lemma separate_step_keep grid spacing segs st i m :
  (forall seg, In seg segs -> edge_idx seg <> m) -> (i < List.length segs)%nat ->
  nth_error (fst (fst (separate_step grid spacing segs st i))) m = nth_error (fst (fst st)) m.
Proof.
  intros Hs Hi. destruct st as [[ecs modified] processed]. unfold separate_step.
  destruct (mem i processed); [reflexivity|].
  destruct (cluster_of spacing segs i processed) as [cluster processed1] eqn:Ec.
  destruct (Nat.ltb (List.length cluster) 2); [reflexivity|].
  assert (Hk : forall idx seg,
             In (idx, seg) (combine (seq 0 (List.length (map (fun k => nth k segs dummy_seg) cluster)))
                                    (map (fun k => nth k segs dummy_seg) cluster)) ->
             edge_idx seg <> m).
  { intros idx seg Hin. apply in_combine_r in Hin. apply in_map_iff in Hin.
    destruct Hin as [k [<- Hk]]. apply Hs, nth_In.
    apply (cluster_of_bound spacing segs i processed Hi). rewrite Ec. exact Hk. }
  match goal with
  | |- context [fold_left (spread_one ?g ?sp ?so) ?l ?a] =>
      pose proof (spread_fold_keep g sp so l m Hk a) as Hf;
      destruct (fold_left (spread_one g sp so) l a) as [ecs' modified']
  end.
  exact Hf.
Qed.

Lemma separate_keep ecs bounds spacing grid m c :
  nth_error ecs m = Some c -> ends_unbounded bounds c = true ->
  nth_error (fst (separate_parallel_edges ecs bounds spacing grid)) m = Some c.
Proof.
  intros Hm Hu. unfold separate_parallel_edges.
  destruct (Nat.ltb (List.length ecs) 2); [exact Hm|].
  pose proof (collect_segments_avoid bounds ecs m c Hm Hu) as Hs.
  match goal with
  | |- context [fold_left ?f ?l ?a] =>
      assert (Hf : nth_error (fst (fst (fold_left f l a))) m = Some c);
      [ apply (fold_left_inv f (fun st => nth_error (fst (fst st)) m = Some c) l);
        [ intros st i Hi Hst; apply in_seq in Hi;
          rewrite separate_step_keep; [exact Hst | exact Hs | lia]
        | exact Hm ]
      | destruct (fold_left f l a) as [[ecs' modified'] processed']; exact Hf ]
  end.
Qed.

Lemma write_back_keep (P : MxCell.t -> Prop) (cs : list MxCell.t) :
  forall ecs,
  (forall m c, nth_error (filter is_edge_cell cs) m = Some c -> P c -> nth_error ecs m = Some c) ->
  forall i c, nth_error cs i = Some c -> P c -> nth_error (write_back cs ecs) i = Some c.
Proof.
  induction cs as [|c0 cs IH]; intros ecs He i c Hi Hp; [destruct i; discriminate|].
  cbn [write_back filter] in *. destruct (is_edge_cell c0) eqn:Ee.
  - destruct ecs as [|e ecs].
    + destruct i as [|i]; cbn [nth_error] in *; [exact Hi|].
      apply (IH []); [|exact Hi|exact Hp].
      intros m c1 Hm Hp1. specialize (He (S m) c1 Hm Hp1). discriminate.
    + destruct i as [|i]; cbn [nth_error] in *.
      * injection Hi as ->. exact (He 0%nat c eq_refl Hp).
      * apply IH; [|exact Hi|exact Hp].
        intros m c1 Hm Hp1. exact (He (S m) c1 Hm Hp1).
  - destruct i as [|i]; cbn [nth_error] in *; [exact Hi|].
    exact (IH ecs He i c Hi Hp).
Qed.

Lemma optimize_keeps_unbounded d margin thr nudge bounds i c d' n :
  get_all_vertex_bounds d = Some bounds ->
  nth_error (cells d) i = Some c -> ends_unbounded bounds c = true ->
  optimize_edge_paths d margin thr nudge = Some (d', n) ->
  nth_error (cells d') i = Some c.
Proof.
  intros Hb Hi Hu H. unfold optimize_edge_paths in H. rewrite Hb in H.
  destruct bounds as [|b0 bs]; [injection H as <- _; exact Hi|].
  destruct (optimize_cells _ _ _ _ (cells d)) as [[cs1 m1]|] eqn:Eo; [|discriminate].
  destruct (separate_parallel_edges _ _ _ _) as [ecs' m5] eqn:Es.
  injection H as <- _. cbn [cells set_cells].
  destruct (optimize_cells_nth _ _ _ _ _ _ _ Eo i c Hi) as [c' [b [Hc Hi']]].
  assert (c' = c) as ->.
  { destruct (is_edge_cell c); [rewrite optimize_cell_unbounded in Hc by exact Hu|];
      injection Hc as <- _; reflexivity. }
  apply (write_back_keep (fun c0 => ends_unbounded (b0 :: bs) c0 = true)); [|exact Hi'|exact Hu].
  intros m c0 Hm Hu0.
  pose proof (separate_keep _ (b0 :: bs) nudge (if (grid_size d =? 0)%Z then 10%Z else grid_size d)
                _ _ Hm Hu0) as Hk.
  rewrite Es in Hk. exact Hk.
Qed.

Lemma route_keeps_unbounded d margin bounds i c d' n :
  get_all_vertex_bounds d = Some bounds ->
  nth_error (cells d) i = Some c -> MxCell.edge c = true -> ends_unbounded bounds c = true ->
  route_edges_around_obstacles d margin = Some (d', n) ->
  nth_error (cells d') i = Some c.
Proof.
  intros Hb Hi He Hu H. unfold route_edges_around_obstacles in H. rewrite Hb in H.
  destruct bounds as [|b0 bs]; [injection H as <- _; exact Hi|].
  destruct (route_cells _ _ _ (cells d)) as [[cs1 m1]|] eqn:Er; [|discriminate].
  injection H as <- _. cbn [cells set_cells].
  destruct (route_cells_nth _ _ _ _ _ _ Er i c Hi) as [c' [b [Hc Hi']]].
  rewrite route_cell_unbounded in Hc by assumption. injection Hc as <- _. exact Hi'.
Qed.

Lemma route_cell_nil margin grid c : route_cell [] margin grid c = Some (c, false).
Proof.
  unfold route_cell.
  destruct (negb (MxCell.edge c) || negb (truthy (MxCell.source c))
            || negb (truthy (MxCell.target c))); [reflexivity|].
  destruct (MxCell.source c); [|reflexivity]. destruct (MxCell.target c); reflexivity.
Qed.

Lemma route_processes_all d margin bounds d' n :
  get_all_vertex_bounds d = Some bounds ->
  route_edges_around_obstacles d margin = Some (d', n) ->
  forall j cj, nth_error (cells d) j = Some cj ->
  exists cj' b, route_cell bounds margin (grid_size d) cj = Some (cj', b) /\
                nth_error (cells d') j = Some cj'.
Proof.
  intros Hb H j cj Hj. unfold route_edges_around_obstacles in H. rewrite Hb in H.
  destruct bounds as [|b0 bs].
  - injection H as <- _. exists cj, false. split; [apply route_cell_nil | exact Hj].
  - destruct (route_cells _ _ _ (cells d)) as [[cs1 m1]|] eqn:Er; [|discriminate].
    injection H as <- _. exact (route_cells_nth _ _ _ _ _ _ Er j cj Hj).
Qed.

(** ** A self-loop in rank assignment *)

Lemma bfs_self_loop (a : string) fuel : forall k,
  bfs_loop fuel [(a, [a])] [(a, k)] [a] = None.
Proof.
  induction fuel as [|fuel IH]; intros k; [reflexivity|].
  cbn [bfs_loop]. unfold adj_get. cbn [assoc]. rewrite String.eqb_refl.
  cbn [fold_left]. unfold rank_child, rank_of. cbn [assoc]. rewrite String.eqb_refl.
  replace (Z.ltb k (k + 1)) with true by (symmetry; apply Z.ltb_lt; lia).
  cbn [dict_set app]. rewrite String.eqb_refl. apply IH.
Qed.

(** ** Coordinates written on the grid *)

Lemma snap_on_grid v g : on_grid g (snap_to_grid v g).
Proof. exists (py_round (v / inject_Z g)). reflexivity. Qed.

Lemma on_grid_eq g a b : a == b -> on_grid g b -> on_grid g a.
Proof. intros H [k Hk]. exists k. rewrite H. exact Hk. Qed.

Lemma route_on_grid src tgt obstacles margin grid wps :
  route_orthogonal_astar src tgt obstacles margin grid = Some wps ->
  points_on_grid grid wps.
Proof.
  intros H. destruct (route_astar_shape _ _ _ _ _ _ H) as [->|[->|[nodes [-> _]]]].
  - constructor.
  - unfold fallback_route. cbn zeta.
    repeat constructor; apply snap_on_grid.
  - apply Forall_forall. intros p Hp. apply in_map_iff in Hp. destruct Hp as [w [<- _]].
    split; apply snap_on_grid.
Qed.

Lemma route_cell_on_grid bounds margin grid c c' b :
  route_cell bounds margin grid c = Some (c', b) ->
  c' = c \/ points_on_grid grid (cell_points c').
Proof.
  unfold route_cell. intros H.
  destruct (negb (MxCell.edge c) || negb (truthy (MxCell.source c))
            || negb (truthy (MxCell.target c))); [injection H as <- _; left; reflexivity|].
  destruct (MxCell.source c) as [s|]; [|injection H as <- _; left; reflexivity].
  destruct (MxCell.target c) as [t|]; [|injection H as <- _; left; reflexivity].
  destruct (assoc s bounds) as [sb|]; [|injection H as <- _; left; reflexivity].
  destruct (assoc t bounds) as [tb|]; [|injection H as <- _; left; reflexivity].
  destruct (route_orthogonal_astar _ _ _ _ _) as [wps|] eqn:Er; [|discriminate].
  injection H as <- _. right. unfold cell_points. cbn. exact (route_on_grid _ _ _ _ _ _ Er).
Qed.

Lemma route_cells_length bounds margin grid (cs : list MxCell.t) :
  forall cs' n, route_cells bounds margin grid cs = Some (cs', n) ->
  List.length cs' = List.length cs.
Proof.
  induction cs as [|c cs IH]; intros cs' n H; cbn [route_cells] in H.
  - injection H as <- _. reflexivity.
  - destruct (route_cell bounds margin grid c) as [[c1 b]|]; [|discriminate].
    destruct (route_cells bounds margin grid cs) as [[cs1 n1]|] eqn:E; [|discriminate].
    injection H as <- _. cbn. f_equal. exact (IH _ _ eq_refl).
Qed.

Lemma route_edges_on_grid d margin d' n :
  route_edges_around_obstacles d margin = Some (d', n) ->
  forall j c', nth_error (cells d') j = Some c' ->
  nth_error (cells d) j = Some c' \/ points_on_grid (grid_size d) (cell_points c').
Proof.
  intros H j c' Hj. unfold route_edges_around_obstacles in H.
  destruct (get_all_vertex_bounds d) as [[|b0 bs]|]; [injection H as <- _; left; exact Hj| |discriminate].
  destruct (route_cells _ _ _ (cells d)) as [[cs1 m1]|] eqn:Er; [|discriminate].
  injection H as <- _. cbn [cells set_cells] in Hj.
  destruct (nth_error (cells d) j) as [cj|] eqn:Ej.
  - destruct (route_cells_nth _ _ _ _ _ _ Er j cj Ej) as [c'' [b [Hc Hj']]].
    rewrite Hj in Hj'. injection Hj' as <-.
    destruct (route_cell_on_grid _ _ _ _ _ _ Hc) as [->|Hg]; [left; reflexivity|right; exact Hg].
  - exfalso. apply nth_error_None in Ej. pose proof (route_cells_length _ _ _ _ _ _ Er) as Hl.
    assert (Hs : nth_error cs1 j <> None) by congruence.
    apply Hs, nth_error_None. lia.
Qed.

Lemma nth_error_set_nth_eq {A} (l : list A) (i : nat) (a v : A) :
  nth_error l i = Some a -> nth_error (set_nth i l v) i = Some v.
Proof.
  revert i. induction l as [|b l IH]; intros i H; [destruct i; discriminate|].
  destruct i; cbn in *; [reflexivity | exact (IH i H)].
Qed.

Lemma Forall_set_nth {A} (P : A -> Prop) (l : list A) (i : nat) (v : A) :
  Forall P l -> P v -> Forall P (set_nth i l v).
Proof.
  revert i. induction l as [|a l IH]; intros i Hl Hv; [destruct i; constructor|].
  inversion Hl as [|? ? Ha Hl']; subst.
  destruct i; cbn; constructor; auto.
Qed.

Lemma pts_eqb_on_grid grid (l : list (Q * Q)) : forall pts,
  pts_eqb (map (fun w => (snap_to_grid (fst w) grid, snap_to_grid (snd w) grid)) l)
          (map pt_of pts) = true ->
  points_on_grid grid pts.
Proof.
  induction l as [|w l IH]; intros [|p pts] H; cbn in H; try discriminate; [constructor|].
  apply andb_true_iff in H. destruct H as [Hp H]. unfold pt_eqb in Hp. cbn [fst snd pt_of] in Hp.
  apply andb_true_iff in Hp. destruct Hp as [Hx Hy].
  apply Qeq_bool_iff in Hx. apply Qeq_bool_iff in Hy.
  constructor; [|exact (IH pts H)].
  split; (eapply on_grid_eq; [symmetry; eassumption | apply snap_on_grid]).
Qed.

Lemma optimize_cell_on_grid bounds margin threshold grid c c' b :
  optimize_cell bounds margin threshold grid c = Some (c', b) ->
  (c' = c \/ points_on_grid grid (cell_points c')) /\
  ((forall ei, cell_segments bounds ei c' = []) \/ points_on_grid grid (cell_points c')).
Proof.
  unfold optimize_cell. intros H.
  assert (Hkeep : c' = c -> (forall ei, cell_segments bounds ei c = []) ->
                  (c' = c \/ points_on_grid grid (cell_points c')) /\
                  ((forall ei, cell_segments bounds ei c' = []) \/
                   points_on_grid grid (cell_points c'))).
  { intros -> Hs. split; left; [reflexivity | exact Hs]. }
  destruct (MxCell.source c) as [s|] eqn:Es.
  2:{ injection H as <- _. apply Hkeep; [reflexivity|]. intros ei. unfold cell_segments.
      rewrite Es. destruct (cell_points c); reflexivity. }
  destruct (MxCell.target c) as [t|] eqn:Et.
  2:{ injection H as <- _. apply Hkeep; [reflexivity|]. intros ei. unfold cell_segments.
      rewrite Es, Et. destruct (cell_points c); reflexivity. }
  destruct (assoc s bounds) as [sb|] eqn:Esb.
  2:{ injection H as <- _. apply Hkeep; [reflexivity|]. intros ei. unfold cell_segments.
      rewrite Es, Et, Esb. destruct (cell_points c); reflexivity. }
  destruct (assoc t bounds) as [tb|] eqn:Etb.
  2:{ injection H as <- _. apply Hkeep; [reflexivity|]. intros ei. unfold cell_segments.
      rewrite Es, Et, Esb, Etb. destruct (cell_points c); reflexivity. }
  destruct (cell_points c) as [|p0 ps] eqn:Ep.
  { injection H as <- _. apply Hkeep; [reflexivity|]. intros ei. unfold cell_segments.
    rewrite Ep. reflexivity. }
  match type of H with
  | context [opt_shorten ?fp ?ob ?mg] => destruct (opt_shorten fp ob mg) as [fp'|]; [|discriminate]
  end.
  match type of H with
  | context [pts_eqb ?nw ?oc] => destruct (pts_eqb nw oc) eqn:Eq
  end; cbn [negb] in H.
  - injection H as <- _. split; right; [|]; rewrite Ep;
      exact (pts_eqb_on_grid _ _ _ Eq).
  - injection H as <- _.
    assert (Hg : points_on_grid grid
                   (cell_points (MxCell.set_geometry c
                      (Some (Geometry.set_points
                               match MxCell.geometry c with Some g => g | None => Geometry.relative_default end
                               (map (fun w => Point.mk (fst w) (snd w))
                                  (map (fun w => (snap_to_grid (fst w) grid, snap_to_grid (snd w) grid))
                                     (inner (opt_center_channels fp' (obstacles_for bounds s t) margin))))))))).
    { unfold cell_points. cbn. apply Forall_forall. intros p Hp.
      rewrite map_map in Hp. apply in_map_iff in Hp. destruct Hp as [w [<- _]].
      split; apply snap_on_grid. }
    split; right; exact Hg.
Qed.

Lemma set_point_on_grid grid horiz nc pts w :
  points_on_grid grid pts -> on_grid grid nc ->
  points_on_grid grid (fst (set_point horiz nc pts w)).
Proof.
  intros Hp Hn. unfold set_point.
  destruct ((0 <=? w)%Z && (w <? Z.of_nat (List.length pts))%Z); [|exact Hp].
  cbn [fst]. apply Forall_set_nth; [exact Hp|].
  assert (Hd : on_grid grid (Point.x (nth (Z.to_nat w) pts (Point.mk 0 0))) /\
               on_grid grid (Point.y (nth (Z.to_nat w) pts (Point.mk 0 0)))).
  { destruct (nth_in_or_default (Z.to_nat w) pts (Point.mk 0 0)) as [Hin | Hd0].
    - exact (proj1 (Forall_forall _ _) Hp _ Hin).
    - rewrite Hd0. split; exists 0%Z; reflexivity. }
  destruct horiz; cbn [Point.x Point.y]; tauto.
Qed.

Lemma spread_one_inv grid spacing so ecs0 segs st idx seg :
  In seg segs -> phase5_inv grid ecs0 segs (fst st) ->
  phase5_inv grid ecs0 segs (fst (spread_one grid spacing so st (idx, seg))).
Proof.
  intros Hs Hi. destruct st as [ecs modified]. cbn [fst] in Hi. unfold spread_one.
  destruct (Qltb _ 1); [exact Hi|].
  destruct (nth_error ecs (edge_idx seg)) as [cell|] eqn:Ec; [|exact Hi].
  destruct (MxCell.geometry cell) as [g|] eqn:Eg; [|exact Hi].
  destruct (Geometry.points g) as [|p0 ps] eqn:Ep; [exact Hi|].
  destruct (set_point _ _ (p0 :: ps) _) as [pts1 ch1] eqn:E1.
  destruct (set_point _ _ pts1 _) as [pts2 ch2] eqn:E2.
  destruct (ch1 || ch2); [|exact Hi].
  cbn [fst]. intros m c' Hm.
  destruct (Nat.eq_dec m (edge_idx seg)) as [->|Hne].
  - rewrite (nth_error_set_nth_eq _ _ _ _ Ec) in Hm. injection Hm as <-.
    destruct (Hi _ _ Ec) as [[_ Hn]|Hg]; [exfalso; exact (Hn seg Hs eq_refl)|].
    right. unfold cell_points in *. rewrite Eg, Ep in Hg. cbn.
    assert (Hc : on_grid grid (snap_to_grid (so + inject_Z (Z.of_nat idx) * spacing) grid))
      by apply snap_on_grid.
    pose proof (set_point_on_grid _ (horizontal seg) _ (p0 :: ps)
                  (Z.of_nat (point_idx seg) - 1) Hg Hc) as H1.
    rewrite E1 in H1. cbn [fst] in H1.
    pose proof (set_point_on_grid _ (horizontal seg) _ pts1 (Z.of_nat (point_idx seg)) H1 Hc) as H2.
    rewrite E2 in H2. exact H2.
  - rewrite nth_error_set_nth_neq in Hm by exact Hne. exact (Hi _ _ Hm).
Qed.

Lemma separate_step_inv grid spacing ecs0 segs st i :
  (i < List.length segs)%nat -> phase5_inv grid ecs0 segs (fst (fst st)) ->
  phase5_inv grid ecs0 segs (fst (fst (separate_step grid spacing segs st i))).
Proof.
  intros Hi Hinv. destruct st as [[ecs modified] processed]. unfold separate_step.
  destruct (mem i processed); [exact Hinv|].
  destruct (cluster_of spacing segs i processed) as [cluster processed1] eqn:Ec.
  destruct (Nat.ltb (List.length cluster) 2); [exact Hinv|].
  assert (Hk : forall idx seg,
             In (idx, seg) (combine (seq 0 (List.length (map (fun k => nth k segs dummy_seg) cluster)))
                                    (map (fun k => nth k segs dummy_seg) cluster)) ->
             In seg segs).
  { intros idx seg Hin. apply in_combine_r in Hin. apply in_map_iff in Hin.
    destruct Hin as [k [<- Hk]]. apply nth_In.
    apply (cluster_of_bound spacing segs i processed Hi). rewrite Ec. exact Hk. }
  match goal with
  | |- context [fold_left (spread_one ?g ?sp ?so) ?l ?a] =>
      assert (Hf : phase5_inv grid ecs0 segs (fst (fold_left (spread_one g sp so) l a)));
      [ apply (fold_left_inv _ (fun st => phase5_inv grid ecs0 segs (fst st)));
        [ intros st [idx seg] Hin Hst; exact (spread_one_inv _ _ _ _ _ _ _ _ (Hk _ _ Hin) Hst)
        | exact Hinv ]
      | destruct (fold_left (spread_one g sp so) l a) as [ecs' modified']; exact Hf ]
  end.
Qed.

Lemma collect_segments_avoid_nil bounds ecs m c :
  nth_error ecs m = Some c -> (forall ei, cell_segments bounds ei c = []) ->
  forall seg, In seg (collect_segments bounds ecs) -> edge_idx seg <> m.
Proof.
  intros Hm Hn seg Hs Heq. unfold collect_segments in Hs.
  apply in_flat_map in Hs. destruct Hs as [[ei c'] [Hin Hs]]. cbn [fst snd] in Hs.
  apply in_combine_seq in Hin. rewrite Nat.sub_0_r in Hin. destruct Hin as [Hin _].
  pose proof (cell_segments_idx _ _ _ _ Hs) as Hi. subst ei.
  rewrite Heq, Hm in Hin. injection Hin as <-.
  rewrite Hn in Hs. destruct Hs.
Qed.

Lemma separate_on_grid ecs bounds spacing grid :
  (forall m c, nth_error ecs m = Some c ->
     (forall ei, cell_segments bounds ei c = []) \/ points_on_grid grid (cell_points c)) ->
  phase5_inv grid ecs (collect_segments bounds ecs)
    (fst (separate_parallel_edges ecs bounds spacing grid)).
Proof.
  intros H0.
  assert (Hinit : phase5_inv grid ecs (collect_segments bounds ecs) ecs).
  { intros m c Hm. destruct (H0 m c Hm) as [Hn|Hg]; [left|right; exact Hg].
    split; [exact Hm|]. exact (collect_segments_avoid_nil _ _ _ _ Hm Hn). }
  unfold separate_parallel_edges.
  destruct (Nat.ltb (List.length ecs) 2); [exact Hinit|].
  match goal with
  | |- context [fold_left ?f ?l ?a] =>
      assert (Hf : phase5_inv grid ecs (collect_segments bounds ecs) (fst (fst (fold_left f l a))));
      [ apply (fold_left_inv f (fun st => phase5_inv grid ecs (collect_segments bounds ecs)
                                                     (fst (fst st))) l);
        [ intros st i Hi Hst; apply in_seq in Hi; apply separate_step_inv; [lia | exact Hst]
        | exact Hinit ]
      | destruct (fold_left f l a) as [[ecs' modified'] processed']; exact Hf ]
  end.
Qed.

Lemma write_back_cases (cs : list MxCell.t) : forall ecs j c',
  nth_error (write_back cs ecs) j = Some c' ->
  nth_error cs j = Some c' \/
  exists m, nth_error (filter is_edge_cell cs) m = nth_error cs j /\ nth_error ecs m = Some c'.
Proof.
  induction cs as [|c0 cs IH]; intros ecs j c' H; [destruct j; discriminate|].
  cbn [write_back filter] in *. destruct (is_edge_cell c0) eqn:Ee.
  - destruct ecs as [|e ecs].
    + destruct j as [|j]; cbn [nth_error] in *; [left; exact H|].
      destruct (IH [] j c' H) as [Hl|[m [_ Hm]]]; [left; exact Hl|].
      destruct m; discriminate.
    + destruct j as [|j]; cbn [nth_error] in *.
      * right. exists 0%nat. split; [reflexivity | exact H].
      * destruct (IH ecs j c' H) as [Hl|[m [Hm1 Hm2]]]; [left; exact Hl|].
        right. exists (S m). split; [exact Hm1 | exact Hm2].
  - destruct j as [|j]; cbn [nth_error] in *; [left; exact H|].
    exact (IH ecs j c' H).
Qed.

Lemma optimize_cells_length bounds margin threshold grid (cs : list MxCell.t) :
  forall cs' n, optimize_cells bounds margin threshold grid cs = Some (cs', n) ->
  List.length cs' = List.length cs.
Proof.
  induction cs as [|c cs IH]; intros cs' n H; cbn [optimize_cells] in H.
  - injection H as <- _. reflexivity.
  - destruct (if is_edge_cell c then _ else _) as [[c1 b]|]; [|discriminate].
    destruct (optimize_cells bounds margin threshold grid cs) as [[cs1 n1]|]; [|discriminate].
    injection H as <- _. cbn. f_equal. exact (IH _ _ eq_refl).
Qed.

Lemma optimize_edges_on_grid d margin thr nudge d' n :
  optimize_edge_paths d margin thr nudge = Some (d', n) ->
  forall j c', nth_error (cells d') j = Some c' ->
  nth_error (cells d) j = Some c' \/
  points_on_grid (if Z.eqb (grid_size d) 0 then 10%Z else grid_size d) (cell_points c').
Proof.
  intros H j c' Hj. unfold optimize_edge_paths in H.
  destruct (get_all_vertex_bounds d) as [[|b0 bs]|]; [injection H as <- _; left; exact Hj| |discriminate].
  set (grid := if Z.eqb (grid_size d) 0 then 10%Z else grid_size d) in *.
  destruct (optimize_cells _ _ _ _ (cells d)) as [[cs1 m1]|] eqn:Eo; [|discriminate].
  destruct (separate_parallel_edges _ _ _ _) as [ecs' m5] eqn:Es.
  injection H as <- _. cbn [cells set_cells] in Hj.
  (* the cells after phases 1-4 *)
  assert (Hcs1 : forall k ck, nth_error cs1 k = Some ck ->
             (nth_error (cells d) k = Some ck \/ points_on_grid grid (cell_points ck)) /\
             (is_edge_cell ck = true ->
              (forall ei, cell_segments (b0 :: bs) ei ck = []) \/
              points_on_grid grid (cell_points ck))).
  { intros k ck Hk.
    destruct (nth_error (cells d) k) as [cj|] eqn:Ek.
    2:{ exfalso. apply nth_error_None in Ek.
        pose proof (optimize_cells_length _ _ _ _ _ _ _ Eo) as Hl.
        assert (Hs : nth_error cs1 k <> None) by congruence. apply Hs, nth_error_None. lia. }
    destruct (optimize_cells_nth _ _ _ _ _ _ _ Eo k cj Ek) as [c'' [b [Hc Hk']]].
    rewrite Hk in Hk'. injection Hk' as <-.
    destruct (is_edge_cell cj) eqn:Ecj.
    - destruct (optimize_cell_on_grid _ _ _ _ _ _ _ Hc) as [[->|Hg] H2].
      + split; [left; reflexivity | intros _; exact H2].
      + split; [right; exact Hg | intros _; exact H2].
    - injection Hc as -> _. split; [left; reflexivity|]. rewrite Ecj. discriminate. }
  destruct (write_back_cases _ _ _ _ Hj) as [Hl|[m [Hm1 Hm2]]].
  - exact (proj1 (Hcs1 _ _ Hl)).
  - assert (Hsep := separate_on_grid (filter is_edge_cell cs1) (b0 :: bs) nudge grid).
    rewrite Es in Hsep. cbn [fst] in Hsep.
    assert (H0 : forall m c, nth_error (filter is_edge_cell cs1) m = Some c ->
               (forall ei, cell_segments (b0 :: bs) ei c = []) \/ points_on_grid grid (cell_points c)).
    { intros m0 c0 Hm0. apply nth_error_In in Hm0. apply filter_In in Hm0.
      destruct Hm0 as [Hin He]. apply In_nth_error in Hin. destruct Hin as [k Hk].
      exact (proj2 (Hcs1 _ _ Hk) He). }
    destruct (Hsep H0 m c' Hm2) as [[He _]|Hg]; [|right; exact Hg].
    rewrite Hm1 in He. exact (proj1 (Hcs1 _ _ He)).
Qed.

Lemma snapped_rel_refl grid c : snapped_rel grid c c.
Proof. unfold snapped_rel. destruct (MxCell.geometry c); auto. Qed.

Lemma snapped_rel_trans grid a b c :
  snapped_rel grid a b -> snapped_rel grid b c -> snapped_rel grid a c.
Proof.
  unfold snapped_rel.
  destruct (MxCell.geometry a) as [ga|], (MxCell.geometry b) as [gb|],
           (MxCell.geometry c) as [gc|]; try tauto.
  intros [Hx1 Hy1] [Hx2 Hy2]. split.
  - destruct Hx2 as [->|H]; [exact Hx1 | right; exact H].
  - destruct Hy2 as [->|H]; [exact Hy1 | right; exact H].
Qed.

Lemma update_geometry_snapped grid (cs : list MxCell.t) (i : nat) (f : Geometry.t -> Geometry.t) :
  (forall g, (Geometry.x (f g) = Geometry.x g \/ on_grid grid (Geometry.x (f g))) /\
             (Geometry.y (f g) = Geometry.y g \/ on_grid grid (Geometry.y (f g)))) ->
  Forall2 (snapped_rel grid) cs (update_geometry cs i f).
Proof.
  intros Hf. unfold update_geometry.
  destruct (nth_error cs i) as [c|] eqn:Ec; [|apply Forall2_refl, snapped_rel_refl].
  destruct (MxCell.geometry c) as [g|] eqn:Eg; [|apply Forall2_refl, snapped_rel_refl].
  apply Forall2_set_nth; [exact (snapped_rel_refl grid)|].
  intros a Ea. rewrite Ec in Ea. injection Ea as <-.
  unfold snapped_rel. rewrite Eg. cbn. exact (Hf g).
Qed.

Lemma move_x_snapped grid delta g :
  (Geometry.x (move_x grid delta g) = Geometry.x g \/ on_grid grid (Geometry.x (move_x grid delta g))) /\
  (Geometry.y (move_x grid delta g) = Geometry.y g \/ on_grid grid (Geometry.y (move_x grid delta g))).
Proof. split; [right; apply snap_on_grid | left; reflexivity]. Qed.

Lemma move_y_snapped grid delta g :
  (Geometry.x (move_y grid delta g) = Geometry.x g \/ on_grid grid (Geometry.x (move_y grid delta g))) /\
  (Geometry.y (move_y grid delta g) = Geometry.y g \/ on_grid grid (Geometry.y (move_y grid delta g))).
Proof. split; [left; reflexivity | right; apply snap_on_grid]. Qed.

Lemma resolve_step_snapped grid margin bs st ij :
  Forall2 (snapped_rel grid) (fst (fst st)) (fst (fst (resolve_step grid margin bs st ij))).
Proof.
  destruct st as [[cs any] mv]. destruct ij as [i j]. unfold resolve_step.
  destruct (nth i bs (EmptyString, dummy_bounds)) as [a_id ab].
  destruct (nth j bs (EmptyString, dummy_bounds)) as [b_id bb].
  cbn beta iota zeta.
  assert (Hr : Forall2 (snapped_rel grid) cs cs) by apply Forall2_refl, snapped_rel_refl.
  assert (Hpair : forall ia ib fa fb,
             (forall g, (Geometry.x (fa g) = Geometry.x g \/ on_grid grid (Geometry.x (fa g))) /\
                        (Geometry.y (fa g) = Geometry.y g \/ on_grid grid (Geometry.y (fa g)))) ->
             (forall g, (Geometry.x (fb g) = Geometry.x g \/ on_grid grid (Geometry.x (fb g))) /\
                        (Geometry.y (fb g) = Geometry.y g \/ on_grid grid (Geometry.y (fb g)))) ->
             Forall2 (snapped_rel grid) cs (update_geometry (update_geometry cs ia fa) ib fb)).
  { intros ia ib fa fb Ha Hb.
    eapply Forall2_trans; [exact (snapped_rel_trans grid) | apply update_geometry_snapped, Ha |].
    apply update_geometry_snapped, Hb. }
  repeat match goal with
  | |- context [if ?c then _ else _] => destruct c
  | |- context [match ?x with _ => _ end] => destruct x
  end; cbn [fst]; try exact Hr;
  apply Hpair; intros g; first [apply move_x_snapped | apply move_y_snapped].
Qed.

Lemma resolve_loop_snapped (k : nat) (margin : Q) :
  forall d moved d' moved' fl,
    resolve_loop k margin d moved = Some (d', moved', fl) ->
    grid_size d' = grid_size d /\ Forall2 (snapped_rel (grid_size d)) (cells d) (cells d').
Proof.
  induction k as [|k IH]; intros d moved d' moved' fl H; simpl in H.
  - injection H as <- _ _. split; [reflexivity|]. apply Forall2_refl, snapped_rel_refl.
  - destruct (get_all_vertex_bounds d) as [bs|]; [|discriminate].
    assert (H1 : Forall2 (snapped_rel (grid_size d)) (cells d)
                   (fst (fst (resolve_scan (grid_size d) margin bs (cells d) moved)))).
    { unfold resolve_scan.
      apply (fold_left_inv _ (fun st => Forall2 (snapped_rel (grid_size d)) (cells d) (fst (fst st)))).
      - intros st ij _ Hst. eapply Forall2_trans; [exact (snapped_rel_trans _) | exact Hst |].
        apply resolve_step_snapped.
      - apply Forall2_refl, snapped_rel_refl. }
    destruct (resolve_scan (grid_size d) margin bs (cells d) moved) as [[cs1 any] mv1].
    cbn [fst] in H1. destruct any.
    + destruct (IH _ _ _ _ _ H) as [Hg H2]. cbn [grid_size set_cells] in Hg, H2.
      split; [exact Hg|].
      eapply Forall2_trans; [exact (snapped_rel_trans _) | exact H1 | exact H2].
    + injection H as <- _ _. split; [reflexivity | exact H1].
Qed.

Lemma remove_overlaps_on_grid max_iter padding grid ns n :
  In n (remove_overlaps max_iter padding grid ns) ->
  on_grid grid (LNode.x n) /\ on_grid grid (LNode.y n).
Proof.
  unfold remove_overlaps. intros Hn. apply in_map_iff in Hn.
  destruct Hn as [m [<- _]]. split; apply snap_on_grid.
Qed.

Lemma resolve_overlaps_snapped d margin max_iterations d' n :
  resolve_overlaps d margin max_iterations = Some (d', n) ->
  grid_size d' = grid_size d /\ Forall2 (snapped_rel (grid_size d)) (cells d) (cells d').
Proof.
  unfold resolve_overlaps. destruct (resolve_loop max_iterations margin d 0) as [[[d1 m] fl]|] eqn:E;
    [|discriminate].
  intros H. injection H as <- _. exact (resolve_loop_snapped _ _ _ _ _ _ _ E).
Qed.

Lemma Qltb_false a b : Qltb a b = false <-> b <= a.
Proof.
  unfold Qltb. rewrite negb_false_iff. apply Qle_bool_iff.
Qed.

Lemma py_round_compat p q : p == q -> py_round p = py_round q.
Proof.
  intros H. unfold py_round.
  rewrite (Qfloor_comp p q H).
  assert (E : p - inject_Z (Qfloor q) == q - inject_Z (Qfloor q)) by (rewrite H; reflexivity).
  destruct (Qltb (p - inject_Z (Qfloor q)) (1#2)) eqn:E1, (Qltb (q - inject_Z (Qfloor q)) (1#2)) eqn:E2;
    try (apply Qltb_iff in E1 || apply Qltb_false in E1);
    try (apply Qltb_iff in E2 || apply Qltb_false in E2);
    rewrite ?E in *; try reflexivity;
    try (exfalso; eapply Qlt_not_le; eassumption).
  destruct (Qltb (1#2) (p - inject_Z (Qfloor q))) eqn:E3, (Qltb (1#2) (q - inject_Z (Qfloor q))) eqn:E4;
    try (apply Qltb_iff in E3 || apply Qltb_false in E3);
    try (apply Qltb_iff in E4 || apply Qltb_false in E4);
    rewrite ?E in *; try reflexivity;
    try (exfalso; eapply Qlt_not_le; eassumption).
Qed.

Lemma py_round_Z k : py_round (inject_Z k) = k.
Proof.
  unfold py_round. rewrite Qfloor_Z.
  replace (Qltb (inject_Z k - inject_Z k) (1 # 2)) with true; [reflexivity|].
  symmetry. apply Qltb_iff. unfold Qlt, Qminus, inject_Z, Qplus, Qopp. simpl. lia.
Qed.

Lemma py_round_close q : Qabs (inject_Z (py_round q) - q) <= 1 # 2.
Proof.
  unfold py_round.
  pose proof (Qfloor_le q) as Hf. pose proof (Qlt_floor q) as Hc.
  set (f := Qfloor q) in *.
  rewrite inject_Z_plus in Hc. change (inject_Z 1) with 1 in Hc.
  destruct (Qltb (q - inject_Z f) (1 # 2)) eqn:E1.
  { apply Qltb_iff in E1. apply Qabs_case; intros; lra. }
  apply Qltb_false in E1.
  destruct (Qltb (1 # 2) (q - inject_Z f)) eqn:E2.
  { apply Qltb_iff in E2. rewrite inject_Z_plus. change (inject_Z 1) with 1.
    apply Qabs_case; intros; lra. }
  apply Qltb_false in E2.
  destruct (Z.even f); [|rewrite inject_Z_plus; change (inject_Z 1) with 1];
    apply Qabs_case; intros; lra.
Qed.

Lemma snap_error_bound v g : (0 < g)%Z ->
  Qabs (snap_to_grid v g - v) <= inject_Z g / 2.
Proof.
  intros Hg. unfold snap_to_grid.
  assert (Hq : 0 < inject_Z g) by (unfold Qlt, inject_Z; simpl; lia).
  setoid_replace (inject_Z (py_round (v / inject_Z g)) * inject_Z g - v)
    with ((inject_Z (py_round (v / inject_Z g)) - v / inject_Z g) * inject_Z g)
    by (field; intros H; rewrite H in Hq; discriminate).
  rewrite Qabs_Qmult, (Qabs_pos (inject_Z g)) by (apply Qlt_le_weak, Hq).
  setoid_replace (inject_Z g / 2) with ((1 # 2) * inject_Z g) by field.
  apply Qmult_le_compat_r; [apply py_round_close | apply Qlt_le_weak, Hq].
Qed.

Lemma intersects_comm a b m : Bounds.intersects a b m = Bounds.intersects b a m.
Proof.
  unfold Bounds.intersects. f_equal.
  destruct (Qle_bool (Bounds.right a + m) (Bounds.x b)), (Qle_bool (Bounds.right b + m) (Bounds.x a)),
    (Qle_bool (Bounds.bottom a + m) (Bounds.y b)), (Qle_bool (Bounds.bottom b + m) (Bounds.y a));
    reflexivity.
Qed.

Lemma chain_snoc {A} (R : A -> A -> Prop) (l : list A) (x d : A) :
  chain R l -> (l <> [] -> R (last l d) x) -> chain R (l ++ [x]).
Proof.
  induction l as [|a l IH]; intros Hc Hl; [exact I|].
  destruct l as [|b l].
  - simpl. split; [apply Hl; discriminate | exact I].
  - destruct Hc as [Hab Hc]. cbn [app]. split; [exact Hab|].
    apply IH; [exact Hc|]. intros _. apply Hl. discriminate.
Qed.

Section ProximityFacts.

Variable attr : Bounds.t -> Q.
Variable bounds : list (string * Bounds.t).
Variable threshold : Q.

Definition key_of (cid : string) : Q :=
  match assoc cid bounds with Some b => attr b | None => 0 end.

Definition near (a b : string) : Prop := Qabs (key_of b - key_of a) <= threshold.
Definition apart (g h : list string) : Prop :=
  threshold < Qabs (key_of (hd EmptyString h) - key_of (last g EmptyString)).

Definition prox_inv (groups : list (list string)) (current : list string) (lastv : Q) : Prop :=
  let all := match current with [] => groups | _ => groups ++ [current] end in
  Forall (fun g => g <> []) all /\ Forall (chain near) all /\ chain apart all /\
  (current <> [] -> key_of (last current EmptyString) = lastv) /\
  (current = [] -> groups = []).

Lemma apart_last_hd (L : list (list string)) (cur cur' : list string) :
  hd EmptyString cur' = hd EmptyString cur ->
  chain apart (L ++ [cur]) -> chain apart (L ++ [cur']).
Proof.
  intros Hhd. induction L as [|a L IHL]; [intros _; exact I|].
  destruct L as [|a' L]; cbn.
  - intros [Ha _]. split; [unfold apart in *; rewrite Hhd; exact Ha | exact I].
  - intros [Ha Hap]. split; [exact Ha | apply IHL; exact Hap].
Qed.

Lemma proximity_loop_inv ids : forall groups current lastv gs c,
  proximity_loop attr bounds threshold ids groups current lastv = Some (gs, c) ->
  prox_inv groups current lastv ->
  (exists lv, prox_inv gs c lv) /\ List.concat gs ++ c = List.concat groups ++ current ++ ids.
Proof.
  induction ids as [|cid rest IH]; intros groups current lastv gs c H Hinv;
    cbn [proximity_loop] in H.
  - injection H as <- <-. split; [eauto | rewrite app_nil_r; reflexivity].
  - destruct (assoc cid bounds) as [b|] eqn:Eb; [|discriminate].
    assert (Hk : key_of cid = attr b) by (unfold key_of; rewrite Eb; reflexivity).
    destruct Hinv as (Hne & Hch & Hap & Hlast & Hnil).
    destruct current as [|c0 cur'] eqn:Ec.
    + specialize (Hnil eq_refl). subst groups. cbn [orb] in H.
      assert (Hi0 : prox_inv [] [cid] (attr b)).
      { unfold prox_inv. cbn. split; [constructor; [discriminate | constructor]|].
        split; [constructor; [exact I | constructor]|].
        split; [exact I|]. split; [intros _; exact Hk | discriminate]. }
      destruct (IH _ _ _ _ _ H Hi0) as [Hi Hc].
      split; [exact Hi|]. rewrite Hc. reflexivity.
    + cbn [orb] in H.
      assert (Hl : key_of (last (c0 :: cur') EmptyString) = lastv) by (apply Hlast; discriminate).
      rewrite <- Ec in *. cbn match in Hne, Hch, Hap.
      replace (match current with [] => groups | _ :: _ => groups ++ [current] end)
        with (groups ++ [current]) in Hne, Hch, Hap by (rewrite Ec; reflexivity).
      apply Forall_app in Hne. destruct Hne as [Hne1 Hne2].
      apply Forall_app in Hch. destruct Hch as [Hch1 Hch2].
      pose proof (proj1 (proj1 (Forall_cons_iff _ _ _) Hch2)) as Hchc.
      destruct (Qle_bool (Qabs (attr b - lastv)) threshold) eqn:Eq.
      * assert (Hcur : current ++ [cid] <> []) by (destruct current; discriminate).
        assert (Hi0 : prox_inv groups (current ++ [cid]) (attr b)).
        { unfold prox_inv.
          replace (match current ++ [cid] with [] => groups | _ :: _ => groups ++ [current ++ [cid]] end)
            with (groups ++ [current ++ [cid]]) by (destruct current; reflexivity).
          split; [apply Forall_app; split; [exact Hne1 | constructor; [exact Hcur | constructor]]|].
          split; [apply Forall_app; split; [exact Hch1 | constructor; [|constructor]]|].
          { apply chain_snoc with (d := EmptyString); [exact Hchc|].
            intros _. unfold near. rewrite Hl, Hk. apply Qle_bool_iff. exact Eq. }
          split; [apply (apart_last_hd _ current); [rewrite Ec; reflexivity | exact Hap]|].
          split; [intros _; rewrite last_last; exact Hk | intros Hx; exfalso; exact (Hcur Hx)]. }
        destruct (IH _ _ _ _ _ H Hi0) as [Hi Hc].
        split; [exact Hi|]. rewrite Hc, <- !app_assoc. reflexivity.
      * assert (Hi0 : prox_inv (groups ++ [current]) [cid] (attr b)).
        { unfold prox_inv. cbn match.
          split; [apply Forall_app; split;
                  [apply Forall_app; split; [exact Hne1 | exact Hne2] | constructor; [discriminate | constructor]]|].
          split; [apply Forall_app; split;
                  [apply Forall_app; split; [exact Hch1 | exact Hch2] | constructor; [exact I | constructor]]|].
          split.
          { apply chain_snoc with (d := [EmptyString]); [exact Hap|].
            intros _. rewrite last_last. unfold apart. cbn [hd]. rewrite Hk, Hl.
            apply Qnot_le_lt. intros Hle. apply Qle_bool_iff in Hle. congruence. }
          split; [intros _; exact Hk | discriminate]. }
        destruct (IH _ _ _ _ _ H Hi0) as [Hi Hc].
        split; [exact Hi|]. rewrite Hc, List.concat_app, <- !app_assoc. cbn. rewrite app_nil_r. reflexivity.
Qed.

End ProximityFacts.

Lemma proximity_loop_none attr bounds threshold ids : forall groups current lastv,
  proximity_loop attr bounds threshold ids groups current lastv = None ->
  Exists (fun cid => assoc cid bounds = None) ids.
Proof.
  induction ids as [|cid rest IH]; intros groups current lastv H; cbn [proximity_loop] in H;
    [discriminate|].
  destruct (assoc cid bounds) as [b|] eqn:Eb; [|left; exact Eb].
  right. destruct (_ || _); eapply IH; exact H.
Qed.

Lemma close_groups_partition attr bounds threshold ids init :
  match close_groups (proximity_loop attr bounds threshold ids [] [] init) with
  | Some gs =>
      List.concat gs = ids /\ Forall (fun g => g <> []) gs /\
      Forall (chain (near attr bounds threshold)) gs /\ chain (apart attr bounds threshold) gs
  | None => Exists (fun cid => assoc cid bounds = None) ids
  end.
Proof.
  destruct (proximity_loop attr bounds threshold ids [] [] init) as [[gs c]|] eqn:E.
  - assert (H0 : prox_inv attr bounds threshold [] [] init)
      by (unfold prox_inv; cbn; repeat split; try constructor; intros H; congruence).
    destruct (proximity_loop_inv _ _ _ _ _ _ _ _ _ E H0) as [[lv (Hne & Hch & Hap & _ & Hnil)] Hc].
    cbn in Hc. unfold close_groups.
    destruct c as [|c0 c'].
    + rewrite app_nil_r in Hc. cbn match in Hne, Hch, Hap. auto.
    + cbn match in Hne, Hch, Hap. rewrite List.concat_app. cbn. rewrite app_nil_r. auto.
  - exact (proximity_loop_none _ _ _ _ _ _ _ E).
Qed.

(** ** [layout.distribute_evenly] *)

Lemma fold_Qplus_acc (l : list Q) (a : Q) : fold_left Qplus l a == a + fold_left Qplus l 0.
Proof.
  revert a. induction l as [|x l IH]; intros a; simpl; [ring|].
  rewrite (IH (a + x)), (IH (0 + x)). ring.
Qed.

Lemma sumQ_cons x l : sumQ (x :: l) == x + sumQ l.
Proof. unfold sumQ. simpl. rewrite fold_Qplus_acc. ring. Qed.

Lemma place_items_length c g sizes : List.length (place_items c g sizes) = List.length sizes.
Proof. revert c. induction sizes; intros c; simpl; auto. Qed.

Lemma place_items_gaps c g sizes : forall i,
  (S i < List.length sizes)%nat ->
  nth (S i) (place_items c g sizes) 0 - (nth i (place_items c g sizes) 0 + nth i sizes 0) == g.
Proof.
  revert c. induction sizes as [|s rest IH]; intros c i Hi; [simpl in Hi; lia|].
  destruct i as [|i].
  - destruct rest as [|s' rest]; [simpl in Hi; lia|]. simpl. ring.
  - cbn [place_items nth]. apply IH. simpl in Hi. lia.
Qed.

Lemma place_items_last c g s sizes :
  last (place_items c g (sizes ++ [s])) 0 + s
  == c + sumQ (sizes ++ [s]) + inject_Z (Z.of_nat (List.length sizes)) * g.
Proof.
  revert c. induction sizes as [|x rest IH]; intros c.
  - simpl. unfold sumQ. simpl. ring.
  - cbn [app place_items]. rewrite sumQ_cons.
    replace (last (c :: place_items (c + (x + g)) g (rest ++ [s])) 0)
      with (last (place_items (c + (x + g)) g (rest ++ [s])) 0).
    + rewrite IH. rewrite length_cons, Nat2Z.inj_succ, <- Z.add_1_r, inject_Z_plus. ring.
    + destruct rest; reflexivity.
Qed.

Lemma pymax_10 g : 10 <= pymax g 10.
Proof.
  unfold pymax. destruct (Qltb g 10) eqn:E; [apply Qle_refl|]. apply Qltb_false in E. exact E.
Qed.

Ltac qbool :=
  repeat match goal with
  | H : Qltb _ _ = true |- _ => apply Qltb_iff in H
  | H : Qltb _ _ = false |- _ => apply Qltb_false in H
  | H : Qle_bool _ _ = true |- _ => apply Qle_bool_iff in H
  | H : Qle_bool _ _ = false |- _ =>
      apply not_true_iff_false in H; rewrite Qle_bool_iff in H; apply Qnot_le_lt in H
  end.

Lemma port_param count index :
  (2 <= count)%Z -> (0 <= index < count)%Z ->
  let t := (15 # 100) + (1 - 2 * (15 # 100)) * inject_Z index / inject_Z (count - 1) in
  15 # 100 <= t /\ t <= 85 # 100.
Proof.
  intros Hc Hi. cbn zeta.
  assert (Hd : 0 < inject_Z (count - 1)) by (unfold Qlt, inject_Z; simpl; lia).
  assert (H0 : 0 <= inject_Z index) by (unfold Qle, inject_Z; simpl; lia).
  assert (H1 : inject_Z index <= inject_Z (count - 1)) by (unfold Qle, inject_Z; simpl; lia).
  split.
  - assert (0 <= (1 - 2 * (15 # 100)) * inject_Z index / inject_Z (count - 1)).
    { apply Qle_shift_div_l; [exact Hd|]. lra. }
    lra.
  - assert ((1 - 2 * (15 # 100)) * inject_Z index / inject_Z (count - 1) <= 7 # 10).
    { apply Qle_shift_div_r; [exact Hd|]. lra. }
    lra.
Qed.

Lemma port_param_lt count i j :
  (2 <= count)%Z -> (i < j)%Z ->
  (15 # 100) + (1 - 2 * (15 # 100)) * inject_Z i / inject_Z (count - 1) <
  (15 # 100) + (1 - 2 * (15 # 100)) * inject_Z j / inject_Z (count - 1).
Proof.
  intros Hc Hij.
  assert (Hd : 0 < inject_Z (count - 1)) by (unfold Qlt, inject_Z; simpl; lia).
  assert (Hl : inject_Z i < inject_Z j) by (rewrite <- Zlt_Qlt; exact Hij).
  apply Qplus_lt_r. unfold Qdiv. apply Qmult_lt_r; [apply Qinv_lt_0_compat, Hd|]. lra.
Qed.

Theorem ports_on_side_spread side count i j :
  known_side side -> (2 <= count)%Z -> (0 <= i < j)%Z -> (j < count)%Z ->
  exists pi pj ti tj,
    distribute_ports_on_side side count i = Some pi /\
    distribute_ports_on_side side count j = Some pj /\
    on_side side pi ti /\ on_side side pj tj /\
    15 # 100 <= ti /\ ti < tj /\ tj <= 85 # 100.
Proof.
  intros Hs Hc Hi Hj. unfold distribute_ports_on_side.
  replace (Z.leb count 1) with false by (symmetry; apply Z.leb_gt; lia).
  cbn zeta.
  set (ti := (15 # 100) + (1 - 2 * (15 # 100)) * inject_Z i / inject_Z (count - 1)).
  set (tj := (15 # 100) + (1 - 2 * (15 # 100)) * inject_Z j / inject_Z (count - 1)).
  assert (Ri : 15 # 100 <= ti) by (apply (port_param count i); lia).
  assert (Rj : tj <= 85 # 100) by (apply (port_param count j); lia).
  assert (Lt : ti < tj) by (apply port_param_lt; lia).
  unfold known_side in Hs. unfold on_side.
  destruct Hs as [<-|[<-|[<-|[<-|[]]]]]; cbn;
    [exists (ti, 0), (tj, 0) | exists (ti, 1), (tj, 1) | exists (0, ti), (0, tj) | exists (1, ti), (1, tj)];
    exists ti, tj; repeat split; auto 10.
Qed.

Lemma side_key_eqb_eq a b : side_key_eqb a b = true <-> a = b.
Proof.
  destruct a as [a1 a2], b as [b1 b2]. unfold side_key_eqb. cbn [fst snd].
  rewrite andb_true_iff, !String.eqb_eq. split; [intros [-> ->]; reflexivity | intros H; injection H; auto].
Qed.

Lemma side_key_eqb_false a b : side_key_eqb a b = false <-> a <> b.
Proof. rewrite <- side_key_eqb_eq. destruct (side_key_eqb a b); intuition congruence. Qed.

Lemma group_get_append k k' i m :
  group_get k (group_append k' i m) =
  group_get k m ++ (if side_key_eqb k k' then [i] else []).
Proof.
  induction m as [|[k'' v] m IH]; cbn [group_append group_get].
  - destruct (side_key_eqb k k'); reflexivity.
  - destruct (side_key_eqb k' k'') eqn:E1.
    + apply side_key_eqb_eq in E1. subst k''. cbn [group_get].
      destruct (side_key_eqb k k'); [reflexivity | rewrite app_nil_r; reflexivity].
    + cbn [group_get]. destruct (side_key_eqb k k'') eqn:E2.
      * apply side_key_eqb_eq in E2. subst k''.
        apply side_key_eqb_false in E1.
        replace (side_key_eqb k k') with false by (symmetry; apply side_key_eqb_false; congruence).
        rewrite app_nil_r. reflexivity.
      * exact IH.
Qed.

Lemma build_fold_groups (l : list Row) : forall eg ng k,
  let r := fold_left
    (fun '(eg, ng) '(i, ((src_id, tgt_id), (exit_side, entry_side))) =>
       (group_append (src_id, exit_side) i eg, group_append (tgt_id, entry_side) i ng))
    l (eg, ng) in
  group_get k (fst r) = group_get k eg ++ map fst (filter (fun x => side_key_eqb k (row_exit x)) l) /\
  group_get k (snd r) = group_get k ng ++ map fst (filter (fun x => side_key_eqb k (row_entry x)) l).
Proof.
  induction l as [|[i [[s t] [xs ns]]] l IH]; intros eg ng k; cbn zeta.
  - cbn. rewrite !app_nil_r. split; reflexivity.
  - cbn [fold_left]. destruct (IH (group_append (s, xs) i eg) (group_append (t, ns) i ng) k) as [H1 H2].
    cbn zeta in H1, H2. rewrite H1, H2, !group_get_append.
    cbn [filter].
    change (row_exit (i, (s, t, (xs, ns)))) with (s, xs).
    change (row_entry (i, (s, t, (xs, ns)))) with (t, ns).
    destruct (side_key_eqb k (s, xs)), (side_key_eqb k (t, ns)); cbn [map];
      rewrite <- ?app_assoc; split; reflexivity.
Qed.

Lemma insert_by_perm key x l : Permutation (insert_by key x l) (x :: l).
Proof.
  induction l as [|y l IH]; cbn; [reflexivity|].
  destruct (Qltb (key x) (key y)); [reflexivity|].
  etransitivity; [apply perm_skip, IH | apply perm_swap].
Qed.

Lemma sort_by_perm key l : Permutation (sort_by key l) l.
Proof.
  unfold sort_by.
  assert (H : forall acc, Permutation (fold_left (fun acc x => insert_by key x acc) l acc) (acc ++ l)).
  { induction l as [|x l IH]; intros acc; cbn; [rewrite app_nil_r; reflexivity|].
    rewrite IH. rewrite insert_by_perm. cbn.
    apply Permutation_middle. }
  rewrite H. reflexivity.
Qed.

Lemma group_get_sort far_end connections bounds k m :
  Permutation (group_get k (sort_groups connections bounds far_end m)) (group_get k m).
Proof.
  induction m as [|[k' v] m IH]; cbn; [reflexivity|].
  destruct (side_key_eqb k k'); [|exact IH].
  destruct (Nat.ltb 1 (List.length v)) eqn:E; cbn in *; rewrite E; [apply sort_by_perm | reflexivity].
Qed.

Lemma list_index_in x l : In x l -> exists k, list_index x l = Some k /\ nth_error l k = Some x.
Proof.
  induction l as [|y l IH]; intros H; [destruct H|].
  cbn. destruct (Nat.eqb x y) eqn:E.
  - apply Nat.eqb_eq in E. subst. exists O. split; reflexivity.
  - destruct H as [->|H]; [rewrite Nat.eqb_refl in E; discriminate|].
    destruct (IH H) as [k [Hk Hn]]. rewrite Hk. exists (S k). split; [reflexivity | exact Hn].
Qed.

Lemma NoDup_map_fst_filter {B} (f : nat * B -> bool) (l : list (nat * B)) :
  NoDup (map fst l) -> NoDup (map fst (filter f l)).
Proof.
  induction l as [|[a b] l IH]; intros H; cbn; [constructor|].
  inversion H as [|? ? Hn Hd]; subst.
  destruct (f (a, b)); [|apply IH, Hd].
  constructor; [|apply IH, Hd].
  intros Hin. apply Hn. apply in_map_iff in Hin. apply in_map_iff. destruct Hin as [x [Hx Hin]].
  exists x. split; [exact Hx|]. apply filter_In in Hin. apply Hin.
Qed.

Lemma list_index_nth x l k : list_index x l = Some k -> nth_error l k = Some x.
Proof.
  revert k. induction l as [|y l IH]; intros k H; cbn in H; [discriminate|].
  destruct (Nat.eqb x y) eqn:E.
  - injection H as <-. apply Nat.eqb_eq in E. subst. reflexivity.
  - destruct (list_index x l) eqn:E2; [|discriminate]. injection H as <-. cbn. apply IH. reflexivity.
Qed.

Lemma known_side_cases side :
  known_side side ->
  side = "top"%string \/ side = "bottom"%string \/ side = "left"%string \/ side = "right"%string.
Proof. unfold known_side. cbn. intuition. Qed.

Lemma port_range side count idx p :
  known_side side -> (0 <= idx < count)%Z ->
  distribute_ports_on_side side count idx = Some p ->
  exists t, on_side side p t /\ 15 # 100 <= t /\ t <= 85 # 100.
Proof.
  intros Hs Hi H. unfold distribute_ports_on_side in H.
  destruct (Z.leb count 1) eqn:E.
  - exists (1 # 2). split; [|split; [unfold Qle; simpl; lia | unfold Qle; simpl; lia]].
    unfold side_to_base_port in H. unfold on_side.
    apply known_side_cases in Hs. destruct Hs as [ -> | [ -> | [ -> | -> ] ] ]; cbn in H; injection H as <-; auto 10.
  - apply Z.leb_gt in E. cbn zeta in H.
    set (t := (15 # 100) + (1 - 2 * (15 # 100)) * inject_Z idx / inject_Z (count - 1)) in H.
    exists t. split; [|apply (port_param count idx); lia].
    unfold on_side.
    apply known_side_cases in Hs. destruct Hs as [ -> | [ -> | [ -> | -> ] ] ]; cbn in H; injection H as <-; auto 10.
Qed.

Lemma ports_on_side_distinct side count a b pa pb :
  known_side side -> (0 <= a < count)%Z -> (0 <= b < count)%Z -> a <> b ->
  distribute_ports_on_side side count a = Some pa ->
  distribute_ports_on_side side count b = Some pb -> ~ port_eq pa pb.
Proof.
  assert (Main : forall a b pa pb, known_side side -> (0 <= a < count)%Z -> (0 <= b < count)%Z -> (a < b)%Z ->
    distribute_ports_on_side side count a = Some pa ->
    distribute_ports_on_side side count b = Some pb -> ~ port_eq pa pb).
  { clear. intros a b pa pb Hs Ha Hb Hab Hpa Hpb.
    destruct (ports_on_side_spread side count a b Hs ltac:(lia) ltac:(lia) ltac:(lia))
      as [pi [pj [ti [tj [Hi [Hj [Oi [Oj [R1 [R2 R3]]]]]]]]]].
    rewrite Hpa in Hi. rewrite Hpb in Hj. injection Hi as <-. injection Hj as <-.
    unfold on_side, port_eq in *.
    destruct Oi as [[-> ->]|[[-> ->]|[[-> ->]|[-> ->]]]];
    destruct Oj as [[E ->]|[[E ->]|[[E ->]|[E ->]]]]; try discriminate; cbn; lra. }
  intros Hs Ha Hb Hab Hpa Hpb.
  destruct (Z.lt_ge_cases a b).
  - exact (Main a b pa pb Hs Ha Hb H Hpa Hpb).
  - intros He. apply (Main b a pb pa Hs Hb Ha ltac:(lia) Hpb Hpa).
    destruct He. split; symmetry; assumption.
Qed.

Lemma sides_distinct s1 s2 p1 p2 t1 t2 :
  s1 <> s2 -> on_side s1 p1 t1 -> on_side s2 p2 t2 ->
  15 # 100 <= t1 <= 85 # 100 -> 15 # 100 <= t2 <= 85 # 100 -> ~ port_eq p1 p2.
Proof.
  intros Hne O1 O2 R1 R2. unfold on_side, port_eq in *.
  destruct O1 as [[-> ->]|[[-> ->]|[[-> ->]|[-> ->]]]];
  destruct O2 as [[E ->]|[[E ->]|[[E ->]|[E ->]]]]; subst s2; cbn; try (exfalso; apply Hne; reflexivity); lra.
Qed.

Lemma nth_error_lt {A} (l : list A) k x : nth_error l k = Some x -> (k < List.length l)%nat.
Proof. intros H. apply nth_error_Some. rewrite H. discriminate. Qed.

Lemma port_of_range groups node side i p :
  known_side side -> port_of groups node side i = Some p ->
  exists t, on_side side p t /\ 15 # 100 <= t /\ t <= 85 # 100.
Proof.
  intros Hs H. unfold port_of in H.
  destruct (list_index i (group_get (node, side) groups)) as [k|] eqn:E; [|discriminate].
  apply list_index_nth, nth_error_lt in E.
  eapply port_range; [exact Hs | | exact H]. lia.
Qed.

Lemma port_of_distinct groups node side i j p q :
  known_side side -> i <> j ->
  port_of groups node side i = Some p -> port_of groups node side j = Some q -> ~ port_eq p q.
Proof.
  intros Hs Hij Hp Hq. unfold port_of in Hp, Hq.
  set (sib := group_get (node, side) groups) in *.
  destruct (list_index i sib) as [a|] eqn:Ea; [|discriminate].
  destruct (list_index j sib) as [b|] eqn:Eb; [|discriminate].
  apply list_index_nth in Ea, Eb.
  assert (a <> b) by (intros ->; rewrite Ea in Eb; injection Eb; exact Hij).
  apply nth_error_lt in Ea, Eb.
  eapply ports_on_side_distinct; [exact Hs | | | | exact Hp | exact Hq]; lia.
Qed.

Lemma port_of_some groups node side i :
  known_side side -> In i (group_get (node, side) groups) ->
  exists p, port_of groups node side i = Some p.
Proof.
  intros Hs Hin. unfold port_of.
  destruct (list_index_in _ _ Hin) as [k [-> _]].
  unfold distribute_ports_on_side.
  destruct (Z.leb _ 1); cbn zeta;
    [|repeat (destruct (String.eqb side _); [eexists; reflexivity|]); eexists; reflexivity].
  unfold side_to_base_port. apply known_side_cases in Hs.
  destruct Hs as [ -> | [ -> | [ -> | -> ] ] ]; cbn; eexists; reflexivity.
Qed.

Lemma fold_right_some {X} (step : nat -> option (list X) -> option (list X))
  (P : nat -> X -> Prop) l :
  (forall i, In i l -> exists x, P i x /\ forall r, step i (Some r) = Some (x :: r)) ->
  exists ps, fold_right step (Some []) l = Some ps /\ Forall2 P l ps.
Proof.
  induction l as [|i l IH]; intros H; [exists []; split; [reflexivity | constructor]|].
  destruct IH as [ps [Hf Hp]]; [intros j Hj; apply H; right; exact Hj|].
  destruct (H i (or_introl eq_refl)) as [x [Px Hs]].
  exists (x :: ps). cbn [fold_right]. rewrite Hf, Hs. split; [reflexivity | constructor; assumption].
Qed.

Lemma Forall2_nth_error_r {A B} (P : A -> B -> Prop) l1 l2 k y :
  Forall2 P l1 l2 -> nth_error l2 k = Some y -> exists x, nth_error l1 k = Some x /\ P x y.
Proof.
  intros H. revert k. induction H as [|a b l1 l2 Hab H IH]; intros k Hk; [destruct k; discriminate|].
  destruct k as [|k]; cbn in Hk |- *; [injection Hk as <-; exists a; auto | apply IH, Hk].
Qed.

Lemma map_fst_combine {A B} (l1 : list A) (l2 : list B) :
  List.length l1 = List.length l2 -> map fst (combine l1 l2) = l1.
Proof.
  revert l2. induction l1 as [|a l1 IH]; intros [|b l2] H; cbn in H |- *; try discriminate; [reflexivity|].
  f_equal. apply IH. lia.
Qed.

Lemma edge_sides_length connections bounds :
  List.length (edge_sides connections bounds) = List.length connections.
Proof. unfold edge_sides. apply length_map. Qed.

Lemma determine_side_known src tgt :
  known_side (fst (determine_side src tgt)) /\ known_side (snd (determine_side src tgt)).
Proof.
  unfold determine_side, known_side. cbn zeta.
  repeat (destruct (Qltb _ _) || destruct (Qle_bool _ _)); cbn; tauto.
Qed.

Lemma edge_sides_known connections bounds e :
  In e (edge_sides connections bounds) -> known_side (fst e) /\ known_side (snd e).
Proof.
  unfold edge_sides. rewrite in_map_iff. intros [[s t] [<- _]].
  destruct (assoc s bounds), (assoc t bounds); try apply determine_side_known;
    unfold known_side; cbn; tauto.
Qed.

Lemma batch_groups connections bounds k :
  group_get k (fst (build_groups connections bounds)) =
    map fst (filter (fun x => side_key_eqb k (row_exit x)) (batch_rows connections bounds)) /\
  group_get k (snd (build_groups connections bounds)) =
    map fst (filter (fun x => side_key_eqb k (row_entry x)) (batch_rows connections bounds)).
Proof.
  unfold build_groups, batch_rows.
  exact (build_fold_groups _ [] [] k).
Qed.

Lemma batch_rows_NoDup connections bounds : NoDup (map fst (batch_rows connections bounds)).
Proof.
  unfold batch_rows. rewrite map_fst_combine; [apply seq_NoDup|].
  rewrite length_seq, length_combine, edge_sides_length. lia.
Qed.

Lemma batch_rows_in connections bounds i :
  (i < List.length connections)%nat ->
  In (i, (nth i connections (EmptyString, EmptyString),
          nth i (edge_sides connections bounds) (EmptyString, EmptyString)))
     (batch_rows connections bounds).
Proof.
  intros Hi. unfold batch_rows.
  set (d := (EmptyString, EmptyString)).
  assert (Hl : List.length (edge_sides connections bounds) = List.length connections)
    by apply edge_sides_length.
  replace (i, (nth i connections d, nth i (edge_sides connections bounds) d))
    with (nth i (combine (seq 0 (List.length connections))
                  (combine connections (edge_sides connections bounds))) (O, (d, d))).
  - apply nth_In. rewrite length_combine, length_seq, length_combine. lia.
  - rewrite combine_nth by (rewrite length_seq, length_combine; lia).
    rewrite combine_nth by exact (eq_sym Hl). rewrite seq_nth by exact Hi. reflexivity.
Qed.

Lemma batch_in_group connections bounds far_end i sel groups :
  (i < List.length connections)%nat ->
  group_get (sel (i, (nth i connections (EmptyString, EmptyString),
          nth i (edge_sides connections bounds) (EmptyString, EmptyString)))) groups =
    map fst (filter (fun x => side_key_eqb (sel (i, (nth i connections (EmptyString, EmptyString),
          nth i (edge_sides connections bounds) (EmptyString, EmptyString)))) (sel x))
       (batch_rows connections bounds)) ->
  In i (group_get (sel (i, (nth i connections (EmptyString, EmptyString),
          nth i (edge_sides connections bounds) (EmptyString, EmptyString))))
        (sort_groups connections bounds far_end groups)).
Proof.
  intros Hi Hg.
  eapply Permutation_in; [symmetry; apply group_get_sort|].
  rewrite Hg. apply in_map_iff. eexists; split; [|apply filter_In; split;
    [apply batch_rows_in, Hi | apply side_key_eqb_eq; reflexivity]].
  reflexivity.
Qed.

Lemma nth_error_seq_inv s n k x : nth_error (seq s n) k = Some x -> x = (s + k)%nat /\ (k < n)%nat.
Proof.
  revert s k. induction n as [|n IH]; intros s k H; [destruct k; discriminate|].
  destruct k as [|k]; cbn in H.
  - injection H as <-. lia.
  - apply IH in H. lia.
Qed.

Lemma dict_set_in_keys {V} (k0 : string) (v : V) (m : list (string * V)) x :
  In x (map fst (dict_set k0 v m)) -> x = k0 \/ In x (map fst m).
Proof.
  induction m as [|[k1 v1] m IH]; cbn.
  - intros [H|[]]. auto.
  - destruct (String.eqb k0 k1); cbn; intros [H|H]; auto.
    destruct (IH H); auto.
Qed.

Lemma dict_set_NoDup {V} (k0 : string) (v : V) (m : list (string * V)) :
  NoDup (map fst m) -> NoDup (map fst (dict_set k0 v m)).
Proof.
  induction m as [|[k1 v1] m IH]; cbn; intros H.
  - constructor; [intros []| constructor].
  - apply NoDup_cons_iff in H. destruct H as [Hn Hd].
    destruct (String.eqb k0 k1) eqn:E; cbn; constructor; auto.
    intros Hin. destruct (dict_set_in_keys _ _ _ _ Hin) as [->|Hin']; [|exact (Hn Hin')].
    rewrite String.eqb_refl in E. discriminate.
Qed.

Lemma raw_entries_NoDup cs : NoDup (map fst (raw_entries cs)).
Proof.
  unfold raw_entries.
  assert (Hgen : forall acc, NoDup (map fst acc) -> NoDup (map fst (fold_left
      (fun raw (c : MxCell.t) =>
         match MxCell.geometry c with
         | Some g =>
             if MxCell.vertex c && negb (Geometry.relative g) then
               let par := if String.eqb (MxCell.parent c) EmptyString
                          then "1"%string else MxCell.parent c in
               dict_set (MxCell.id c)
                 (Geometry.x g, Geometry.y g, Geometry.width g, Geometry.height g, par) raw
             else raw
         | None => raw
         end) cs acc))).
  { induction cs as [|c cs IH]; intros acc H; [exact H|]. cbn [fold_left]. apply IH.
    destruct (MxCell.geometry c); [|exact H].
    destruct (MxCell.vertex c && negb (Geometry.relative t)); [apply dict_set_NoDup|]; exact H. }
  apply Hgen. constructor.
Qed.

Lemma bounds_of_raw_fst raw_all raw : forall bs,
  bounds_of_raw raw_all raw = Some bs -> map fst bs = map fst raw.
Proof.
  induction raw as [|[cid [[[[x y] w] h] par]] rest IH]; intros bs H; cbn [bounds_of_raw] in H.
  - injection H as <-. reflexivity.
  - destruct (abs_pos (S (List.length raw_all)) raw_all cid) as [[ax ay]|];
      destruct (bounds_of_raw raw_all rest) as [bs'|] eqn:E; try discriminate.
    injection H as <-. cbn. f_equal. apply IH. reflexivity.
Qed.

Lemma vertex_bounds_NoDup d bs : get_all_vertex_bounds d = Some bs -> NoDup (map fst bs).
Proof.
  unfold get_all_vertex_bounds. intros H. rewrite (bounds_of_raw_fst _ _ _ H).
  apply raw_entries_NoDup.
Qed.

Lemma assoc_nth_error {V} (m : list (string * V)) i k v :
  NoDup (map fst m) -> nth_error m i = Some (k, v) -> assoc k m = Some v.
Proof.
  revert i. induction m as [|[k1 v1] m IH]; intros i Hd H; [destruct i; discriminate|].
  apply NoDup_cons_iff in Hd. destruct Hd as [Hn Hd].
  destruct i as [|i]; cbn in H |- *.
  - injection H as -> ->. rewrite String.eqb_refl. reflexivity.
  - destruct (String.eqb k k1) eqn:E.
    + apply String.eqb_eq in E. subst k1. exfalso. apply Hn.
      apply in_map_iff. exists (k, v). split; [reflexivity|]. eapply nth_error_In; exact H.
    + eapply IH; eassumption.
Qed.

Lemma index_pairs_lt n i j : In (i, j) (index_pairs n) -> (i < j < n)%nat.
Proof.
  unfold index_pairs. intros H. apply in_flat_map in H.
  destruct H as [i' [Hi' Hin]]. apply in_map_iff in Hin. destruct Hin as [j' [Heq Hj']].
  injection Heq as <- <-. apply in_seq in Hj'. lia.
Qed.

Lemma assoc_In {V} (m : list (string * V)) k v : assoc k m = Some v -> In (k, v) m.
Proof.
  induction m as [|[k1 v1] m IH]; cbn; [discriminate|].
  destruct (String.eqb k k1) eqn:E; [apply String.eqb_eq in E; subst; intros H; injection H as <-; auto|].
  intros H. right. apply IH, H.
Qed.

Lemma overlap_pairs_sound bounds margin a b :
  NoDup (map fst bounds) -> In (a, b) (overlap_pairs bounds margin) ->
  a <> b /\ exists ba bb, assoc a bounds = Some ba /\ assoc b bounds = Some bb /\
                          Bounds.intersects ba bb margin = true.
Proof.
  intros Hd H. unfold overlap_pairs in H. apply in_flat_map in H.
  destruct H as [[i j] [Hij H]]. apply index_pairs_lt in Hij.
  assert (Ei : nth_error bounds i = Some (nth i bounds (EmptyString, dummy_bounds)))
    by (apply nth_error_nth'; lia).
  assert (Ej : nth_error bounds j = Some (nth j bounds (EmptyString, dummy_bounds)))
    by (apply nth_error_nth'; lia).
  destruct (nth i bounds (EmptyString, dummy_bounds)) as [a_id ba],
    (nth j bounds (EmptyString, dummy_bounds)) as [b_id bb].
  destruct (Bounds.intersects ba bb margin) eqn:Hx; [|destruct H].
  destruct H as [H|[]]. injection H as <- <-.
  split.
  - intros <-. assert (i = j); [|lia].
    apply (proj1 (NoDup_nth_error _) Hd); [rewrite length_map; lia|].
    rewrite !nth_error_map, Ei, Ej. reflexivity.
  - exists ba, bb. split; [eapply assoc_nth_error; eassumption|].
    split; [eapply assoc_nth_error; eassumption | exact Hx].
Qed.

Lemma overlap_pairs_complete bounds margin a b ba bb :
  a <> b -> assoc a bounds = Some ba -> assoc b bounds = Some bb ->
  Bounds.intersects ba bb margin = true ->
  In (a, b) (overlap_pairs bounds margin) \/ In (b, a) (overlap_pairs bounds margin).
Proof.
  intros Hab Ha Hb Hx.
  destruct (In_nth_error _ _ (assoc_In _ _ _ Ha)) as [i Ei].
  destruct (In_nth_error _ _ (assoc_In _ _ _ Hb)) as [j Ej].
  assert (Hi : (i < List.length bounds)%nat) by (apply nth_error_Some; rewrite Ei; discriminate).
  assert (Hj : (j < List.length bounds)%nat) by (apply nth_error_Some; rewrite Ej; discriminate).
  apply (nth_error_nth _ _ (EmptyString, dummy_bounds)) in Ei, Ej.
  unfold overlap_pairs.
  destruct (Nat.lt_total i j) as [Hlt|[->|Hgt]].
  - left. apply in_flat_map. exists (i, j). split; [apply index_pairs_in; lia|].
    rewrite Ei, Ej, Hx. left. reflexivity.
  - rewrite Ei in Ej. injection Ej as Eab _. congruence.
  - right. apply in_flat_map. exists (j, i). split; [apply index_pairs_in; lia|].
    rewrite Ei, Ej, intersects_comm, Hx. left. reflexivity.
Qed.

Lemma flat_map_nil {A B} (f : A -> list B) l x : flat_map f l = [] -> In x l -> f x = [].
Proof.
  intros H Hin. destruct (f x) as [|y ys] eqn:E; [reflexivity|].
  assert (Hy : In y (flat_map f l)) by (apply in_flat_map; exists x; rewrite E; split; [exact Hin | left; reflexivity]).
  rewrite H in Hy. destruct Hy.
Qed.

Lemma resolve_scan_no_overlap grid margin bounds cs moved :
  overlap_pairs bounds margin = [] ->
  resolve_scan grid margin bounds cs moved = (cs, false, moved).
Proof.
  intros H. unfold resolve_scan.
  assert (Hp : forall ij, In ij (index_pairs (List.length bounds)) ->
    resolve_step grid margin bounds (cs, false, moved) ij = (cs, false, moved)).
  { intros [i j] Hin. pose proof (flat_map_nil _ _ _ H Hin) as Hf. cbn beta iota in Hf.
    unfold resolve_step.
    destruct (nth i bounds (EmptyString, dummy_bounds)) as [a_id ba],
      (nth j bounds (EmptyString, dummy_bounds)) as [b_id bb].
    destruct (Bounds.intersects ba bb margin); [discriminate | reflexivity]. }
  induction (index_pairs (List.length bounds)) as [|ij l IH]; [reflexivity|].
  cbn [fold_left]. rewrite Hp by (left; reflexivity). apply IH.
  intros ij' Hin. apply Hp. right. exact Hin.
Qed.

Lemma to_int_nonnil z : Z.to_int z <> Decimal.Pos Decimal.Nil /\ Z.to_int z <> Decimal.Neg Decimal.Nil.
Proof.
  destruct z as [|p|p]; cbn; split; try discriminate;
    intros H; injection H as H; exact (DecimalPos.Unsigned.to_uint_nonnil p H).
Qed.

Lemma str_of_Z_inj a b : str_of_Z a = str_of_Z b -> a = b.
Proof.
  unfold str_of_Z. intros H.
  apply (f_equal NilZero.int_of_string) in H.
  destruct (to_int_nonnil a) as [Ha1 Ha2], (to_int_nonnil b) as [Hb1 Hb2].
  rewrite !NilZero.isi in H by assumption. injection H as H.
  rewrite <- (DecimalZ.of_to a), <- (DecimalZ.of_to b), H. reflexivity.
Qed.

Lemma fresh_append d n c :
  fresh (d, n) -> MxCell.id c = str_of_Z n -> fresh (append_cell (d, (n + 1)%Z) c).
Proof.
  intros [Hnd Hf] Hc. unfold append_cell, fresh. cbn [fst snd cells set_cells] in *. split.
  - rewrite map_app. apply NoDup_app; [exact Hnd | constructor; [intros []| constructor] |].
    intros x Hx Hy. destruct Hy as [Hy|[]]. cbn in Hy. subst x.
    apply in_map_iff in Hx. destruct Hx as [c' [Hc' Hin]].
    apply (Hf c' n Hin (Z.le_refl n)). rewrite Hc', Hc. reflexivity.
  - intros c' k Hin Hk. apply in_app_or in Hin. destruct Hin as [Hin|[<-|[]]].
    + apply Hf; [exact Hin | lia].
    + rewrite Hc. intros He. apply str_of_Z_inj in He. lia.
Qed.

Theorem new_diagram_fresh : fresh new_diagram.
Proof.
  unfold fresh, new_diagram. cbn [fst snd cells]. split.
  - repeat constructor; cbn; intuition discriminate.
  - intros c k Hin Hk He. cbn in Hin.
    destruct Hin as [<-|[<-|[]]]; cbn in He.
    + change "0"%string with (str_of_Z 0) in He. apply str_of_Z_inj in He. lia.
    + change "1"%string with (str_of_Z 1) in He. apply str_of_Z_inj in He. lia.
Qed.

Lemma add_vertex_fresh st value x y w h parent :
  fresh st ->
  let '(cid, st') := add_vertex st value x y w h parent None in
  fresh st' /\ snd st' = (snd st + 1)%Z /\ grid_size (fst st') = grid_size (fst st) /\
  cells (fst st') = cells (fst st) ++
    [MxCell.mk cid value parent true false None None (Some (Geometry.mk x y w h false []))].
Proof.
  destruct st as [d n]. intros H. cbn.
  split; [apply fresh_append; [exact H | reflexivity]|]. auto.
Qed.

Lemma add_edge_fresh st source target value parent waypoints :
  fresh st ->
  let '(cid, st') := add_edge st source target value parent None waypoints in
  fresh st' /\ snd st' = (snd st + 1)%Z /\ grid_size (fst st') = grid_size (fst st) /\
  exists g, cells (fst st') = cells (fst st) ++
    [MxCell.mk cid value parent false true (Some source) (Some target) (Some g)].
Proof.
  destruct st as [d n]. intros H. unfold add_edge. cbn [take_id next_id].
  split; [apply fresh_append; [exact H | reflexivity]|]. cbn. split; [reflexivity|]. split; [reflexivity|].
  eexists. reflexivity.
Qed.

Lemma nth_error_combine_inv {A B} (l1 : list A) (l2 : list B) i a b :
  nth_error (combine l1 l2) i = Some (a, b) -> nth_error l1 i = Some a /\ nth_error l2 i = Some b.
Proof.
  revert l2 i. induction l1 as [|x l1 IH]; intros [|y l2] i H; cbn in H; try (destruct i; discriminate).
  destruct i as [|i]; cbn in H |- *; [injection H as -> ->; auto | apply IH, H].
Qed.

Lemma place_vertices_gen pos cfg rows : forall ids0 st0,
  fresh st0 ->
  let '(ids1, st1) := fold_left
    (fun '(ids, st) '(i, label) =>
       let '(x, y) := pos i in
       let '(cid, st') := add_vertex st label x y (LayoutConfig.default_width cfg)
                            (LayoutConfig.default_height cfg) "1" None in
       (ids ++ [cid], st')) rows (ids0, st0) in
  fresh st1 /\ grid_size (fst st1) = grid_size (fst st0) /\
  exists newids, ids1 = ids0 ++ newids /\ List.length newids = List.length rows /\
    cells (fst st1) = cells (fst st0) ++
      map (fun '((i, label), cid) => placed_cell pos cfg i label cid) (combine rows newids).
Proof.
  induction rows as [|[i label] rows IH]; intros ids0 st0 H.
  - cbn. split; [exact H|]. split; [reflexivity|]. exists []. rewrite !app_nil_r. auto.
  - cbn [fold_left]. destruct (pos i) as [x y] eqn:Ep.
    pose proof (add_vertex_fresh st0 label x y (LayoutConfig.default_width cfg)
                  (LayoutConfig.default_height cfg) "1" H) as Hv.
    destruct (add_vertex st0 label x y _ _ "1" None) as [cid st0'] eqn:Ea.
    destruct Hv as (Hf & _ & Hg & Hc).
    specialize (IH (ids0 ++ [cid]) st0' Hf).
    destruct (fold_left _ rows (ids0 ++ [cid], st0')) as [ids1 st1].
    destruct IH as (Hf1 & Hg1 & newids & Hi & Hl & Hc1).
    split; [exact Hf1|]. split; [congruence|].
    exists (cid :: newids). split; [rewrite Hi, <- app_assoc; reflexivity|].
    split; [cbn; congruence|].
    rewrite Hc1, Hc, <- app_assoc. f_equal. cbn [map combine app]. f_equal.
    unfold placed_cell. rewrite Ep. reflexivity.
Qed.

Lemma place_vertices_spec pos cfg labels st :
  fresh st ->
  let '(ids, st') := place_vertices pos cfg labels st in
  fresh st' /\ grid_size (fst st') = grid_size (fst st) /\
  exists new, cells (fst st') = cells (fst st) ++ new /\ map MxCell.id new = ids /\
    List.length ids = List.length labels /\
    forall i c, nth_error new i = Some c ->
      exists label, nth_error labels i = Some label /\ c = placed_cell pos cfg i label (MxCell.id c).
Proof.
  intros H. unfold place_vertices.
  pose proof (place_vertices_gen pos cfg (combine (seq 0 (List.length labels)) labels) [] st H) as G.
  destruct (fold_left _ _ _) as [ids st'].
  destruct G as (Hf & Hg & newids & -> & Hl & Hc).
  pose proof Hl as Hl0.
  rewrite length_combine, length_seq, Nat.min_id in Hl.
  split; [exact Hf|]. split; [exact Hg|].
  eexists. split; [exact Hc|]. split; [|split; [exact Hl|]].
  - rewrite map_map. cbn [app].
    revert Hl0. generalize (combine (seq 0 (List.length labels)) labels) as rows.
    generalize newids as ns. clear. intros ns rows. revert ns.
    induction rows as [|[i lbl] rows IH]; intros [|n ns'] Hl; cbn in Hl |- *; try discriminate; try reflexivity.
    f_equal. apply IH. lia.
  - intros i c Hn. rewrite nth_error_map in Hn.
    destruct (nth_error (combine _ newids) i) as [[[i' lbl] cid]|] eqn:E; [|discriminate].
    injection Hn as <-. apply nth_error_combine_inv in E. destruct E as [E _].
    apply nth_error_combine_inv in E. destruct E as [Ei El].
    rewrite nth_error_seq in Ei.
    destruct (Nat.ltb_spec i (List.length labels)); [|discriminate]. injection Ei as <-.
    exists lbl. split; [exact El | reflexivity].
Qed.

Lemma snap_lower v g : (0 < g)%Z -> v - inject_Z g / 2 <= snap_to_grid v g.
Proof. intros Hg. pose proof (snap_error_bound v g Hg) as H. apply Qabs_Qle_condition in H. lra. Qed.

Lemma snap_upper v g : (0 < g)%Z -> snap_to_grid v g <= v + inject_Z g / 2.
Proof. intros Hg. pose proof (snap_error_bound v g Hg) as H. apply Qabs_Qle_condition in H. lra. Qed.

Lemma snap_step_apart (base step w : Q) (g k1 k2 : Z) :
  (0 < g)%Z -> 0 <= w -> w + inject_Z g <= step -> k1 <> k2 ->
  snap_to_grid (base + inject_Z k1 * step) g + w <= snap_to_grid (base + inject_Z k2 * step) g \/
  snap_to_grid (base + inject_Z k2 * step) g + w <= snap_to_grid (base + inject_Z k1 * step) g.
Proof.
  intros Hg Hw Hs Hk.
  assert (Hg' : 0 < inject_Z g) by (unfold Qlt, inject_Z; simpl; lia).
  assert (Main : forall a b, (a < b)%Z ->
    snap_to_grid (base + inject_Z a * step) g + w <= snap_to_grid (base + inject_Z b * step) g).
  { intros a b Hab.
    assert (Hd : 1 <= inject_Z b - inject_Z a).
    { assert (inject_Z (a + 1) <= inject_Z b) by (rewrite <- Zle_Qle; lia).
      rewrite inject_Z_plus in H. change (inject_Z 1) with 1 in H. lra. }
    assert (Hm : step <= (inject_Z b - inject_Z a) * step).
    { setoid_replace step with (1 * step) at 1 by ring. apply Qmult_le_compat_r; [exact Hd | lra]. }
    pose proof (snap_upper (base + inject_Z a * step) g Hg).
    pose proof (snap_lower (base + inject_Z b * step) g Hg).
    assert (E : (inject_Z b - inject_Z a) * step == inject_Z b * step - inject_Z a * step) by ring.
    rewrite E in Hm.
    set (sa := snap_to_grid (base + inject_Z a * step) g) in *.
    set (sb := snap_to_grid (base + inject_Z b * step) g) in *.
    set (pa := inject_Z a * step) in *. set (pb := inject_Z b * step) in *.
    set (G := inject_Z g) in *.
    assert (G / 2 == (1 # 2) * G) by field.
    lra. }
  destruct (Z.lt_total k1 k2) as [H|[H|H]]; [left; apply Main, H | contradiction | right; apply Main, H].
Qed.

Lemma apart_no_intersect (x1 y1 x2 y2 w h : Q) :
  x1 + w <= x2 \/ x2 + w <= x1 \/ y1 + h <= y2 \/ y2 + h <= y1 ->
  Bounds.intersects (Bounds.mk x1 y1 w h) (Bounds.mk x2 y2 w h) 0 = false.
Proof.
  intros H. unfold Bounds.intersects, Bounds.right, Bounds.bottom. cbn.
  apply negb_false_iff. rewrite !orb_true_iff, !Qle_bool_iff.
  destruct H as [H|[H|[H|H]]]; [left; left; left | left; left; right | left; right | right]; lra.
Qed.

Lemma placed_geometry pos cfg i label cid :
  MxCell.geometry (placed_cell pos cfg i label cid) =
  Some (Geometry.mk (fst (pos i)) (snd (pos i)) (LayoutConfig.default_width cfg)
          (LayoutConfig.default_height cfg) false []).
Proof. reflexivity. Qed.

(** The cells a [place_vertices] call appends, pairwise apart when their
    positions are [w] apart horizontally or [h] apart vertically. *)
Lemma place_vertices_apart pos cfg labels st :
  (forall i j, i <> j -> (i < List.length labels)%nat -> (j < List.length labels)%nat ->
     fst (pos i) + LayoutConfig.default_width cfg <= fst (pos j) \/
     fst (pos j) + LayoutConfig.default_width cfg <= fst (pos i) \/
     snd (pos i) + LayoutConfig.default_height cfg <= snd (pos j) \/
     snd (pos j) + LayoutConfig.default_height cfg <= snd (pos i)) ->
  fresh st ->
  let '(ids, st') := place_vertices pos cfg labels st in
  exists new, cells (fst st') = cells (fst st) ++ new /\ List.length new = List.length labels /\
    forall i j ci cj gi gj, i <> j -> nth_error new i = Some ci -> nth_error new j = Some cj ->
      MxCell.geometry ci = Some gi -> MxCell.geometry cj = Some gj ->
      Bounds.intersects (geom_bounds gi) (geom_bounds gj) 0 = false.
Proof.
  intros Hpos Hf. pose proof (place_vertices_spec pos cfg labels st Hf) as S.
  destruct (place_vertices pos cfg labels st) as [ids st'].
  destruct S as (_ & _ & new & Hc & Hid & Hl & Hn).
  exists new. split; [exact Hc|]. split; [rewrite <- Hl, <- Hid, length_map; reflexivity|].
  intros i j ci cj gi gj Hij Hi Hj Gi Gj.
  destruct (Hn i ci Hi) as [li [Li Ei]]. destruct (Hn j cj Hj) as [lj [Lj Ej]].
  rewrite Ei, placed_geometry in Gi. rewrite Ej, placed_geometry in Gj. injection Gi as <-. injection Gj as <-.
  unfold geom_bounds. cbn [Geometry.x Geometry.y Geometry.width Geometry.height].
  apply apart_no_intersect, Hpos; [exact Hij | |];
    apply nth_error_Some; [rewrite Li | rewrite Lj]; discriminate.
Qed.

Lemma Z_of_nat_neq i j : i <> j -> Z.of_nat i <> Z.of_nat j.
Proof. lia. Qed.

Lemma connect_chain_gen ids labels rows : forall eids0 st0,
  fresh st0 ->
  let '(eids1, st1) := fold_left
    (fun '(edge_ids, st) i =>
       let '(eid, st') := add_edge st (nth i ids EmptyString) (nth (S i) ids EmptyString)
                            (chain_label labels i) "1" None None in
       (edge_ids ++ [eid], st')) rows (eids0, st0) in
  fresh st1 /\
  exists neweids new, eids1 = eids0 ++ neweids /\ cells (fst st1) = cells (fst st0) ++ new /\
    map MxCell.id new = neweids /\ List.length new = List.length rows /\
    forall k c, nth_error new k = Some c ->
      exists i g, nth_error rows k = Some i /\ c = chain_edge ids labels i (MxCell.id c) g.
Proof.
  induction rows as [|i rows IH]; intros eids0 st0 H.
  - cbn. split; [exact H|]. exists [], []. rewrite !app_nil_r. repeat split.
    intros k c Hk. destruct k; discriminate.
  - cbn [fold_left].
    pose proof (add_edge_fresh st0 (nth i ids EmptyString) (nth (S i) ids EmptyString)
                  (chain_label labels i) "1" None H) as Ha.
    destruct (add_edge st0 _ _ _ "1" None None) as [eid st0'].
    destruct Ha as (Hf & _ & _ & g & Hc).
    specialize (IH (eids0 ++ [eid]) st0' Hf).
    destruct (fold_left _ rows _) as [eids1 st1].
    destruct IH as (Hf1 & neweids & new & He & Hc1 & Hid & Hl & Hn).
    split; [exact Hf1|].
    exists (eid :: neweids), (chain_edge ids labels i eid g :: new).
    split; [rewrite He, <- app_assoc; reflexivity|].
    split; [rewrite Hc1, Hc, <- app_assoc; reflexivity|].
    split; [cbn; rewrite Hid; reflexivity|]. split; [cbn; rewrite Hl; reflexivity|].
    intros [|k] c Hk; cbn in Hk.
    + injection Hk as <-. exists i, g. split; reflexivity.
    + exact (Hn k c Hk).
Qed.

Lemma chain_label_nth labels i :
  chain_label labels i = match labels with Some l => nth i l EmptyString | None => EmptyString end.
Proof.
  destruct labels as [[|l0 l]|]; [destruct i; reflexivity | | reflexivity].
  unfold chain_label. destruct (Nat.ltb_spec i (List.length (l0 :: l))); [reflexivity|].
  symmetry. apply nth_overflow. exact H.
Qed.

Lemma raw_entries_fold cs : raw_entries cs = fold_left raw_step cs [].
Proof. reflexivity. Qed.

Lemma assoc_dict_set_eq {V} k (v : V) m : assoc k (dict_set k v m) = Some v.
Proof.
  induction m as [|[k1 v1] m IH]; cbn; [rewrite String.eqb_refl; reflexivity|].
  destruct (String.eqb k k1) eqn:E; cbn; rewrite E; [reflexivity | exact IH].
Qed.

Lemma assoc_dict_set_neq {V} k k0 (v : V) m : k <> k0 -> assoc k (dict_set k0 v m) = assoc k m.
Proof.
  intros Hne. induction m as [|[k1 v1] m IH]; cbn.
  - destruct (String.eqb_spec k k0); [contradiction | reflexivity].
  - destruct (String.eqb_spec k0 k1) as [->|]; cbn.
    + destruct (String.eqb_spec k k1); [contradiction | reflexivity].
    + destruct (String.eqb k k1); [reflexivity | exact IH].
Qed.

Lemma raw_step_other raw c k : MxCell.id c <> k -> assoc k (raw_step raw c) = assoc k raw.
Proof.
  intros Hne. unfold raw_step.
  destruct (MxCell.geometry c); [|reflexivity].
  destruct (MxCell.vertex c && negb (Geometry.relative t)); [|reflexivity].
  apply assoc_dict_set_neq. auto.
Qed.

Lemma raw_fold_other cs acc k :
  (forall c, In c cs -> MxCell.id c <> k) -> assoc k (fold_left raw_step cs acc) = assoc k acc.
Proof.
  revert acc. induction cs as [|c cs IH]; intros acc H; [reflexivity|].
  cbn [fold_left]. rewrite IH by (intros c' Hc'; apply H; right; exact Hc').
  apply raw_step_other, H. left. reflexivity.
Qed.

Lemma raw_entries_assoc cs c g :
  NoDup (map MxCell.id cs) -> In c cs -> MxCell.vertex c = true ->
  MxCell.geometry c = Some g -> Geometry.relative g = false ->
  assoc (MxCell.id c) (raw_entries cs) =
    Some (Geometry.x g, Geometry.y g, Geometry.width g, Geometry.height g,
          if String.eqb (MxCell.parent c) EmptyString then "1"%string else MxCell.parent c).
Proof.
  intros Hnd Hin Hv Hg Hr. rewrite raw_entries_fold. generalize (@nil (string * RawEntry)) as acc.
  induction cs as [|c0 cs IH]; intros acc; [destruct Hin|].
  cbn [map] in Hnd. apply NoDup_cons_iff in Hnd. destruct Hnd as [Hn Hnd].
  cbn [fold_left]. destruct Hin as [<-|Hin].
  - rewrite raw_fold_other.
    + unfold raw_step. rewrite Hg, Hv, Hr. cbn. apply assoc_dict_set_eq.
    + intros c' Hc' He. apply Hn. rewrite <- He. apply in_map, Hc'.
  - apply IH; [exact Hnd | exact Hin].
Qed.

Lemma assoc_none_keys {V W} (m1 : list (string * V)) (m2 : list (string * W)) k :
  map fst m1 = map fst m2 -> assoc k m1 = None -> assoc k m2 = None.
Proof.
  revert m2. induction m1 as [|[k1 v1] m1 IH]; intros [|[k2 v2] m2] Hk H; cbn in *; try discriminate;
    [reflexivity|].
  injection Hk as <- Hk. destruct (String.eqb k k1); [discriminate | apply IH; assumption].
Qed.

Lemma abs_pos_S f raw k :
  abs_pos (S f) raw k =
  match assoc k raw with
  | None => Some (0, 0)
  | Some (x, y, _, _, par) =>
      if is_root_parent par then Some (x, y)
      else match abs_pos f raw par with
           | Some (px, py) => Some (px + x, py + y)
           | None => None
           end
  end.
Proof. reflexivity. Qed.

Lemma abs_pos_mono f raw : forall k r, abs_pos f raw k = Some r -> abs_pos (S f) raw k = Some r.
Proof.
  induction f as [|f IH]; intros k r H; [discriminate|].
  rewrite abs_pos_S in H. rewrite abs_pos_S.
  destruct (assoc k raw) as [[[[[x y] w] h] par]|]; [|exact H].
  destruct (is_root_parent par); [exact H|].
  destruct (abs_pos f raw par) as [[px py]|] eqn:E; [|discriminate].
  rewrite (IH _ _ E). exact H.
Qed.

Lemma bounds_of_raw_assoc raw_all raw : forall bs k x y w h par,
  bounds_of_raw raw_all raw = Some bs -> assoc k raw = Some (x, y, w, h, par) ->
  exists ax ay, abs_pos (S (List.length raw_all)) raw_all k = Some (ax, ay) /\
                assoc k bs = Some (Bounds.mk ax ay w h).
Proof.
  induction raw as [|[cid [[[[x0 y0] w0] h0] par0]] rest IH]; intros bs k x y w h par H Hk;
    cbn [bounds_of_raw assoc] in H, Hk; [discriminate|].
  destruct (abs_pos (S (List.length raw_all)) raw_all cid) as [[ax ay]|] eqn:Ea;
    destruct (bounds_of_raw raw_all rest) as [bs'|] eqn:Eb; try discriminate.
  injection H as <-. cbn [assoc].
  destruct (String.eqb_spec k cid) as [->|Hne].
  - injection Hk as <- <- <- <- <-. exists ax, ay. split; [exact Ea | reflexivity].
  - exact (IH bs' k x y w h par eq_refl Hk).
Qed.

Theorem vertex_bounds_abs d bs c g :
  NoDup (map MxCell.id (cells d)) -> get_all_vertex_bounds d = Some bs ->
  In c (cells d) -> MxCell.vertex c = true -> MxCell.geometry c = Some g ->
  Geometry.relative g = false ->
  exists b, assoc (MxCell.id c) bs = Some b /\
    Bounds.width b = Geometry.width g /\ Bounds.height b = Geometry.height g /\
    if is_root_parent (MxCell.parent c) then Bounds.x b = Geometry.x g /\ Bounds.y b = Geometry.y g
    else match assoc (MxCell.parent c) bs with
         | Some bp => Bounds.x b = Bounds.x bp + Geometry.x g /\ Bounds.y b = Bounds.y bp + Geometry.y g
         | None => Bounds.x b = 0 + Geometry.x g /\ Bounds.y b = 0 + Geometry.y g
         end.
Proof.
  intros Hnd Hb Hin Hv Hg Hr. unfold get_all_vertex_bounds in Hb.
  set (raw := raw_entries (cells d)) in Hb.
  pose proof (raw_entries_assoc (cells d) c g Hnd Hin Hv Hg Hr) as Hc. fold raw in Hc.
  set (par := if String.eqb (MxCell.parent c) EmptyString then "1"%string else MxCell.parent c) in Hc.
  destruct (bounds_of_raw_assoc raw raw bs _ _ _ _ _ _ Hb Hc) as [ax [ay [Ha Hbs]]].
  exists (Bounds.mk ax ay (Geometry.width g) (Geometry.height g)).
  split; [exact Hbs|]. split; [reflexivity|]. split; [reflexivity|].
  cbn [abs_pos] in Ha. rewrite Hc in Ha. cbn [Bounds.x Bounds.y].
  destruct (String.eqb_spec (MxCell.parent c) EmptyString) as [Ep|Ep].
  - subst par. rewrite Ep. cbn in Ha |- *. injection Ha as <- <-. auto.
  - subst par.
    destruct (is_root_parent (MxCell.parent c)) eqn:Er; [injection Ha as <- <-; auto|].
    destruct (abs_pos (List.length raw) raw (MxCell.parent c)) as [[px py]|] eqn:Ep'; [|discriminate].
    injection Ha as <- <-.
    destruct (assoc (MxCell.parent c) raw) as [[[[[x' y'] w'] h'] par']|] eqn:Eq.
    + destruct (bounds_of_raw_assoc raw raw bs _ _ _ _ _ _ Hb Eq) as [px' [py' [Ha' Hbs']]].
      rewrite Hbs'. cbn [Bounds.x Bounds.y].
      apply abs_pos_mono in Ep'. rewrite Ep' in Ha'. injection Ha' as <- <-. auto.
    + rewrite (assoc_none_keys raw bs _ (eq_sym (bounds_of_raw_fst _ _ _ Hb)) Eq).
      destruct (List.length raw) as [|n] eqn:El.
      * destruct raw; [discriminate | discriminate].
      * cbn [abs_pos] in Ep'. rewrite Eq in Ep'. injection Ep' as <- <-. auto.
Qed.

Lemma pymin_le_l a b : pymin a b <= a.
Proof. unfold pymin. destruct (Qltb b a) eqn:E; [apply Qltb_iff in E; lra | lra]. Qed.

Lemma pymin_le_r a b : pymin a b <= b.
Proof. unfold pymin. destruct (Qltb b a) eqn:E; [lra | apply Qltb_false in E; exact E]. Qed.

Lemma list_min_le a l : list_min a l <= a /\ Forall (fun x => list_min a l <= x) l.
Proof.
  unfold list_min. revert a. induction l as [|x l IH]; intros a; cbn; [split; [lra | constructor]|].
  destruct (IH (pymin a x)) as [H1 H2]. pose proof (pymin_le_l a x). pose proof (pymin_le_r a x).
  split; [lra|]. constructor; [lra | exact H2].
Qed.

Lemma pymax_0_ge v : v <= pymax 0 v.
Proof. unfold pymax. destruct (Qltb 0 v) eqn:E; [lra | apply Qltb_false in E; exact E]. Qed.

Lemma shift_cells_fst grid sx sy cs :
  fst (shift_cells grid sx sy cs) = map (fun c => fst (shift_cell grid sx sy c)) cs.
Proof.
  induction cs as [|c cs IH]; [reflexivity|]. cbn [shift_cells map].
  destruct (shift_cell grid sx sy c) as [c' m]. destruct (shift_cells grid sx sy cs) as [r n].
  cbn in *. f_equal. exact IH.
Qed.

Lemma shift_cell_id grid sx sy c : MxCell.id (fst (shift_cell grid sx sy c)) = MxCell.id c.
Proof.
  unfold shift_cell. destruct (_ || _); [reflexivity|].
  destruct (MxCell.geometry c); [|reflexivity]. destruct (is_top_level c); reflexivity.
Qed.

Lemma top_level_in_tl d bs c g :
  NoDup (map MxCell.id (cells d)) -> get_all_vertex_bounds d = Some bs ->
  In c (cells d) -> is_top_level c = true -> MxCell.geometry c = Some g ->
  exists b, In (MxCell.id c, b) (filter (fun '(cid, _) => in_top_level (cells d) cid) bs) /\
            Bounds.x b = Geometry.x g /\ Bounds.y b = Geometry.y g.
Proof.
  intros Hnd Hb Hin Ht Hg. unfold is_top_level in Ht. rewrite Hg in Ht.
  apply andb_true_iff in Ht. destruct Ht as [Ht Hr]. apply andb_true_iff in Ht. destruct Ht as [Hv Hrel].
  apply negb_true_iff in Hrel.
  destruct (vertex_bounds_abs d bs c g Hnd Hb Hin Hv Hg Hrel) as [b [Ha [_ [_ Hxy]]]].
  rewrite Hr in Hxy. exists b. split; [|exact Hxy].
  apply filter_In. split; [apply assoc_In, Ha|].
  unfold in_top_level. apply existsb_exists. exists c. split; [exact Hin|].
  unfold is_top_level. rewrite Hg, Hv, Hrel, Hr, String.eqb_refl. reflexivity.
Qed.

Lemma shift_cell_spec grid sx sy c :
  snd (shift_cell grid sx sy c) = movable c /\
  (movable c = false -> fst (shift_cell grid sx sy c) = c) /\
  is_top_level (fst (shift_cell grid sx sy c)) = is_top_level c /\
  (movable c = true -> forall g, MxCell.geometry c = Some g ->
     MxCell.geometry (fst (shift_cell grid sx sy c)) =
     Some (Geometry.set_y (Geometry.set_x g (snap_to_grid (Geometry.x g + sx) grid))
             (snap_to_grid (Geometry.y g + sy) grid))).
Proof.
  unfold movable, shift_cell.
  destruct (String.eqb (MxCell.id c) "0" || String.eqb (MxCell.id c) "1") eqn:E; cbn.
  { split; [reflexivity|]. split; [reflexivity|]. split; [reflexivity|]. discriminate. }
  idtac.
  destruct (MxCell.geometry c) as [g|] eqn:Hg.
  - destruct (is_top_level c) eqn:Ht; cbn.
    + repeat split; try discriminate.
      * unfold is_top_level in *. rewrite Hg in Ht. cbn. exact Ht.
      * intros _ g' Hg'. injection Hg' as <-. reflexivity.
    + repeat split; [exact Ht | discriminate].
  - assert (is_top_level c = false) as Ht by (unfold is_top_level; rewrite Hg; reflexivity).
    rewrite Ht. repeat split; [exact Ht | discriminate].
Qed.

Lemma shift_cells_snd grid sx sy cs :
  snd (shift_cells grid sx sy cs) = Z.of_nat (List.length (filter movable cs)).
Proof.
  induction cs as [|c cs IH]; [reflexivity|]. cbn [shift_cells filter].
  destruct (shift_cell_spec grid sx sy c) as [Hm _].
  destruct (shift_cell grid sx sy c) as [c' m]. destruct (shift_cells grid sx sy cs) as [r n].
  cbn in *. subst m. destruct (movable c); cbn; lia.
Qed.

Lemma tl_min_bound d bs c g cid b0 tl :
  NoDup (map MxCell.id (cells d)) -> get_all_vertex_bounds d = Some bs ->
  filter (fun '(cid, _) => in_top_level (cells d) cid) bs = (cid, b0) :: tl ->
  In c (cells d) -> is_top_level c = true -> MxCell.geometry c = Some g ->
  list_min (Bounds.x b0) (map (fun '(_, b) => Bounds.x b) tl) <= Geometry.x g /\
  list_min (Bounds.y b0) (map (fun '(_, b) => Bounds.y b) tl) <= Geometry.y g.
Proof.
  intros Hnd Hb Hf Hin Ht Hg.
  destruct (top_level_in_tl d bs c g Hnd Hb Hin Ht Hg) as [b [Hi [Hx Hy]]].
  rewrite Hf in Hi. rewrite <- Hx, <- Hy.
  destruct (list_min_le (Bounds.x b0) (map (fun '(_, b) => Bounds.x b) tl)) as [Hx0 Hxl].
  destruct (list_min_le (Bounds.y b0) (map (fun '(_, b) => Bounds.y b) tl)) as [Hy0 Hyl].
  destruct Hi as [Hi|Hi].
  - injection Hi as _ <-. split; assumption.
  - rewrite Forall_forall in Hxl, Hyl. split.
    + apply Hxl. apply in_map_iff. exists (MxCell.id c, b). split; [reflexivity | exact Hi].
    + apply Hyl. apply in_map_iff. exists (MxCell.id c, b). split; [reflexivity | exact Hi].
Qed.

Lemma movable_top c : movable c = true -> is_top_level c = true.
Proof. unfold movable. intros H. apply andb_true_iff in H. apply H. Qed.

Lemma top_level_geometry c : is_top_level c = true -> exists g, MxCell.geometry c = Some g.
Proof. unfold is_top_level. destruct (MxCell.geometry c) as [g|]; [eauto | discriminate]. Qed.

Lemma shift_cell_movable grid sx sy c : movable (fst (shift_cell grid sx sy c)) = movable c.
Proof.
  unfold movable at 1. rewrite shift_cell_id.
  destruct (shift_cell_spec grid sx sy c) as [_ [_ [Ht _]]]. rewrite Ht. reflexivity.
Qed.

(** [optimize_edge_paths] passes every cell through the body of phases
    1-4, and phase 5 over all the edge cells of the result. *)
Lemma optimize_processes_all d margin thr nudge bounds d' n :
  get_all_vertex_bounds d = Some bounds ->
  optimize_edge_paths d margin thr nudge = Some (d', n) ->
  let G := if Z.eqb (grid_size d) 0 then 10%Z else grid_size d in
  (bounds = [] /\ d' = d) \/
  exists cs1 m1, optimize_cells bounds margin thr G (cells d) = Some (cs1, m1) /\
    (forall j cj, nth_error (cells d) j = Some cj ->
       exists cj' b, (if is_edge_cell cj then optimize_cell bounds margin thr G cj
                      else Some (cj, false)) = Some (cj', b) /\ nth_error cs1 j = Some cj') /\
    cells d' = write_back cs1 (fst (separate_parallel_edges (filter is_edge_cell cs1) bounds nudge G)).
Proof.
  intros Hb H G. unfold optimize_edge_paths in H. rewrite Hb in H.
  destruct bounds as [|b0 bs]; [left; injection H as <- _; split; reflexivity|].
  right. fold G in H.
  destruct (optimize_cells _ _ _ _ (cells d)) as [[cs1 m1]|] eqn:Eo; [|discriminate].
  destruct (separate_parallel_edges _ _ _ _) as [ecs' m5] eqn:Es.
  injection H as <- _. exists cs1, m1. split; [reflexivity|]. split.
  - exact (optimize_cells_nth _ _ _ _ _ _ _ Eo).
  - cbn [cells set_cells]. rewrite Es. reflexivity.
Qed.

(** ** Coordinates written by the whole-diagram passes *)

Lemma fold_rel {A B C} (R : C -> C -> Prop) (proj : A -> C) (f : A -> B -> A) :
  (forall c, R c c) -> (forall x y z, R x y -> R y z -> R x z) ->
  (forall a b, R (proj a) (proj (f a b))) ->
  forall l a, R (proj a) (proj (fold_left f l a)).
Proof.
  intros Hr Ht Hf l. induction l as [|b l IH]; intros a; [apply Hr|].
  cbn [fold_left]. eapply Ht; [apply Hf | apply IH].
Qed.

Lemma on_grid_zero g : on_grid g 0.
Proof. exists 0%Z. unfold Qeq. simpl. lia. Qed.

Lemma grid_written_refl gp gt c : grid_written gp gt c c.
Proof.
  unfold grid_written, kept_coord, cell_points.
  destruct (MxCell.geometry c) as [g|]; [|reflexivity].
  split; [left; reflexivity|]. split; [left; reflexivity|]. left; reflexivity.
Qed.

Lemma grid_written_trans gp gt a b c :
  grid_written gp gt a b -> grid_written gp gt b c -> grid_written gp gt a c.
Proof.
  unfold grid_written, kept_coord, cell_points.
  destruct (MxCell.geometry c) as [gc|]; [|intros Hab Hbc; rewrite Hbc in Hab; exact Hab].
  destruct (MxCell.geometry b) as [gb|]; intros Hab [Hx [Hy Hp]].
  - destruct Hab as [Hx1 [Hy1 Hp1]]. split; [|split].
    + destruct Hx as [<-|H]; [exact Hx1 | right; exact H].
    + destruct Hy as [<-|H]; [exact Hy1 | right; exact H].
    + destruct Hp as [->|H]; [exact Hp1 | right; exact H].
  - split; [|split].
    + destruct Hx as [[]|H]; right; exact H.
    + destruct Hy as [[]|H]; right; exact H.
    + right. destruct Hp as [->|H]; [constructor | exact H].
Qed.

Lemma written_refl gp gt cs : Forall2 (grid_written gp gt) cs cs.
Proof. apply Forall2_refl. intros c. apply grid_written_refl. Qed.

Lemma written_trans gp gt x y z :
  Forall2 (grid_written gp gt) x y -> Forall2 (grid_written gp gt) y z ->
  Forall2 (grid_written gp gt) x z.
Proof. apply Forall2_trans. exact (grid_written_trans gp gt). Qed.

Lemma placed_written gp gt a b :
  placed_on_grid gp gt a -> grid_written gp gt a b -> placed_on_grid gp gt b.
Proof.
  unfold placed_on_grid, grid_written, kept_coord, cell_points.
  destruct (MxCell.geometry b) as [gb|]; [|intros; exact I].
  destruct (MxCell.geometry a) as [ga|]; intros Ha [Hx [Hy Hp]].
  - destruct Ha as [Hax [Hay Hap]]. split; [|split].
    + destruct Hx as [<-|H]; assumption.
    + destruct Hy as [<-|H]; assumption.
    + destruct Hp as [->|H]; assumption.
  - split; [|split].
    + destruct Hx as [[]|H]; exact H.
    + destruct Hy as [[]|H]; exact H.
    + destruct Hp as [->|H]; [constructor | exact H].
Qed.

Lemma diagram_on_grid_refl gp gt d : diagram_on_grid gp gt d d.
Proof.
  split; [reflexivity|]. exists (cells d), []. rewrite app_nil_r.
  split; [reflexivity|]. split; [apply written_refl | constructor].
Qed.

Lemma diagram_on_grid_trans gp gt d1 d2 d3 :
  diagram_on_grid gp gt d1 d2 -> diagram_on_grid gp gt d2 d3 -> diagram_on_grid gp gt d1 d3.
Proof.
  intros [Hg1 [o1 [n1 [E1 [F1 P1]]]]] [Hg2 [o2 [n2 [E2 [F2 P2]]]]].
  split; [congruence|].
  rewrite E1 in F2. apply Forall2_app_inv_l in F2. destruct F2 as [o2a [o2b [Fa [Fb ->]]]].
  exists o2a, (o2b ++ n2). split; [rewrite E2, app_assoc; reflexivity|].
  split; [exact (written_trans _ _ _ _ _ F1 Fa)|].
  apply Forall_app. split; [|exact P2].
  clear -P1 Fb. induction Fb as [|a b l l' Hab Hl IH]; [constructor|].
  inversion P1 as [|? ? Ha Hrest]; subst.
  constructor; [exact (placed_written _ _ _ _ Ha Hab) | exact (IH Hrest)].
Qed.

Lemma written_diagram gp gt d d' :
  grid_size d' = grid_size d -> Forall2 (grid_written gp gt) (cells d) (cells d') ->
  diagram_on_grid gp gt d d'.
Proof.
  intros Hg H. split; [exact Hg|]. exists (cells d'), []. rewrite app_nil_r.
  split; [reflexivity|]. split; [exact H | constructor].
Qed.

Lemma written_set_geometry gp gt c g g' :
  MxCell.geometry c = Some g -> geom_moved gp g g' ->
  grid_written gp gt c (MxCell.set_geometry c (Some g')).
Proof.
  intros Eg [Hx [Hy Hp]]. unfold grid_written, kept_coord, cell_points.
  cbn [MxCell.geometry MxCell.set_geometry]. rewrite Eg. split; [|split].
  - destruct Hx as [->|H]; [left; reflexivity | right; exact H].
  - destruct Hy as [->|H]; [left; reflexivity | right; exact H].
  - left. exact Hp.
Qed.

Lemma update_geometry_written gp gt cs i f :
  (forall g, geom_moved gp g (f g)) ->
  Forall2 (grid_written gp gt) cs (update_geometry cs i f).
Proof.
  intros Hf. unfold update_geometry.
  destruct (nth_error cs i) as [c|] eqn:Ec; [|apply written_refl].
  destruct (MxCell.geometry c) as [g|] eqn:Eg; [|apply written_refl].
  apply Forall2_set_nth; [intros a; apply grid_written_refl|].
  intros a Ea. rewrite Ec in Ea. injection Ea as <-.
  exact (written_set_geometry _ _ _ _ _ Eg (Hf g)).
Qed.

Lemma set_nth_written gp gt cs k c g g' :
  nth_error cs k = Some c -> MxCell.geometry c = Some g -> geom_moved gp g g' ->
  Forall2 (grid_written gp gt) cs (set_nth k cs (MxCell.set_geometry c (Some g'))).
Proof.
  intros Ec Eg Hm. apply Forall2_set_nth; [intros a; apply grid_written_refl|].
  intros a Ea. rewrite Ec in Ea. injection Ea as <-.
  exact (written_set_geometry _ _ _ _ _ Eg Hm).
Qed.

Lemma set_x_moved gp g t : on_grid gp t -> geom_moved gp g (Geometry.set_x g t).
Proof. intros H. split; [right; exact H|]. split; [left|]; reflexivity. Qed.

Lemma set_y_moved gp g t : on_grid gp t -> geom_moved gp g (Geometry.set_y g t).
Proof. intros H. split; [left; reflexivity|]. split; [right; exact H | reflexivity]. Qed.

(** *** [resolve_overlaps] *)

Lemma resolve_step_written gt grid margin bs st ij :
  Forall2 (grid_written grid gt) (fst (fst st)) (fst (fst (resolve_step grid margin bs st ij))).
Proof.
  destruct st as [[cs any] mv]. destruct ij as [i j]. unfold resolve_step.
  destruct (nth i bs (EmptyString, dummy_bounds)) as [a_id ab].
  destruct (nth j bs (EmptyString, dummy_bounds)) as [b_id bb].
  cbn beta iota zeta.
  assert (Hr : Forall2 (grid_written grid gt) cs cs) by apply written_refl.
  assert (Hpair : forall ia ib fa fb,
             (forall g, geom_moved grid g (fa g)) -> (forall g, geom_moved grid g (fb g)) ->
             Forall2 (grid_written grid gt) cs (update_geometry (update_geometry cs ia fa) ib fb)).
  { intros ia ib fa fb Ha Hb.
    exact (written_trans _ _ _ _ _ (update_geometry_written _ _ _ _ _ Ha)
                                   (update_geometry_written _ _ _ _ _ Hb)). }
  repeat match goal with
  | |- context [if ?c then _ else _] => destruct c
  | |- context [match ?x with _ => _ end] => destruct x
  end; cbn [fst]; try exact Hr;
  apply Hpair; intros g; unfold move_x, move_y;
  first [apply set_x_moved | apply set_y_moved]; apply snap_on_grid.
Qed.

Lemma resolve_loop_written gt (k : nat) (margin : Q) :
  forall d moved d' moved' fl,
    resolve_loop k margin d moved = Some (d', moved', fl) ->
    diagram_on_grid (grid_size d) gt d d'.
Proof.
  induction k as [|k IH]; intros d moved d' moved' fl H; simpl in H.
  - injection H as <- _ _. apply diagram_on_grid_refl.
  - destruct (get_all_vertex_bounds d) as [bs|]; [|discriminate].
    assert (H1 : Forall2 (grid_written (grid_size d) gt) (cells d)
                   (fst (fst (resolve_scan (grid_size d) margin bs (cells d) moved)))).
    { unfold resolve_scan.
      exact (fold_rel _ (fun st => fst (fst st)) _ (written_refl _ _) (written_trans _ _)
               (resolve_step_written gt (grid_size d) margin bs) _ (cells d, false, moved)). }
    destruct (resolve_scan (grid_size d) margin bs (cells d) moved) as [[cs1 any] mv1].
    cbn [fst] in H1.
    assert (H2 : diagram_on_grid (grid_size d) gt d (set_cells d cs1))
      by (apply written_diagram; [reflexivity | exact H1]).
    destruct any.
    + exact (diagram_on_grid_trans _ _ _ _ _ H2 (IH _ _ _ _ _ H)).
    + injection H as <- _ _. exact H2.
Qed.

Lemma resolve_written gt d margin max_iterations d' n :
  resolve_overlaps d margin max_iterations = Some (d', n) ->
  diagram_on_grid (grid_size d) gt d d'.
Proof.
  unfold resolve_overlaps.
  destruct (resolve_loop max_iterations margin d 0) as [[[d1 m] fl]|] eqn:E; [|discriminate].
  intros H. injection H as <- _. exact (resolve_loop_written _ _ _ _ _ _ _ _ E).
Qed.

(** *** [route_edges_around_obstacles] *)

Lemma route_cell_written gp bounds margin grid c c' b :
  route_cell bounds margin grid c = Some (c', b) -> grid_written gp grid c c'.
Proof.
  unfold route_cell. intros H.
  destruct (negb (MxCell.edge c) || negb (truthy (MxCell.source c))
            || negb (truthy (MxCell.target c)));
    [injection H as <- _; apply grid_written_refl|].
  destruct (MxCell.source c) as [s|]; [|injection H as <- _; apply grid_written_refl].
  destruct (MxCell.target c) as [t|]; [|injection H as <- _; apply grid_written_refl].
  destruct (assoc s bounds) as [sb|]; [|injection H as <- _; apply grid_written_refl].
  destruct (assoc t bounds) as [tb|]; [|injection H as <- _; apply grid_written_refl].
  destruct (route_orthogonal_astar _ _ _ _ _) as [wps|] eqn:Er; [|discriminate].
  injection H as <- _. pose proof (route_on_grid _ _ _ _ _ _ Er) as Hw.
  unfold grid_written, kept_coord, cell_points. cbn [MxCell.geometry MxCell.set_geometry].
  destruct (MxCell.geometry c) as [g|];
    cbn [Geometry.x Geometry.y Geometry.points Geometry.set_points Geometry.relative_default].
  - split; [left; reflexivity|]. split; [left; reflexivity|]. right; exact Hw.
  - split; [right; apply on_grid_zero|]. split; [right; apply on_grid_zero|]. right; exact Hw.
Qed.

Lemma route_cells_written gp bounds margin grid (cs : list MxCell.t) : forall cs' n,
  route_cells bounds margin grid cs = Some (cs', n) -> Forall2 (grid_written gp grid) cs cs'.
Proof.
  induction cs as [|c cs IH]; intros cs' n H; cbn [route_cells] in H.
  - injection H as <- _. constructor.
  - destruct (route_cell bounds margin grid c) as [[c1 b]|] eqn:E1; [|discriminate].
    destruct (route_cells bounds margin grid cs) as [[cs1 n1]|] eqn:E2; [|discriminate].
    injection H as <- _.
    constructor; [exact (route_cell_written _ _ _ _ _ _ _ E1) | exact (IH _ _ eq_refl)].
Qed.

Lemma route_written gp d margin d' n :
  route_edges_around_obstacles d margin = Some (d', n) -> diagram_on_grid gp (grid_size d) d d'.
Proof.
  unfold route_edges_around_obstacles. intros H.
  destruct (get_all_vertex_bounds d) as [[|b0 bs]|];
    [injection H as <- _; apply diagram_on_grid_refl| |discriminate].
  destruct (route_cells _ _ _ (cells d)) as [[cs1 m1]|] eqn:Er; [|discriminate].
  injection H as <- _. apply written_diagram; [reflexivity|].
  exact (route_cells_written _ _ _ _ _ _ _ Er).
Qed.

(** *** [optimize_edge_paths] *)

Lemma same_frame_refl c : same_frame c c.
Proof. unfold same_frame. destruct (MxCell.geometry c); auto. Qed.

Lemma same_frame_trans a b c : same_frame a b -> same_frame b c -> same_frame a c.
Proof.
  unfold same_frame.
  destruct (MxCell.geometry a) as [ga|], (MxCell.geometry b) as [gb|],
           (MxCell.geometry c) as [gc|]; try tauto.
  intros [Hx1 Hy1] [Hx2 Hy2]. split; congruence.
Qed.

Lemma frame_refl cs : Forall2 same_frame cs cs.
Proof. apply Forall2_refl. exact same_frame_refl. Qed.

Lemma frame_trans x y z : Forall2 same_frame x y -> Forall2 same_frame y z -> Forall2 same_frame x z.
Proof. apply Forall2_trans. exact same_frame_trans. Qed.

Lemma optimize_cell_frame bounds margin thr grid c c' b :
  optimize_cell bounds margin thr grid c = Some (c', b) -> same_frame c c'.
Proof.
  unfold optimize_cell. intros H.
  destruct (MxCell.source c) as [s|]; [|injection H as <- _; apply same_frame_refl].
  destruct (MxCell.target c) as [t|]; [|injection H as <- _; apply same_frame_refl].
  destruct (assoc s bounds) as [sb|]; [|injection H as <- _; apply same_frame_refl].
  destruct (assoc t bounds) as [tb|]; [|injection H as <- _; apply same_frame_refl].
  destruct (cell_points c) as [|p ps] eqn:Ep; [injection H as <- _; apply same_frame_refl|].
  cbv zeta in H.
  destruct (opt_shorten _ _ _) as [fp|]; [|discriminate].
  destruct (negb _); [|injection H as <- _; apply same_frame_refl].
  injection H as <- _. unfold same_frame. unfold cell_points in Ep.
  cbn [MxCell.geometry MxCell.set_geometry].
  destruct (MxCell.geometry c) as [g|]; [|discriminate Ep].
  cbn. split; reflexivity.
Qed.

Lemma optimize_cells_frame bounds margin thr grid (cs : list MxCell.t) : forall cs' n,
  optimize_cells bounds margin thr grid cs = Some (cs', n) -> Forall2 same_frame cs cs'.
Proof.
  induction cs as [|c cs IH]; intros cs' n H; cbn [optimize_cells] in H.
  - injection H as <- _. constructor.
  - destruct (if is_edge_cell c then optimize_cell bounds margin thr grid c
              else Some (c, false)) as [[c1 b]|] eqn:E1; [|discriminate].
    destruct (optimize_cells bounds margin thr grid cs) as [[cs1 n1]|] eqn:E2; [|discriminate].
    injection H as <- _. constructor; [|exact (IH _ _ eq_refl)].
    destruct (is_edge_cell c);
      [exact (optimize_cell_frame _ _ _ _ _ _ _ E1) | injection E1 as <- _; apply same_frame_refl].
Qed.

Lemma spread_one_frame grid spacing so st x :
  Forall2 same_frame (fst st) (fst (spread_one grid spacing so st x)).
Proof.
  destruct st as [ecs m]. destruct x as [idx seg]. unfold spread_one. cbn beta iota zeta.
  assert (Hr : Forall2 same_frame ecs ecs) by apply frame_refl.
  destruct (Qltb _ _); [exact Hr|].
  destruct (nth_error ecs (edge_idx seg)) as [cell|] eqn:Ec; [|exact Hr].
  destruct (MxCell.geometry cell) as [g|] eqn:Eg; [|exact Hr].
  destruct (Geometry.points g) as [|p ps]; [exact Hr|].
  destruct (set_point _ _ _ _) as [pts1 ch1].
  destruct (set_point _ _ _ _) as [pts2 ch2].
  destruct (ch1 || ch2); [|exact Hr].
  apply Forall2_set_nth; [exact same_frame_refl|].
  intros a Ea. rewrite Ec in Ea. injection Ea as <-.
  unfold same_frame. rewrite Eg. cbn. split; reflexivity.
Qed.

Lemma separate_step_frame grid spacing segs st i :
  Forall2 same_frame (fst (fst st)) (fst (fst (separate_step grid spacing segs st i))).
Proof.
  destruct st as [[ecs m] pr]. unfold separate_step. cbn beta iota zeta.
  destruct (mem i pr); [apply frame_refl|].
  destruct (cluster_of spacing segs i pr) as [cluster pr'].
  destruct (Nat.ltb _ 2); [apply frame_refl|].
  match goal with
  | |- context [fold_left (spread_one ?g ?sp ?so) ?l (ecs, m)] =>
      pose proof (fold_rel _ fst (spread_one g sp so) frame_refl frame_trans
                    (spread_one_frame g sp so) l (ecs, m)) as Hf;
      destruct (fold_left (spread_one g sp so) l (ecs, m)) as [e2 m2]
  end.
  exact Hf.
Qed.

Lemma separate_frame ecs bounds spacing grid :
  Forall2 same_frame ecs (fst (separate_parallel_edges ecs bounds spacing grid)).
Proof.
  unfold separate_parallel_edges.
  destruct (Nat.ltb _ 2); [apply frame_refl|].
  pose proof (fold_rel _ (fun st => fst (fst st))
                (separate_step grid spacing (collect_segments bounds ecs)) frame_refl frame_trans
                (separate_step_frame grid spacing (collect_segments bounds ecs))
                (seq 0 (List.length (collect_segments bounds ecs))) (ecs, 0%Z, [])) as Hf.
  destruct (fold_left _ _ _) as [[e m] p]. exact Hf.
Qed.

Lemma write_back_frame (cs : list MxCell.t) : forall ecs,
  Forall2 same_frame (filter is_edge_cell cs) ecs -> Forall2 same_frame cs (write_back cs ecs).
Proof.
  induction cs as [|c cs IH]; intros ecs H; [constructor|].
  revert H. cbn [filter write_back]. destruct (is_edge_cell c); intros H.
  - inversion H as [|? e ? ecs' Hce Hrest]; subst. constructor; [exact Hce | apply IH, Hrest].
  - constructor; [apply same_frame_refl | apply IH, H].
Qed.

Lemma frame_written gp gt (l l' : list MxCell.t) :
  Forall2 same_frame l l' ->
  (forall j c', nth_error l' j = Some c' ->
     nth_error l j = Some c' \/ points_on_grid gt (cell_points c')) ->
  Forall2 (grid_written gp gt) l l'.
Proof.
  intros H. induction H as [|c c' l l' Hc Hl IH]; intros Hj; constructor.
  - destruct (Hj 0%nat c' eq_refl) as [E|Hp].
    + injection E as ->. apply grid_written_refl.
    + unfold same_frame in Hc. unfold grid_written, kept_coord. unfold cell_points in Hp.
      destruct (MxCell.geometry c) as [g|], (MxCell.geometry c') as [g'|];
        try contradiction; [|reflexivity].
      destruct Hc as [Hx Hy]. split; [left; symmetry; exact Hx|].
      split; [left; symmetry; exact Hy|]. right; exact Hp.
  - apply IH. intros j c'' Hj'. exact (Hj (S j) c'' Hj').
Qed.

Lemma optimize_written gp d margin thr nudge d' n :
  optimize_edge_paths d margin thr nudge = Some (d', n) ->
  diagram_on_grid gp (if Z.eqb (grid_size d) 0 then 10%Z else grid_size d) d d'.
Proof.
  intros H. pose proof (optimize_edges_on_grid _ _ _ _ _ _ H) as Hg.
  unfold optimize_edge_paths in H.
  destruct (get_all_vertex_bounds d) as [[|b0 bs]|];
    [injection H as <- _; apply diagram_on_grid_refl| |discriminate].
  set (grid := if Z.eqb (grid_size d) 0 then 10%Z else grid_size d) in *.
  destruct (optimize_cells _ _ _ _ (cells d)) as [[cs1 m1]|] eqn:Eo; [|discriminate].
  pose proof (separate_frame (filter is_edge_cell cs1) (b0 :: bs) nudge grid) as Hs.
  destruct (separate_parallel_edges _ _ _ _) as [ecs' m5] eqn:Es.
  injection H as <- _. apply written_diagram; [reflexivity|]. cbn [cells set_cells fst] in *.
  apply frame_written; [|exact Hg].
  exact (frame_trans _ _ _ (optimize_cells_frame _ _ _ _ _ _ _ Eo) (write_back_frame _ _ Hs)).
Qed.

(** *** [ensure_page_margins] and [center_diagram_on_page] *)

Lemma shift_cells_written gt grid sx sy cs :
  Forall2 (grid_written grid gt) cs (fst (shift_cells grid sx sy cs)).
Proof.
  induction cs as [|c cs IH]; [constructor|]. cbn [shift_cells].
  destruct (shift_cell grid sx sy c) as [c' b] eqn:E1.
  destruct (shift_cells grid sx sy cs) as [cs' n]. cbn [fst] in *. constructor; [|exact IH].
  unfold shift_cell in E1.
  destruct (_ || _); [injection E1 as <- _; apply grid_written_refl|].
  destruct (MxCell.geometry c) as [g|] eqn:Eg; [|injection E1 as <- _; apply grid_written_refl].
  destruct (is_top_level c); [|injection E1 as <- _; apply grid_written_refl].
  injection E1 as <- _. apply (written_set_geometry _ _ _ g _ Eg).
  split; [right; apply snap_on_grid|]. split; [right; apply snap_on_grid | reflexivity].
Qed.

Lemma ensure_written gt d margin d' n :
  ensure_page_margins d margin = Some (d', n) -> diagram_on_grid (grid_size d) gt d d'.
Proof.
  unfold ensure_page_margins. intros H.
  destruct (get_all_vertex_bounds d) as [[|b0 bs]|];
    [injection H as <- _; apply diagram_on_grid_refl| |discriminate].
  destruct (filter _ _) as [|[? b1] tl]; [injection H as <- _; apply diagram_on_grid_refl|].
  cbv zeta in H.
  destruct (_ && _); [injection H as <- _; apply diagram_on_grid_refl|].
  match type of H with
  | context [shift_cells ?g ?sx ?sy (cells d)] =>
      pose proof (shift_cells_written gt g sx sy (cells d)) as Hw;
      destruct (shift_cells g sx sy (cells d)) as [cs' m]
  end.
  injection H as <- _. apply written_diagram; [reflexivity | exact Hw].
Qed.

Lemma center_written gt d page pw ph margin d' n :
  center_diagram_on_page d page pw ph margin = Some (d', n) ->
  diagram_on_grid (grid_size d) gt d d'.
Proof.
  unfold center_diagram_on_page. intros H.
  destruct (get_all_vertex_bounds d) as [[|b0 bs]|];
    [injection H as <- _; apply diagram_on_grid_refl| |discriminate].
  destruct (filter _ _) as [|[? b1] tl]; [injection H as <- _; apply diagram_on_grid_refl|].
  cbv zeta in H.
  destruct (page && _ && _); cbv beta iota in H;
  (destruct (_ && _); [injection H as <- _; apply diagram_on_grid_refl|]);
  match type of H with
  | context [shift_cells ?g ?sx ?sy (cells d)] =>
      pose proof (shift_cells_written gt g sx sy (cells d)) as Hw;
      destruct (shift_cells g sx sy (cells d)) as [cs' m]
  end;
  injection H as <- _; apply written_diagram; [reflexivity | exact Hw|reflexivity | exact Hw].
Qed.

(** *** [align_rank_baselines], [align_column_centers] and [compact_diagram] *)

Lemma align_cell_written gt extent coord set_coord grid avg idx st cid :
  (forall g t, on_grid grid t -> geom_moved grid g (set_coord g t)) ->
  Forall2 (grid_written grid gt) (fst st)
    (fst (align_cell extent coord set_coord grid avg idx st cid)).
Proof.
  intros Hs. destruct st as [cs adj]. unfold align_cell. cbn beta iota zeta.
  destruct (geometry_at idx cs cid) as [[i g]|]; [|apply written_refl].
  destruct (Qltb _ _); [|apply written_refl].
  apply update_geometry_written. intros g0. apply Hs, snap_on_grid.
Qed.

Lemma align_group_written gt center extent coord set_coord grid bounds idx st grp :
  (forall g t, on_grid grid t -> geom_moved grid g (set_coord g t)) ->
  Forall2 (grid_written grid gt) (fst st)
    (fst (align_group center extent coord set_coord grid bounds idx st grp)).
Proof.
  intros Hs. unfold align_group.
  destruct (Nat.ltb _ 2); [apply written_refl|].
  apply (fold_rel _ fst _ (written_refl _ _) (written_trans _ _)).
  intros a b. apply align_cell_written, Hs.
Qed.

Lemma align_written gt center extent coord set_coord d thr d' n :
  (forall g t, on_grid (grid_size d) t -> geom_moved (grid_size d) g (set_coord g t)) ->
  align_generic center extent coord set_coord d thr = Some (d', n) ->
  diagram_on_grid (grid_size d) gt d d'.
Proof.
  intros Hs. unfold align_generic. intros H.
  destruct (get_all_vertex_bounds d) as [bounds|]; [|discriminate].
  destruct (Nat.ltb _ 2); [injection H as <- _; apply diagram_on_grid_refl|].
  cbv zeta in H.
  destruct (Nat.ltb _ 2); [injection H as <- _; apply diagram_on_grid_refl|].
  destruct (group_by_proximity _ _ _ _) as [groups|]; [|discriminate].
  match type of H with
  | context [fold_left ?f groups (cells d, 0%Z)] =>
      pose proof (fold_rel _ fst f (written_refl _ _) (written_trans _ _)
                    (fun a b => align_group_written gt _ _ _ _ _ _ _ a b Hs) groups (cells d, 0%Z)) as Hw;
      destruct (fold_left f groups (cells d, 0%Z)) as [cs adj]
  end.
  injection H as <- _. apply written_diagram; [reflexivity | exact Hw].
Qed.

Lemma align_rank_written gt d thr d' n :
  align_rank_baselines d thr = Some (d', n) -> diagram_on_grid (grid_size d) gt d d'.
Proof. apply align_written. intros g t. apply set_y_moved. Qed.

Lemma align_column_written gt d thr d' n :
  align_column_centers d thr = Some (d', n) -> diagram_on_grid (grid_size d) gt d d'.
Proof. apply align_written. intros g t. apply set_x_moved. Qed.

Lemma compact_shift_cell_written gt grid idx shift st cid :
  Forall2 (grid_written grid gt) (fst st) (fst (compact_shift_cell grid idx shift st cid)).
Proof.
  destruct st as [cs mv]. unfold compact_shift_cell. cbn beta iota.
  destruct (geometry_at idx cs cid) as [[i g]|]; [|apply written_refl].
  apply update_geometry_written. intros g0. apply set_y_moved, snap_on_grid.
Qed.

Lemma compact_row_written gt grid bounds idx margin st row :
  Forall2 (grid_written grid gt) (fst (fst st))
    (fst (fst (compact_row grid bounds idx margin st row))).
Proof.
  destruct st as [[cs mv] cy]. unfold compact_row. cbv beta iota zeta.
  destruct (Qltb 5 _); [|apply written_refl].
  match goal with
  | |- context [fold_left (compact_shift_cell ?g ?i ?s) row (cs, mv)] =>
      pose proof (fold_rel _ fst _ (written_refl _ _) (written_trans _ _)
                    (compact_shift_cell_written gt g i s) row (cs, mv)) as Hw;
      destruct (fold_left (compact_shift_cell g i s) row (cs, mv)) as [cs2 m2]
  end.
  exact Hw.
Qed.

Lemma compact_col_step_written gt grid bounds idx margin st cid :
  Forall2 (grid_written grid gt) (fst (fst st))
    (fst (fst (compact_col_step grid bounds idx margin st cid))).
Proof.
  destruct st as [[cs mv] cx]. unfold compact_col_step. cbv beta iota zeta.
  destruct (geometry_at idx cs cid) as [[i g]|]; [|apply written_refl].
  destruct (Qltb 5 _); [|apply written_refl].
  apply update_geometry_written. intros g0. apply set_x_moved, snap_on_grid.
Qed.

Lemma compact_row_x_written gt grid bounds idx margin st row :
  Forall2 (grid_written grid gt) (fst st) (fst (compact_row_x grid bounds idx margin st row)).
Proof.
  unfold compact_row_x. destruct (Nat.ltb _ 2); [apply written_refl|]. cbv zeta.
  match goal with
  | |- context [fold_left (compact_col_step ?g ?b ?i ?m) ?l ?s0] =>
      pose proof (fold_rel _ (fun s => fst (fst s)) _ (written_refl _ _) (written_trans _ _)
                    (compact_col_step_written gt g b i m) l s0) as Hw;
      destruct (fold_left (compact_col_step g b i m) l s0) as [[cs2 m2] x2]
  end.
  exact Hw.
Qed.

Lemma compact_written gt d margin d' n :
  compact_diagram d margin = Some (d', n) -> diagram_on_grid (grid_size d) gt d d'.
Proof.
  unfold compact_diagram. intros H.
  destruct (get_all_vertex_bounds d) as [bounds|]; [|discriminate].
  destruct (Nat.ltb _ 2); [injection H as <- _; apply diagram_on_grid_refl|].
  cbv zeta in H.
  destruct (group_into_rows _ _ _) as [rows|]; [|discriminate].
  destruct (sort_ids _ _) as [|first rest]; [discriminate|].
  match type of H with
  | context [fold_left (compact_row ?g ?b ?i ?m) rows ?s0] =>
      pose proof (fold_rel _ (fun s => fst (fst s)) _ (written_refl _ _) (written_trans _ _)
                    (compact_row_written gt g b i m) rows s0) as H1;
      destruct (fold_left (compact_row g b i m) rows s0) as [[cs1 mv1] y1]
  end.
  cbn beta iota in H. cbn [fst] in H1.
  destruct (get_all_vertex_bounds (set_cells d cs1)) as [b2|]; [|discriminate].
  match type of H with
  | context [fold_left (compact_row_x ?g ?b ?i ?m) rows ?s0] =>
      pose proof (fold_rel _ fst _ (written_refl _ _) (written_trans _ _)
                    (compact_row_x_written gt g b i m) rows s0) as H2;
      destruct (fold_left (compact_row_x g b i m) rows s0) as [cs2 mv2]
  end.
  cbn beta iota in H. cbn [fst] in H2.
  destruct (align_rank_baselines (set_cells d cs2) 20) as [[d3 a1]|] eqn:E3; [|discriminate].
  destruct (align_column_centers d3 20) as [[d4 a2]|] eqn:E4; [|discriminate].
  injection H as <- _.
  pose proof (align_rank_written gt _ _ _ _ E3) as D3.
  pose proof (align_column_written gt _ _ _ _ E4) as D4.
  rewrite (proj1 D3) in D4. cbn [grid_size set_cells] in D3, D4.
  apply (diagram_on_grid_trans _ _ _ (set_cells d cs2)); [|exact (diagram_on_grid_trans _ _ _ _ _ D3 D4)].
  apply written_diagram; [reflexivity|]. exact (written_trans _ _ _ _ _ H1 H2).
Qed.

(** *** [relayout_diagram] *)

Lemma relayout_grid_step_written gt cfg grid cols st ik :
  Forall2 (grid_written grid gt) (fst st) (fst (relayout_grid_step cfg grid cols st ik)).
Proof.
  destruct st as [cs mv]. destruct ik as [i [cid k]]. unfold relayout_grid_step.
  cbn beta iota zeta.
  destruct (nth_error cs k) as [c|] eqn:Ec; [|apply written_refl].
  destruct (MxCell.geometry c) as [g|] eqn:Eg; [|apply written_refl].
  apply (set_nth_written _ _ _ _ _ g _ Ec Eg).
  split; [right; apply snap_on_grid|]. split; [right; apply snap_on_grid | reflexivity].
Qed.

Lemma relayout_apply_step_written gt grid final st ck :
  Forall2 (grid_written grid gt) (fst st) (fst (relayout_apply_step grid final st ck)).
Proof.
  destruct st as [cs mv]. destruct ck as [cid k]. unfold relayout_apply_step.
  cbn beta iota zeta.
  destruct (nth_error cs k) as [c|] eqn:Ec; [|apply written_refl].
  destruct (MxCell.geometry c) as [g|] eqn:Eg; [|apply written_refl].
  apply (set_nth_written _ _ _ _ _ g _ Ec Eg).
  split; [right; apply snap_on_grid|]. split; [right; apply snap_on_grid | reflexivity].
Qed.

Lemma relayout_written steps d cfg grid route em d' moved :
  relayout_diagram steps d cfg grid route em = Some (d', moved) ->
  diagram_on_grid grid (grid_size d) d d'.
Proof.
  unfold relayout_diagram, relayout_grid. cbv zeta. intros H.
  pose proof (fun cols => fold_rel _ fst _ (written_refl grid (grid_size d)) (written_trans _ _)
                (relayout_grid_step_written (grid_size d) cfg grid cols)) as Hg.
  pose proof (fun final => fold_rel _ fst _ (written_refl grid (grid_size d)) (written_trans _ _)
                (relayout_apply_step_written (grid_size d) grid final)) as Ha.
  destruct (cell_index movable (cells d)) as [|v vs];
    [injection H as <- _; apply diagram_on_grid_refl|].
  assert (Hgl : forall l cols cs m,
             fold_left (relayout_grid_step cfg grid cols) l (cells d, []) = (cs, m) ->
             diagram_on_grid grid (grid_size d) d (set_cells d cs)).
  { intros l cols cs m E. apply written_diagram; [reflexivity|].
    pose proof (Hg cols l (cells d, [])) as Hw. rewrite E in Hw. exact Hw. }
  destruct (relayout_edges (cells d)) as [|e es].
  { destruct (fold_left _ _ _) as [cs m] eqn:E. injection H as <- _. exact (Hgl _ _ _ _ E). }
  destruct (filter _ _) as [|ve ves].
  { destruct (fold_left _ _ _) as [cs m] eqn:E. injection H as <- _. exact (Hgl _ _ _ _ E). }
  match type of H with
  | context [fold_left (relayout_apply_step grid ?fin) ?l ?s0] =>
      pose proof (Ha fin l s0) as Hw;
      destruct (fold_left (relayout_apply_step grid fin) l s0) as [cs m]
  end.
  cbn beta iota in H. cbn [fst] in Hw.
  assert (D1 : diagram_on_grid grid (grid_size d) d (set_cells d cs))
    by (apply written_diagram; [reflexivity | exact Hw]).
  destruct route.
  - destruct (route_edges_around_obstacles (set_cells d cs) em) as [[d2 k]|] eqn:Er;
      [|discriminate].
    injection H as <- _.
    exact (diagram_on_grid_trans _ _ _ _ _ D1 (route_written grid _ _ _ _ Er)).
  - injection H as <- _. exact D1.
Qed.

(** *** Cells appended by the builders *)

Lemma appends_refl P st : appends P st st.
Proof.
  split; [reflexivity|]. exists []. rewrite app_nil_r. split; [reflexivity | constructor].
Qed.

Lemma appends_trans P a b c : appends P a b -> appends P b c -> appends P a c.
Proof.
  intros [G1 [n1 [E1 F1]]] [G2 [n2 [E2 F2]]]. split; [congruence|].
  exists (n1 ++ n2). rewrite E2, E1, app_assoc. split; [reflexivity|].
  apply Forall_app. split; assumption.
Qed.

Lemma take_id_fst st cid : fst (snd (take_id st cid)) = fst st.
Proof.
  destruct st as [d n]. unfold take_id, next_id.
  destruct cid as [s|]; [destruct (String.eqb s EmptyString)|]; reflexivity.
Qed.

Lemma append_after_take P st cid c :
  P c -> appends P st (append_cell (snd (take_id st cid)) c).
Proof.
  intros Hc. pose proof (take_id_fst st cid) as Hf.
  destruct (snd (take_id st cid)) as [d n]. cbn [fst] in Hf. subst d.
  split; [reflexivity|]. exists [c]. split; [reflexivity|]. constructor; [exact Hc | constructor].
Qed.

Lemma add_vertex_appends gp gt st value x y w h parent cid :
  on_grid gp x -> on_grid gp y ->
  appends (placed_on_grid gp gt) st (snd (add_vertex st value x y w h parent cid)).
Proof.
  intros Hx Hy. unfold add_vertex.
  pose proof (append_after_take (placed_on_grid gp gt) st cid) as A.
  destruct (take_id st cid) as [c st']. cbn [snd] in *. apply A.
  unfold placed_on_grid. cbn. split; [exact Hx|]. split; [exact Hy | constructor].
Qed.

Lemma add_edge_appends gp gt st s t v p cid :
  appends (placed_on_grid gp gt) st (snd (add_edge st s t v p cid None)).
Proof.
  unfold add_edge.
  pose proof (append_after_take (placed_on_grid gp gt) st cid) as A.
  destruct (take_id st cid) as [c st']. cbn [snd] in *. apply A.
  unfold placed_on_grid. cbn. split; [apply on_grid_zero|].
  split; [apply on_grid_zero | constructor].
Qed.

Lemma appends_diagram gp gt st st' :
  appends (placed_on_grid gp gt) st st' -> diagram_on_grid gp gt (fst st) (fst st').
Proof.
  intros [G [n [E F]]]. split; [exact G|]. exists (cells (fst st)), n.
  split; [exact E|]. split; [apply written_refl | exact F].
Qed.

Lemma place_vertices_appends gp gt pos cfg labels st :
  (forall i, on_grid gp (fst (pos i)) /\ on_grid gp (snd (pos i))) ->
  appends (placed_on_grid gp gt) st (snd (place_vertices pos cfg labels st)).
Proof.
  intros Hp. unfold place_vertices.
  refine (fold_rel _ snd _ (appends_refl _) (appends_trans _) _ _ ([], st)).
  intros [ids st1] [i label]. cbn beta iota.
  pose proof (Hp i) as [Hx Hy]. destruct (pos i) as [x y]. cbn [fst snd] in Hx, Hy.
  pose proof (add_vertex_appends gp gt st1 label x y (LayoutConfig.default_width cfg)
                (LayoutConfig.default_height cfg) "1" None Hx Hy) as A.
  destruct (add_vertex _ _ _ _ _ _ _ _) as [cid st2]. exact A.
Qed.

Lemma connect_chain_appends gp gt st ids labels :
  appends (placed_on_grid gp gt) st (snd (connect_chain st ids labels)).
Proof.
  unfold connect_chain.
  refine (fold_rel _ snd _ (appends_refl _) (appends_trans _) _ _ ([], st)).
  intros [eids st1] i. cbn beta iota.
  pose proof (add_edge_appends gp gt st1 (nth i ids EmptyString) (nth (S i) ids EmptyString)
                (chain_label labels i) "1" None) as A.
  destruct (add_edge _ _ _ _ _ _ _) as [eid st2]. exact A.
Qed.

Lemma sugiyama_vertex_appends gt grid acc ln :
  appends (placed_on_grid grid gt) (snd acc) (snd (sugiyama_vertex grid acc ln)).
Proof.
  destruct acc as [m st]. destruct ln as [label node]. unfold sugiyama_vertex. cbn beta iota.
  destruct (LNode.is_virtual node); [apply appends_refl|].
  pose proof (add_vertex_appends grid gt st label (snap_to_grid (LNode.x node) grid)
                (snap_to_grid (LNode.y node) grid) (LNode.width node) (LNode.height node)
                "1" None (snap_on_grid _ _) (snap_on_grid _ _)) as A.
  destruct (add_vertex _ _ _ _ _ _ _ _) as [cid st2]. exact A.
Qed.

Lemma sugiyama_edge_appends gp gt l2i st e :
  appends (placed_on_grid gp gt) st (sugiyama_edge l2i st e).
Proof.
  destruct e as [[s t] lbl]. unfold sugiyama_edge. cbn beta iota.
  destruct (assoc s l2i), (assoc t l2i); try apply appends_refl. apply add_edge_appends.
Qed.

Lemma sugiyama_written steps st edges grid route em m st' :
  layout_sugiyama steps st edges grid route em = Some (m, st') ->
  diagram_on_grid grid (grid_size (fst st)) (fst st) (fst st').
Proof.
  unfold layout_sugiyama. intros H.
  pose proof (fold_rel _ snd _ (appends_refl _) (appends_trans _)
                (sugiyama_vertex_appends (grid_size (fst st)) grid) (steps edges) ([], st)) as A1.
  destruct (fold_left (sugiyama_vertex grid) (steps edges) ([], st)) as [l2i st1].
  cbn beta iota zeta in H. cbn [snd] in A1.
  pose proof (fold_rel _ (fun s => s) _ (appends_refl _) (appends_trans _)
                (sugiyama_edge_appends grid (grid_size (fst st)) l2i) edges st1) as A2.
  pose proof (appends_trans _ _ _ _ A1 A2) as A.
  destruct (fold_left (sugiyama_edge l2i) edges st1) as [d2 n2].
  destruct route.
  - destruct (route_edges_around_obstacles (fst (d2, n2)) em) as [[d3 k]|] eqn:Er;
      [|discriminate].
    injection H as <- <-. cbn [fst] in *.
    apply (diagram_on_grid_trans _ _ _ d2); [exact (appends_diagram _ _ _ _ A)|].
    pose proof (route_written grid _ _ _ _ Er) as R. pose proof (proj1 A) as GA.
    cbn [fst] in GA. rewrite GA in R. exact R.
  - injection H as <- <-. exact (appends_diagram _ _ _ _ A).
Qed.

Lemma tree_level_appends gt cfg dir max_lvl off lvl acc il :
  appends (placed_on_grid (LayoutConfig.grid_size cfg) gt) (snd acc)
    (snd (tree_level cfg dir max_lvl off lvl acc il)).
Proof.
  destruct acc as [m st]. destruct il as [i lbl]. unfold tree_level. cbn beta iota zeta.
  destruct (String.eqb dir "TB" || String.eqb dir "BT");
    [destruct (String.eqb dir "BT") | destruct (String.eqb dir "RL")];
  cbn beta iota zeta;
  match goal with
  | |- context [add_vertex ?s ?l ?x ?y ?w ?h ?p ?c] =>
      pose proof (add_vertex_appends (LayoutConfig.grid_size cfg) gt s l x y w h p c
                    (snap_on_grid _ _) (snap_on_grid _ _)) as A;
      destruct (add_vertex s l x y w h p c) as [cid st']; exact A
  end.
Qed.

Lemma tree_place_appends gt cfg dir ml mw acc e :
  appends (placed_on_grid (LayoutConfig.grid_size cfg) gt) (snd acc)
    (snd (tree_place cfg dir ml mw acc e)).
Proof.
  destruct e as [lvl labels_at]. unfold tree_place. cbn beta iota zeta.
  apply (fold_rel _ snd _ (appends_refl _) (appends_trans _)).
  intros a b. apply tree_level_appends.
Qed.

Lemma tree_edge_appends gp gt l2i st e :
  appends (placed_on_grid gp gt) st (tree_edge l2i st e).
Proof.
  destruct e as [p children]. unfold tree_edge. cbn beta iota.
  apply (fold_rel _ (fun s => s) _ (appends_refl _) (appends_trans _)).
  intros a b. destruct (assoc p l2i), (assoc b l2i); try apply appends_refl.
  apply add_edge_appends.
Qed.

Lemma tree_written gt levels st adj config dir :
  diagram_on_grid (LayoutConfig.grid_size (cfg_of config)) gt (fst st)
    (fst (snd (layout_tree levels st adj config dir))).
Proof.
  apply appends_diagram. unfold layout_tree. cbv zeta.
  match goal with
  | |- context [fold_left (tree_place ?c ?dr ?ml ?mw) ?l ?a0] =>
      pose proof (fold_rel _ snd _ (appends_refl _) (appends_trans _)
                    (tree_place_appends gt c dr ml mw) l a0) as A1;
      destruct (fold_left (tree_place c dr ml mw) l a0) as [l2i st1]
  end.
  cbn beta iota. cbn [snd] in *.
  refine (appends_trans _ _ _ _ A1 _).
  exact (fold_rel _ (fun s => s) _ (appends_refl _) (appends_trans _)
           (tree_edge_appends _ gt l2i) adj st1).
Qed.

Lemma layout_horizontal_written gt st labels config y :
  diagram_on_grid (LayoutConfig.grid_size (cfg_of config)) gt (fst st)
    (fst (snd (layout_horizontal st labels config y))).
Proof.
  apply appends_diagram. unfold layout_horizontal. cbv zeta.
  apply place_vertices_appends. intros i. cbn [fst snd]. split; apply snap_on_grid.
Qed.

Lemma layout_vertical_written gt st labels config x :
  diagram_on_grid (LayoutConfig.grid_size (cfg_of config)) gt (fst st)
    (fst (snd (layout_vertical st labels config x))).
Proof.
  apply appends_diagram. unfold layout_vertical. cbv zeta.
  apply place_vertices_appends. intros i. cbn [fst snd]. split; apply snap_on_grid.
Qed.

Lemma layout_grid_written gt st labels columns config r :
  layout_grid st labels columns config = Some r ->
  diagram_on_grid (LayoutConfig.grid_size (cfg_of config)) gt (fst st) (fst (snd r)).
Proof.
  unfold layout_grid. cbv zeta. intros H.
  destruct labels as [|l0 ls]; [injection H as <-; apply diagram_on_grid_refl|].
  destruct (Z.eqb columns 0); [discriminate|]. injection H as <-.
  apply appends_diagram, place_vertices_appends. intros i. cbn [fst snd].
  split; apply snap_on_grid.
Qed.

Lemma connect_chain_written gp gt st ids labels :
  diagram_on_grid gp gt (fst st) (fst (snd (connect_chain st ids labels))).
Proof. apply appends_diagram, connect_chain_appends. Qed.

(** * Claims *)

Import Examples.

(** ** C1 *)

(** C1, counterexample: in [_remove_overlaps] the loop leaves through
    [break] on two nodes whose padded boxes do not overlap, and the final
    snap to the grid (6 to 10, 41 to 40) makes them overlap. *)
Lemma remove_overlaps_snap_reintroduces_overlap :
  overlap_loop 50 20 [c1_a; c1_b] = ([c1_a; c1_b], true) /\
  padded_overlap c1_a c1_b 20 = false /\
  padded_overlap (nth 0 (remove_overlaps 50 20 10 [c1_a; c1_b]) dummy_node)
                 (nth 1 (remove_overlaps 50 20 10 [c1_a; c1_b]) dummy_node) 20 = true.
Proof. vm_compute. auto. Qed.

(** C1 (amended): when the loop of [_remove_overlaps] leaves through
    [break], no two of the node positions it reached (before the final snap)
    have overlapping padded boxes; when the loop of [resolve_overlaps]
    leaves through [break], no two vertex bounds of the resulting diagram
    intersect with the margin (that loop snaps at every move, so there is no
    later snap). *)
Theorem overlap_loops_break_without_overlap :
  (forall iters p ns ns',
     overlap_loop iters p ns = (ns', true) ->
     forall i j, (i < j < List.length ns')%nat ->
       padded_overlap (nth i ns' dummy_node) (nth j ns' dummy_node) p = false) /\
  (forall iters margin d moved d' moved',
     resolve_loop iters margin d moved = Some (d', moved', true) ->
     exists bs, get_all_vertex_bounds d' = Some bs /\
       forall i j, (i < j < List.length bs)%nat ->
         Bounds.intersects (snd (nth i bs (EmptyString, dummy_bounds)))
                           (snd (nth j bs (EmptyString, dummy_bounds))) margin = false).
Proof.
  split.
  - intros iters p ns ns' H.
    apply overlap_loop_break, overlap_scan_unmoved in H. apply H.
  - exact resolve_loop_break.
Qed.

Lemma overlap_loops_break_without_overlap_witness :
  padded_overlap c1_a c1_b 20 = false /\
  exists bs, get_all_vertex_bounds (loop_diagram (resolve_loop 50 10 d_two 0)) = Some bs /\
    Bounds.intersects (snd (nth 0 bs (EmptyString, dummy_bounds)))
                      (snd (nth 1 bs (EmptyString, dummy_bounds))) 10 = false.
Proof.
  split.
  - refine (proj1 overlap_loops_break_without_overlap 50%nat 20 [c1_a; c1_b] [c1_a; c1_b] _ 0%nat 1%nat _);
      [vm_compute; reflexivity | simpl; lia].
  - destruct (proj2 overlap_loops_break_without_overlap 50%nat 10 d_two 0%Z
                (loop_diagram (resolve_loop 50 10 d_two 0))
                1%Z) as [bs [Hb Hall]];
      [vm_compute; reflexivity|].
    exists bs. split; [exact Hb|]. apply Hall.
    assert (Hl : List.length bs = 2%nat) by (vm_compute in Hb; inversion Hb; reflexivity).
    rewrite Hl. lia.
Defined.

(** ** C5 *)

(** C5, failing input: [_remove_overlaps] with padding 20.  (1) The nodes
    [c5_a] (0,0,10,10) and [c5_b] (5,5,10,10) have padded overlaps 25 on
    both axes; the strict test [overlap_x < overlap_y] sends this tie to y,
    not x, and they are pushed apart along y by 13.5.  (2) The nodes
    [c5_wide] (0,0,100,100) and [c5_narrow] (10,0,10,100) overlap less on x;
    the direction is chosen from the top-left corners ([a.x < b.x]), so the
    wide node moves left, toward the narrow node's centre (15), although
    its own centre (50) is right of it. *)
Lemma remove_overlaps_tie_goes_to_y :
  compute_overlap c5_a c5_b 20 = (25, 25) /\
  match push_pair c5_a c5_b 20 with
  | Some (a', b') =>
      Qeq_bool (LNode.x a') (LNode.x c5_a) && Qeq_bool (LNode.x b') (LNode.x c5_b)
      && Qeq_bool (LNode.y a') (-27 # 2) && Qeq_bool (LNode.y b') (37 # 2)
  | None => false
  end = true /\
  match push_pair c5_wide c5_narrow 20 with
  | Some (a', b') =>
      Qltb (LNode.x a') (LNode.x c5_wide)
      && Qltb (LNode.x c5_narrow + LNode.width c5_narrow / 2)
              (LNode.x c5_wide + LNode.width c5_wide / 2)
  | None => false
  end = true.
Proof. vm_compute. auto. Qed.

(** ** C10 *)

(** C10: for a diagram with unique cell ids, [resolve_overlaps] keeps the
    grid size and the list of cells (same length, same order); each cell is
    either unchanged or a vertex whose geometry differs only in its [x] and
    [y] (so no width or height changes); and a vertex that at no iteration
    belongs to a pair of bounds intersecting with the margin keeps its cell,
    and so its position, exactly. *)
Theorem resolve_overlaps_moves_only_vertex_positions
    (d : Diagram) (margin : Q) (max_iterations : nat) (d' : Diagram) (moved : Z) :
  NoDup (map MxCell.id (cells d)) ->
  resolve_overlaps d margin max_iterations = Some (d', moved) ->
  grid_size d' = grid_size d /\
  Forall2 xy_moved (cells d) (cells d') /\
  forall v n c,
    free_throughout v max_iterations margin d 0 = true ->
    nth_error (cells d) n = Some c -> MxCell.id c = v ->
    nth_error (cells d') n = Some c.
Proof.
  intros Hnd H. unfold resolve_overlaps in H.
  destruct (resolve_loop max_iterations margin d 0) as [[[d1 n1] fl]|] eqn:E;
    [|discriminate].
  inversion H; subst d1 n1.
  destruct (resolve_loop_frame _ _ _ _ _ _ _ Hnd E) as [Hg Hf].
  split; [exact Hg|]. split; [exact Hf|].
  intros v n c Hfree Hc Hid. exact (resolve_loop_keeps _ _ _ _ _ _ _ _ Hfree E n c Hc Hid).
Qed.

Lemma resolve_overlaps_moves_only_vertex_positions_witness :
  resolve_overlaps d_three 10 50 = Some (loop_diagram (resolve_loop 50 10 d_three 0), 1%Z) /\
  Forall2 xy_moved (cells d_three) (cells (loop_diagram (resolve_loop 50 10 d_three 0))) /\
  nth_error (cells (loop_diagram (resolve_loop 50 10 d_three 0))) 2 = Some (vtx "4" 600 600).
Proof.
  assert (Hnd : NoDup (map MxCell.id (cells d_three))).
  { simpl. repeat constructor; simpl; intuition discriminate. }
  assert (Hr : resolve_overlaps d_three 10 50
               = Some (loop_diagram (resolve_loop 50 10 d_three 0), 1%Z))
    by (vm_compute; reflexivity).
  destruct (resolve_overlaps_moves_only_vertex_positions d_three 10 50 _ _ Hnd Hr)
    as [_ [Hf Hk]].
  split; [exact Hr|]. split; [exact Hf|].
  apply (Hk "4"%string); [vm_compute; reflexivity | reflexivity | reflexivity].
Defined.

(** ** C2 *)

(** C2, counterexample: routing from [(0,80,40,40)] to [(400,80,40,40)]
    around the obstacle [(180,64,100,100)] with margin 15 and grid 10 gives
    the waypoints (160,100), (160,50), (420,50); the segment from (160,50)
    to (420,50) crosses the obstacle's box expanded by the margin
    ([165..295] x [49..179]). *)
Lemma router_segment_crosses_margin_box :
  route_orthogonal_astar c2_src c2_tgt [c2_obs] 15 10
  = Some [Point.mk 160 100; Point.mk 160 50; Point.mk 420 50] /\
  any_obstacle_on_segment 160 50 420 50 [c2_obs] 15 = true.
Proof. split; vm_compute; reflexivity. Qed.

(** C2 (amended): a route returned by [_route_orthogonal_astar] is empty
    (the straight line is clear, or both ends map to one grid node), or is
    the fallback route, about which nothing is checked, or comes from a grid
    path found by the search: each step of that path goes to a 4-neighbour
    on the candidate grid along a segment that does not touch any obstacle
    box expanded by half the margin.  The returned waypoints are that path
    simplified and snapped to the grid; they are not checked against the
    box expanded by the full margin. *)
Theorem route_astar_moves_clear_half_margin
    (src tgt : Bounds.t) (obstacles : list Bounds.t) (margin : Q) (grid_snap : Z)
    (wps : list Point.t) :
  route_orthogonal_astar src tgt obstacles margin grid_snap = Some wps ->
  wps = [] \/ wps = fallback_route src tgt obstacles margin grid_snap \/
  exists nodes : list GNode,
    let xs := candidate_xs src tgt obstacles margin grid_snap in
    let ys := candidate_ys src tgt obstacles margin grid_snap in
    wps = map (fun w => Point.mk (snap_to_grid (fst w) grid_snap)
                                 (snap_to_grid (snd w) grid_snap))
              (simplify_path (rev (map (coord xs ys) nodes))) /\
    forall k a b, nth_error nodes k = Some b -> nth_error nodes (S k) = Some a ->
      move_ok xs ys obstacles margin a b = true.
Proof.
  exact (route_astar_shape src tgt obstacles margin grid_snap wps).
Qed.

Lemma route_astar_moves_clear_half_margin_witness :
  let wps := [Point.mk 160 100; Point.mk 160 50; Point.mk 420 50] in
  wps = [] \/ wps = fallback_route c2_src c2_tgt [c2_obs] 15 10 \/
  exists nodes : list GNode,
    let xs := candidate_xs c2_src c2_tgt [c2_obs] 15 10 in
    let ys := candidate_ys c2_src c2_tgt [c2_obs] 15 10 in
    wps = map (fun w => Point.mk (snap_to_grid (fst w) 10) (snap_to_grid (snd w) 10))
              (simplify_path (rev (map (coord xs ys) nodes))) /\
    forall k a b, nth_error nodes k = Some b -> nth_error nodes (S k) = Some a ->
      move_ok xs ys [c2_obs] 15 a b = true.
Proof.
  apply (route_astar_moves_clear_half_margin c2_src c2_tgt [c2_obs] 15 10).
  vm_compute. reflexivity.
Defined.

(** ** C6 *)

(** C6, failing input: with the inputs [c6_src], [c6_tgt], [c6_obs],
    margin 10 and grid 10, the grid path runs on y = 104.8, steps by 0.4 to
    y = 105.2 (a step the bend test of [_simplify_path] does not see) and
    goes on; the kept bends (190,104.8) and (490,105.2) become consecutive
    waypoints and snap to (190,100) and (490,110): a diagonal segment. *)
Lemma router_emits_diagonal_segment :
  route_orthogonal_astar c6_src c6_tgt c6_obs 10 10
  = Some [Point.mk 50 100; Point.mk 50 70; Point.mk 190 70; Point.mk 190 100;
          Point.mk 490 110; Point.mk 490 140; Point.mk 700 140].
Proof. vm_compute. reflexivity. Qed.

(** ** C9 *)

(** C9: in a diagram whose vertex bounds are [bounds], a connector cell
    (at index [i]) with a source and a target id, one of which has no
    bounds, is left as it is by the loop body of the router and by the
    phases 1-4 of the optimizer; after [route_edges_around_obstacles] and
    after [optimize_edge_paths] the cell at index [i] is still exactly
    this cell (its geometry and waypoints unchanged).  Every other cell is
    still processed: the router passes each cell through its loop body,
    and the optimizer (unless there are no bounds, when it returns the
    diagram unchanged) passes each cell through the body of phases 1-4 and
    then runs phase 5 over all the edge cells of that result. *)
Theorem edges_without_bounds_left_unchanged d bounds margin thr nudge grid i c :
  get_all_vertex_bounds d = Some bounds ->
  nth_error (cells d) i = Some c -> MxCell.edge c = true ->
  ends_unbounded bounds c = true ->
  route_cell bounds margin (grid_size d) c = Some (c, false) /\
  optimize_cell bounds margin thr grid c = Some (c, false) /\
  (forall d' n, route_edges_around_obstacles d margin = Some (d', n) ->
     nth_error (cells d') i = Some c /\
     forall j cj, nth_error (cells d) j = Some cj ->
       exists cj' b, route_cell bounds margin (grid_size d) cj = Some (cj', b) /\
                     nth_error (cells d') j = Some cj') /\
  (forall d' n, optimize_edge_paths d margin thr nudge = Some (d', n) ->
     let G := if Z.eqb (grid_size d) 0 then 10%Z else grid_size d in
     nth_error (cells d') i = Some c /\
     ((bounds = [] /\ d' = d) \/
      exists cs1 m1, optimize_cells bounds margin thr G (cells d) = Some (cs1, m1) /\
        (forall j cj, nth_error (cells d) j = Some cj ->
           exists cj' b, (if is_edge_cell cj then optimize_cell bounds margin thr G cj
                          else Some (cj, false)) = Some (cj', b) /\ nth_error cs1 j = Some cj') /\
        cells d' = write_back cs1
                     (fst (separate_parallel_edges (filter is_edge_cell cs1) bounds nudge G)))).
Proof.
  intros Hb Hi He Hu.
  split; [exact (route_cell_unbounded _ _ _ _ He Hu)|].
  split; [exact (optimize_cell_unbounded _ _ _ _ _ Hu)|].
  split.
  - intros d' n H. split; [exact (route_keeps_unbounded _ _ _ _ _ _ _ Hb Hi He Hu H)|].
    exact (route_processes_all _ _ _ _ _ Hb H).
  - intros d' n H G. split; [exact (optimize_keeps_unbounded _ _ _ _ _ _ _ _ _ Hb Hi Hu H)|].
    exact (optimize_processes_all _ _ _ _ _ _ _ Hb H).
Qed.

Lemma edges_without_bounds_left_unchanged_witness :
  get_all_vertex_bounds c9_diagram = Some c9_bounds /\
  nth_error (cells c9_diagram) 3 = Some (edge "F" "S" "X" [Point.mk 100 3]) /\
  route_cell c9_bounds 15 10 (edge "F" "S" "X" [Point.mk 100 3])
  = Some (edge "F" "S" "X" [Point.mk 100 3], false).
Proof.
  assert (Hb : get_all_vertex_bounds c9_diagram = Some c9_bounds) by (vm_compute; reflexivity).
  assert (Hi : nth_error (cells c9_diagram) 3 = Some (edge "F" "S" "X" [Point.mk 100 3]))
    by reflexivity.
  split; [exact Hb|]. split; [exact Hi|].
  exact (proj1 (edges_without_bounds_left_unchanged c9_diagram c9_bounds 15 8 10 10 3 _
                  Hb Hi eq_refl (eq_refl true))).
Defined.

(** ** C4 *)

(** C4, failing input: with margin 15, threshold 8 and spacing 10, the
    first run of [optimize_edge_paths] on [c4_diagram] straightens the
    waypoint (100,3) to (100,0) and counts one edge; the second run, on the
    result, finds (100,0) collinear with the box centres (0,0) and (200,0),
    drops it and again counts one edge: the second run is not the
    identity. *)
Lemma optimizer_second_run_changes_edge :
  optimize_edge_paths c4_diagram 15 8 10 = Some (c4_after_first, 1%Z) /\
  optimize_edge_paths c4_after_first 15 8 10 = Some (c4_after_second, 1%Z) /\
  c4_after_second <> c4_after_first.
Proof.
  split; [vm_compute; reflexivity|]. split; [vm_compute; reflexivity|].
  intros H. injection H. discriminate.
Qed.

(** ** C3 *)

(** C3, failing input: the edge list [[("A", "A", "")]] (a self-loop,
    which the [build_dag] validation lets through).  [_find_back_edges]
    records (A, A) as a back-edge; reversing it gives the same edge A -> A,
    so the effective graph has a cycle; the breadth-first loop of
    [_assign_ranks_longest_path] then raises the rank of A by one and
    queues A again forever: for every amount of fuel the ranking does not
    finish. *)
Lemma self_loop_ranking_diverges :
  (collect_graph [("A", "A", "")] = (["A"], [("A", ["A"])], [("A", ["A"])]) /\
   find_back_edges 3 ["A"] [("A", ["A"])] = Some [("A", "A")] /\
   effective_graph [("A", ["A"])] [("A", "A")] = ([("A", ["A"])], [("A", ["A"])]) /\
   forall fuel, sugiyama_ranks fuel [("A", "A", "")] = OutOfFuel)%string.
Proof.
  split; [reflexivity|]. split; [reflexivity|]. split; [reflexivity|].
  intros fuel. destruct fuel as [|[|[|f]]]; [reflexivity..|].
  unfold sugiyama_ranks. simpl.
  replace (adj_append [] "A" "A")%string with [("A", ["A"])]%string by reflexivity.
  unfold assign_ranks_longest_path. simpl. rewrite bfs_self_loop. reflexivity.
Qed.

(** ** C8 *)

(** C8, failing input: [_assign_coordinates] with the default
    configuration (node spacing 60, start (50, 80)) on [c8_by_rank] and
    [c8_nodes].  In direction LR, rank 1 spans y = 80 .. 260 (extent
    60 + 60 + 60 = 180) and rank 0 (extent 60) is not centered against it:
    A gets y = 80, the start, and not 80 + (180 - 60) / 2 = 140.  In
    direction TB, the same ranks are centered: A gets x = 50 + (300 - 120) / 2. *)
Lemma lr_rank_not_centered :
  let r := assign_coordinates default_config c8_by_rank c8_nodes LR in
  LNode.y (node_of r "A") == 80 /\ LNode.y (node_of r "B") == 80 /\
  LNode.y (node_of r "C") == 200 /\
  ~ (LNode.y (node_of r "A") == start_y default_config + (180 - 60) / 2) /\
  LNode.x (node_of (assign_coordinates default_config c8_by_rank c8_nodes TB) "A")
  == start_x default_config + (300 - 120) / 2.
Proof.
  vm_compute. split; [reflexivity|]. split; [reflexivity|]. split; [reflexivity|].
  split; [discriminate | reflexivity].
Qed.

(** Claim C7 (counterexample): [compute_orthogonal_waypoints] returns the
    midpoint between the box centres unsnapped, and [distribute_evenly]
    returns unsnapped positions.  For a source (0,0,100,50), a target
    (301,200,100,50), no obstacles and a margin of 20, both waypoints have
    x = 200.5; spreading boxes of sizes 10, 20 and 30 over [0, 205] puts
    the middle one at 82.5.  Neither is a multiple of the default grid
    size 10. *)
Lemma orthogonal_waypoints_off_grid :
  match compute_orthogonal_waypoints c7_src c7_tgt [] 20 with
  | [p1; p2] => Point.x p1 == 401 # 2 /\ Point.y p1 == 25 /\
                Point.x p2 == 401 # 2 /\ Point.y p2 == 225
  | _ => False
  end /\
  ~ on_grid 10 (401 # 2) /\
  nth 1 (distribute_evenly [0; 50; 100] [10; 20; 30] 0 205) 0 == 165 # 2 /\
  ~ on_grid 10 (165 # 2).
Proof.
  split; [vm_compute; repeat split; reflexivity|].
  split; [intros [k Hk]; unfold Qeq in Hk; simpl in Hk; lia|].
  split; [vm_compute; reflexivity|].
  intros [k Hk]. unfold Qeq in Hk. simpl in Hk. lia.
Qed.

(** Claim C7 (amended): every entry point that snaps writes its
    coordinates on a grid.  The routes of [_route_orthogonal_astar] and the
    nodes of [_remove_overlaps] lie on the grid they are given.  For
    [route_edges_around_obstacles], [resolve_overlaps], [compact_diagram],
    [center_diagram_on_page], [ensure_page_margins], [align_rank_baselines]
    and [align_column_centers], each cell keeps its [x], its [y] and its
    waypoints or gets them on the diagram's grid; [optimize_edge_paths]
    does the same with the waypoint grid 10 when the diagram's grid size is
    0.  [relayout_diagram] and [layout_sugiyama] put vertex positions on the
    grid they are given, [layout_tree] and
    [layout_horizontal]/[layout_vertical]/[layout_grid] on the configured
    grid, and add cells ([layout_sugiyama], the layouts, [connect_chain])
    only with on-grid positions and waypoints. *)
Theorem engine_writes_on_grid :
  (forall src tgt obstacles margin grid wps,
      route_orthogonal_astar src tgt obstacles margin grid = Some wps ->
      points_on_grid grid wps) /\
  (forall max_iter padding grid ns nd,
      In nd (remove_overlaps max_iter padding grid ns) ->
      on_grid grid (LNode.x nd) /\ on_grid grid (LNode.y nd)) /\
  (forall d margin d' n,
      route_edges_around_obstacles d margin = Some (d', n) ->
      diagram_on_grid (grid_size d) (grid_size d) d d') /\
  (forall d margin max_iterations d' n,
      resolve_overlaps d margin max_iterations = Some (d', n) ->
      diagram_on_grid (grid_size d) (grid_size d) d d') /\
  (forall d margin thr nudge d' n,
      optimize_edge_paths d margin thr nudge = Some (d', n) ->
      diagram_on_grid (grid_size d) (if Z.eqb (grid_size d) 0 then 10%Z else grid_size d) d d') /\
  (forall d margin d' n,
      compact_diagram d margin = Some (d', n) ->
      diagram_on_grid (grid_size d) (grid_size d) d d') /\
  (forall d page pw ph margin d' n,
      center_diagram_on_page d page pw ph margin = Some (d', n) ->
      diagram_on_grid (grid_size d) (grid_size d) d d') /\
  (forall d margin d' n,
      ensure_page_margins d margin = Some (d', n) ->
      diagram_on_grid (grid_size d) (grid_size d) d d') /\
  (forall d thr d' n,
      align_rank_baselines d thr = Some (d', n) ->
      diagram_on_grid (grid_size d) (grid_size d) d d') /\
  (forall d thr d' n,
      align_column_centers d thr = Some (d', n) ->
      diagram_on_grid (grid_size d) (grid_size d) d d') /\
  (forall steps d cfg grid route em d' moved,
      relayout_diagram steps d cfg grid route em = Some (d', moved) ->
      diagram_on_grid grid (grid_size d) d d') /\
  (forall steps st edges grid route em m st',
      layout_sugiyama steps st edges grid route em = Some (m, st') ->
      diagram_on_grid grid (grid_size (fst st)) (fst st) (fst st')) /\
  (forall levels st adj config dir,
      diagram_on_grid (LayoutConfig.grid_size (cfg_of config)) (grid_size (fst st)) (fst st)
        (fst (snd (layout_tree levels st adj config dir)))) /\
  (forall st labels config y,
      diagram_on_grid (LayoutConfig.grid_size (cfg_of config)) (grid_size (fst st)) (fst st)
        (fst (snd (layout_horizontal st labels config y)))) /\
  (forall st labels config x,
      diagram_on_grid (LayoutConfig.grid_size (cfg_of config)) (grid_size (fst st)) (fst st)
        (fst (snd (layout_vertical st labels config x)))) /\
  (forall st labels columns config r,
      layout_grid st labels columns config = Some r ->
      diagram_on_grid (LayoutConfig.grid_size (cfg_of config)) (grid_size (fst st)) (fst st)
        (fst (snd r))) /\
  (forall st ids labels,
      diagram_on_grid (grid_size (fst st)) (grid_size (fst st)) (fst st)
        (fst (snd (connect_chain st ids labels)))).
Proof.
  split; [exact route_on_grid|].
  split; [exact remove_overlaps_on_grid|].
  split; [intros d margin d' n; apply route_written|].
  split; [intros d margin mi d' n; apply resolve_written|].
  split; [intros d margin thr nudge d' n; apply optimize_written|].
  split; [intros d margin d' n; apply compact_written|].
  split; [intros d page pw ph margin d' n; apply center_written|].
  split; [intros d margin d' n; apply ensure_written|].
  split; [intros d thr d' n; apply align_rank_written|].
  split; [intros d thr d' n; apply align_column_written|].
  split; [exact relayout_written|].
  split; [exact sugiyama_written|].
  split; [intros; apply tree_written|].
  split; [intros; apply layout_horizontal_written|].
  split; [intros; apply layout_vertical_written|].
  split; [intros st labels columns config r; apply layout_grid_written|].
  intros; apply connect_chain_written.
Qed.

Lemma engine_writes_on_grid_witness :
  (exists wps, route_orthogonal_astar c2_src c2_tgt [c2_obs] 15 10 = Some wps /\
               points_on_grid 10 wps) /\
  (exists r, resolve_overlaps d_two 5 10 = Some r /\
             diagram_on_grid 10 10 d_two (fst r)) /\
  (exists r, compact_diagram d_two 40 = Some r /\
             diagram_on_grid 10 10 d_two (fst r)) /\
  (exists r, ensure_page_margins d_two 200 = Some r /\
             diagram_on_grid 10 10 d_two (fst r)) /\
  optimize_edge_paths c4_diagram 15 8 10 = Some (c4_after_first, 1%Z) /\
  diagram_on_grid 10 10 c4_diagram c4_after_first.
Proof.
  destruct engine_writes_on_grid
    as [Hr [_ [_ [Hres [Hopt [Hcmp [_ [Hens _]]]]]]]].
  split.
  { destruct (route_orthogonal_astar c2_src c2_tgt [c2_obs] 15 10) as [wps|] eqn:E.
    - exists wps. split; [reflexivity|]. exact (Hr _ _ _ _ _ _ E).
    - vm_compute in E. discriminate E. }
  split.
  { destruct (resolve_overlaps d_two 5 10) as [[d' n]|] eqn:E.
    - exists (d', n). split; [reflexivity|]. exact (Hres _ _ _ _ _ E).
    - vm_compute in E. discriminate E. }
  split.
  { destruct (compact_diagram d_two 40) as [[d' n]|] eqn:E.
    - exists (d', n). split; [reflexivity|]. exact (Hcmp _ _ _ _ E).
    - vm_compute in E. discriminate E. }
  split.
  { destruct (ensure_page_margins d_two 200) as [[d' n]|] eqn:E.
    - exists (d', n). split; [reflexivity|]. exact (Hens _ _ _ _ E).
    - vm_compute in E. discriminate E. }
  split; [vm_compute; reflexivity|].
  apply (Hopt c4_diagram 15 8 10 c4_after_first 1%Z).
  vm_compute; reflexivity.
Defined.

(** * Further properties of the code *)

(** ** X1 *)

(** X1: snapping to a non-zero grid is idempotent: a value already
    snapped to the grid is left where it is (up to equality of rationals). *)
Lemma snap_idempotent v g : g <> 0%Z -> snap_to_grid (snap_to_grid v g) g == snap_to_grid v g.
Proof.
  intros Hg. unfold snap_to_grid at 1 2.
  set (k := py_round (v / inject_Z g)).
  rewrite (py_round_compat _ (inject_Z k)); [rewrite py_round_Z; reflexivity|].
  field. unfold Qeq, inject_Z. simpl. lia.
Qed.

Lemma snap_idempotent_witness :
  snap_to_grid (snap_to_grid (37 # 2) 10) 10 == snap_to_grid (37 # 2) 10.
Proof. apply (snap_idempotent (37 # 2) 10). discriminate. Defined.

(** ** X2 *)

(** X2: on a positive grid, [snap_to_grid] moves a value by at most half
    a grid step. *)
Lemma snap_distance v g : (0 < g)%Z ->
  Qabs (snap_to_grid v g - v) <= inject_Z g / 2.
Proof. exact (snap_error_bound v g). Qed.

Lemma snap_distance_witness :
  Qabs (snap_to_grid (37 # 2) 10 - (37 # 2)) <= inject_Z 10 / 2.
Proof. apply (snap_distance (37 # 2) 10). lia. Defined.

(** ** X3 *)

(** X3: [CellBounds.intersects] is symmetric in its two boxes. *)
Lemma intersects_sym a b m : Bounds.intersects a b m = Bounds.intersects b a m.
Proof. exact (intersects_comm a b m). Qed.

(** ** X4 *)

(** X4: two boxes that intersect with some margin still intersect with
    any larger margin. *)
Lemma intersects_mono a b m m' : m <= m' ->
  Bounds.intersects a b m = true -> Bounds.intersects a b m' = true.
Proof.
  unfold Bounds.intersects. intros Hm.
  rewrite !negb_true_iff, !orb_false_iff. intros [[[H1 H2] H3] H4].
  repeat split; apply not_true_iff_false; intros H; apply Qle_bool_iff in H;
    [apply not_true_iff_false in H1 | apply not_true_iff_false in H2
    | apply not_true_iff_false in H3 | apply not_true_iff_false in H4];
    apply H1 || apply H2 || apply H3 || apply H4; apply Qle_bool_iff; lra.
Qed.

Lemma intersects_mono_witness :
  Bounds.intersects (Bounds.mk 0 0 10 10) (Bounds.mk 12 0 10 10) 10 = true.
Proof. apply (intersects_mono _ _ 5 10); [lra | reflexivity]. Defined.

(** ** X5 *)

(** X5: [_group_by_proximity] either fails on an id that has no bounds (the
    [KeyError]), or splits [sorted_ids] into non-empty consecutive groups
    whose concatenation is [sorted_ids]; within a group each id's key is
    within [threshold] of the previous one, and the first id of a group is
    more than [threshold] from the last id of the group before. *)
Theorem group_by_proximity_partition sorted_ids bounds attr threshold :
  match group_by_proximity sorted_ids bounds attr threshold with
  | Some gs =>
      List.concat gs = sorted_ids /\ Forall (fun g => g <> []) gs /\
      Forall (chain (near attr bounds threshold)) gs /\ chain (apart attr bounds threshold) gs
  | None => Exists (fun cid => assoc cid bounds = None) sorted_ids
  end.
Proof. apply close_groups_partition. Qed.

(** ** X6 *)

(** X6: the same partition property for [_group_into_rows], keyed by the
    top edge [y] of the bounds. *)
Theorem group_into_rows_partition sorted_ids bounds threshold :
  match group_into_rows sorted_ids bounds threshold with
  | Some rows =>
      List.concat rows = sorted_ids /\ Forall (fun r => r <> []) rows /\
      Forall (chain (near Bounds.y bounds threshold)) rows /\ chain (apart Bounds.y bounds threshold) rows
  | None => Exists (fun cid => assoc cid bounds = None) sorted_ids
  end.
Proof. apply close_groups_partition. Qed.

(** ** X7 *)

(** X7: with at least two positions, [distribute_evenly] returns one
    position per size, starts at [start], and leaves the same gap, at least
    10, between the end of each item and the start of the next. *)
Theorem distribute_evenly_spacing positions sizes start end_ :
  (2 <= List.length positions)%nat ->
  let r := distribute_evenly positions sizes start end_ in
  List.length r = List.length sizes /\
  (sizes <> [] -> nth 0 r 0 = start) /\
  exists gap, 10 <= gap /\
    forall i, (S i < List.length sizes)%nat ->
      nth (S i) r 0 - (nth i r 0 + nth i sizes 0) == gap.
Proof.
  intros Hn. cbn zeta. unfold distribute_evenly.
  destruct (Nat.leb (List.length positions) 1) eqn:E; [apply Nat.leb_le in E; lia|].
  cbn zeta. set (g := pymax _ 10).
  split; [apply place_items_length|].
  split; [intros Hs; destruct sizes; [congruence | reflexivity]|].
  exists g. split; [apply pymax_10|]. intros i Hi. apply place_items_gaps, Hi.
Qed.

Lemma distribute_evenly_spacing_witness :
  let r := distribute_evenly [0; 50; 100] [10; 20; 30] 0 200 in
  List.length r = List.length [10; 20; 30] /\
  ([10; 20; 30] <> [] -> nth 0 r 0 = 0) /\
  exists gap, 10 <= gap /\
    forall i, (S i < List.length [10; 20; 30])%nat ->
      nth (S i) r 0 - (nth i r 0 + nth i [10; 20; 30] 0) == gap.
Proof. apply (distribute_evenly_spacing [0; 50; 100] [10; 20; 30] 0 200). cbn. lia. Defined.

(** ** X8 *)

(** X8: when there are as many positions as sizes, at least two, and the
    free space leaves gaps of at least 10, the last item of
    [distribute_evenly] ends exactly at [end]. *)
Theorem distribute_evenly_fills positions sizes start end_ :
  List.length positions = List.length sizes -> (2 <= List.length sizes)%nat ->
  10 * inject_Z (Z.of_nat (List.length sizes) - 1) <= end_ - start - sumQ sizes ->
  last (distribute_evenly positions sizes start end_) 0 + last sizes 0 == end_.
Proof.
  intros Hl Hn Hroom. unfold distribute_evenly. rewrite Hl.
  destruct (Nat.leb (List.length sizes) 1) eqn:E; [apply Nat.leb_le in E; lia|].
  replace (Nat.ltb 1 (List.length sizes)) with true by (symmetry; apply Nat.ltb_lt; lia).
  cbn zeta.
  assert (Hd : 0 < inject_Z (Z.of_nat (List.length sizes) - 1))
    by (unfold Qlt, inject_Z; simpl; lia).
  set (g := (end_ - start - sumQ sizes) / inject_Z (Z.of_nat (List.length sizes) - 1)).
  assert (Hg : 10 <= g).
  { unfold g. apply Qle_shift_div_l; [exact Hd|]. exact Hroom. }
  replace (pymax g 10) with g
    by (unfold pymax; destruct (Qltb g 10) eqn:E2; [apply Qltb_iff in E2; lra | reflexivity]).
  destruct (exists_last (l := sizes)) as [init [s Hs]]; [destruct sizes; simpl in Hn; [lia | discriminate]|].
  subst sizes. rewrite last_last, place_items_last.
  rewrite length_app in *. cbn [List.length] in *.
  replace (Z.of_nat (List.length init + 1) - 1)%Z with (Z.of_nat (List.length init)) in * by lia.
  unfold g. rewrite length_app. cbn [List.length].
  replace (Z.of_nat (List.length init + 1) - 1)%Z with (Z.of_nat (List.length init)) by lia.
  field. intros H. rewrite H in Hd. discriminate.
Qed.

Lemma distribute_evenly_fills_witness :
  last (distribute_evenly [0; 50; 100] [10; 20; 30] 0 200) 0 + last [10; 20; 30] 0 == 200.
Proof.
  apply (distribute_evenly_fills [0; 50; 100] [10; 20; 30] 0 200);
    [reflexivity | cbn; lia | vm_compute; discriminate].
Defined.

(** ** X9 *)

(** X9: in ["auto"] mode, [choose_best_ports] uses the left and right sides
    exactly when the horizontal centre distance is strictly larger than the
    vertical one, and the top and bottom sides otherwise; the 1.5 ratio
    bands give the same choice. *)
Theorem choose_best_ports_auto src tgt :
  let dx := Bounds.cx tgt - Bounds.cx src in
  let dy := Bounds.cy tgt - Bounds.cy src in
  choose_best_ports src tgt "auto" =
    if Qltb (Qabs dy) (Qabs dx) then
      if Qle_bool 0 dx then ((1, 1 # 2), (0, 1 # 2)) else ((0, 1 # 2), (1, 1 # 2))
    else
      if Qle_bool 0 dy then ((1 # 2, 1), (1 # 2, 0)) else ((1 # 2, 0), (1 # 2, 1)).
Proof.
  cbn zeta. unfold choose_best_ports. cbn zeta. rewrite String.eqb_refl.
  set (dx := Bounds.cx tgt - Bounds.cx src). set (dy := Bounds.cy tgt - Bounds.cy src).
  pose proof (Qabs_nonneg dx). pose proof (Qabs_nonneg dy).
  destruct (Qltb (Qabs dy) (Qabs dx)) eqn:E0;
  destruct (Qltb (Qabs dy * (15 # 10)) (Qabs dx)) eqn:E1;
  [ reflexivity | | | ];
  try (destruct (Qltb (Qabs dx * (15 # 10)) (Qabs dy)) eqn:E2);
  try (destruct (Qle_bool (Qabs dx) (Qabs dy)) eqn:E3);
  cbn [String.eqb Ascii.eqb Bool.eqb andb]; try reflexivity; qbool; exfalso; lra.
Qed.

(** ** X10 *)

(** X10: [_determine_side] picks left/right sides only when the horizontal
    centre distance is more than 1.2 times the vertical one; in every other
    case it picks top/bottom, the direction given by the sign of [dy]. *)
Theorem determine_side_threshold src tgt :
  let dx := Bounds.cx tgt - Bounds.cx src in
  let dy := Bounds.cy tgt - Bounds.cy src in
  determine_side src tgt =
    if Qltb (Qabs dy * (12 # 10)) (Qabs dx) then
      if Qle_bool 0 dx then ("right", "left")%string else ("left", "right")%string
    else
      if Qle_bool 0 dy then ("bottom", "top")%string else ("top", "bottom")%string.
Proof.
  cbn zeta. unfold determine_side. cbn zeta.
  destruct (Qltb _ _); [reflexivity|]. destruct (Qltb _ _); reflexivity.
Qed.

(** ** X11 *)

(** X11: for a known side and at least two ports, the ports of indices
    [i < j] both lie on that side of the unit square, at parameters in
    [0.15, 0.85] that increase strictly with the index. *)
Theorem distribute_ports_on_side_spread side count i j :
  known_side side -> (2 <= count)%Z -> (0 <= i < j)%Z -> (j < count)%Z ->
  exists pi pj ti tj,
    distribute_ports_on_side side count i = Some pi /\
    distribute_ports_on_side side count j = Some pj /\
    on_side side pi ti /\ on_side side pj tj /\
    15 # 100 <= ti /\ ti < tj /\ tj <= 85 # 100.
Proof. exact (ports_on_side_spread side count i j). Qed.

Lemma distribute_ports_on_side_spread_witness :
  exists pi pj ti tj,
    distribute_ports_on_side "top" 3 0 = Some pi /\
    distribute_ports_on_side "top" 3 2 = Some pj /\
    on_side "top" pi ti /\ on_side "top" pj tj /\
    15 # 100 <= ti /\ ti < tj /\ tj <= 85 # 100.
Proof.
  apply (distribute_ports_on_side_spread "top" 3 0 2); [left; reflexivity | lia | lia | lia].
Defined.

(** ** X12 *)

(** X12: for a side name other than top, bottom, left and right,
    [_distribute_ports_on_side] fails (the [KeyError] of the base-port
    table) when there is at most one port, and returns the centre
    (0.5, 0.5) otherwise. *)
Theorem distribute_ports_on_side_unknown side count index :
  ~ known_side side ->
  distribute_ports_on_side side count index =
    if Z.leb count 1 then None else Some (1 # 2, 1 # 2).
Proof.
  intros Hs. unfold known_side in Hs. unfold distribute_ports_on_side, side_to_base_port.
  destruct (String.eqb side "top") eqn:E1;
    [apply String.eqb_eq in E1; subst; exfalso; apply Hs; simpl; auto|].
  destruct (String.eqb side "bottom") eqn:E2;
    [apply String.eqb_eq in E2; subst; exfalso; apply Hs; simpl; auto|].
  destruct (String.eqb side "left") eqn:E3;
    [apply String.eqb_eq in E3; subst; exfalso; apply Hs; simpl; auto|].
  destruct (String.eqb side "right") eqn:E4;
    [apply String.eqb_eq in E4; subst; exfalso; apply Hs; simpl; auto|].
  destruct (Z.leb count 1); reflexivity.
Qed.

Lemma distribute_ports_on_side_unknown_witness :
  distribute_ports_on_side "center" 3 1 = if Z.leb 3 1 then None else Some (1 # 2, 1 # 2).
Proof.
  apply (distribute_ports_on_side_unknown "center" 3 1).
  unfold known_side. cbn. intuition discriminate.
Defined.

(** ** X13 *)

(** X13: [distribute_ports_for_batch] never fails and returns one port pair
    per connection; every port lies on a side of the unit square at a
    parameter in [0.15, 0.85]; two different connections with the same
    source never share an exit port, and two with the same target never
    share an entry port. *)
Theorem distribute_ports_for_batch_ports connections bounds :
  match distribute_ports_for_batch connections bounds with
  | None => False
  | Some ps =>
      List.length ps = List.length connections /\
      (forall i p, nth_error ps i = Some p ->
         exists s1 s2 t1 t2, on_side s1 (fst p) t1 /\ on_side s2 (snd p) t2 /\
           15 # 100 <= t1 <= 85 # 100 /\ 15 # 100 <= t2 <= 85 # 100) /\
      (forall i j ci cj pi pj, i <> j ->
         nth_error connections i = Some ci -> nth_error connections j = Some cj ->
         nth_error ps i = Some pi -> nth_error ps j = Some pj ->
         (fst ci = fst cj -> ~ port_eq (fst pi) (fst pj)) /\
         (snd ci = snd cj -> ~ port_eq (snd pi) (snd pj)))
  end.
Proof.
  destruct connections as [|c0 cs].
  { cbn. split; [reflexivity|]. split; intros; destruct i; discriminate. }
  set (connections := c0 :: cs).
  unfold distribute_ports_for_batch.
  change (match connections with [] => Some [] | _ :: _ => ?X end) with X.
  set (d := (EmptyString, EmptyString)).
  set (sides := edge_sides connections bounds).
  destruct (build_groups connections bounds) as [eg ng] eqn:Hb.
  set (EG := sort_groups connections bounds snd eg).
  set (NG := sort_groups connections bounds fst ng).
  set (P := fun i (x : (Q * Q) * (Q * Q)) =>
    port_of EG (fst (nth i connections d)) (fst (nth i sides d)) i = Some (fst x) /\
    port_of NG (snd (nth i connections d)) (snd (nth i sides d)) i = Some (snd x)).
  assert (Known : forall i, (i < List.length connections)%nat ->
    known_side (fst (nth i sides d)) /\ known_side (snd (nth i sides d))).
  { intros i Hi. apply edge_sides_known with (connections := connections) (bounds := bounds).
    apply nth_In. unfold sides. rewrite edge_sides_length. exact Hi. }
  assert (InG : forall i, (i < List.length connections)%nat ->
    In i (group_get (fst (nth i connections d), fst (nth i sides d)) EG) /\
    In i (group_get (snd (nth i connections d), snd (nth i sides d)) NG)).
  { intros i Hi. split.
    - apply (batch_in_group connections bounds snd i row_exit eg Hi).
      pose proof (proj1 (batch_groups connections bounds
        (row_exit (i, (nth i connections d, nth i (edge_sides connections bounds) d))))) as H.
      rewrite Hb in H. exact H.
    - apply (batch_in_group connections bounds fst i row_entry ng Hi).
      pose proof (proj2 (batch_groups connections bounds
        (row_entry (i, (nth i connections d, nth i (edge_sides connections bounds) d))))) as H.
      rewrite Hb in H. exact H. }
  match goal with |- context [fold_right ?st (Some []) ?l] =>
    destruct (fold_right_some st P l) as [ps [Hf HP]] end.
  { intros i Hi. apply in_seq in Hi. destruct Hi as [_ Hi]. cbn [Nat.add] in Hi.
    destruct (Known i Hi) as [K1 K2]. destruct (InG i Hi) as [G1 G2].
    destruct (port_of_some _ _ _ _ K1 G1) as [ep Hep].
    destruct (port_of_some _ _ _ _ K2 G2) as [np Hnp].
    exists (ep, np). split; [split; assumption|].
    intros r. fold d. fold sides.
    destruct (nth i connections d) as [s t], (nth i sides d) as [es ns].
    cbn [fst snd] in Hep, Hnp. rewrite Hep, Hnp. reflexivity. }
  rewrite Hf.
  assert (Hix : forall i p, nth_error ps i = Some p -> (i < List.length connections)%nat /\ P i p).
  { intros i p H. destruct (Forall2_nth_error_r _ _ _ _ _ HP H) as [x [Hx Px]].
    apply nth_error_seq_inv in Hx. destruct Hx as [-> Hi]. split; assumption. }
  split; [|split].
  - apply Forall2_length in HP. rewrite length_seq in HP. symmetry. exact HP.
  - intros i p H. destruct (Hix i p H) as [Hi [P1 P2]].
    destruct (Known i Hi) as [K1 K2].
    destruct (port_of_range _ _ _ _ _ K1 P1) as [t1 [O1 R1]].
    destruct (port_of_range _ _ _ _ _ K2 P2) as [t2 [O2 R2]].
    exists (fst (nth i sides d)), (snd (nth i sides d)), t1, t2. auto.
  - intros i j ci cj pi pj Hij Hci Hcj Hpi Hpj.
    destruct (Hix i pi Hpi) as [Hi [Pi1 Pi2]]. destruct (Hix j pj Hpj) as [Hj [Pj1 Pj2]].
    apply (nth_error_nth _ _ d) in Hci, Hcj. rewrite Hci in Pi1, Pi2. rewrite Hcj in Pj1, Pj2.
    destruct (Known i Hi) as [Ki1 Ki2]. destruct (Known j Hj) as [Kj1 Kj2].
    split; intros Hs.
    + rewrite Hs in Pi1.
      destruct (String.eqb (fst (nth i sides d)) (fst (nth j sides d))) eqn:E.
      * apply String.eqb_eq in E. rewrite E in Pi1.
        exact (port_of_distinct _ _ _ _ _ _ _ Kj1 Hij Pi1 Pj1).
      * apply String.eqb_neq in E.
        destruct (port_of_range _ _ _ _ _ Ki1 Pi1) as [t1 [O1 R1]].
        destruct (port_of_range _ _ _ _ _ Kj1 Pj1) as [t2 [O2 R2]].
        exact (sides_distinct _ _ _ _ _ _ E O1 O2 R1 R2).
    + rewrite Hs in Pi2.
      destruct (String.eqb (snd (nth i sides d)) (snd (nth j sides d))) eqn:E.
      * apply String.eqb_eq in E. rewrite E in Pi2.
        exact (port_of_distinct _ _ _ _ _ _ _ Kj2 Hij Pi2 Pj2).
      * apply String.eqb_neq in E.
        destruct (port_of_range _ _ _ _ _ Ki2 Pi2) as [t1 [O1 R1]].
        destruct (port_of_range _ _ _ _ _ Kj2 Pj2) as [t2 [O2 R2]].
        exact (sides_distinct _ _ _ _ _ _ E O1 O2 R1 R2).
Qed.

(** ** X14 *)

(** X14: [find_overlapping_cells] fails exactly when [get_all_vertex_bounds]
    fails; otherwise every pair it returns has two distinct ids whose bounds
    intersect with the margin, and every such pair of ids is returned, in
    one order or the other. *)
Theorem find_overlapping_cells_spec d margin :
  match get_all_vertex_bounds d, find_overlapping_cells d margin with
  | Some bs, Some ps =>
      (forall a b, In (a, b) ps ->
         a <> b /\ exists ba bb, assoc a bs = Some ba /\ assoc b bs = Some bb /\
                                 Bounds.intersects ba bb margin = true) /\
      (forall a b ba bb, a <> b -> assoc a bs = Some ba -> assoc b bs = Some bb ->
         Bounds.intersects ba bb margin = true -> In (a, b) ps \/ In (b, a) ps)
  | None, None => True
  | _, _ => False
  end.
Proof.
  unfold find_overlapping_cells.
  destruct (get_all_vertex_bounds d) as [bs|] eqn:E; [|exact I].
  split.
  - intros a b H. apply overlap_pairs_sound; [eapply vertex_bounds_NoDup; exact E | exact H].
  - intros. eapply overlap_pairs_complete; eassumption.
Qed.

(** ** X15 *)

(** X15: when [find_overlapping_cells] finds no overlapping pair,
    [resolve_overlaps] leaves the diagram unchanged and reports 0 moves. *)
Theorem no_overlaps_resolve_noop d margin k :
  find_overlapping_cells d margin = Some [] ->
  resolve_overlaps d margin (S k) = Some (d, 0%Z).
Proof.
  unfold find_overlapping_cells, resolve_overlaps. cbn [resolve_loop].
  destruct (get_all_vertex_bounds d) as [bs|]; [|discriminate].
  intros H. injection H as H. rewrite resolve_scan_no_overlap by exact H.
  destruct d. reflexivity.
Qed.

Lemma no_overlaps_resolve_noop_witness :
  let d := mkDiagram [Examples.vtx "2" 100 100; Examples.vtx "4" 600 600]%string 10 in
  find_overlapping_cells d 5 = Some [] /\ resolve_overlaps d 5 50 = Some (d, 0%Z).
Proof.
  cbn zeta. split; [vm_compute; reflexivity|].
  apply no_overlaps_resolve_noop. vm_compute. reflexivity.
Defined.

(** ** X16 *)

(** X16: a new [Diagram] has distinct cell ids, none of the form [str(k)]
    for [k] at or above its [_next_id] counter, and [add_vertex] and
    [add_edge] with a generated id keep this: generated ids never collide. *)
Theorem builder_ids_fresh :
  fresh new_diagram /\
  (forall st value x y w h parent, fresh st ->
     fresh (snd (add_vertex st value x y w h parent None))) /\
  (forall st source target value parent waypoints, fresh st ->
     fresh (snd (add_edge st source target value parent None waypoints))).
Proof.
  split; [exact new_diagram_fresh|]. split.
  - intros st value x y w h parent H.
    pose proof (add_vertex_fresh st value x y w h parent H) as A.
    destruct (add_vertex st value x y w h parent None). apply A.
  - intros st source target value parent waypoints H.
    pose proof (add_edge_fresh st source target value parent waypoints H) as A.
    destruct (add_edge st source target value parent None waypoints). apply A.
Qed.

(** ** X17 *)

(** X17: for a nonzero grid size (at grid size 0 the snapping of [row_y]
    raises [ZeroDivisionError]), [layout_horizontal] appends one vertex per
    label, in order, with fresh generated ids that it returns; each has its
    label as value, an x on the grid, and the snapped row y. *)
Theorem layout_horizontal_spec st labels config y :
  fresh st ->
  (LayoutConfig.grid_size (cfg_of config) <> 0)%Z ->
  let cfg := cfg_of config in
  let row_y := snap_to_grid (match y with Some v => v | None => LayoutConfig.start_y cfg end)
                            (LayoutConfig.grid_size cfg) in
  let '(ids, st') := layout_horizontal st labels config y in
  fresh st' /\
  exists new, cells (fst st') = cells (fst st) ++ new /\ map MxCell.id new = ids /\
    List.length ids = List.length labels /\
    forall i c, nth_error new i = Some c ->
      exists label g, nth_error labels i = Some label /\ MxCell.value c = label /\
        MxCell.vertex c = true /\ MxCell.geometry c = Some g /\
        on_grid (LayoutConfig.grid_size cfg) (Geometry.x g) /\ Geometry.y g = row_y.
Proof.
  intros H _. cbn zeta. unfold layout_horizontal.
  match goal with |- context [place_vertices ?p ?c labels st] =>
    pose proof (place_vertices_spec p c labels st H) as S;
    destruct (place_vertices p c labels st) as [ids st'] end.
  destruct S as (Hf & _ & new & Hc & Hid & Hl & Hn).
  split; [exact Hf|]. exists new. split; [exact Hc|]. split; [exact Hid|]. split; [exact Hl|].
  intros i c Hi. destruct (Hn i c Hi) as [lbl [L E]].
  rewrite E. do 2 eexists. split; [exact L|]. split; [reflexivity|]. split; [reflexivity|].
  split; [reflexivity|]. split; [apply snap_on_grid | reflexivity].
Qed.

Lemma layout_horizontal_spec_witness :
  let cfg := cfg_of None in
  let row_y := snap_to_grid (LayoutConfig.start_y cfg) (LayoutConfig.grid_size cfg) in
  let '(ids, st') := layout_horizontal new_diagram ["A"; "B"; "C"]%string None None in
  fresh st' /\
  exists new, cells (fst st') = cells (fst new_diagram) ++ new /\ map MxCell.id new = ids /\
    List.length ids = List.length ["A"; "B"; "C"]%string /\
    forall i c, nth_error new i = Some c ->
      exists label g, nth_error ["A"; "B"; "C"]%string i = Some label /\ MxCell.value c = label /\
        MxCell.vertex c = true /\ MxCell.geometry c = Some g /\
        on_grid (LayoutConfig.grid_size cfg) (Geometry.x g) /\ Geometry.y g = row_y.
Proof.
  apply (layout_horizontal_spec new_diagram ["A"; "B"; "C"]%string None None);
    [exact new_diagram_fresh | discriminate].
Defined.

(** ** X18 *)

(** X18: for a nonzero grid size (at grid size 0 the snapping of [col_x]
    raises [ZeroDivisionError]), [layout_vertical] appends one vertex per
    label, in order, with fresh generated ids that it returns; each has its
    label as value, the snapped column x, and a y on the grid. *)
Theorem layout_vertical_spec st labels config x :
  fresh st ->
  (LayoutConfig.grid_size (cfg_of config) <> 0)%Z ->
  let cfg := cfg_of config in
  let col_x := snap_to_grid (match x with Some v => v | None => LayoutConfig.start_x cfg end)
                            (LayoutConfig.grid_size cfg) in
  let '(ids, st') := layout_vertical st labels config x in
  fresh st' /\
  exists new, cells (fst st') = cells (fst st) ++ new /\ map MxCell.id new = ids /\
    List.length ids = List.length labels /\
    forall i c, nth_error new i = Some c ->
      exists label g, nth_error labels i = Some label /\ MxCell.value c = label /\
        MxCell.vertex c = true /\ MxCell.geometry c = Some g /\
        Geometry.x g = col_x /\ on_grid (LayoutConfig.grid_size cfg) (Geometry.y g).
Proof.
  intros H _. cbn zeta. unfold layout_vertical.
  match goal with |- context [place_vertices ?p ?c labels st] =>
    pose proof (place_vertices_spec p c labels st H) as S;
    destruct (place_vertices p c labels st) as [ids st'] end.
  destruct S as (Hf & _ & new & Hc & Hid & Hl & Hn).
  split; [exact Hf|]. exists new. split; [exact Hc|]. split; [exact Hid|]. split; [exact Hl|].
  intros i c Hi. destruct (Hn i c Hi) as [lbl [L E]].
  rewrite E. do 2 eexists. split; [exact L|]. split; [reflexivity|]. split; [reflexivity|].
  split; [reflexivity|]. split; [reflexivity | apply snap_on_grid].
Qed.

Lemma layout_vertical_spec_witness :
  let cfg := cfg_of None in
  let col_x := snap_to_grid (LayoutConfig.start_x cfg) (LayoutConfig.grid_size cfg) in
  let '(ids, st') := layout_vertical new_diagram ["A"; "B"; "C"]%string None None in
  fresh st' /\
  exists new, cells (fst st') = cells (fst new_diagram) ++ new /\ map MxCell.id new = ids /\
    List.length ids = List.length ["A"; "B"; "C"]%string /\
    forall i c, nth_error new i = Some c ->
      exists label g, nth_error ["A"; "B"; "C"]%string i = Some label /\ MxCell.value c = label /\
        MxCell.vertex c = true /\ MxCell.geometry c = Some g /\
        Geometry.x g = col_x /\ on_grid (LayoutConfig.grid_size cfg) (Geometry.y g).
Proof.
  apply (layout_vertical_spec new_diagram ["A"; "B"; "C"]%string None None);
    [exact new_diagram_fresh | discriminate].
Defined.

(** ** X19 *)



(** ** X20 *)

(** X20: when the grid is positive, the default sizes are non-negative and
    both spacings are at least one grid step, no two vertices placed by one
    call of [layout_horizontal], [layout_vertical] or [layout_grid]
    intersect. *)
Theorem layouts_apart st labels config :
  let cfg := cfg_of config in
  fresh st -> (0 < LayoutConfig.grid_size cfg)%Z ->
  0 <= LayoutConfig.default_width cfg -> 0 <= LayoutConfig.default_height cfg ->
  inject_Z (LayoutConfig.grid_size cfg) <= LayoutConfig.h_spacing cfg ->
  inject_Z (LayoutConfig.grid_size cfg) <= LayoutConfig.v_spacing cfg ->
  (forall y, placed_apart st (snd (layout_horizontal st labels config y)) (List.length labels)) /\
  (forall x, placed_apart st (snd (layout_vertical st labels config x)) (List.length labels)) /\
  (forall columns, match layout_grid st labels columns config with
                   | Some (_, st') => placed_apart st st' (List.length labels)
                   | None => True
                   end).
Proof.
  cbn zeta. intros Hf Hg Hw Hh Hs Hv.
  set (cfg := cfg_of config) in *.
  split; [|split].
  - intros y. unfold layout_horizontal. fold cfg.
    match goal with |- context [place_vertices ?p ?c labels st] =>
      pose proof (place_vertices_apart p c labels st) as A;
      destruct (place_vertices p c labels st) as [ids st'] end.
    apply A; [|exact Hf]. intros i j Hij _ _. cbn [fst snd].
    destruct (snap_step_apart (LayoutConfig.start_x cfg)
      (LayoutConfig.default_width cfg + LayoutConfig.h_spacing cfg) (LayoutConfig.default_width cfg)
      (LayoutConfig.grid_size cfg) (Z.of_nat i) (Z.of_nat j) Hg Hw ltac:(lra) (Z_of_nat_neq _ _ Hij));
      auto.
  - intros x. unfold layout_vertical. fold cfg.
    match goal with |- context [place_vertices ?p ?c labels st] =>
      pose proof (place_vertices_apart p c labels st) as A;
      destruct (place_vertices p c labels st) as [ids st'] end.
    apply A; [|exact Hf]. intros i j Hij _ _. cbn [fst snd].
    destruct (snap_step_apart (LayoutConfig.start_y cfg)
      (LayoutConfig.default_height cfg + LayoutConfig.v_spacing cfg) (LayoutConfig.default_height cfg)
      (LayoutConfig.grid_size cfg) (Z.of_nat i) (Z.of_nat j) Hg Hh ltac:(lra) (Z_of_nat_neq _ _ Hij));
      auto.
  - intros columns. unfold layout_grid. fold cfg.
    destruct labels as [|l0 ls].
    { exists []. rewrite app_nil_r. split; [reflexivity|]. split; [reflexivity|].
      intros i j ci cj gi gj _ Hi. destruct i; discriminate. }
    destruct (Z.eqb_spec columns 0) as [E|E]; [exact I|].
    match goal with |- context [place_vertices ?p ?c ?lb st] =>
      pose proof (place_vertices_apart p c lb st) as A;
      destruct (place_vertices p c lb st) as [ids st'] end.
    apply A; [|exact Hf]. intros i j Hij _ _. cbn [fst snd].
    destruct (Z.eq_dec (Z.modulo (Z.of_nat i) columns) (Z.modulo (Z.of_nat j) columns)) as [Ec|Ec].
    + assert (Er : Z.div (Z.of_nat i) columns <> Z.div (Z.of_nat j) columns).
      { intros Er. apply Hij.
        pose proof (Z.div_mod (Z.of_nat i) columns E). pose proof (Z.div_mod (Z.of_nat j) columns E).
        lia. }
      destruct (snap_step_apart (LayoutConfig.start_y cfg)
        (LayoutConfig.default_height cfg + LayoutConfig.v_spacing cfg) (LayoutConfig.default_height cfg)
        (LayoutConfig.grid_size cfg) _ _ Hg Hh ltac:(lra) Er); auto.
    + destruct (snap_step_apart (LayoutConfig.start_x cfg)
        (LayoutConfig.default_width cfg + LayoutConfig.h_spacing cfg) (LayoutConfig.default_width cfg)
        (LayoutConfig.grid_size cfg) _ _ Hg Hw ltac:(lra) Ec); auto.
Qed.

Lemma layouts_apart_witness :
  (forall y, placed_apart new_diagram (snd (layout_horizontal new_diagram ["A"; "B"; "C"]%string None y)) 3) /\
  (forall x, placed_apart new_diagram (snd (layout_vertical new_diagram ["A"; "B"; "C"]%string None x)) 3) /\
  (forall columns, match layout_grid new_diagram ["A"; "B"; "C"]%string columns None with
                   | Some (_, st') => placed_apart new_diagram st' 3
                   | None => True
                   end).
Proof.
  apply (layouts_apart new_diagram ["A"; "B"; "C"]%string None);
    [exact new_diagram_fresh | cbn; lia | vm_compute; discriminate | vm_compute; discriminate
    | vm_compute; discriminate | vm_compute; discriminate].
Defined.

(** ** X21 *)

(** X21: [connect_chain] appends one edge per consecutive pair of ids, with
    fresh generated ids that it returns: edge [i] goes from [ids[i]] to
    [ids[i+1]] and carries [labels[i]], or the empty string when there is no
    such label. *)
Theorem connect_chain_spec st ids labels :
  fresh st ->
  let '(edge_ids, st') := connect_chain st ids labels in
  fresh st' /\
  exists new, cells (fst st') = cells (fst st) ++ new /\ map MxCell.id new = edge_ids /\
    List.length edge_ids = (List.length ids - 1)%nat /\
    forall i c, nth_error new i = Some c ->
      exists s t, nth_error ids i = Some s /\ nth_error ids (S i) = Some t /\
        MxCell.edge c = true /\ MxCell.source c = Some s /\ MxCell.target c = Some t /\
        MxCell.value c = match labels with Some l => nth i l EmptyString | None => EmptyString end.
Proof.
  intros H. unfold connect_chain.
  pose proof (connect_chain_gen ids labels (seq 0 (List.length ids - 1)) [] st H) as G.
  destruct (fold_left _ _ _) as [eids st'].
  destruct G as (Hf & neweids & new & -> & Hc & Hid & Hl & Hn).
  split; [exact Hf|]. exists new. split; [exact Hc|]. split; [exact Hid|].
  split; [cbn [app]; rewrite <- Hid, length_map, Hl, length_seq; reflexivity|].
  intros k c Hk. destruct (Hn k c Hk) as [i [g [Hi Ec]]].
  rewrite nth_error_seq in Hi. destruct (Nat.ltb_spec k (List.length ids - 1)); [|discriminate].
  injection Hi as <-.
  exists (nth k ids EmptyString), (nth (S k) ids EmptyString).
  rewrite Ec. unfold chain_edge. cbn [MxCell.edge MxCell.source MxCell.target MxCell.value].
  split; [apply nth_error_nth'; lia|]. split; [apply nth_error_nth'; lia|].
  split; [reflexivity|]. split; [reflexivity|]. split; [reflexivity|]. apply chain_label_nth.
Qed.

Lemma connect_chain_spec_witness :
  let '(edge_ids, st') := connect_chain new_diagram ["a"; "b"; "c"]%string (Some ["x"]%string) in
  fresh st' /\
  exists new, cells (fst st') = cells (fst new_diagram) ++ new /\ map MxCell.id new = edge_ids /\
    List.length edge_ids = (List.length ["a"; "b"; "c"]%string - 1)%nat /\
    forall i c, nth_error new i = Some c ->
      exists s t, nth_error ["a"; "b"; "c"]%string i = Some s /\
        nth_error ["a"; "b"; "c"]%string (S i) = Some t /\
        MxCell.edge c = true /\ MxCell.source c = Some s /\ MxCell.target c = Some t /\
        MxCell.value c = nth i ["x"]%string EmptyString.
Proof. apply (connect_chain_spec new_diagram ["a"; "b"; "c"]%string (Some ["x"]%string)). exact new_diagram_fresh. Defined.

(** ** X22 *)

(** X22: in a diagram with distinct ids, [get_all_vertex_bounds] gives every
    non-relative vertex with a geometry a box of its own width and height;
    its position is its geometry for a top-level cell, and the parent's
    absolute position plus its geometry otherwise (the origin when the
    parent has no bounds). *)
Theorem vertex_bounds_parent d bs c g :
  NoDup (map MxCell.id (cells d)) -> get_all_vertex_bounds d = Some bs ->
  In c (cells d) -> MxCell.vertex c = true -> MxCell.geometry c = Some g ->
  Geometry.relative g = false ->
  exists b, assoc (MxCell.id c) bs = Some b /\
    Bounds.width b = Geometry.width g /\ Bounds.height b = Geometry.height g /\
    if is_root_parent (MxCell.parent c) then Bounds.x b = Geometry.x g /\ Bounds.y b = Geometry.y g
    else match assoc (MxCell.parent c) bs with
         | Some bp => Bounds.x b = Bounds.x bp + Geometry.x g /\ Bounds.y b = Bounds.y bp + Geometry.y g
         | None => Bounds.x b = 0 + Geometry.x g /\ Bounds.y b = 0 + Geometry.y g
         end.
Proof. exact (vertex_bounds_abs d bs c g). Qed.

Lemma vertex_bounds_parent_witness :
  let child_geo := Geometry.mk 10 20 50 30 false [] in
  let child := MxCell.mk "c" EmptyString "g" true false None None (Some child_geo) in
  let d := mkDiagram
    [MxCell.mk "g" EmptyString "1" true false None None (Some (Geometry.mk 100 100 200 200 false []));
     child]%string 10 in
  let bs := match get_all_vertex_bounds d with Some bs => bs | None => [] end in
  exists b, assoc (MxCell.id child) bs = Some b /\
    Bounds.width b = Geometry.width child_geo /\ Bounds.height b = Geometry.height child_geo /\
    if is_root_parent (MxCell.parent child) then
      Bounds.x b = Geometry.x child_geo /\ Bounds.y b = Geometry.y child_geo
    else match assoc (MxCell.parent child) bs with
         | Some bp => Bounds.x b = Bounds.x bp + Geometry.x child_geo /\
                      Bounds.y b = Bounds.y bp + Geometry.y child_geo
         | None => Bounds.x b = 0 + Geometry.x child_geo /\ Bounds.y b = 0 + Geometry.y child_geo
         end.
Proof.
  intros child_geo child d bs.
  apply (vertex_bounds_parent d bs child child_geo).
  - cbn. repeat constructor; cbn; intuition discriminate.
  - vm_compute. reflexivity.
  - right. left. reflexivity.
  - reflexivity.
  - reflexivity.
  - reflexivity.
Defined.

(** ** X23 *)

(** X23: for a diagram whose cell ids are distinct and whose grid size is
    positive (at grid size 0 the snapping in the moving branch raises
    [ZeroDivisionError]), [ensure_page_margins] fails only when
    [get_all_vertex_bounds] fails, and keeps the grid and the cell ids. Either it changes nothing,
    and every top-level vertex is within 1 of the margin or beyond it on
    both axes; or it moves exactly the top-level vertices other than "0" and
    "1", reports their number, leaves every other cell as it was, and puts
    each moved vertex at least [margin - grid/2] from the origin on both
    axes. *)
Theorem ensure_page_margins_spec d margin :
  NoDup (map MxCell.id (cells d)) -> (0 < grid_size d)%Z ->
  match ensure_page_margins d margin with
  | None => get_all_vertex_bounds d = None
  | Some (d', moved) =>
      get_all_vertex_bounds d <> None /\
      grid_size d' = grid_size d /\
      map MxCell.id (cells d') = map MxCell.id (cells d) /\
      ((d' = d /\ moved = 0%Z /\
        forall c g, In c (cells d) -> is_top_level c = true -> MxCell.geometry c = Some g ->
          margin - 1 < Geometry.x g /\ margin - 1 < Geometry.y g)
       \/
       (moved = Z.of_nat (List.length (filter movable (cells d))) /\
        Forall2 (fun c c' => movable c = false -> c' = c) (cells d) (cells d') /\
        forall c g, In c (cells d') -> movable c = true -> MxCell.geometry c = Some g ->
          margin - inject_Z (grid_size d) / 2 <= Geometry.x g /\
          margin - inject_Z (grid_size d) / 2 <= Geometry.y g))
  end.
Proof.
  intros Hnd Hg. unfold ensure_page_margins.
  destruct (get_all_vertex_bounds d) as [bs|] eqn:Hb; [|reflexivity].
  assert (Hno : forall c g, In c (cells d) -> is_top_level c = true -> MxCell.geometry c = Some g ->
            filter (fun '(cid, _) => in_top_level (cells d) cid) bs <> []).
  { intros c g Hin Ht Hgc Hf. destruct (top_level_in_tl d bs c g Hnd Hb Hin Ht Hgc) as [b [Hi _]].
    rewrite Hf in Hi. exact Hi. }
  destruct bs as [|e bs'] eqn:Hbs.
  { split; [discriminate|]. split; [reflexivity|]. split; [reflexivity|]. left.
    split; [reflexivity|]. split; [reflexivity|].
    intros c g Hin Ht Hgc. exfalso. exact (Hno c g Hin Ht Hgc eq_refl). }
  rewrite <- Hbs in *.
  destruct (filter (fun '(cid, _) => in_top_level (cells d) cid) bs) as [|[cid b0] tl] eqn:Hf.
  { split; [discriminate|]. split; [reflexivity|]. split; [reflexivity|]. left.
    split; [reflexivity|]. split; [reflexivity|].
    intros c g Hin Ht Hgc. exfalso. exact (Hno c g Hin Ht Hgc eq_refl). }
  clear Hno.
  set (min_x := list_min (Bounds.x b0) (map (fun '(_, b) => Bounds.x b) tl)).
  set (min_y := list_min (Bounds.y b0) (map (fun '(_, b) => Bounds.y b) tl)).
  pose proof (pymax_0_ge (margin - min_x)) as Hmx.
  pose proof (pymax_0_ge (margin - min_y)) as Hmy.
  destruct (Qltb (pymax 0 (margin - min_x)) 1 && Qltb (pymax 0 (margin - min_y)) 1) eqn:Hs.
  - apply andb_true_iff in Hs. destruct Hs as [Hsx Hsy].
    apply Qltb_iff in Hsx. apply Qltb_iff in Hsy.
    split; [discriminate|]. split; [reflexivity|]. split; [reflexivity|]. left.
    split; [reflexivity|]. split; [reflexivity|].
    intros c g Hin Ht Hgc. destruct (tl_min_bound d bs c g cid b0 tl Hnd Hb Hf Hin Ht Hgc) as [Hx Hy].
    fold min_x in Hx. fold min_y in Hy. split; lra.
  - pose proof (shift_cells_fst (grid_size d) (pymax 0 (margin - min_x)) (pymax 0 (margin - min_y)) (cells d)) as Hfst.
    pose proof (shift_cells_snd (grid_size d) (pymax 0 (margin - min_x)) (pymax 0 (margin - min_y)) (cells d)) as Hsnd.
    destruct (shift_cells (grid_size d) (pymax 0 (margin - min_x)) (pymax 0 (margin - min_y)) (cells d))
      as [cs' moved] eqn:Hsc.
    cbn in Hfst, Hsnd. cbn [cells grid_size set_cells].
    split; [discriminate|]. split; [reflexivity|].
    split.
    { rewrite Hfst, map_map. apply map_ext. intros c. apply shift_cell_id. }
    right. split; [exact Hsnd|]. split.
    { rewrite Hfst. clear. induction (cells d) as [|c cs IH]; cbn; constructor; [|exact IH].
      apply (shift_cell_spec _ _ _ c). }
    intros c' g' Hin Hm Hgc'. rewrite Hfst in Hin. apply in_map_iff in Hin.
    destruct Hin as [c [<- Hin]]. rewrite shift_cell_movable in Hm.
    destruct (top_level_geometry c (movable_top c Hm)) as [g Hgc].
    destruct (shift_cell_spec (grid_size d) (pymax 0 (margin - min_x)) (pymax 0 (margin - min_y)) c)
      as [_ [_ [_ Hgeo]]].
    rewrite (Hgeo Hm g Hgc) in Hgc'. injection Hgc' as <-. cbn.
    destruct (tl_min_bound d bs c g cid b0 tl Hnd Hb Hf Hin (movable_top c Hm) Hgc) as [Hx Hy].
    fold min_x in Hx. fold min_y in Hy.
    pose proof (snap_lower (Geometry.x g + pymax 0 (margin - min_x)) (grid_size d) Hg).
    pose proof (snap_lower (Geometry.y g + pymax 0 (margin - min_y)) (grid_size d) Hg).
    split; lra.
Qed.

Lemma ensure_page_margins_spec_witness :
  let d := mkDiagram
    [MxCell.mk "0" EmptyString EmptyString false false None None None;
     MxCell.mk "1" EmptyString "0" false false None None None;
     vtx "2" 10 10; vtx "3" 200 15]%string 10 in
  match ensure_page_margins d 40 with
  | None => get_all_vertex_bounds d = None
  | Some (d', moved) =>
      get_all_vertex_bounds d <> None /\
      grid_size d' = grid_size d /\
      map MxCell.id (cells d') = map MxCell.id (cells d) /\
      ((d' = d /\ moved = 0%Z /\
        forall c g, In c (cells d) -> is_top_level c = true -> MxCell.geometry c = Some g ->
          40 - 1 < Geometry.x g /\ 40 - 1 < Geometry.y g)
       \/
       (moved = Z.of_nat (List.length (filter movable (cells d))) /\
        Forall2 (fun c c' => movable c = false -> c' = c) (cells d) (cells d') /\
        forall c g, In c (cells d') -> movable c = true -> MxCell.geometry c = Some g ->
          40 - inject_Z (grid_size d) / 2 <= Geometry.x g /\
          40 - inject_Z (grid_size d) / 2 <= Geometry.y g))
  end.
Proof.
  intros d. apply (ensure_page_margins_spec d 40).
  - cbn. repeat constructor; cbn; intuition discriminate.
  - cbn. lia.
Defined.

(** ** X24 *)

(** X24: when adjacent candidate lines (sorted x values and sorted y
    values) are more than 0.5 apart, every two consecutive waypoints
    returned by [_route_orthogonal_astar] share their x or their y: the
    segment between them is horizontal or vertical. *)
Theorem route_waypoints_axis_aligned (src tgt : Bounds.t) (obstacles : list Bounds.t)
    (margin : Q) (grid_snap : Z) (wps : list Point.t) :
  lines_apart (candidate_xs src tgt obstacles margin grid_snap) = true ->
  lines_apart (candidate_ys src tgt obstacles margin grid_snap) = true ->
  route_orthogonal_astar src tgt obstacles margin grid_snap = Some wps ->
  forall k p q, nth_error wps k = Some p -> nth_error wps (S k) = Some q ->
  Point.x p = Point.x q \/ Point.y p = Point.y q.
Proof.
  intros Hx Hy Hr. apply chain_nth.
  destruct (route_astar_shape src tgt obstacles margin grid_snap wps Hr)
    as [->|[->|[nodes [Hw Hm]]]].
  - exact I.
  - unfold fallback_route. split; [right; reflexivity | exact I].
  - rewrite Hw. apply chain_map_snap.
    pose proof (path_axis_steps _ _ obstacles margin nodes Hx Hy Hm) as Hc.
    destruct (rev (map (coord _ _) nodes)) as [|p [|c rest]]; [exact I | exact I |].
    rewrite simplify_path_kept. exact (proj1 (kept_chain rest p c Hc)).
Qed.

Lemma route_waypoints_axis_aligned_witness :
  lines_apart (candidate_xs c2_src c2_tgt [c2_obs] 15 10) = true /\
  lines_apart (candidate_ys c2_src c2_tgt [c2_obs] 15 10) = true /\
  route_orthogonal_astar c2_src c2_tgt [c2_obs] 15 10
  = Some [Point.mk 160 100; Point.mk 160 50; Point.mk 420 50] /\
  (Point.x (Point.mk 160 100) = Point.x (Point.mk 160 50)
   \/ Point.y (Point.mk 160 100) = Point.y (Point.mk 160 50)).
Proof.
  assert (Hx : lines_apart (candidate_xs c2_src c2_tgt [c2_obs] 15 10) = true)
    by (vm_compute; reflexivity).
  assert (Hy : lines_apart (candidate_ys c2_src c2_tgt [c2_obs] 15 10) = true)
    by (vm_compute; reflexivity).
  assert (Hr : route_orthogonal_astar c2_src c2_tgt [c2_obs] 15 10
               = Some [Point.mk 160 100; Point.mk 160 50; Point.mk 420 50])
    by (vm_compute; reflexivity).
  split; [exact Hx|]. split; [exact Hy|]. split; [exact Hr|].
  exact (route_waypoints_axis_aligned c2_src c2_tgt [c2_obs] 15 10 _ Hx Hy Hr
           0%nat _ _ eq_refl eq_refl).
Defined.
